(** * The stats pipeline of the GitHub leaderboard (src/utils/github.js)

    A shallow embedding of the cache, the collector, the aggregator and the
    orchestrator, followed by the properties proved about them. *)

From Stdlib Require Import ZArith List String Ascii Lia Bool Floats Uint63 Sorting.Sorted.
From stdpp Require Import base option list gmap strings pretty.
From iris.proofmode Require Import proofmode.
From iris.base_logic.lib Require Import gen_heap.

Unset SsrRewrite.

Local Open Scope Z_scope.

(* ===================================================================== *)
(** * Part I. Definitions                                                  *)
(* ===================================================================== *)

(** ** JavaScript values *)

(** A date as the pipeline sees it: a property that is missing, [null], a
    string [Date] cannot parse, or an ISO string denoting [ms] milliseconds
    since the epoch. *)
Inductive DateStr : Type :=
  | Undefined
  | Null
  | Garbage
  | Iso (ms : Z).

#[global] Instance DateStr_eq_dec : EqDecision DateStr.
Proof. solve_decision. Defined.

(** [d ? .. : ..] on a date property. *)
Definition truthyDate (d : DateStr) : bool :=
  match d with
  | Undefined | Null => false
  | Garbage | Iso _ => true
  end.

(** [a || b]. *)
Definition orDate (a b : DateStr) : DateStr :=
  if truthyDate a then a else b.

(** [new Date(d).getTime()]; [None] is NaN. *)
Definition getTime (d : DateStr) : option Z :=
  match d with
  | Undefined | Garbage => None
  | Null => Some 0
  | Iso ms => Some ms
  end.

(** Truthiness of an optional string: missing and empty are falsy. *)
Definition truthyStr (s : option string) : option string :=
  match s with
  | Some s' => if decide (s' = EmptyString) then None else Some s'
  | None => None
  end.

(** [x < y] where [x] may be NaN. *)
Definition ltNum (x : option Z) (y : Z) : bool :=
  match x with
  | Some x' => x' <? y
  | None => false
  end.

(** [x >= y] where either side may be NaN. *)
Definition geNum (x y : option Z) : bool :=
  match x, y with
  | Some x', Some y' => y' <=? x'
  | _, _ => false
  end.

(** [Math.floor(x / 1000)]. *)
Definition floorSeconds (x : option Z) : option Z :=
  (fun ms => ms / 1000) <$> x.

(** *** Local calendar arithmetic

    [Date]'s local-time methods. A time zone gives the offset of local
    time from UTC in milliseconds: [offsetAt t] is the offset in force at
    the instant [t] (LocalTZA(t, true) of ECMAScript), [offsetOf tl] the
    offset chosen for the local time [tl] (LocalTZA(tl, false)). The two
    are different functions around a daylight-saving change. *)
Definition msPerDay : Z := 24 * 60 * 60 * 1000.

Record TimeZone : Type := mkTimeZone {
  offsetAt : Z → Z;
  offsetOf : Z → Z;
}.

Definition tzMs (tzMinutes : Z) : Z := tzMinutes * 60 * 1000.

(** A zone that stays [tzMinutes] minutes ahead of UTC. *)
Definition fixedZone (tzMinutes : Z) : TimeZone :=
  {| offsetAt := fun _ => tzMs tzMinutes; offsetOf := fun _ => tzMs tzMinutes |}.

Definition utcZone : TimeZone := fixedZone 0.

Section LocalTime.
Variable zone : TimeZone.

(** LocalTime(t) and UTC(t) of ECMAScript. *)
Definition localTime (t : Z) : Z := t + offsetAt zone t.
Definition utcTime (tl : Z) : Z := tl - offsetOf zone tl.

(** [d.setHours(0, 0, 0, 0)]: midnight of the local day of [t]. *)
Definition setHours0 (t : Z) : Z := utcTime (localTime t / msPerDay * msPerDay).

(** [d.getDay()]: 0 is Sunday; 1 January 1970 was a Thursday. *)
Definition getDay (t : Z) : Z := (localTime t / msPerDay + 4) mod 7.

(** [d.setDate(d.getDate() - n)]: the same local time of day, [n] local
    days earlier. *)
Definition setDateBack (t n : Z) : Z := utcTime (localTime t - n * msPerDay).

(** The statements every bucketing site repeats:
    [w.setHours(0,0,0,0); w.setDate(w.getDate() - w.getDay())]. *)
Definition weekStartMs (t : Z) : Z :=
  let w := setHours0 t in
  setDateBack w (getDay w).

(** [Math.floor(w.getTime() / 1000)] of that week start; NaN stays NaN. *)
Definition weekTsOf (t : option Z) : option Z :=
  (fun ms => weekStartMs ms / 1000) <$> t.
End LocalTime.

(** *** Objects used as maps

    Own properties in insertion order; enumeration lists array-index keys
    first, in ascending order, then the others in insertion order. The
    operations of this section see own properties only. Week timestamps
    and commit hashes never name a property that every object inherits;
    a login can ([constructor], [toString]), and where the source then
    finds the inherited property the embedding says so: [inherited]
    guards those accesses in [aggregateStatsJS], [tallyCommit] and
    [recordReviews]. *)
Section JsObject.
Context {K V : Type} `{EqDecision K}.

Fixpoint obj_get (k : K) (o : list (K * V)) : option V :=
  match o with
  | [] => None
  | (k', v) :: o' => if decide (k' = k) then Some v else obj_get k o'
  end.

Fixpoint obj_alter (f : V → V) (k : K) (o : list (K * V)) : list (K * V) :=
  match o with
  | [] => []
  | (k', v) :: o' =>
      if decide (k' = k) then (k', f v) :: o' else (k', v) :: obj_alter f k o'
  end.

(** [if (!o[k]) o[k] = v] for object-valued properties. *)
Definition obj_ensure (k : K) (v : V) (o : list (K * V)) : list (K * V) :=
  match obj_get k o with
  | Some _ => o
  | None => o ++ [(k, v)]
  end.

(** [o[k] = v] *)
Definition obj_set (k : K) (v : V) (o : list (K * V)) : list (K * V) :=
  match obj_get k o with
  | Some _ => obj_alter (fun _ => v) k o
  | None => o ++ [(k, v)]
  end.
End JsObject.

(** The property names every object inherits from [Object.prototype]. For
    such a key [o[k]] finds a truthy value (a function, or the prototype
    itself for [__proto__]) even though [o], an object literal that the
    code fills under [if (!o[k])], never gets an own property of that
    name. *)
Definition inheritedNames : list string :=
  [ "constructor"; "hasOwnProperty"; "isPrototypeOf"; "propertyIsEnumerable";
    "toLocaleString"; "toString"; "valueOf"; "__proto__";
    "__defineGetter__"; "__defineSetter__"; "__lookupGetter__";
    "__lookupSetter__" ]%string.

Definition inherited (k : string) : bool := bool_decide (k ∈ inheritedNames).

(** The message of the [TypeError] that reading a property of [undefined]
    throws. *)
Definition readingUndefined (property : string) : string :=
  "Cannot read properties of undefined (reading '" +:+ property +:+ "')".

(** A number used as a property key, as a string. *)
Definition keyOfNum (k : option Z) : string :=
  match k with
  | Some z => pretty z
  | None => "NaN"
  end.

(** [Array.prototype.sort(cmp)]: stable; a NaN comparison counts as 0. With
    a comparator that returns NaN for some pairs the order the engine
    produces is implementation-defined; this is one such order. *)
Section JsSort.
Context {A : Type} (cmp : A → A → option Z).

Definition comesAfter (x y : A) : bool :=
  match cmp x y with
  | Some c => 0 <? c
  | None => false
  end.

Fixpoint sort_insert (x : A) (l : list A) : list A :=
  match l with
  | [] => [x]
  | y :: l' => if comesAfter x y then y :: sort_insert x l' else x :: y :: l'
  end.

Fixpoint js_sort (l : list A) : list A :=
  match l with
  | [] => []
  | x :: l' => sort_insert x (js_sort l')
  end.
End JsSort.

(** [a - b] on numbers that may be NaN. *)
Definition subNum (a b : option Z) : option Z :=
  match a, b with
  | Some x, Some y => Some (x - y)
  | _, _ => None
  end.

(** Whether a number used as a property key is an array index. *)
Definition numIndex (k : option Z) : option Z :=
  match k with
  | Some z => if (0 <=? z) && (z <? 4294967295) then Some z else None
  | None => None
  end.

Definition digitOf (c : ascii) : option Z :=
  let n := Z.of_nat (nat_of_ascii c) in
  if (48 <=? n) && (n <=? 57) then Some (n - 48) else None.

Fixpoint digitsValue (acc : Z) (s : string) : option Z :=
  match s with
  | EmptyString => Some acc
  | String c s' =>
      match digitOf c with
      | Some d => digitsValue (acc * 10 + d) s'
      | None => None
      end
  end.

(** Whether a string key is a canonical array index. *)
Definition strIndex (s : string) : option Z :=
  match s with
  | EmptyString => None
  | String c s' =>
      if bool_decide (c = "0"%char) && negb (bool_decide (s' = EmptyString)) then None
      else match digitsValue 0 s with
           | Some z => if z <? 4294967295 then Some z else None
           | None => None
           end
  end.

(** [Object.entries(o)] *)
Definition obj_entries {K V : Type} (idx : K → option Z) (o : list (K * V))
  : list (K * V) :=
  js_sort (fun a b => subNum (idx a.1) (idx b.1))
          (filter (fun p => is_Some (idx p.1)) o)
  ++ filter (fun p => ¬ is_Some (idx p.1)) o.

(** ** Data model of the aggregator *)

(** A commit as [fetchCommits] stores it. *)
Record Commit : Type := mkCommit {
  c_sha : string;
  c_user : option string;
  c_avatar_url : option string;
  c_message : string;
  c_date : DateStr;
  c_url : option string;
}.

(** A pull request as [fetchPullRequests] stores it; the last four fields
    are present only on enriched (merged) pull requests. *)
Record PullRequest : Type := mkPullRequest {
  pr_number : Z;
  pr_user : option string;
  pr_avatar_url : option string;
  pr_created_at : DateStr;
  pr_merged_at : DateStr;
  pr_state : string;
  pr_title : option string;
  pr_url : option string;
  pr_additions : option Z;
  pr_deletions : option Z;
  pr_commits : option Z;
  pr_changed_files : option Z;
}.

(** A reviewed pull request, [{ number, title, url }]. *)
Record PrInfo : Type := mkPrInfo {
  pi_number : Z;
  pi_title : string;
  pi_url : option string;
}.

(** A value of the review map: the old format (a bare count) or
    [{ count, submitted_at, prs }]. *)
Inductive ReviewInfo : Type :=
  | ReviewCount (count : Z)
  | ReviewObj (count : Z) (submitted_at : list DateStr) (prs : list PrInfo).

(** One element of [repoDataArray]. A property that is not an array (or not
    an object, for [reviews]) is skipped by the source and is the empty
    list here. *)
Record RepoData : Type := mkRepoData {
  rd_repoName : string;
  rd_commits : list Commit;
  rd_prs : list PullRequest;
  rd_reviews : list (string * ReviewInfo);
}.

(** A weekly bucket, [{ additions, deletions, commits, pullRequests, reviews }]. *)
Record Bucket : Type := mkBucket {
  b_additions : Z;
  b_deletions : Z;
  b_commits : Z;
  b_pullRequests : Z;
  b_reviews : Z;
}.

(** An element of the emitted [weeklyData] array, [{ week, ...bucket }]. *)
Record Week : Type := mkWeek {
  week : option Z;
  w_data : Bucket;
}.

Record CommitItem : Type := mkCommitItem {
  ci_sha : string;
  ci_message : string;
  ci_url : option string;
  ci_date : DateStr;
  ci_repo : string;
}.

Record PrItem : Type := mkPrItem {
  pri_number : Z;
  pri_title : string;
  pri_url : option string;
  pri_state : string;
  pri_merged : bool;
  pri_date : DateStr;
  pri_repo : string;
}.

Record ReviewItem : Type := mkReviewItem {
  ri_info : PrInfo;
  ri_repo : string;
}.

(** A value of [userMap]. *)
Record UserEntry : Type := mkUserEntry {
  e_user : string;
  e_avatarUrl : option string;
  e_additions : Z;
  e_deletions : Z;
  e_commits : Z;
  e_pullRequests : Z;
  e_reviews : Z;
  e_reposContributed : list string;
  e_weeklyData : list (option Z * Bucket);
  e_prsList : list PrItem;
  e_reviewsList : list ReviewItem;
  e_commitsList : list CommitItem;
}.

(** An element of the list [aggregateStats] returns. *)
Record ContributorStat : Type := mkContributorStat {
  user : string;
  avatarUrl : option string;
  additions : Z;
  deletions : Z;
  net : Z;
  commits : Z;
  pullRequests : Z;
  reviews : Z;
  reposCount : Z;
  weeklyData : list Week;
  prsList : list PrItem;
  reviewsList : list ReviewItem;
  commitsList : list CommitItem;
}.

#[global] Instance PrInfo_eq_dec : EqDecision PrInfo.
Proof. solve_decision. Defined.
#[global] Instance Bucket_eq_dec : EqDecision Bucket.
Proof. solve_decision. Defined.
#[global] Instance Week_eq_dec : EqDecision Week.
Proof. solve_decision. Defined.
#[global] Instance CommitItem_eq_dec : EqDecision CommitItem.
Proof. solve_decision. Defined.
#[global] Instance PrItem_eq_dec : EqDecision PrItem.
Proof. solve_decision. Defined.
#[global] Instance ReviewItem_eq_dec : EqDecision ReviewItem.
Proof. solve_decision. Defined.

(** ** aggregateStats

    The steps of this section are the statements of the function for a
    login under which [userMap] gets an own property, which is every login
    but the few names an object inherits. [aggregateStatsJS], further
    down, is the function as it is called: the same steps, and the throw
    where a login is such a name. *)

(** The object literal assigned to [userMap[user]]. *)
Definition newEntry (u : string) (avatar : option string) : UserEntry :=
  {| e_user := u; e_avatarUrl := avatar;
     e_additions := 0; e_deletions := 0; e_commits := 0;
     e_pullRequests := 0; e_reviews := 0;
     e_reposContributed := []; e_weeklyData := [];
     e_prsList := []; e_reviewsList := []; e_commitsList := [] |}.

Definition zeroBucket : Bucket := mkBucket 0 0 0 0 0.

(** [reposContributed.add(repoName)] *)
Definition setAdd (x : string) (s : list string) : list string :=
  if bool_decide (x ∈ s) then s else s ++ [x].

(** [if (!weeklyData[weekTs]) weeklyData[weekTs] = {0,..}] followed by an
    update of that bucket. *)
Definition bumpWeek (f : Bucket → Bucket) (weekTs : option Z)
    (wd : list (option Z * Bucket)) : list (option Z * Bucket) :=
  obj_alter f weekTs (obj_ensure weekTs zeroBucket wd).

Definition addCommit (b : Bucket) : Bucket :=
  mkBucket (b_additions b) (b_deletions b) (b_commits b + 1)
           (b_pullRequests b) (b_reviews b).

Definition addPullRequest (b : Bucket) : Bucket :=
  mkBucket (b_additions b) (b_deletions b) (b_commits b)
           (b_pullRequests b + 1) (b_reviews b).

Definition addReview (b : Bucket) : Bucket :=
  mkBucket (b_additions b) (b_deletions b) (b_commits b)
           (b_pullRequests b) (b_reviews b + 1).

Definition addLines (a d : Z) (b : Bucket) : Bucket :=
  mkBucket (b_additions b + a) (b_deletions b + d) (b_commits b)
           (b_pullRequests b) (b_reviews b).

(** [daysFilter ? .. : ..]: [null] and 0 are falsy. *)
Definition truthyDays (daysFilter : option Z) : bool :=
  match daysFilter with
  | Some d => negb (d =? 0)
  | None => false
  end.

(** [Date.now() - daysFilter * 24 * 60 * 60 * 1000] *)
Definition cutoffMs (now : Z) (daysFilter : option Z) : Z :=
  now - default 0 daysFilter * 24 * 60 * 60 * 1000.

Definition cutoffTimestamp (now : Z) (daysFilter : option Z) : Z :=
  if truthyDays daysFilter then cutoffMs now daysFilter / 1000 else 0.

(** [x || 0] on an optional number. *)
Definition orZero (x : option Z) : Z := default 0 x.

Definition prTitle (title : option string) (number : Z) : string :=
  match truthyStr title with
  | Some t => t
  | None => ("PR #" +:+ pretty number)%string
  end.

(** The object literal pushed on [commitsList]. *)
Definition commitItemOf (repoName : string) (commit : Commit) : CommitItem :=
  {| ci_sha := substring 0 7 (c_sha commit);
     ci_message := c_message commit;
     ci_url := c_url commit;
     ci_date := c_date commit;
     ci_repo := repoName |}.

(** The updates of one [userMap[user]] the three loops perform. *)
Definition entryAddCommit (repoName : string) (commit : Commit)
    (weekTs : option Z) (e : UserEntry) : UserEntry :=
  {| e_user := e_user e; e_avatarUrl := e_avatarUrl e;
     e_additions := e_additions e; e_deletions := e_deletions e;
     e_commits := e_commits e + 1;
     e_pullRequests := e_pullRequests e; e_reviews := e_reviews e;
     e_reposContributed := setAdd repoName (e_reposContributed e);
     e_weeklyData := bumpWeek addCommit weekTs (e_weeklyData e);
     e_prsList := e_prsList e; e_reviewsList := e_reviewsList e;
     e_commitsList :=
       if (length (e_commitsList e) <? 20)%nat
       then e_commitsList e ++ [commitItemOf repoName commit]
       else e_commitsList e |}.

(** [pr.merged_at && pr.additions !== undefined] *)
Definition hasLineStats (pr : PullRequest) : bool :=
  truthyDate (pr_merged_at pr) && bool_decide (is_Some (pr_additions pr)).

Definition prItemOf (repoName : string) (pr : PullRequest) : PrItem :=
  {| pri_number := pr_number pr;
     pri_title := prTitle (pr_title pr) (pr_number pr);
     pri_url := pr_url pr;
     pri_state := pr_state pr;
     pri_merged := truthyDate (pr_merged_at pr);
     pri_date := orDate (pr_merged_at pr) (pr_created_at pr);
     pri_repo := repoName |}.

Definition entryAddPr (repoName : string) (pr : PullRequest)
    (weekTs : option Z) (e : UserEntry) : UserEntry :=
  let a := if hasLineStats pr then orZero (pr_additions pr) else 0 in
  let d := if hasLineStats pr then orZero (pr_deletions pr) else 0 in
  {| e_user := e_user e; e_avatarUrl := e_avatarUrl e;
     e_additions := e_additions e + a;
     e_deletions := e_deletions e + d;
     e_commits := e_commits e;
     e_pullRequests := e_pullRequests e + 1;
     e_reviews := e_reviews e;
     e_reposContributed := setAdd repoName (e_reposContributed e);
     e_weeklyData :=
       (if hasLineStats pr then bumpWeek (addLines a d) weekTs else id)
         (bumpWeek addPullRequest weekTs (e_weeklyData e));
     e_prsList :=
       if (length (e_prsList e) <? 20)%nat
       then e_prsList e ++ [prItemOf repoName pr]
       else e_prsList e;
     e_reviewsList := e_reviewsList e;
     e_commitsList := e_commitsList e |}.

(** The body of [reviewedPRs.forEach]. *)
Definition entryAddReviewed (repoName : string) (e : UserEntry)
    (prInfo : PrInfo) : UserEntry :=
  {| e_user := e_user e; e_avatarUrl := e_avatarUrl e;
     e_additions := e_additions e; e_deletions := e_deletions e;
     e_commits := e_commits e; e_pullRequests := e_pullRequests e;
     e_reviews := e_reviews e;
     e_reposContributed := e_reposContributed e;
     e_weeklyData := e_weeklyData e;
     e_prsList := e_prsList e;
     e_reviewsList :=
       if (length (e_reviewsList e) <? 20)%nat
          && negb (existsb (fun p => bool_decide (pi_number (ri_info p) = pi_number prInfo)
                                     && bool_decide (ri_repo p = repoName))
                           (e_reviewsList e))
       then e_reviewsList e ++ [ {| ri_info := prInfo; ri_repo := repoName |} ]
       else e_reviewsList e;
     e_commitsList := e_commitsList e |}.

(** [userMap[user].reviews += n] with an optional weekly attribution. *)
Definition entryAddReviews (n : Z) (weekTs : option (option Z))
    (e : UserEntry) : UserEntry :=
  {| e_user := e_user e; e_avatarUrl := e_avatarUrl e;
     e_additions := e_additions e; e_deletions := e_deletions e;
     e_commits := e_commits e; e_pullRequests := e_pullRequests e;
     e_reviews := e_reviews e + n;
     e_reposContributed := e_reposContributed e;
     e_weeklyData :=
       match weekTs with
       | Some ts => bumpWeek addReview ts (e_weeklyData e)
       | None => e_weeklyData e
       end;
     e_prsList := e_prsList e; e_reviewsList := e_reviewsList e;
     e_commitsList := e_commitsList e |}.

(** [if (userMap[user].reviews > 0) reposContributed.add(repoName)] *)
Definition entryMarkReviewed (repoName : string) (e : UserEntry) : UserEntry :=
  {| e_user := e_user e; e_avatarUrl := e_avatarUrl e;
     e_additions := e_additions e; e_deletions := e_deletions e;
     e_commits := e_commits e; e_pullRequests := e_pullRequests e;
     e_reviews := e_reviews e;
     e_reposContributed :=
       if 0 <? e_reviews e then setAdd repoName (e_reposContributed e)
       else e_reposContributed e;
     e_weeklyData := e_weeklyData e;
     e_prsList := e_prsList e; e_reviewsList := e_reviewsList e;
     e_commitsList := e_commitsList e |}.

Section Aggregate.
(** The time zone of the browser, the value of [Date.now()] during the
    call, and the second argument. *)
Variables (zone : TimeZone) (now : Z) (daysFilter : option Z).

(** Whether a commit or pull-request date is filtered out:
    [daysFilter && date] and [Math.floor(getTime / 1000) < cutoffTimestamp]. *)
Definition filteredOut (date : DateStr) : bool :=
  truthyDays daysFilter && truthyDate date
  && ltNum (floorSeconds (getTime date)) (cutoffTimestamp now daysFilter).

(** The body of [commits.forEach]. *)
Definition commitStep (repoName : string)
    (userMap : list (string * UserEntry)) (commit : Commit)
  : list (string * UserEntry) :=
  match truthyStr (c_user commit) with
  | None => userMap
  | Some u =>
      if filteredOut (c_date commit) then userMap
      else
        obj_alter
          (entryAddCommit repoName commit (weekTsOf zone (getTime (c_date commit))))
          u (obj_ensure u (newEntry u (c_avatar_url commit)) userMap)
  end.

(** The body of [prs.forEach]. *)
Definition prStep (repoName : string)
    (userMap : list (string * UserEntry)) (pr : PullRequest)
  : list (string * UserEntry) :=
  match truthyStr (pr_user pr) with
  | None => userMap
  | Some u =>
      let prDate := orDate (pr_merged_at pr) (pr_created_at pr) in
      if filteredOut prDate then userMap
      else
        obj_alter
          (entryAddPr repoName pr (weekTsOf zone (getTime prDate)))
          u (obj_ensure u (newEntry u (pr_avatar_url pr)) userMap)
  end.

(** The body of [submittedDates.forEach]. *)
Definition reviewDateStep (e : UserEntry) (date : DateStr) : UserEntry :=
  let dateMs := getTime date in
  if truthyDays daysFilter && ltNum dateMs (cutoffMs now daysFilter) then e
  else entryAddReviews 1 (Some (weekTsOf zone dateMs)) e.

(** The body of [Object.entries(reviews).forEach]. *)
Definition reviewStep (repoName : string)
    (userMap : list (string * UserEntry)) (entry : string * ReviewInfo)
  : list (string * UserEntry) :=
  let '(u, reviewInfo) := entry in
  let count := match reviewInfo with ReviewCount n | ReviewObj n _ _ => n end in
  let submittedDates :=
    match reviewInfo with ReviewCount _ => [] | ReviewObj _ ds _ => ds end in
  let reviewedPRs :=
    match reviewInfo with ReviewCount _ => [] | ReviewObj _ _ ps => ps end in
  obj_alter
    (fun e =>
       let e1 := fold_left (entryAddReviewed repoName) reviewedPRs e in
       let e2 :=
         if (0 <? length submittedDates)%nat
         then fold_left reviewDateStep submittedDates e1
         else entryAddReviews count None e1 in
       entryMarkReviewed repoName e2)
    u (obj_ensure u (newEntry u None) userMap).

(** The body of [repoDataArray.forEach]. *)
Definition repoStep (userMap : list (string * UserEntry)) (rd : RepoData)
  : list (string * UserEntry) :=
  let repoName := rd_repoName rd in
  let um1 := fold_left (commitStep repoName) (rd_commits rd) userMap in
  let um2 := fold_left (prStep repoName) (rd_prs rd) um1 in
  fold_left (reviewStep repoName) (obj_entries strIndex (rd_reviews rd)) um2.

(** The predicate of the [.filter] before emission. *)
Definition hasActivity (e : UserEntry) : bool :=
  (0 <? e_additions e) || (0 <? e_deletions e) || (0 <? e_commits e)
  || (0 <? e_pullRequests e) || (0 <? e_reviews e).

(** [daysFilter ? Math.ceil(daysFilter / 7) : 52] *)
Definition maxWeeks : Z :=
  if truthyDays daysFilter then - ((- default 0 daysFilter) / 7) else 52.

Definition secondsPerWeek : Z := 7 * 24 * 60 * 60.

Definition endTs : Z := weekStartMs zone now / 1000.

Definition startTs : Z := endTs - (maxWeeks - 1) * secondsPerWeek.

Definition mergeBucket (a b : Bucket) : Bucket :=
  mkBucket (b_additions a + b_additions b) (b_deletions a + b_deletions b)
           (b_commits a + b_commits b) (b_pullRequests a + b_pullRequests b)
           (b_reviews a + b_reviews b).

(** The body of [weeklyArray.forEach] that builds [weekMap]. *)
Definition weekMapStep (weekMap : list (option Z * Week)) (w : Week)
  : list (option Z * Week) :=
  let normalizedTs := weekTsOf zone ((fun s => s * 1000) <$> week w) in
  match obj_get normalizedTs weekMap with
  | None => weekMap ++ [(normalizedTs, {| week := normalizedTs; w_data := w_data w |})]
  | Some _ =>
      obj_alter (fun m => {| week := week m; w_data := mergeBucket (w_data m) (w_data w) |})
                normalizedTs weekMap
  end.

(** The fill loop, [for (let i = 0; i < maxWeeks; i++)]. *)
Definition fillWeeks (weekMap : list (option Z * Week)) : list Week :=
  (fun i =>
     let ts := startTs + i * secondsPerWeek in
     match obj_get (Some ts) weekMap with
     | Some w => w
     | None => {| week := Some ts; w_data := zeroBucket |}
     end) <$> seqZ 0 maxWeeks.

Definition byDateDesc (a b : DateStr) : option Z :=
  subNum (getTime b) (getTime a).

(** The [.map] callback that emits one record. *)
Definition emit (stats : UserEntry) : ContributorStat :=
  let weeklyArray :=
    js_sort (fun a b => subNum (week a) (week b))
            ((fun p => {| week := p.1; w_data := p.2 |})
               <$> obj_entries numIndex (e_weeklyData stats)) in
  let weekMap := fold_left weekMapStep weeklyArray [] in
  {| user := e_user stats;
     avatarUrl := e_avatarUrl stats;
     additions := e_additions stats;
     deletions := e_deletions stats;
     net := e_additions stats - e_deletions stats;
     commits := e_commits stats;
     pullRequests := e_pullRequests stats;
     reviews := e_reviews stats;
     reposCount := Z.of_nat (length (e_reposContributed stats));
     weeklyData := fillWeeks weekMap;
     prsList := js_sort (fun a b => byDateDesc (pri_date a) (pri_date b)) (e_prsList stats);
     reviewsList := e_reviewsList stats;
     commitsList := js_sort (fun a b => byDateDesc (ci_date a) (ci_date b)) (e_commitsList stats) |}.

Definition buildUserMap (repoDataArray : list RepoData)
  : list (string * UserEntry) :=
  fold_left repoStep repoDataArray [].

Definition aggregateStats (repoDataArray : list RepoData)
  : list ContributorStat :=
  emit <$> filter (fun e => hasActivity e)
                  (snd <$> obj_entries strIndex (buildUserMap repoDataArray)).
End Aggregate.

(** ** The response cache *)

Definition CACHE_PREFIX : string := "github_leaderboard_cache_".
Definition CACHE_EXPIRY_MS : Z := 30 * 60 * 1000.

Section Cache.
(** Cached payloads and their JSON form. [stringify data timestamp] is
    [JSON.stringify({ data, timestamp })]; [parse] is [JSON.parse] followed
    by the destructuring [{ data, timestamp }], [None] when either throws;
    a timestamp that is not a number reads as [None]. *)
Context {Json : Type}.
Variable stringify : Json → Z → string.
Variable parse : string → option (Json * option Z).

(** [const { timestamp } = JSON.parse(s)], whatever the payload. *)
Variable timestampOf : string → option (option Z).

(** The storage quota of the browser: whether a store content fits. *)
Variable fits : gmap string string → bool.

(** [localStorage.setItem]; [None] is the QuotaExceededError. *)
Definition setItem (k v : string) (store : gmap string string)
  : option (gmap string string) :=
  if fits (<[k := v]> store) then Some (<[k := v]> store) else None.

(** [Date.now() - timestamp > CACHE_EXPIRY_MS] *)
Definition expired (now : Z) (timestamp : option Z) : bool :=
  match timestamp with
  | Some t => CACHE_EXPIRY_MS <? now - t
  | None => false
  end.

(** [getFromCache(key)]: the value returned ([None] is [null]) and the
    store afterwards. *)
Definition getFromCache (now : Z) (key : string) (store : gmap string string)
  : option Json * gmap string string :=
  match store !! (CACHE_PREFIX +:+ key) with
  | None => (None, store)
  | Some cached =>
      if bool_decide (cached = EmptyString) then (None, store)
      else
        match parse cached with
        | None => (None, store)
        | Some (data, timestamp) =>
            if expired now timestamp
            then (None, delete (CACHE_PREFIX +:+ key) store)
            else (Some data, store)
        end
  end.

(** The keys [clearOldCache] removes: cache entries that are expired or
    do not parse. *)
Definition isOld (now : Z) (k v : string) : bool :=
  String.prefix CACHE_PREFIX k
  && match timestampOf v with
     | Some timestamp => expired now timestamp
     | None => true
     end.

Definition clearOldCache (now : Z) (store : gmap string string)
  : gmap string string :=
  filter (fun kv => isOld now kv.1 kv.2 = false) store.

Definition clearCache (store : gmap string string) : gmap string string :=
  filter (fun kv => String.prefix CACHE_PREFIX kv.1 = false) store.

(** [saveToCache(key, data)]: the store afterwards (warnings go to the
    console only). *)
Definition saveToCache (now : Z) (key : string) (data : Json)
    (store : gmap string string) : gmap string string :=
  let serialized := stringify data now in
  if 500 * 1024 <? Z.of_nat (String.length serialized) then store
  else
    match setItem (CACHE_PREFIX +:+ key) serialized store with
    | Some store' => store'
    | None =>
        let store1 := clearOldCache now store in
        match setItem (CACHE_PREFIX +:+ key) serialized store1 with
        | Some store2 => store2
        | None => clearCache store1
        end
    end.
End Cache.

(** ** Percentages

    [Math.round((done / total) * 100)] on binary64 numbers, as the engine
    evaluates it; [None] is NaN. *)
Definition floatOfZ (z : Z) : float := PrimFloat.of_uint63 (Uint63.of_Z z).

(** [Math.round]: the nearest integer, halves towards +infinity. *)
Definition mathRound (x : float) : option Z :=
  match Prim2SF x with
  | S754_zero _ => Some 0
  | S754_finite s m e =>
      let n := if s then Z.neg m else Z.pos m in
      if 0 <=? e then Some (n * 2 ^ e)
      else Some ((2 * n + 2 ^ (- e)) / 2 ^ (- e + 1))
  | S754_infinity _ | S754_nan => None
  end.

Definition roundPercent (done total : Z) : option Z :=
  mathRound (PrimFloat.mul (PrimFloat.div (floatOfZ done) (floatOfZ total))
                           (floatOfZ 100)).

(** ** The world the collector runs in *)

(** The requests the pipeline sends to the REST source. *)
Inductive Request : Type :=
  | GetStatsContributors (org repo : string)
  | GetCommits (org repo : string) (sha : option string) (page : Z)
               (since : option string)
  | GetCommit (org repo sha : string)
  | GetPulls (org repo : string) (page : Z)
  | GetPull (org repo : string) (number : Z)
  | GetReviews (org repo : string) (number : Z).

(** An element of the commit listing. [rc_sha] is the hash of the commit,
    forty hexadecimal digits: no such string names a property every object
    inherits, so a [commitStats[commit.sha]] finds own properties only. *)
Record RawCommit : Type := mkRawCommit {
  rc_sha : string;
  rc_login : option string;          (* commit.author?.login *)
  rc_avatar_url : option string;     (* commit.author?.avatar_url *)
  rc_message : option string;        (* commit.commit?.message *)
  rc_author_date : DateStr;          (* commit.commit?.author?.date *)
  rc_committer_date : DateStr;       (* commit.commit?.committer?.date *)
  rc_html_url : option string;
}.

(** An element of the pull-request listing. *)
Record RawPull : Type := mkRawPull {
  rp_number : Z;
  rp_login : option string;          (* pr.user?.login *)
  rp_avatar_url : option string;
  rp_created_at : DateStr;
  rp_merged_at : DateStr;
  rp_closed_at : DateStr;
  rp_updated_at : DateStr;
  rp_state : string;
  rp_title : option string;
  rp_html_url : option string;
}.

(** The fields read from a pull-request detail. *)
Record PullDetail : Type := mkPullDetail {
  pd_additions : option Z;
  pd_deletions : option Z;
  pd_commits : option Z;
  pd_changed_files : option Z;
}.

(** An element of a review listing. *)
Record RawReview : Type := mkRawReview {
  rr_login : option string;          (* review.user?.login *)
  rr_submitted_at : DateStr;
}.

(** A week of the contributor statistics, [{ w, a, d, c }]. *)
Record RawWeek : Type := mkRawWeek {
  rw_w : option Z;
  rw_a : option Z;
  rw_d : option Z;
  rw_c : option Z;
}.

(** An element of the contributor statistics. *)
Record RawContributor : Type := mkRawContributor {
  rs_login : option string;          (* contributor.author?.login *)
  rs_avatar_url : option string;
  rs_total : Z;
  rs_weeks : option (list RawWeek);
}.

(** What [response.json()] resolves to; [BodyInvalid] makes it reject. A body
    of another shape than the endpoint's is taken as one that rejects. *)
Inductive Body : Type :=
  | BodyStats (data : option (list RawContributor))
  | BodyCommits (data : list RawCommit)
  | BodyCommit (stats : option (option Z * option Z))
  | BodyPulls (data : list RawPull)
  | BodyPull (details : PullDetail)
  | BodyReviews (data : list RawReview)
  | BodyInvalid.

Record Response : Type := mkResponse {
  status : Z;
  rateLimitRemaining : option string;   (* x-ratelimit-remaining *)
  rateLimitReset : option Z;            (* x-ratelimit-reset *)
  body : Body;
}.

(** [response.ok] *)
Definition ok (r : Response) : bool := (200 <=? status r) && (status r <=? 299).

(** How a request ends: a response after [elapsed] milliseconds, or a
    rejected [fetch]. *)
Inductive Outcome : Type :=
  | Responds (elapsed : Z) (r : Response)
  | Rejects (elapsed : Z) (message : string).

(** The events of [onLog]. *)
Inductive LogEvent : Type :=
  | LogStart (repo : string) (index total : Z)
  | LogComplete (repo : string) (index total : Z) (hasStats hasPRs : bool)
                (prCount mergedPRCount totalCommits totalAdditions totalDeletions : Z)
  | LogError (repo : string) (index total : Z) (error : string).

(** What a run does that can be observed from outside. *)
Inductive Event : Type :=
  | EFetch (token : string) (req : Request) (out : Outcome)
  | EDelay (ms : Z)
  | ELog (ev : LogEvent)
  | EProgress (percent : option Z)
  | EDataUpdate (data : list ContributorStat) (done total : Z).

(** The state a run threads: [localStorage], the clock behind [Date.now()],
    and the events so far, oldest first. *)
Record World : Type := mkWorld {
  w_store : gmap string string;
  w_clock : Z;
  w_trace : list Event;
}.

(** How a computation ends: with a value, with a thrown [Error], or not
    within the iterations granted to an unbounded loop. *)
Inductive Result (A : Type) : Type :=
  | Ok (a : A)
  | Throw (message : string)
  | OutOfFuel.
Arguments Ok {A} a.
Arguments Throw {A} message.
Arguments OutOfFuel {A}.

Definition M (A : Type) : Type := World → Result A * World.

Definition ret {A} (a : A) : M A := fun w => (Ok a, w).

Definition bind {A B} (m : M A) (f : A → M B) : M B :=
  fun w =>
    match m w with
    | (Ok a, w') => f a w'
    | (Throw e, w') => (Throw e, w')
    | (OutOfFuel, w') => (OutOfFuel, w')
    end.

Definition throw {A} (message : string) : M A := fun w => (Throw message, w).

Definition outOfFuel {A} : M A := fun w => (OutOfFuel, w).

(** [try { m } catch (e) { handler(e) }] *)
Definition tryCatch {A} (m : M A) (handler : string → M A) : M A :=
  fun w =>
    match m w with
    | (Throw e, w') => handler e w'
    | r => r
    end.

#[global] Instance M_ret : MRet M := @ret.
#[global] Instance M_bind : MBind M := fun A B f m => bind m f.

(** A codec of one kind of cached payload (see the cache above). *)
Record Codec (A : Type) : Type := mkCodec {
  stringify : A → Z → string;
  parse : string → option (A * option Z);
}.
Arguments stringify {A} _ _ _.
Arguments parse {A} _ _.

(** A week of the statistics [fetchStats] returns, [{ w, a, d, c }]. *)
Record StatWeek : Type := mkStatWeek {
  sw_w : option Z;
  sw_a : Z;
  sw_d : Z;
  sw_c : Z;
}.

(** An element of the statistics [fetchStats] returns. *)
Record Contributor : Type := mkContributor {
  ct_login : option string;
  ct_avatar_url : option string;
  ct_total : Z;
  ct_weeks : list StatWeek;
}.

(** A value of [commitStats], [{ additions, deletions }]. *)
Record LineStats : Type := mkLineStats {
  ls_additions : Z;
  ls_deletions : Z;
}.

(** A value of [authorMap[login].weeks], [{ c, a, d }]. *)
Record Tally : Type := mkTally {
  t_c : Z;
  t_a : Z;
  t_d : Z;
}.

(** A value of [authorMap]. *)
Record AuthorEntry : Type := mkAuthorEntry {
  ae_login : string;
  ae_avatar_url : option string;
  ae_total : Z;
  ae_weeks : list (option Z * Tally);
}.

(** The fields of a repository the orchestrator reads. *)
Record Repo : Type := mkRepo {
  repo_name : string;
  repo_default_branch : option string;
}.

(** Which of the three callbacks the caller passed. *)
Record Callbacks : Type := mkCallbacks {
  onProgress : bool;
  onDataUpdate : bool;
  onLog : bool;
}.

(** A step that may throw, and [forEach] over such steps: the first throw
    ends the loop. *)
Definition Result_bind {A B} (r : Result A) (f : A → Result B) : Result B :=
  match r with
  | Ok a => f a
  | Throw e => Throw e
  | OutOfFuel => OutOfFuel
  end.

Fixpoint foldResult {A B} (f : A → B → Result A) (l : list B) (a : A) : Result A :=
  match l with
  | [] => Ok a
  | x :: l' => Result_bind (f a x) (foldResult f l')
  end.

Definition liftResult {A} (r : Result A) : M A := fun w => (r, w).

(** ** aggregateStats on logins that name an inherited property

    [userMap] is an object literal. For a login such as [constructor],
    [userMap[user]] finds the inherited property, which is truthy: the
    entry is never created, the updates of the counters land on the
    inherited object, and the first access to a member of
    [.reposContributed], [.reviewsList] or [.weeklyData], which that
    object does not have, throws a [TypeError]. For every other login the
    steps of [buildUserMap] are what the code does. The function below is
    [aggregateStats] as it is called: it returns or throws. *)
Section AggregateJS.
Variables (zone : TimeZone) (now : Z) (daysFilter : option Z).

(** The body of [commits.forEach]. *)
Definition commitStepJS (repoName : string)
    (userMap : list (string * UserEntry)) (commit : Commit)
  : Result (list (string * UserEntry)) :=
  match truthyStr (c_user commit) with
  | None => Ok userMap
  | Some u =>
      if filteredOut now daysFilter (c_date commit) then Ok userMap
      else if inherited u then Throw (readingUndefined "add")
      else Ok (commitStep zone now daysFilter repoName userMap commit)
  end.

(** The body of [prs.forEach]. *)
Definition prStepJS (repoName : string)
    (userMap : list (string * UserEntry)) (pr : PullRequest)
  : Result (list (string * UserEntry)) :=
  match truthyStr (pr_user pr) with
  | None => Ok userMap
  | Some u =>
      if filteredOut now daysFilter (orDate (pr_merged_at pr) (pr_created_at pr))
      then Ok userMap
      else if inherited u then Throw (readingUndefined "add")
      else Ok (prStep zone now daysFilter repoName userMap pr)
  end.

(** Whether [submittedDates.forEach] counts a date. *)
Definition reviewDateCounted (date : DateStr) : bool :=
  negb (truthyDays daysFilter && ltNum (getTime date) (cutoffMs now daysFilter)).

(** The body of [Object.entries(reviews).forEach]. For an inherited
    login the first reviewed pull request throws at [.reviewsList.length],
    the first counted date at [.weeklyData[weekTs]]; with neither,
    [userMap[user].reviews] is not a positive number and [userMap] stays
    as it is. *)
Definition reviewStepJS (repoName : string)
    (userMap : list (string * UserEntry)) (entry : string * ReviewInfo)
  : Result (list (string * UserEntry)) :=
  let submittedDates :=
    match entry.2 with ReviewCount _ => [] | ReviewObj _ ds _ => ds end in
  let reviewedPRs :=
    match entry.2 with ReviewCount _ => [] | ReviewObj _ _ ps => ps end in
  if inherited entry.1 then
    if (0 <? length reviewedPRs)%nat then Throw (readingUndefined "length")
    else
      match List.find reviewDateCounted submittedDates with
      | Some date => Throw (readingUndefined (keyOfNum (weekTsOf zone (getTime date))))
      | None => Ok userMap
      end
  else Ok (reviewStep zone now daysFilter repoName userMap entry).

(** The body of [repoDataArray.forEach]. *)
Definition repoStepJS (userMap : list (string * UserEntry)) (rd : RepoData)
  : Result (list (string * UserEntry)) :=
  let repoName := rd_repoName rd in
  Result_bind (foldResult (commitStepJS repoName) (rd_commits rd) userMap) (fun um1 =>
  Result_bind (foldResult (prStepJS repoName) (rd_prs rd) um1) (fun um2 =>
  foldResult (reviewStepJS repoName) (obj_entries strIndex (rd_reviews rd)) um2)).

Definition buildUserMapJS (repoDataArray : list RepoData)
  : Result (list (string * UserEntry)) :=
  foldResult repoStepJS repoDataArray [].

Definition aggregateStatsJS (repoDataArray : list RepoData)
  : Result (list ContributorStat) :=
  Result_bind (buildUserMapJS repoDataArray) (fun userMap =>
  Ok (emit zone now daysFilter
        <$> filter (fun e => hasActivity e)
                   (snd <$> obj_entries strIndex userMap))).
End AggregateJS.

(** ** The collector *)

Section Collector.
(** The environment of a run: how the REST source answers a request,
    given the token and all that happened before; the storage quota; the
    time zone; the renderings of instants that end up in cache keys,
    queries and messages; and the codecs of the cached payloads. *)
Variable net : list Event → string → Request → Outcome.
Variable fits : gmap string string → bool.
Variable zone : TimeZone.
Variable toISOString : Z → string.
Variable toLocaleTimeString : Z → string.
Variable timestampOf : string → option (option Z).
Variable commitsCodec : Codec (list Commit).
Variable prsCodec : Codec (list PullRequest).
Variable reviewsCodec : Codec (list (string * ReviewInfo)).
Variable statsCodec : Codec (list Contributor).

(** [d.setFullYear(d.getFullYear() - 1)]: the same local date and time a
    year earlier. *)
Variable yearBefore : Z → Z.

(** [await fetch(url, { headers })] *)
Definition fetch (token : string) (req : Request) : M Response :=
  fun w =>
    let out := net (w_trace w) token req in
    match out with
    | Responds dt r =>
        (Ok r, {| w_store := w_store w; w_clock := w_clock w + dt;
                  w_trace := w_trace w ++ [EFetch token req out] |})
    | Rejects dt message =>
        (Throw message, {| w_store := w_store w; w_clock := w_clock w + dt;
                           w_trace := w_trace w ++ [EFetch token req out] |})
    end.

(** [await new Promise((resolve) => setTimeout(resolve, ms))] *)
Definition delay (ms : Z) : M unit :=
  fun w => (Ok tt, {| w_store := w_store w; w_clock := w_clock w + ms;
                      w_trace := w_trace w ++ [EDelay ms] |}).

Definition dateNow : M Z := fun w => (Ok (w_clock w), w).

(** A callback of the caller, recorded as an event. *)
Definition notify (ev : Event) : M unit :=
  fun w => (Ok tt, {| w_store := w_store w; w_clock := w_clock w;
                      w_trace := w_trace w ++ [ev] |}).

Definition cacheGet {A} (c : Codec A) (key : string) : M (option A) :=
  fun w =>
    let r := getFromCache (parse c) (w_clock w) key (w_store w) in
    (Ok r.1, {| w_store := r.2; w_clock := w_clock w; w_trace := w_trace w |}).

Definition cachePut {A} (c : Codec A) (key : string) (data : A) : M unit :=
  fun w =>
    (Ok tt, {| w_store := saveToCache (stringify c) timestampOf fits
                            (w_clock w) key data (w_store w);
               w_clock := w_clock w; w_trace := w_trace w |}).

(** [sinceDate.slice(0, 10)] of the ISO rendering. *)
Definition sinceDay (since : Z) : string := substring 0 10 (toISOString since).

(** *** fetchPullRequests *)

Definition prsCacheKey (org repoName : string) (sinceDate : option Z) : string :=
  match sinceDate with
  | Some since => "prs_v3_" +:+ org +:+ "_" +:+ repoName +:+ "_since_" +:+ sinceDay since
  | None => "prs_v3_" +:+ org +:+ "_" +:+ repoName
  end.

(** [pr.merged_at || pr.closed_at || pr.updated_at] *)
Definition effectiveDate (pr : RawPull) : DateStr :=
  orDate (orDate (rp_merged_at pr) (rp_closed_at pr)) (rp_updated_at pr).

(** The predicate of [data.filter]: [prDate >= sinceTimestamp]. *)
Definition keptSince (since : Z) (pr : RawPull) : bool :=
  geNum (getTime (effectiveDate pr)) (Some since).

(** The object literal pushed on [prs]. *)
Definition prOfRaw (pr : RawPull) : PullRequest :=
  {| pr_number := rp_number pr; pr_user := rp_login pr;
     pr_avatar_url := rp_avatar_url pr; pr_created_at := rp_created_at pr;
     pr_merged_at := rp_merged_at pr; pr_state := rp_state pr;
     pr_title := rp_title pr; pr_url := rp_html_url pr;
     pr_additions := None; pr_deletions := None;
     pr_commits := None; pr_changed_files := None |}.

Definition jsonPulls (r : Response) : M (list RawPull) :=
  match body r with
  | BodyPulls data => mret data
  | _ => throw "Unexpected end of JSON input"
  end.

Definition jsonPull (r : Response) : M PullDetail :=
  match body r with
  | BodyPull details => mret details
  | _ => throw "Unexpected end of JSON input"
  end.

(** [!(page <= maxPages)] with [maxPages = sinceDate ? 10 : Infinity]. *)
Definition pastLastPage (sinceDate : option Z) (page : Z) : bool :=
  match sinceDate with
  | Some _ => 10 <? page
  | None => false
  end.

Definition filterBySince (sinceDate : option Z) (data : list RawPull) : list RawPull :=
  match sinceDate with
  | Some since => filter (fun pr => keptSince since pr) data
  | None => data
  end.

(** The [while (page <= maxPages)] loop; [fuel] bounds its iterations. *)
Fixpoint pullsLoop (fuel : nat) (token org repoName : string)
    (sinceDate : option Z) (page : Z) (prs : list PullRequest)
  : M (list PullRequest) :=
  match fuel with
  | O => outOfFuel
  | S fuel' =>
      if pastLastPage sinceDate page then mret prs
      else
        response ← fetch token (GetPulls org repoName page);
        if negb (ok response) then mret prs
        else
          data ← jsonPulls response;
          let filteredPRs := filterBySince sinceDate data in
          if bool_decide (is_Some sinceDate) && (0 <? length data)%nat
             && (length filteredPRs =? 0)%nat
          then mret prs
          else
            let prs' := prs ++ (prOfRaw <$> filteredPRs) in
            if (length data <? 100)%nat then mret prs'
            else pullsLoop fuel' token org repoName sinceDate (page + 1) prs'
  end.

(** The assignments [pr.additions = details.additions || 0], ... *)
Definition withDetails (pr : PullRequest) (details : PullDetail) : PullRequest :=
  {| pr_number := pr_number pr; pr_user := pr_user pr;
     pr_avatar_url := pr_avatar_url pr; pr_created_at := pr_created_at pr;
     pr_merged_at := pr_merged_at pr; pr_state := pr_state pr;
     pr_title := pr_title pr; pr_url := pr_url pr;
     pr_additions := Some (orZero (pd_additions details));
     pr_deletions := Some (orZero (pd_deletions details));
     pr_commits := Some (orZero (pd_commits details));
     pr_changed_files := Some (orZero (pd_changed_files details)) |}.

(** The body of [for (const pr of mergedPRs)]. *)
Definition enrichOne (token org repoName : string) (pr : PullRequest)
  : M PullRequest :=
  tryCatch
    (response ← fetch token (GetPull org repoName (pr_number pr));
     if ok response
     then details ← jsonPull response; mret (withDetails pr details)
     else mret pr)
    (fun _ => mret pr).

(** The enrichment loop. [mergedPRs] holds the first [budget] merged
    elements of [prs], by reference: the loop updates those elements of
    [prs] in place, in order. *)
Fixpoint enrichMerged (budget : nat) (token org repoName : string)
    (prs : list PullRequest) : M (list PullRequest) :=
  match prs with
  | [] => mret []
  | pr :: rest =>
      if truthyDate (pr_merged_at pr) then
        match budget with
        | O => mret (pr :: rest)
        | S budget' =>
            pr' ← enrichOne token org repoName pr;
            rest' ← enrichMerged budget' token org repoName rest;
            mret (pr' :: rest')
        end
      else
        rest' ← enrichMerged budget token org repoName rest;
        mret (pr :: rest')
  end.

Definition fetchPullRequests (fuel : nat) (token org repoName : string)
    (sinceDate : option Z) : M (list PullRequest) :=
  let cacheKey := prsCacheKey org repoName sinceDate in
  cached ← cacheGet prsCodec cacheKey;
  match cached with
  | Some prs => mret prs
  | None =>
      prs ← pullsLoop fuel token org repoName sinceDate 1 [];
      prs' ← enrichMerged 30 token org repoName prs;
      cachePut prsCodec cacheKey prs';;
      mret prs'
  end.

(** *** fetchCommits *)

Definition commitsCacheKey (org repoName defaultBranch : string)
    (sinceDate : option Z) : string :=
  match sinceDate with
  | Some since =>
      "commits_v4_" +:+ org +:+ "_" +:+ repoName +:+ "_" +:+ defaultBranch
        +:+ "_since_" +:+ sinceDay since
  | None => "commits_v4_" +:+ org +:+ "_" +:+ repoName +:+ "_" +:+ defaultBranch
  end.

(** [message.split('\n')[0]] *)
Fixpoint firstLine (s : string) : string :=
  match s with
  | EmptyString => EmptyString
  | String c s' =>
      if bool_decide (c = "010"%char) then EmptyString
      else String c (firstLine s')
  end.

(** The object literal pushed on [commits], for a commit with a login. *)
Definition commitOfRaw (login : string) (commit : RawCommit) : Commit :=
  {| c_sha := rc_sha commit;
     c_user := Some login;
     c_avatar_url := rc_avatar_url commit;
     c_message :=
       match truthyStr (firstLine <$> rc_message commit) with
       | Some m => m
       | None => "No message"
       end;
     c_date := orDate (rc_author_date commit) (rc_committer_date commit);
     c_url := rc_html_url commit |}.

(** [data.forEach]: commits without an author login are dropped. *)
Definition attributed (data : list RawCommit) : list Commit :=
  omap (fun commit => (fun login => commitOfRaw login commit)
                        <$> truthyStr (rc_login commit)) data.

Definition jsonCommits (r : Response) : M (list RawCommit) :=
  match body r with
  | BodyCommits data => mret data
  | _ => throw "Unexpected end of JSON input"
  end.

Fixpoint commitsLoop (fuel : nat) (token org repoName defaultBranch : string)
    (sinceDate : option Z) (page : Z) (commits : list Commit)
  : M (list Commit) :=
  match fuel with
  | O => outOfFuel
  | S fuel' =>
      if pastLastPage sinceDate page then mret commits
      else
        response ← fetch token
          (GetCommits org repoName (Some defaultBranch) page (toISOString <$> sinceDate));
        if negb (ok response) then mret commits
        else
          data ← jsonCommits response;
          if (length data =? 0)%nat then mret commits
          else
            let commits' := commits ++ attributed data in
            if (length data <? 100)%nat then mret commits'
            else commitsLoop fuel' token org repoName defaultBranch sinceDate
                   (page + 1) commits'
  end.

Definition fetchCommits (fuel : nat) (token org repoName defaultBranch : string)
    (sinceDate : option Z) : M (list Commit) :=
  let cacheKey := commitsCacheKey org repoName defaultBranch sinceDate in
  cached ← cacheGet commitsCodec cacheKey;
  match cached with
  | Some commits => mret commits
  | None =>
      commits ← commitsLoop fuel token org repoName defaultBranch sinceDate 1 [];
      cachePut commitsCodec cacheKey commits;;
      mret commits
  end.

(** *** fetchReviews *)

Definition reviewsCacheKey (org repoName : string) (sinceDate : option Z) : string :=
  match sinceDate with
  | Some since => "reviews_" +:+ org +:+ "_" +:+ repoName +:+ "_since_" +:+ sinceDay since
  | None => "reviews_" +:+ org +:+ "_" +:+ repoName
  end.

Definition jsonReviews (r : Response) : M (list RawReview) :=
  match body r with
  | BodyReviews data => mret data
  | _ => throw "Unexpected end of JSON input"
  end.

(** The body of [reviews.forEach], for a login that names no inherited
    property. Every value of [reviewData] is a
    [{ count, submitted_at, prs }]. *)
Definition recordReview (pr : PullRequest)
    (reviewData : list (string * ReviewInfo)) (review : RawReview)
  : list (string * ReviewInfo) :=
  match truthyStr (rr_login review) with
  | None => reviewData
  | Some u =>
      let prInfo := {| pi_number := pr_number pr;
                       pi_title := prTitle (pr_title pr) (pr_number pr);
                       pi_url := pr_url pr |} in
      obj_alter
        (fun info =>
           match info with
           | ReviewObj count submitted prs =>
               ReviewObj (count + 1)
                 (if truthyDate (rr_submitted_at review)
                  then submitted ++ [rr_submitted_at review] else submitted)
                 (if existsb (fun p => bool_decide (pi_number p = pr_number pr)) prs
                  then prs else prs ++ [prInfo])
           | ReviewCount n => ReviewCount n
           end)
        u (obj_ensure u (ReviewObj 0 [] []) reviewData)
  end.

(** [reviews.forEach(...)]. A review whose login names an inherited
    property throws at [reviewData[user].submitted_at] or [.prs], which
    the inherited object does not have; the [catch] around the work on
    this pull request takes the error, the reviews after it are not
    looked at, and what the reviews before it recorded stays. *)
Fixpoint recordReviews (pr : PullRequest)
    (reviewData : list (string * ReviewInfo)) (reviews : list RawReview)
  : list (string * ReviewInfo) :=
  match reviews with
  | [] => reviewData
  | review :: rest =>
      match truthyStr (rr_login review) with
      | Some u =>
          if inherited u then reviewData
          else recordReviews pr (recordReview pr reviewData review) rest
      | None => recordReviews pr reviewData rest
      end
  end.

(** The body of [for (const pr of prsToCheck)]. *)
Definition reviewsOfPr (token org repoName : string)
    (reviewData : list (string * ReviewInfo)) (pr : PullRequest)
  : M (list (string * ReviewInfo)) :=
  tryCatch
    (response ← fetch token (GetReviews org repoName (pr_number pr));
     if negb (ok response) then mret reviewData
     else
       reviews ← jsonReviews response;
       mret (recordReviews pr reviewData reviews))
    (fun _ => mret reviewData).

Fixpoint reviewsLoop (token org repoName : string)
    (reviewData : list (string * ReviewInfo)) (prsToCheck : list PullRequest)
  : M (list (string * ReviewInfo)) :=
  match prsToCheck with
  | [] => mret reviewData
  | pr :: rest =>
      reviewData' ← reviewsOfPr token org repoName reviewData pr;
      reviewsLoop token org repoName reviewData' rest
  end.

Definition fetchReviews (token org repoName : string)
    (pullRequests : list PullRequest) (sinceDate : option Z)
  : M (list (string * ReviewInfo)) :=
  let cacheKey := reviewsCacheKey org repoName sinceDate in
  cached ← cacheGet reviewsCodec cacheKey;
  match cached with
  | Some reviewData => mret reviewData
  | None =>
      reviewData ← reviewsLoop token org repoName [] (take 50 pullRequests);
      cachePut reviewsCodec cacheKey reviewData;;
      mret reviewData
  end.

(** *** fetchCommitsAsStats *)

Definition jsonCommit (r : Response) : M (option (option Z * option Z)) :=
  match body r with
  | BodyCommit stats => mret stats
  | _ => throw "Unexpected end of JSON input"
  end.

(** One pass of the body of [while (page <= maxPages)]: the page to add,
    or [None] on [break]. *)
Definition recentPage (token org repoName since : string) (page : Z)
  : M (option (list RawCommit)) :=
  tryCatch
    (response ← fetch token (GetCommits org repoName None page (Some since));
     if negb (ok response) then mret None
     else
       data ← jsonCommits response;
       if (length data =? 0)%nat then mret None else mret (Some data))
    (fun _ => mret None).

(** The loop over at most [maxPages = 3] pages. *)
Fixpoint recentCommits (pagesLeft : nat) (token org repoName since : string)
    (page : Z) (commits : list RawCommit) : M (list RawCommit) :=
  match pagesLeft with
  | O => mret commits
  | S pagesLeft' =>
      data ← recentPage token org repoName since page;
      match data with
      | None => mret commits
      | Some data =>
          let commits' := commits ++ data in
          if (length data <? 100)%nat then mret commits'
          else recentCommits pagesLeft' token org repoName since (page + 1) commits'
      end
  end.

(** The body of [for (const commit of commitsToFetch)]. *)
Definition commitDetail (token org repoName : string)
    (commitStats : list (string * LineStats)) (commit : RawCommit)
  : M (list (string * LineStats)) :=
  tryCatch
    (response ← fetch token (GetCommit org repoName (rc_sha commit));
     if ok response then
       data ← jsonCommit response;
       match data with
       | Some (a, d) =>
           mret (obj_set (rc_sha commit)
                   {| ls_additions := orZero a; ls_deletions := orZero d |}
                   commitStats)
       | None => mret commitStats
       end
     else mret commitStats)
    (fun _ => mret commitStats).

Fixpoint commitDetails (token org repoName : string)
    (commitStats : list (string * LineStats)) (commitsToFetch : list RawCommit)
  : M (list (string * LineStats)) :=
  match commitsToFetch with
  | [] => mret commitStats
  | commit :: rest =>
      commitStats' ← commitDetail token org repoName commitStats commit;
      commitDetails token org repoName commitStats' rest
  end.

(** The body of [commits.forEach] that fills [authorMap]. For a login
    that names an inherited property [authorMap[login]] is that
    property: no entry is created and [authorMap[login].weeks[weekTs]]
    throws. *)
Definition tallyCommit (commitStats : list (string * LineStats))
    (authorMap : list (string * AuthorEntry)) (commit : RawCommit)
  : Result (list (string * AuthorEntry)) :=
  match truthyStr (rc_login commit) with
  | None => Ok authorMap
  | Some login =>
      let weekTs :=
        weekTsOf zone
          (getTime (orDate (rc_author_date commit) (rc_committer_date commit))) in
      let stats := obj_get (rc_sha commit) commitStats in
      if inherited login then Throw (readingUndefined (keyOfNum weekTs))
      else Ok (obj_alter
        (fun e =>
           {| ae_login := ae_login e; ae_avatar_url := ae_avatar_url e;
              ae_total := ae_total e + 1;
              ae_weeks :=
                obj_alter
                  (fun t =>
                     {| t_c := t_c t + 1;
                        t_a := t_a t + match stats with
                                       | Some ls => ls_additions ls
                                       | None => 0
                                       end;
                        t_d := t_d t + match stats with
                                       | Some ls => ls_deletions ls
                                       | None => 0
                                       end |})
                  weekTs (obj_ensure weekTs (mkTally 0 0 0) (ae_weeks e)) |})
        login
        (obj_ensure login
           {| ae_login := login; ae_avatar_url := rc_avatar_url commit;
              ae_total := 0; ae_weeks := [] |}
           authorMap))
  end.

(** [w.a > 0 || w.d > 0 || w.c > 0] *)
Definition activeWeek (w : StatWeek) : bool :=
  (0 <? sw_a w) || (0 <? sw_d w) || (0 <? sw_c w).

(** The [.map] callback that converts a value of [authorMap]. *)
Definition contributorOf (data : AuthorEntry) : Contributor :=
  {| ct_login := Some (ae_login data);
     ct_avatar_url := ae_avatar_url data;
     ct_total := ae_total data;
     ct_weeks :=
       js_sort (fun a b => subNum (sw_w a) (sw_w b))
         (filter (fun w => activeWeek w)
            ((fun p => {| sw_w := p.1; sw_a := t_a p.2;
                          sw_d := t_d p.2; sw_c := t_c p.2 |})
               <$> obj_entries numIndex (ae_weeks data))) |}.

Definition fetchCommitsAsStats (token org repoName : string)
  : M (list Contributor) :=
  let cacheKey := "commits_stats_v2_" +:+ org +:+ "_" +:+ repoName in
  cached ← cacheGet statsCodec cacheKey;
  match cached with
  | Some stats => mret stats
  | None =>
      now ← dateNow;
      let since := toISOString (yearBefore now) in
      commits ← recentCommits 3 token org repoName since 1 [];
      commitStats ← commitDetails token org repoName [] (take 50 commits);
      authorMap ← liftResult (foldResult (tallyCommit commitStats) commits []);
      let stats := contributorOf <$> (snd <$> obj_entries strIndex authorMap) in
      cachePut statsCodec cacheKey stats;;
      mret stats
  end.

(** *** fetchStats *)

Definition jsonStats (r : Response) : M (option (list RawContributor)) :=
  match body r with
  | BodyStats data => mret data
  | _ => throw "Unexpected end of JSON input"
  end.

(** [(contributor.weeks || []).slice(-52).map(..).filter(..)] *)
Definition minimalWeeks (weeks : option (list RawWeek)) : list StatWeek :=
  let all := default [] weeks in
  filter (fun w => activeWeek w)
    ((fun w => {| sw_w := rw_w w; sw_a := orZero (rw_a w);
                  sw_d := orZero (rw_d w); sw_c := orZero (rw_c w) |})
       <$> drop (length all - 52) all).

Definition minimalStats (data : list RawContributor) : list Contributor :=
  filter (fun c => is_Some (truthyStr (ct_login c)))
    ((fun contributor =>
        {| ct_login := rs_login contributor;
           ct_avatar_url := rs_avatar_url contributor;
           ct_total := rs_total contributor;
           ct_weeks := minimalWeeks (rs_weeks contributor) |}) <$> data).

Fixpoint fetchStats (retries : nat) (token org repoName : string)
  : M (list Contributor) :=
  let cacheKey := "stats_v2_" +:+ org +:+ "_" +:+ repoName in
  cached ← cacheGet statsCodec cacheKey;
  match cached with
  | Some stats => mret stats
  | None =>
      response ← fetch token (GetStatsContributors org repoName);
      if status response =? 202 then
        match retries with
        | S retries' => delay 1500;; fetchStats retries' token org repoName
        | O => fetchCommitsAsStats token org repoName
        end
      else if status response =? 204 then mret []
      else if negb (ok response) then
        if (status response =? 403)
           && bool_decide (rateLimitRemaining response = Some "0"%string)
        then throw ("Rate limit exceeded. Resets at "
                    +:+ toLocaleTimeString (default 0 (rateLimitReset response) * 1000))
        else fetchCommitsAsStats token org repoName
      else
        data ← jsonStats response;
        match data with
        | None | Some [] => fetchCommitsAsStats token org repoName
        | Some data =>
            let stats := minimalStats data in
            cachePut statsCodec cacheKey stats;;
            mret stats
        end
  end.

(** *** fetchAllStats *)

(** [if (callback) callback(ev)] *)
Definition call (present : bool) (ev : Event) : M unit :=
  if present then notify ev else mret tt.

Definition sumOver (f : PullRequest → option Z) (prs : list PullRequest) : Z :=
  fold_left (fun acc pr => acc + orZero (f pr)) prs 0.

(** The [try] block of one iteration: the element pushed on
    [repoDataArray]. *)
Definition collectRepo (fuel : nat) (cb : Callbacks) (token org : string)
    (sinceDate : option Z) (total i : Z) (repo : Repo) : M RepoData :=
  let repoName := repo_name repo in
  let defaultBranch := default "main"%string (truthyStr (repo_default_branch repo)) in
  commits ← fetchCommits fuel token org repoName defaultBranch sinceDate;
  prs ← fetchPullRequests fuel token org repoName sinceDate;
  reviews ← fetchReviews token org repoName prs sinceDate;
  let hasPRs := (0 <? length prs)%nat in
  let mergedPRs := filter (fun pr => truthyDate (pr_merged_at pr)) prs in
  let totalAdditions := sumOver pr_additions mergedPRs in
  let totalDeletions := sumOver pr_deletions mergedPRs in
  call (onLog cb)
    (ELog (LogComplete repoName (i + 1) total
             ((0 <? length commits)%nat || (0 <? length mergedPRs)%nat)
             hasPRs (Z.of_nat (length prs)) (Z.of_nat (length mergedPRs))
             (Z.of_nat (length commits)) totalAdditions totalDeletions));;
  mret {| rd_repoName := repoName; rd_commits := commits;
          rd_prs := prs; rd_reviews := reviews |}.

(** The element pushed by the [catch] block. *)
Definition emptyRepoData (repoName : string) : RepoData :=
  {| rd_repoName := repoName; rd_commits := []; rd_prs := []; rd_reviews := [] |}.

(** The [for] loop over [repos], from index [i] on. *)
Fixpoint reposLoop (fuel : nat) (cb : Callbacks) (token org : string)
    (daysFilter sinceDate : option Z) (total i : Z) (repos : list Repo)
    (repoDataArray : list RepoData) : M (list RepoData) :=
  match repos with
  | [] => mret repoDataArray
  | repo :: rest =>
      call (onLog cb) (ELog (LogStart (repo_name repo) (i + 1) total));;
      rd ← tryCatch
             (collectRepo fuel cb token org sinceDate total i repo)
             (fun error =>
                call (onLog cb)
                  (ELog (LogError (repo_name repo) (i + 1) total error));;
                mret (emptyRepoData (repo_name repo)));
      let repoDataArray' := repoDataArray ++ [rd] in
      call (onProgress cb) (EProgress (roundPercent (i + 1) total));;
      (if onDataUpdate cb then
         now ← dateNow;
         currentAggregated ← liftResult (aggregateStatsJS zone now daysFilter
                                           repoDataArray');
         notify (EDataUpdate currentAggregated (i + 1) total)
       else mret tt);;
      reposLoop fuel cb token org daysFilter sinceDate total (i + 1) rest repoDataArray'
  end.

Definition fetchAllStats (fuel : nat) (cb : Callbacks) (token org : string)
    (repos : list Repo) (daysFilter : option Z) : M (list ContributorStat) :=
  let total := Z.of_nat (length repos) in
  start ← dateNow;
  let sinceDate :=
    if truthyDays daysFilter then Some (cutoffMs start daysFilter) else None in
  repoDataArray ← reposLoop fuel cb token org daysFilter sinceDate total 0 repos [];
  now ← dateNow;
  liftResult (aggregateStatsJS zone now daysFilter repoDataArray).
End Collector.


(** ** aggregateStats on a store of shared objects

    The same function with its objects in a store: every object and array
    is a cell, designated by its location; a property that holds an object
    holds its location. Reading a location that holds no cell, or a cell
    of another kind than the code expects, stops the run. As in the
    functional description, the logins are those under which [userMap]
    gets an own property; for the others the code throws at its first
    access to a member of the inherited object, having written to no
    object of its input. *)

#[warnings="-notation-for-abbreviation"] Notation loc := nat (only parsing).

(** A value of [userMap]; its set, its weekly buckets and its lists are
    objects of their own. *)
Record EntryCell : Type := mkEntryCell {
  h_user : string;
  h_avatarUrl : option string;
  h_additions : Z;
  h_deletions : Z;
  h_commits : Z;
  h_pullRequests : Z;
  h_reviews : Z;
  h_reposContributed : loc;
  h_weeklyData : loc;
  h_prsList : loc;
  h_reviewsList : loc;
  h_commitsList : loc;
}.

(** A record of the result. *)
Record StatCell : Type := mkStatCell {
  s_user : string;
  s_avatarUrl : option string;
  s_additions : Z;
  s_deletions : Z;
  s_net : Z;
  s_commits : Z;
  s_pullRequests : Z;
  s_reviews : Z;
  s_reposCount : Z;
  s_weeklyData : loc;
  s_prsList : loc;
  s_reviewsList : loc;
  s_commitsList : loc;
}.

Inductive Cell : Type :=
  | CArray (elems : list loc)
  | CDates (dates : list DateStr)
  | CRepoData (repoName : string) (commits prs reviews : loc)
  | CCommit (c : Commit)
  | CPull (pr : PullRequest)
  | CPrInfo (p : PrInfo)
  | CReviewMap (props : list (string * (Z + loc)))
  | CReviewInfo (count : Z) (submitted_at prs : loc)
  | CUserMap (props : list (string * loc))
  | CEntry (e : EntryCell)
  | CSet (elems : list string)
  | CWeekly (props : list (option Z * loc))
  | CBucket (b : Bucket)
  | CWeek (w : Week)
  | CCommitItem (it : CommitItem)
  | CPrItem (it : PrItem)
  | CReviewItem (it : ReviewItem)
  | CStat (s : StatCell).

(** The locations a cell holds. *)
Definition locsOf (c : Cell) : list loc :=
  match c with
  | CArray elems => elems
  | CRepoData _ commits prs reviews => [commits; prs; reviews]
  | CReviewMap props =>
      omap (fun p => match p.2 with inr l => Some l | inl _ => None end) props
  | CReviewInfo _ submitted_at prs => [submitted_at; prs]
  | CUserMap props => props.*2
  | CEntry e =>
      [h_reposContributed e; h_weeklyData e; h_prsList e; h_reviewsList e;
       h_commitsList e]
  | CWeekly props => props.*2
  | CStat s => [s_weeklyData s; s_prsList s; s_reviewsList s; s_commitsList s]
  | CDates _ | CCommit _ | CPull _ | CPrInfo _ | CSet _ | CBucket _ | CWeek _
  | CCommitItem _ | CPrItem _ | CReviewItem _ => []
  end.

(** A run over the store: the value, if the run got that far, and the store
    it leaves. *)
Definition H (A : Type) : Type := list Cell → option A * list Cell.

Definition retH {A} (a : A) : H A := fun h => (Some a, h).

Definition bindH {A B} (m : H A) (f : A → H B) : H B :=
  fun h =>
    match m h with
    | (Some a, h') => f a h'
    | (None, h') => (None, h')
    end.

#[global] Instance H_ret : MRet H := @retH.
#[global] Instance H_bind : MBind H := fun A B f m => bindH m f.

Definition failH {A} : H A := fun h => (None, h).

(** An object or array literal: a new cell at the end of the store. *)
Definition allocH (c : Cell) : H loc := fun h => (Some (length h), h ++ [c]).

Definition readH (l : loc) : H Cell := fun h => (h !! l, h).

(** An assignment to a property, a [push], an in-place [sort]: the cell at
    the location is replaced. *)
Definition writeH (l : loc) (c : Cell) : H unit :=
  fun h => if decide (l < length h)%nat then (Some tt, <[l := c]> h) else (None, h).

Fixpoint forEachH {X} (f : X → H unit) (l : list X) : H unit :=
  match l with
  | [] => mret tt
  | x :: l' => f x;; forEachH f l'
  end.

Fixpoint mapH {X Y} (f : X → H Y) (l : list X) : H (list Y) :=
  match l with
  | [] => mret []
  | x :: l' => y ← f x; ys ← mapH f l'; mret (y :: ys)
  end.

Fixpoint filterH {X} (f : X → H bool) (l : list X) : H (list X) :=
  match l with
  | [] => mret []
  | x :: l' =>
      b ← f x; xs ← filterH f l'; mret (if b : bool then x :: xs else xs)
  end.

Definition readArray (l : loc) : H (list loc) :=
  c ← readH l; match c with CArray elems => mret elems | _ => failH end.
Definition readCommit (l : loc) : H Commit :=
  c ← readH l; match c with CCommit x => mret x | _ => failH end.
Definition readPull (l : loc) : H PullRequest :=
  c ← readH l; match c with CPull x => mret x | _ => failH end.
Definition readPrInfo (l : loc) : H PrInfo :=
  c ← readH l; match c with CPrInfo x => mret x | _ => failH end.
Definition readUserMap (l : loc) : H (list (string * loc)) :=
  c ← readH l; match c with CUserMap x => mret x | _ => failH end.
Definition readEntry (l : loc) : H EntryCell :=
  c ← readH l; match c with CEntry x => mret x | _ => failH end.
Definition readSet (l : loc) : H (list string) :=
  c ← readH l; match c with CSet x => mret x | _ => failH end.
Definition readWeekly (l : loc) : H (list (option Z * loc)) :=
  c ← readH l; match c with CWeekly x => mret x | _ => failH end.
Definition readBucket (l : loc) : H Bucket :=
  c ← readH l; match c with CBucket x => mret x | _ => failH end.
Definition readWeek (l : loc) : H Week :=
  c ← readH l; match c with CWeek x => mret x | _ => failH end.
Definition readCommitItem (l : loc) : H CommitItem :=
  c ← readH l; match c with CCommitItem x => mret x | _ => failH end.
Definition readPrItem (l : loc) : H PrItem :=
  c ← readH l; match c with CPrItem x => mret x | _ => failH end.
Definition readReviewItem (l : loc) : H ReviewItem :=
  c ← readH l; match c with CReviewItem x => mret x | _ => failH end.

(** [userMap[user].field op= ..]: the scalar fields of an entry. *)
Definition setTotals (e : EntryCell) (a d c p r : Z) : EntryCell :=
  {| h_user := h_user e; h_avatarUrl := h_avatarUrl e;
     h_additions := a; h_deletions := d; h_commits := c;
     h_pullRequests := p; h_reviews := r;
     h_reposContributed := h_reposContributed e; h_weeklyData := h_weeklyData e;
     h_prsList := h_prsList e; h_reviewsList := h_reviewsList e;
     h_commitsList := h_commitsList e |}.

Definition modifyEntry (le : loc) (f : EntryCell → EntryCell) : H unit :=
  e ← readEntry le; writeH le (CEntry (f e)).

(** [if (!userMap[user]) userMap[user] = { user, avatarUrl, .., new Set(),
    {}, [], [], [] }], and the entry's location. *)
Definition ensureEntry (lum : loc) (u : string) (avatar : option string) : H loc :=
  um ← readUserMap lum;
  match obj_get u um with
  | Some le => mret le
  | None =>
      lset ← allocH (CSet []);
      lwd ← allocH (CWeekly []);
      lprs ← allocH (CArray []);
      lrev ← allocH (CArray []);
      lcom ← allocH (CArray []);
      le ← allocH (CEntry {| h_user := u; h_avatarUrl := avatar;
                             h_additions := 0; h_deletions := 0; h_commits := 0;
                             h_pullRequests := 0; h_reviews := 0;
                             h_reposContributed := lset; h_weeklyData := lwd;
                             h_prsList := lprs; h_reviewsList := lrev;
                             h_commitsList := lcom |});
      writeH lum (CUserMap (um ++ [(u, le)]));;
      mret le
  end.

(** [userMap[user].reposContributed.add(repoName)] *)
Definition addRepo (le : loc) (repoName : string) : H unit :=
  e ← readEntry le;
  s ← readSet (h_reposContributed e);
  writeH (h_reposContributed e) (CSet (setAdd repoName s)).

(** [if (list.length < 20) list.push({ .. })] *)
Definition pushItem (larr : loc) (item : Cell) : H unit :=
  items ← readArray larr;
  if (length items <? 20)%nat
  then li ← allocH item; writeH larr (CArray (items ++ [li]))
  else mret tt.

(** [if (!weeklyData[weekTs]) weeklyData[weekTs] = {0,..}] and an update of
    that bucket. *)
Definition bumpWeekH (lwd : loc) (weekTs : option Z) (f : Bucket → Bucket) : H unit :=
  wd ← readWeekly lwd;
  lb ← match obj_get weekTs wd with
       | Some lb => mret lb
       | None =>
           lb ← allocH (CBucket zeroBucket);
           writeH lwd (CWeekly (wd ++ [(weekTs, lb)]));;
           mret lb
       end;
  b ← readBucket lb;
  writeH lb (CBucket (f b)).

(** [array.sort(cmp)], in place, for a comparison on a key of the elements. *)
Definition sortByH {K} (readKey : loc → H K) (cmp : K → K → option Z) (larr : loc)
  : H unit :=
  items ← readArray larr;
  keys ← mapH readKey items;
  writeH larr (CArray (fst <$> js_sort (fun a b => cmp a.2 b.2) (zip items keys))).

Section AggregateH.
Variables (zone : TimeZone) (now : Z) (daysFilter : option Z).

(** The body of [commits.forEach]. *)
Definition commitStepH (lum : loc) (repoName : string) (lc : loc) : H unit :=
  commit ← readCommit lc;
  match truthyStr (c_user commit) with
  | None => mret tt
  | Some u =>
      if filteredOut now daysFilter (c_date commit) then mret tt
      else
        le ← ensureEntry lum u (c_avatar_url commit);
        modifyEntry le
          (fun e => setTotals e (h_additions e) (h_deletions e) (h_commits e + 1)
                      (h_pullRequests e) (h_reviews e));;
        addRepo le repoName;;
        e ← readEntry le;
        pushItem (h_commitsList e) (CCommitItem (commitItemOf repoName commit));;
        bumpWeekH (h_weeklyData e)
          (weekTsOf zone (getTime (c_date commit))) addCommit
  end.

(** The body of [prs.forEach]. *)
Definition prStepH (lum : loc) (repoName : string) (lp : loc) : H unit :=
  pr ← readPull lp;
  match truthyStr (pr_user pr) with
  | None => mret tt
  | Some u =>
      let prDate := orDate (pr_merged_at pr) (pr_created_at pr) in
      if filteredOut now daysFilter prDate then mret tt
      else
        le ← ensureEntry lum u (pr_avatar_url pr);
        modifyEntry le
          (fun e => setTotals e (h_additions e) (h_deletions e) (h_commits e)
                      (h_pullRequests e + 1) (h_reviews e));;
        addRepo le repoName;;
        e ← readEntry le;
        pushItem (h_prsList e) (CPrItem (prItemOf repoName pr));;
        (if hasLineStats pr
         then modifyEntry le
                (fun e => setTotals e (h_additions e + orZero (pr_additions pr))
                            (h_deletions e + orZero (pr_deletions pr))
                            (h_commits e) (h_pullRequests e) (h_reviews e))
         else mret tt);;
        let weekTs := weekTsOf zone (getTime prDate) in
        bumpWeekH (h_weeklyData e) weekTs addPullRequest;;
        if hasLineStats pr
        then bumpWeekH (h_weeklyData e) weekTs
               (addLines (orZero (pr_additions pr)) (orZero (pr_deletions pr)))
        else mret tt
  end.

(** The body of [reviewedPRs.forEach]. *)
Definition reviewedStepH (repoName : string) (lrev : loc) (lp : loc) : H unit :=
  prInfo ← readPrInfo lp;
  items ← readArray lrev;
  its ← mapH readReviewItem items;
  if (length items <? 20)%nat
     && negb (existsb (fun p => bool_decide (pi_number (ri_info p) = pi_number prInfo)
                                && bool_decide (ri_repo p = repoName)) its)
  then li ← allocH (CReviewItem {| ri_info := prInfo; ri_repo := repoName |});
       writeH lrev (CArray (items ++ [li]))
  else mret tt.

(** The body of [submittedDates.forEach]. *)
Definition reviewDateStepH (le lwd : loc) (date : DateStr) : H unit :=
  let dateMs := getTime date in
  if truthyDays daysFilter && ltNum dateMs (cutoffMs now daysFilter) then mret tt
  else
    modifyEntry le
      (fun e => setTotals e (h_additions e) (h_deletions e) (h_commits e)
                  (h_pullRequests e) (h_reviews e + 1));;
    bumpWeekH lwd (weekTsOf zone dateMs) addReview.

(** The body of [Object.entries(reviews).forEach]. A property of the
    review object holds a number (the old format) or a
    [{ count, submitted_at, prs }] object. *)
Definition reviewStepH (lum : loc) (repoName : string) (entry : string * (Z + loc))
  : H unit :=
  let '(u, reviewInfo) := entry in
  info ← match reviewInfo with
         | inl n => mret (n, [], [])
         | inr lri =>
             c ← readH lri;
             match c with
             | CReviewInfo count lsub lprs =>
                 sub ← readH lsub;
                 prs ← readH lprs;
                 mret (count,
                       match sub with CDates ds => ds | _ => [] end,
                       match prs with CArray ps => ps | _ => [] end)
             | _ => failH
             end
         end;
  let '(count, submittedDates, reviewedPRs) := info in
  le ← ensureEntry lum u None;
  e ← readEntry le;
  forEachH (reviewedStepH repoName (h_reviewsList e)) reviewedPRs;;
  (if (0 <? length submittedDates)%nat
   then forEachH (reviewDateStepH le (h_weeklyData e)) submittedDates
   else modifyEntry le
          (fun e => setTotals e (h_additions e) (h_deletions e) (h_commits e)
                      (h_pullRequests e) (h_reviews e + count)));;
  e' ← readEntry le;
  if 0 <? h_reviews e' then addRepo le repoName else mret tt.

(** The body of [repoDataArray.forEach]. A property that is not an array
    (or not a review object) is skipped. *)
Definition repoStepH (lum : loc) (lrd : loc) : H unit :=
  rd ← readH lrd;
  match rd with
  | CRepoData repoName lcommits lprs lreviews =>
      commits ← readH lcommits;
      match commits with
      | CArray cs => forEachH (commitStepH lum repoName) cs
      | _ => mret tt
      end;;
      prs ← readH lprs;
      match prs with
      | CArray ps => forEachH (prStepH lum repoName) ps
      | _ => mret tt
      end;;
      reviews ← readH lreviews;
      match reviews with
      | CReviewMap props =>
          forEachH (reviewStepH lum repoName) (obj_entries strIndex props)
      | _ => mret tt
      end
  | _ => failH
  end.

Definition hasActivityH (e : EntryCell) : bool :=
  (0 <? h_additions e) || (0 <? h_deletions e) || (0 <? h_commits e)
  || (0 <? h_pullRequests e) || (0 <? h_reviews e).

(** The body of [weeklyArray.forEach] that builds [weekMap]. *)
Definition weekMapStepH (lwm : loc) (lw : loc) : H unit :=
  w ← readWeek lw;
  let normalizedTs := weekTsOf zone ((fun s => s * 1000) <$> week w) in
  wm ← readWeekly lwm;
  match obj_get normalizedTs wm with
  | None =>
      lnew ← allocH (CWeek {| week := normalizedTs; w_data := w_data w |});
      writeH lwm (CWeekly (wm ++ [(normalizedTs, lnew)]))
  | Some lm =>
      m ← readWeek lm;
      writeH lm (CWeek {| week := week m; w_data := mergeBucket (w_data m) (w_data w) |})
  end.

(** The body of the fill loop. *)
Definition fillStepH (lwm lfilled : loc) (i : Z) : H unit :=
  let ts := startTs zone now daysFilter + i * secondsPerWeek in
  wm ← readWeekly lwm;
  lw ← match obj_get (Some ts) wm with
       | Some lm => mret lm
       | None => allocH (CWeek {| week := Some ts; w_data := zeroBucket |})
       end;
  filled ← readArray lfilled;
  writeH lfilled (CArray (filled ++ [lw])).

(** The [.map] callback that emits one record. *)
Definition emitH (le : loc) : H loc :=
  stats ← readEntry le;
  wd ← readWeekly (h_weeklyData stats);
  weeks ← mapH (fun p : option Z * loc =>
                  b ← readBucket p.2;
                  allocH (CWeek {| week := p.1; w_data := b |}))
               (obj_entries numIndex wd);
  lweekly ← allocH (CArray weeks);
  sortByH (fun l => w ← readWeek l; mret (week w)) subNum lweekly;;
  weeklyArray ← readArray lweekly;
  lwm ← allocH (CWeekly []);
  forEachH (weekMapStepH lwm) weeklyArray;;
  lfilled ← allocH (CArray []);
  forEachH (fillStepH lwm lfilled) (seqZ 0 (maxWeeks daysFilter));;
  repos ← readSet (h_reposContributed stats);
  sortByH (fun l => it ← readPrItem l; mret (pri_date it)) byDateDesc (h_prsList stats);;
  sortByH (fun l => it ← readCommitItem l; mret (ci_date it)) byDateDesc
          (h_commitsList stats);;
  allocH (CStat {| s_user := h_user stats; s_avatarUrl := h_avatarUrl stats;
                   s_additions := h_additions stats;
                   s_deletions := h_deletions stats;
                   s_net := h_additions stats - h_deletions stats;
                   s_commits := h_commits stats;
                   s_pullRequests := h_pullRequests stats;
                   s_reviews := h_reviews stats;
                   s_reposCount := Z.of_nat (length repos);
                   s_weeklyData := lfilled;
                   s_prsList := h_prsList stats;
                   s_reviewsList := h_reviewsList stats;
                   s_commitsList := h_commitsList stats |}).

(** [aggregateStats(repoDataArray, daysFilter)]: the location of the array
    it returns. *)
Definition aggregateStatsH (repoDataArray : loc) : H loc :=
  lum ← allocH (CUserMap []);
  repos ← readArray repoDataArray;
  forEachH (repoStepH lum) repos;;
  um ← readUserMap lum;
  lvalues ← allocH (CArray ((obj_entries strIndex um).*2));
  values ← readArray lvalues;
  kept ← filterH (fun le => e ← readEntry le; mret (hasActivityH e)) values;
  lkept ← allocH (CArray kept);
  outs ← mapH emitH kept;
  allocH (CArray outs).
End AggregateH.

(** *** The orchestrator's array in the store

    The objects a collection produces, as cells, and the tail of the loop
    of [fetchAllStats] when [onDataUpdate] is given: push the record on
    [repoDataArray], aggregate over the array, go on; aggregate once more
    at the end. [clock i] is what [Date.now()] returns during the i-th
    aggregation. *)
Definition storeReview (entry : string * ReviewInfo) : H (string * (Z + loc)) :=
  match entry.2 with
  | ReviewCount n => mret (entry.1, inl n)
  | ReviewObj n ds ps =>
      lsub ← allocH (CDates ds);
      lps ← mapH (fun p => allocH (CPrInfo p)) ps;
      lprs ← allocH (CArray lps);
      lri ← allocH (CReviewInfo n lsub lprs);
      mret (entry.1, inr lri)
  end.

Definition storeRepo (rd : RepoData) : H loc :=
  lcs ← mapH (fun c => allocH (CCommit c)) (rd_commits rd);
  lcommits ← allocH (CArray lcs);
  lps ← mapH (fun pr => allocH (CPull pr)) (rd_prs rd);
  lprs ← allocH (CArray lps);
  props ← mapH storeReview (rd_reviews rd);
  lreviews ← allocH (CReviewMap props);
  allocH (CRepoData (rd_repoName rd) lcommits lprs lreviews).

Fixpoint snapshotsH (zone : TimeZone) (clock : nat → Z) (daysFilter : option Z)
    (repoDataArray : loc) (i : nat) (collected : list RepoData) : H (list loc) :=
  match collected with
  | [] =>
      final ← aggregateStatsH zone (clock i) daysFilter repoDataArray;
      mret [final]
  | rd :: rest =>
      lrd ← storeRepo rd;
      arr ← readArray repoDataArray;
      writeH repoDataArray (CArray (arr ++ [lrd]));;
      currentAggregated ← aggregateStatsH zone (clock i) daysFilter repoDataArray;
      later ← snapshotsH zone clock daysFilter repoDataArray (S i) rest;
      mret (currentAggregated :: later)
  end.

(** Reading a result back from the store. *)
Definition loadArray {X} (h : list Cell) (rd : Cell → option X) (l : loc)
  : option (list X) :=
  c ← h !! l;
  match c with
  | CArray elems => mapM (fun l' => c' ← h !! l'; rd c') elems
  | _ => None
  end.

Definition asCommit (c : Cell) : option Commit :=
  match c with CCommit x => Some x | _ => None end.
Definition asPull (c : Cell) : option PullRequest :=
  match c with CPull x => Some x | _ => None end.
Definition asPrInfo (c : Cell) : option PrInfo :=
  match c with CPrInfo x => Some x | _ => None end.
Definition asDates (c : Cell) : option (list DateStr) :=
  match c with CDates x => Some x | _ => None end.
Definition asWeek (c : Cell) : option Week :=
  match c with CWeek x => Some x | _ => None end.
Definition asCommitItem (c : Cell) : option CommitItem :=
  match c with CCommitItem x => Some x | _ => None end.
Definition asPrItem (c : Cell) : option PrItem :=
  match c with CPrItem x => Some x | _ => None end.
Definition asReviewItem (c : Cell) : option ReviewItem :=
  match c with CReviewItem x => Some x | _ => None end.

Definition loadStat (h : list Cell) (c : Cell) : option ContributorStat :=
  match c with
  | CStat s =>
      ws ← loadArray h asWeek (s_weeklyData s);
      ps ← loadArray h asPrItem (s_prsList s);
      rs ← loadArray h asReviewItem (s_reviewsList s);
      cs ← loadArray h asCommitItem (s_commitsList s);
      Some {| user := s_user s; avatarUrl := s_avatarUrl s;
              additions := s_additions s; deletions := s_deletions s;
              net := s_net s; commits := s_commits s;
              pullRequests := s_pullRequests s; reviews := s_reviews s;
              reposCount := s_reposCount s; weeklyData := ws;
              prsList := ps; reviewsList := rs; commitsList := cs |}
  | _ => None
  end.

Definition loadStats (h : list Cell) (l : loc) : option (list ContributorStat) :=
  loadArray h (loadStat h) l.

(** Reading the argument back from the store: a property of the review
    object, a repository record, the array of records. *)
Definition loadReview (h : list Cell) (p : string * (Z + loc))
  : option (string * ReviewInfo) :=
  match p.2 with
  | inl n => Some (p.1, ReviewCount n)
  | inr l =>
      c ← h !! l;
      match c with
      | CReviewInfo n lsub lprs =>
          ds ← h !! lsub ≫= asDates;
          ps ← loadArray h asPrInfo lprs;
          Some (p.1, ReviewObj n ds ps)
      | _ => None
      end
  end.

Definition loadRepo (h : list Cell) (c : Cell) : option RepoData :=
  match c with
  | CRepoData repoName lcommits lprs lreviews =>
      cs ← loadArray h asCommit lcommits;
      ps ← loadArray h asPull lprs;
      reviews ← h !! lreviews;
      rs ← match reviews with
           | CReviewMap props => mapM (loadReview h) props
           | _ => None
           end;
      Some {| rd_repoName := repoName; rd_commits := cs; rd_prs := ps;
              rd_reviews := rs |}
  | _ => None
  end.

Definition loadRepos (h : list Cell) (l : loc) : option (list RepoData) :=
  loadArray h (loadRepo h) l.

(** *** What a run owns

    The store as a resource: a run is specified by the cells it needs and
    the cells it leaves, each described by the value it stands for. A cell
    that is only read is held with a fraction [dq]; the cells of an
    argument or of a finished result are held read-only. *)
Notation "l ↦ dq c" := (pointsto (L:=nat) (V:=Cell) l dq c)
  (at level 20, dq custom dfrac at level 1, format "l  ↦ dq  c") : bi_scope.

Definition heapOf (h : list Cell) : gmap nat Cell := map_seq 0%nat h.

Definition sameScalars (ec : EntryCell) (e : UserEntry) : Prop :=
  h_user ec = e_user e ∧ h_avatarUrl ec = e_avatarUrl e
  ∧ h_additions ec = e_additions e ∧ h_deletions ec = e_deletions e
  ∧ h_commits ec = e_commits e ∧ h_pullRequests ec = e_pullRequests e
  ∧ h_reviews ec = e_reviews e.

Definition statScalars (sc : StatCell) (s : ContributorStat) : Prop :=
  s_user sc = user s ∧ s_avatarUrl sc = avatarUrl s
  ∧ s_additions sc = additions s ∧ s_deletions sc = deletions s
  ∧ s_net sc = net s ∧ s_commits sc = commits s
  ∧ s_pullRequests sc = pullRequests s ∧ s_reviews sc = reviews s
  ∧ s_reposCount sc = reposCount s.

Definition samePointers (ptr ec : EntryCell) : Prop :=
  h_reposContributed ec = h_reposContributed ptr
  ∧ h_weeklyData ec = h_weeklyData ptr
  ∧ h_prsList ec = h_prsList ptr
  ∧ h_reviewsList ec = h_reviewsList ptr
  ∧ h_commitsList ec = h_commitsList ptr.

Section HeapLogic.
Context `{!gen_heapGS nat Cell Σ}.

(** From any store that holds the cells the run needs, the run returns,
    and leaves a store that holds the cells of [post]. *)
Definition wpH {A} (m : H A) (post : A → iProp Σ) : iProp Σ :=
  (∀ h, gen_heap_interp (heapOf h) ==∗
        ∃ a h', ⌜m h = (Some a, h')⌝ ∗ gen_heap_interp (heapOf h') ∗ post a)%I.

(** An array of objects, one cell each. *)
Definition isItems {X} (inj : X → Cell) (dq : dfrac) (la : loc) (xs : list X)
  : iProp Σ :=
  (∃ ls, la ↦{dq} CArray ls ∗ [∗ list] l;x ∈ ls;xs, l ↦{dq} inj x)%I.

(** The properties of an object used as a map, each standing for a
    value. *)
Definition keyed {K V} (R : loc → V → iProp Σ) (props : list (K * loc))
    (m : list (K * V)) : iProp Σ :=
  ([∗ list] p;q ∈ props;m, ⌜p.1 = q.1⌝ ∗ R p.2 q.2)%I.

Definition isKeyed {V} (inj : V → Cell) (dq : dfrac) (l : loc)
    (m : list (option Z * V)) : iProp Σ :=
  (∃ props, l ↦{dq} CWeekly props ∗ keyed (fun l v => l ↦{dq} inj v) props m)%I.

Definition isEntry (le : loc) (e : UserEntry) : iProp Σ :=
  (∃ ec, le ↦ CEntry ec ∗ ⌜sameScalars ec e⌝
         ∗ h_reposContributed ec ↦ CSet (e_reposContributed e)
         ∗ isKeyed CBucket (DfracOwn 1) (h_weeklyData ec) (e_weeklyData e)
         ∗ isItems CPrItem (DfracOwn 1) (h_prsList ec) (e_prsList e)
         ∗ isItems CReviewItem (DfracOwn 1) (h_reviewsList ec) (e_reviewsList e)
         ∗ isItems CCommitItem (DfracOwn 1) (h_commitsList ec) (e_commitsList e))%I.

(** The same, for an entry whose set, buckets and lists are known to be
    those [ptr] points to. *)
Definition entryAt (le : loc) (ptr : EntryCell) (e : UserEntry) : iProp Σ :=
  (∃ ec, le ↦ CEntry ec ∗ ⌜samePointers ptr ec⌝ ∗ ⌜sameScalars ec e⌝
         ∗ h_reposContributed ptr ↦ CSet (e_reposContributed e)
         ∗ isKeyed CBucket (DfracOwn 1) (h_weeklyData ptr) (e_weeklyData e)
         ∗ isItems CPrItem (DfracOwn 1) (h_prsList ptr) (e_prsList e)
         ∗ isItems CReviewItem (DfracOwn 1) (h_reviewsList ptr) (e_reviewsList e)
         ∗ isItems CCommitItem (DfracOwn 1) (h_commitsList ptr) (e_commitsList e))%I.

Definition isUserMap (lum : loc) (um : list (string * UserEntry)) : iProp Σ :=
  (∃ props, lum ↦ CUserMap props ∗ keyed isEntry props um)%I.

(** The argument. *)
Definition isReview (p : string * (Z + loc)) (r : string * ReviewInfo) : iProp Σ :=
  (⌜p.1 = r.1⌝ ∗
   match p.2, r.2 with
   | inl n, ReviewCount m => ⌜n = m⌝
   | inr l, ReviewObj n ds ps =>
       ∃ lsub lprs, l ↦□ CReviewInfo n lsub lprs ∗ lsub ↦□ CDates ds
                    ∗ isItems CPrInfo DfracDiscarded lprs ps
   | _, _ => False
   end)%I.

Definition isRepo (l : loc) (rd : RepoData) : iProp Σ :=
  (∃ lcommits lprs lreviews props,
     l ↦□ CRepoData (rd_repoName rd) lcommits lprs lreviews
     ∗ isItems CCommit DfracDiscarded lcommits (rd_commits rd)
     ∗ isItems CPull DfracDiscarded lprs (rd_prs rd)
     ∗ lreviews ↦□ CReviewMap props
     ∗ [∗ list] p;r ∈ props;rd_reviews rd, isReview p r)%I.

Definition isRepos (dq : dfrac) (l : loc) (input : list RepoData) : iProp Σ :=
  (∃ ls, l ↦{dq} CArray ls ∗ [∗ list] l';rd ∈ ls;input, isRepo l' rd)%I.

(** The result. *)
Definition isStat (l : loc) (s : ContributorStat) : iProp Σ :=
  (∃ sc, l ↦□ CStat sc ∗ ⌜statScalars sc s⌝
         ∗ isItems CWeek DfracDiscarded (s_weeklyData sc) (weeklyData s)
         ∗ isItems CPrItem DfracDiscarded (s_prsList sc) (prsList s)
         ∗ isItems CReviewItem DfracDiscarded (s_reviewsList sc) (reviewsList s)
         ∗ isItems CCommitItem DfracDiscarded (s_commitsList sc) (commitsList s))%I.

Definition isStats (l : loc) (ss : list ContributorStat) : iProp Σ :=
  (∃ ls, l ↦□ CArray ls ∗ [∗ list] l';s ∈ ls;ss, isStat l' s)%I.
End HeapLogic.

(** What the aggregations of the loop return in the functional model: one
    result after each push, over the records pushed so far, and one at the
    end over all of them. *)
Fixpoint snapshotResults (zone : TimeZone) (clock : nat → Z) (daysFilter : option Z)
    (i : nat) (pushed collected : list RepoData) : list (list ContributorStat) :=
  match collected with
  | [] => [aggregateStats zone (clock i) daysFilter pushed]
  | rd :: rest =>
      aggregateStats zone (clock i) daysFilter (pushed ++ [rd])
        :: snapshotResults zone clock daysFilter (S i) (pushed ++ [rd]) rest
  end.

(** No cell from [base] on holds a location below [base]. *)
Definition closedFrom (base : nat) (h : list Cell) : Prop :=
  ∀ l c, (base ≤ l)%nat → h !! l = Some c → Forall (fun l' => (base ≤ l')%nat) (locsOf c).

(** A run from a store that is closed from [base] on leaves the cells
    below [base] as they are and the store closed, and what it returns
    satisfies [Q]. *)
Definition keeps {A} (base : nat) (m : H A) (Q : A → Prop) : Prop :=
  ∀ h, (base ≤ length h)%nat → closedFrom base h →
       (length h ≤ length (m h).2)%nat
       ∧ (∀ l, (l < base)%nat → (m h).2 !! l = h !! l)
       ∧ closedFrom base (m h).2
       ∧ ∀ a, (m h).1 = Some a → Q a.

(** The objects an entry of the user map points to are objects of the run. *)
Definition ownEntry (base : nat) (e : EntryCell) : Prop :=
  (base ≤ h_reposContributed e)%nat ∧ (base ≤ h_weeklyData e)%nat
  ∧ (base ≤ h_prsList e)%nat ∧ (base ≤ h_reviewsList e)%nat
  ∧ (base ≤ h_commitsList e)%nat.

(** ** Observations on the result *)

(** [a] is dated, and not before [b]. *)
Definition notBefore (a b : DateStr) : Prop :=
  match getTime a, getTime b with
  | Some x, Some y => y ≤ x
  | _, _ => False
  end.

(** The [commits] total the result reports for a login; 0 when the login has
    no record. *)
Definition commitsOfUser (u : string) (out : list ContributorStat) : Z :=
  match list_find (fun r => user r = u) out with
  | Some (_, r) => commits r
  | None => 0
  end.

(** The commits of [repoDataArray] that are attributed to [u], in the order
    [aggregateStats] visits them. *)
Definition commitsBy (u : string) (repoDataArray : list RepoData) : list Commit :=
  filter (fun c => truthyStr (c_user c) = Some u)
         (concat (rd_commits <$> repoDataArray)).

(** An item of a contributor's list stems from an input item that is
    attributed to the contributor and passes the time filter. *)
Definition commitItemFrom (now : Z) (daysFilter : option Z)
    (repoDataArray : list RepoData) (u : string) (it : CommitItem) : Prop :=
  ∃ rd c, rd ∈ repoDataArray ∧ c ∈ rd_commits rd
          ∧ truthyStr (c_user c) = Some u
          ∧ filteredOut now daysFilter (c_date c) = false
          ∧ it = commitItemOf (rd_repoName rd) c.

Definition prItemFrom (now : Z) (daysFilter : option Z)
    (repoDataArray : list RepoData) (u : string) (it : PrItem) : Prop :=
  ∃ rd pr, rd ∈ repoDataArray ∧ pr ∈ rd_prs rd
           ∧ truthyStr (pr_user pr) = Some u
           ∧ filteredOut now daysFilter
               (orDate (pr_merged_at pr) (pr_created_at pr)) = false
           ∧ it = prItemOf (rd_repoName rd) pr.

Definition reviewItemFrom (repoDataArray : list RepoData) (u : string)
    (it : ReviewItem) : Prop :=
  ∃ rd n ds ps p, rd ∈ repoDataArray ∧ (u, ReviewObj n ds ps) ∈ rd_reviews rd
                  ∧ p ∈ ps
                  ∧ it = {| ri_info := p; ri_repo := rd_repoName rd |}.

(** A request for a page of the pull-request listing. *)
Definition isPullsPage (ev : Event) : bool :=
  match ev with
  | EFetch _ (GetPulls _ _ _) _ => true
  | _ => false
  end.

(** A page of the listing that came back with at least one pull request,
    none of which passes the date filter. *)
Definition allFilteredOut (since : Z) (ev : Event) : bool :=
  match ev with
  | EFetch _ (GetPulls _ _ _) (Responds _ r) =>
      ok r && match body r with
              | BodyPulls data =>
                  (0 <? length data)%nat
                  && forallb (fun pr => negb (keptSince since pr)) data
              | _ => false
              end
  | _ => false
  end.

(** A pull request without its enrichment fields. *)
Definition stripDetails (pr : PullRequest) : PullRequest :=
  {| pr_number := pr_number pr; pr_user := pr_user pr;
     pr_avatar_url := pr_avatar_url pr; pr_created_at := pr_created_at pr;
     pr_merged_at := pr_merged_at pr; pr_state := pr_state pr;
     pr_title := pr_title pr; pr_url := pr_url pr;
     pr_additions := None; pr_deletions := None;
     pr_commits := None; pr_changed_files := None |}.

(** [raw] was listed on a page fetched during [tr]. *)
Definition listedIn (tr : list Event) (raw : RawPull) : Prop :=
  ∃ token org repo page dt r data,
    EFetch token (GetPulls org repo page) (Responds dt r) ∈ tr
    ∧ ok r = true ∧ body r = BodyPulls data ∧ raw ∈ data.

(** The percentages, the snapshots and the failures a run reported. *)
(** The world after a callback, which is called when it was given. *)
Definition tell (present : bool) (ev : Event) (w : World) : World :=
  {| w_store := w_store w; w_clock := w_clock w;
     w_trace := w_trace w ++ (if present then [ev] else []) |}.

Definition progressOf (tr : list Event) : list (option Z) :=
  omap (fun ev => match ev with EProgress p => Some p | _ => None end) tr.

Definition updatesOf (tr : list Event) : list (list ContributorStat * Z * Z) :=
  omap (fun ev => match ev with
                  | EDataUpdate data k total => Some (data, k, total)
                  | _ => None
                  end) tr.

(** Events of a collection: requests, and the closing [complete] log. *)
Definition isCollecting (ev : Event) : Prop :=
  match ev with
  | EFetch _ _ _ | ELog (LogComplete _ _ _ _ _ _ _ _ _ _) => True
  | _ => False
  end.

(** Every event a computation adds to the trace satisfies [P]. *)
Definition emits {A : Type} (P : Event → Prop) (m : M A) : Prop :=
  ∀ w, ∃ tr, w_trace (m w).2 = w_trace w ++ tr ∧ Forall P tr.

(** A computation returns a value, whatever the world it starts in. *)
Definition succeeds {A : Type} (m : M A) : Prop :=
  ∀ w, ∃ a w', m w = (Ok a, w').

(** A computation ends within the iterations granted to its loops. *)
Definition terminates {A : Type} (m : M A) : Prop :=
  ∀ w, (m w).1 ≠ OutOfFuel.

(** What [userMap] holds for a login, and whether a commit is counted for
    it. *)
Definition userCommits (u : string) (um : list (string * UserEntry)) : Z :=
  match obj_get u um with
  | Some e => e_commits e
  | None => 0
  end.

Definition counted (now : Z) (daysFilter : option Z) (u : string) (c : Commit) : bool :=
  bool_decide (truthyStr (c_user c) = Some u)
  && negb (filteredOut now daysFilter (c_date c)).

(** The day number of the Sunday that starts the local week of an instant. *)
Definition sundayOf (tzMinutes t : Z) : Z :=
  let L := (t + tzMs tzMinutes) / msPerDay in L - (L + 4) mod 7.

(** A key of a weekly bucket is fixed by the renormalisation. *)
Definition normalized (zone : TimeZone) (k : option Z) : Prop :=
  weekTsOf zone ((fun s => s * 1000) <$> k) = k.

(** What the paging loop leaves behind: only page requests, and nothing
    after a page whose pull requests were all filtered out. *)
Definition pagesOnly (since : Z) (tr : list Event) : Prop :=
  Forall (fun ev => isPullsPage ev = true) tr
  ∧ ∀ pre ev post, tr = pre ++ ev :: post → allFilteredOut since ev = true → post = [].

(** The events of polling the statistics endpoint: one request per
    outcome, with a wait of 1.5 s between consecutive requests. *)
Fixpoint pollTrace (token org repoName : string) (outs : list Outcome) : list Event :=
  match outs with
  | [] => []
  | [out] => [EFetch token (GetStatsContributors org repoName) out]
  | out :: rest =>
      EFetch token (GetStatsContributors org repoName) out
        :: EDelay 1500 :: pollTrace token org repoName rest
  end.

(** A wait of 1.5 s. *)
Definition isWait (ev : Event) : bool :=
  match ev with
  | EDelay ms => ms =? 1500
  | _ => false
  end.

(** The time a request took. *)
Definition elapsedOf (out : Outcome) : Z :=
  match out with
  | Responds dt _ | Rejects dt _ => dt
  end.

(** A response saying that the statistics are still being computed. *)
Definition stillComputing (out : Outcome) : Prop :=
  match out with
  | Responds _ r => status r = 202
  | Rejects _ _ => False
  end.

(** ** Sample inputs *)

Definition sampleCommit (u : string) (date : DateStr) : Commit :=
  {| c_sha := "0123456789abcdef"; c_user := Some u; c_avatar_url := None;
     c_message := "update"; c_date := date; c_url := None |}.

(** A run at 2023-11-14T22:13:20.500Z over the last 7 days: the cutoff is
    2023-11-07T22:13:20.500Z, half a second past a whole second. *)
Definition sampleNow : Z := 1700000000500.

(** Twenty commits of alice from 2020 in a first repository, and her newest
    commit, from 2023, in a second one. *)
Definition legacyRepo : RepoData :=
  {| rd_repoName := "legacy";
     rd_commits :=
       (fun k => sampleCommit "alice" (Iso (1600000000000 - k * 86400000))) <$> seqZ 0 20;
     rd_prs := []; rd_reviews := [] |}.

Definition appRepo : RepoData :=
  {| rd_repoName := "app";
     rd_commits := [sampleCommit "alice" (Iso 1699000000000)];
     rd_prs := []; rd_reviews := [] |}.

Definition oneCommitRepo (ms : Z) : RepoData :=
  {| rd_repoName := "app"; rd_commits := [sampleCommit "alice" (Iso ms)];
     rd_prs := []; rd_reviews := [] |}.

(** A codec for text payloads, to run the cache on: the timestamp in binary,
    least significant bit first and closed by a dot, then the text. *)
Fixpoint encodePos (p : positive) (rest : string) : string :=
  match p with
  | xH => String "." rest
  | xO p' => String "0" (encodePos p' rest)
  | xI p' => String "1" (encodePos p' rest)
  end.

Fixpoint decodePos (s : string) : option (positive * string) :=
  match s with
  | EmptyString => None
  | String c s' =>
      if bool_decide (c = "."%char) then Some (xH, s')
      else if bool_decide (c = "0"%char)
           then (fun r => (xO r.1, r.2)) <$> decodePos s'
           else if bool_decide (c = "1"%char)
                then (fun r => (xI r.1, r.2)) <$> decodePos s'
                else None
  end.

Definition sampleStringify (data : string) (timestamp : Z) : string :=
  match timestamp with
  | Z0 => String "z" data
  | Zpos p => String "+" (encodePos p data)
  | Zneg p => String "-" (encodePos p data)
  end.

Definition sampleParse (s : string) : option (string * option Z) :=
  match s with
  | EmptyString => None
  | String c s' =>
      if bool_decide (c = "z"%char) then Some (s', Some 0)
      else if bool_decide (c = "+"%char)
           then (fun r => (r.2, Some (Zpos r.1))) <$> decodePos s'
           else if bool_decide (c = "-"%char)
                then (fun r => (r.2, Some (Zneg r.1))) <$> decodePos s'
                else None
  end.

Definition sampleTimestampOf (s : string) : option (option Z) :=
  snd <$> sampleParse s.

(** A text of 512000 characters: with its timestamp it passes 500KB. *)
Definition largeText : string :=
  string_of_list_ascii (repeat "a"%char (Z.to_nat 512000)).

(** A world to run the collector in: an empty store at the sample instant,
    a codec whose entries never parse, and a source that answers every
    request after 120 ms; its pull-request pages hold a hundred pull
    requests each, all last touched in 2020. *)
Definition freshWorld : World :=
  {| w_store := ∅; w_clock := sampleNow; w_trace := [] |}.

Definition nullCodec {A : Type} : Codec A :=
  {| stringify := fun _ _ => "{}"%string; parse := fun _ => None |}.

Definition sampleISO (ms : Z) : string := pretty ms.

Definition stalePull (n : Z) : RawPull :=
  {| rp_number := n; rp_login := Some "bob"%string; rp_avatar_url := None;
     rp_created_at := Iso 1590000000000; rp_merged_at := Null;
     rp_closed_at := Null; rp_updated_at := Iso 1600000000000;
     rp_state := "open"; rp_title := Some "Old work"%string; rp_html_url := None |}.

Definition staleNet (_ : list Event) (_ : string) (req : Request) : Outcome :=
  Responds 120
    {| status := 200; rateLimitRemaining := Some "4999"%string;
       rateLimitReset := None;
       body := match req with
               | GetPulls _ _ _ => BodyPulls (stalePull <$> seqZ 1 100)
               | GetCommits _ _ _ _ _ => BodyCommits []
               | GetReviews _ _ _ => BodyReviews []
               | _ => BodyInvalid
               end |}.

(** A source whose statistics endpoint never gets past "computing", and
    whose commit listing holds two commits of alice. *)
Definition computingNet (_ : list Event) (_ : string) (req : Request) : Outcome :=
  match req with
  | GetStatsContributors _ _ =>
      Responds 80 {| status := 202; rateLimitRemaining := Some "4990"%string;
                     rateLimitReset := None; body := BodyStats None |}
  | GetCommits _ _ _ _ _ =>
      Responds 120
        {| status := 200; rateLimitRemaining := Some "4990"%string;
           rateLimitReset := None;
           body := BodyCommits
                     [ {| rc_sha := "a1"; rc_login := Some "alice"%string;
                          rc_avatar_url := None; rc_message := Some "one"%string;
                          rc_author_date := Iso 1699900000000;
                          rc_committer_date := Undefined; rc_html_url := None |};
                       {| rc_sha := "b2"; rc_login := Some "alice"%string;
                          rc_avatar_url := None; rc_message := Some "two"%string;
                          rc_author_date := Iso 1699000000000;
                          rc_committer_date := Undefined; rc_html_url := None |} ] |}
  | GetCommit _ _ _ =>
      Responds 90
        {| status := 200; rateLimitRemaining := Some "4990"%string;
           rateLimitReset := None; body := BodyCommit (Some (Some 12, Some 3)) |}
  | _ =>
      Responds 100
        {| status := 404; rateLimitRemaining := Some "4990"%string;
           rateLimitReset := None; body := BodyInvalid |}
  end.

Definition sampleYearBefore (t : Z) : Z := t - 365 * msPerDay.

(** A source that drops every request about the repository [broken] and
    lists one fresh commit of alice for any other repository. *)
Definition flakyNet (_ : list Event) (_ : string) (req : Request) : Outcome :=
  let answer (repo : string) (b : Body) : Outcome :=
    if bool_decide (repo = "broken"%string) then Rejects 50 "Failed to fetch"
    else Responds 100 {| status := 200; rateLimitRemaining := Some "4000"%string;
                         rateLimitReset := None; body := b |} in
  match req with
  | GetCommits _ repo _ _ _ =>
      answer repo
        (BodyCommits [ {| rc_sha := "c0ffee1234"; rc_login := Some "alice"%string;
                          rc_avatar_url := None; rc_message := Some "fix"%string;
                          rc_author_date := Iso (sampleNow - 3600000);
                          rc_committer_date := Undefined; rc_html_url := None |} ])
  | GetPulls _ repo _ => answer repo (BodyPulls [])
  | GetReviews _ repo _ => answer repo (BodyReviews [])
  | GetStatsContributors _ repo => answer repo (BodyStats None)
  | GetCommit _ repo _ => answer repo (BodyCommit None)
  | GetPull _ repo _ => answer repo BodyInvalid
  end.

Definition sampleRepos : list Repo :=
  [ mkRepo "web" (Some "main"%string); mkRepo "broken" None; mkRepo "api" None ].

Definition allCallbacks : Callbacks :=
  {| onProgress := true; onDataUpdate := true; onLog := true |}.

(** The [error] events of a trace. *)
Definition errorsOf (tr : list Event) : list LogEvent :=
  omap (fun ev => match ev with
                  | ELog (LogError r i t e) => Some (LogError r i t e)
                  | _ => None
                  end) tr.

(** Login, commits and repositories of each record of a result. *)
Definition summaryOf (res : Result (list ContributorStat)) : list (string * Z * Z) :=
  match res with
  | Ok out => (fun r => (user r, commits r, reposCount r)) <$> out
  | _ => []
  end.

(** The number of records, the index and the total of each snapshot. *)
Definition snapshotsOf (tr : list Event) : list (nat * Z * Z) :=
  (fun u : list ContributorStat * Z * Z => (length u.1.1, u.1.2, u.2)) <$> updatesOf tr.

(** Two repositories as collected: commits, a merged pull request with
    line counts, and reviews in both formats. *)
Definition webRepo : RepoData :=
  {| rd_repoName := "web";
     rd_commits := [ sampleCommit "alice" (Iso (sampleNow - 86400000));
                     sampleCommit "bob" (Iso (sampleNow - 2 * 86400000));
                     sampleCommit "alice" (Iso (sampleNow - 9 * 86400000)) ];
     rd_prs := [ {| pr_number := 7; pr_user := Some "bob"%string; pr_avatar_url := None;
                    pr_created_at := Iso (sampleNow - 3 * 86400000);
                    pr_merged_at := Iso (sampleNow - 2 * 86400000);
                    pr_state := "closed"; pr_title := Some "Speed up"%string;
                    pr_url := None; pr_additions := Some 10; pr_deletions := Some 2;
                    pr_commits := Some 1; pr_changed_files := Some 1 |} ];
     rd_reviews := [ ("carol"%string,
                      ReviewObj 2 [Iso (sampleNow - 86400000); Iso (sampleNow - 90000000)]
                                [ {| pi_number := 7; pi_title := "Speed up"; pi_url := None |} ]);
                     ("dave"%string, ReviewCount 3) ] |}.

Definition sampleCollected : list RepoData := [webRepo; appRepo].

(** A store as the application leaves it: the token under its own key, and
    the listing of an organisation cached at the sample instant. *)
Definition sampleStore : gmap string string :=
  {[ "github_leaderboard_token"%string := "ghp_x"%string;
     (CACHE_PREFIX +:+ "repos_acme")%string := sampleStringify "[]" sampleNow ]}.

(** ** Totals of a contributor, read off the input *)

Definition sumZ (l : list Z) : Z := foldr Z.add 0 l.

(** Whether a pull request is counted for [u]: opened by [u], and its date
    ([merged_at || created_at]) passes the time filter. *)
Definition countedPr (now : Z) (daysFilter : option Z) (u : string)
    (pr : PullRequest) : bool :=
  bool_decide (truthyStr (pr_user pr) = Some u)
  && negb (filteredOut now daysFilter (orDate (pr_merged_at pr) (pr_created_at pr))).

(** The pull requests of [repoDataArray] counted for [u], in the order
    [aggregateStats] visits them. *)
Definition prsBy (now : Z) (daysFilter : option Z) (u : string)
    (repoDataArray : list RepoData) : list PullRequest :=
  filter (fun pr => countedPr now daysFilter u pr)
         (concat (rd_prs <$> repoDataArray)).

(** The lines a pull request contributes: those of a merged pull request
    that carries line counts, none otherwise. *)
Definition linesAdded (pr : PullRequest) : Z :=
  if hasLineStats pr then orZero (pr_additions pr) else 0.

Definition linesDeleted (pr : PullRequest) : Z :=
  if hasLineStats pr then orZero (pr_deletions pr) else 0.

(** The values the review maps of [repoDataArray] hold for [u]. *)
Definition reviewsBy (u : string) (repoDataArray : list RepoData) : list ReviewInfo :=
  snd <$> filter (fun p => p.1 = u) (concat (rd_reviews <$> repoDataArray)).

(** What one value of a review map adds to [reviews]: with submission
    dates, the number of dates that pass the time filter; without, the
    count as it stands. *)
Definition reviewsCounted (now : Z) (daysFilter : option Z) (ri : ReviewInfo) : Z :=
  match ri with
  | ReviewCount n => n
  | ReviewObj n ds _ =>
      if (0 <? length ds)%nat
      then Z.of_nat (length (filter
             (fun d => negb (truthyDays daysFilter
                             && ltNum (getTime d) (cutoffMs now daysFilter))) ds))
      else n
  end.

(** ** Listing the repositories of an organisation *)

(** An element of the listing of an organisation's repositories: the eleven
    properties [fetchRepos] keeps, and the other properties, by name, as
    JSON text. *)
Record RawRepo : Type := mkRawRepo {
  raw_id : Z;
  raw_name : string;
  raw_full_name : string;
  raw_description : option string;
  raw_updated_at : DateStr;
  raw_pushed_at : DateStr;
  raw_stargazers_count : Z;
  raw_fork : bool;
  raw_language : option string;
  raw_default_branch : option string;
  raw_size : Z;
  raw_others : list (string * string);
}.

(** An element of the list [fetchRepos] returns and caches. *)
Record RepoMetadata : Type := mkRepoMetadata {
  rm_id : Z;
  rm_name : string;
  rm_full_name : string;
  rm_description : option string;
  rm_updated_at : DateStr;
  rm_pushed_at : DateStr;
  rm_stargazers_count : Z;
  rm_fork : bool;
  rm_language : option string;
  rm_default_branch : option string;
  rm_size : Z;
}.

(** A response to a request for a page of the listing; [lr_body] is what
    [response.json()] resolves to, [None] when it rejects or is no array. *)
Record ListingResponse : Type := mkListingResponse {
  lr_status : Z;
  lr_statusText : string;
  lr_rateLimitRemaining : option string;
  lr_rateLimitReset : option Z;
  lr_body : option (list RawRepo);
}.

Definition lr_ok (r : ListingResponse) : bool :=
  (200 <=? lr_status r) && (lr_status r <=? 299).

Inductive ListingOutcome : Type :=
  | ListingResponds (elapsed : Z) (r : ListingResponse)
  | ListingRejects (elapsed : Z) (message : string).

(** A request for page [lc_page] of the repositories of [lc_org], sent with
    the headers of [getHeaders(lc_token)], and how it ended. *)
Record ListingCall : Type := mkListingCall {
  lc_token : string;
  lc_org : string;
  lc_page : Z;
  lc_outcome : ListingOutcome;
}.

(** The state a listing threads: [localStorage], the clock, and the
    requests so far, oldest first. *)
Record ListingWorld : Type := mkListingWorld {
  lw_store : gmap string string;
  lw_clock : Z;
  lw_calls : list ListingCall;
}.

Section Listing.
(** How the REST source answers a request for a page, given the requests
    before, the token and the organisation. *)
Variable source : list ListingCall → string → string → Z → ListingOutcome.
Variable fits : gmap string string → bool.
Variable toLocaleTimeString : Z → string.
Variable timestampOf : string → option (option Z).
Variable reposCodec : Codec (list RepoMetadata).

(** The callback of [repos.map]. *)
Definition metadataOf (repo : RawRepo) : RepoMetadata :=
  {| rm_id := raw_id repo;
     rm_name := raw_name repo;
     rm_full_name := raw_full_name repo;
     rm_description := raw_description repo;
     rm_updated_at := raw_updated_at repo;
     rm_pushed_at := raw_pushed_at repo;
     rm_stargazers_count := raw_stargazers_count repo;
     rm_fork := raw_fork repo;
     rm_language := raw_language repo;
     rm_default_branch := raw_default_branch repo;
     rm_size := raw_size repo |}.

(** The body of [if (!response.ok)]: the message of the error it throws. *)
Definition listingError (org : string) (response : ListingResponse) : string :=
  if lr_status response =? 401
  then "Invalid token. Please check your Personal Access Token."
  else if lr_status response =? 404
  then "Organization " +:+ String "034" (org +:+ String "034" " not found.")
  else if lr_status response =? 403
  then
    if bool_decide (lr_rateLimitRemaining response = Some "0"%string)
    then "Rate limit exceeded. Resets at "
         +:+ toLocaleTimeString (default 0 (lr_rateLimitReset response) * 1000)
    else "Access forbidden. Check your token permissions."
  else "Failed to fetch repos: " +:+ pretty (lr_status response)
       +:+ " " +:+ lr_statusText response.

(** The [while (true)] loop; [fuel] bounds its iterations. *)
Fixpoint reposPages (fuel : nat) (token org : string) (page : Z)
    (repos : list RawRepo) (w : ListingWorld)
  : Result (list RawRepo) * ListingWorld :=
  match fuel with
  | O => (OutOfFuel, w)
  | S fuel' =>
      let out := source (lw_calls w) token org page in
      let after (dt : Z) :=
        {| lw_store := lw_store w; lw_clock := lw_clock w + dt;
           lw_calls := lw_calls w ++ [mkListingCall token org page out] |} in
      match out with
      | ListingRejects dt message => (Throw message, after dt)
      | ListingResponds dt response =>
          if negb (lr_ok response)
          then (Throw (listingError org response), after dt)
          else
            match lr_body response with
            | None => (Throw "Unexpected end of JSON input", after dt)
            | Some data =>
                let repos' := repos ++ data in
                if (length data <? 100)%nat then (Ok repos', after dt)
                else reposPages fuel' token org (page + 1) repos' (after dt)
            end
      end
  end.

Definition fetchRepos (fuel : nat) (token org : string) (w : ListingWorld)
  : Result (list RepoMetadata) * ListingWorld :=
  let cacheKey := "repos_" +:+ org in
  let r := getFromCache (parse reposCodec) (lw_clock w) cacheKey (lw_store w) in
  let w0 := {| lw_store := r.2; lw_clock := lw_clock w; lw_calls := lw_calls w |} in
  match r.1 with
  | Some cached => (Ok cached, w0)
  | None =>
      match reposPages fuel token org 1 [] w0 with
      | (Ok repos, w1) =>
          let reposWithMetadata := metadataOf <$> repos in
          (Ok reposWithMetadata,
           {| lw_store := saveToCache (stringify reposCodec) timestampOf fits
                            (lw_clock w1) cacheKey reposWithMetadata (lw_store w1);
              lw_clock := lw_clock w1; lw_calls := lw_calls w1 |})
      | (Throw message, w1) => (Throw message, w1)
      | (OutOfFuel, w1) => (OutOfFuel, w1)
      end
  end.
End Listing.

(** ** The callers in the application *)

(** The [repo] and [index] properties of a log entry, and whether its
    [type] is [start]. *)
Definition logRepo (l : LogEvent) : string :=
  match l with
  | LogStart repo _ _ => repo
  | LogComplete repo _ _ _ _ _ _ _ _ _ => repo
  | LogError repo _ _ _ => repo
  end.

Definition logIndex (l : LogEvent) : Z :=
  match l with
  | LogStart _ index _ => index
  | LogComplete _ index _ _ _ _ _ _ _ _ => index
  | LogError _ index _ _ => index
  end.

Definition isStartLog (l : LogEvent) : bool :=
  match l with
  | LogStart _ _ _ => true
  | _ => false
  end.

(** The updater that [handleLog] hands to [setProgressLogs]: a [complete]
    or [error] entry replaces the [start] entries of its repository. *)
Definition handleLog (prev : list LogEvent) (logEntry : LogEvent) : list LogEvent :=
  match logEntry with
  | LogComplete _ _ _ _ _ _ _ _ _ _ | LogError _ _ _ _ =>
      let newLogs :=
        filter (fun log => negb (bool_decide (logRepo log = logRepo logEntry)
                                 && isStartLog log) = true) prev in
      newLogs ++ [logEntry]
  | LogStart _ _ _ => prev ++ [logEntry]
  end.

(** The log entries of a trace, and the progress log the application shows
    after them, starting from the empty log. *)
Definition logsOf (tr : list Event) : list LogEvent :=
  omap (fun ev => match ev with ELog l => Some l | _ => None end) tr.

Definition progressLogs (tr : list Event) : list LogEvent :=
  fold_left handleLog (logsOf tr) [].

(** The columns the leaderboard can be sorted by, and [row[sortKey]]. *)
Inductive SortKey : Type :=
  | SortNet | SortAdditions | SortDeletions
  | SortCommits | SortPullRequests | SortReviews.

Inductive SortOrder : Type := Asc | Desc.

Definition sortValue (sortKey : SortKey) (row : ContributorStat) : Z :=
  match sortKey with
  | SortNet => net row
  | SortAdditions => additions row
  | SortDeletions => deletions row
  | SortCommits => commits row
  | SortPullRequests => pullRequests row
  | SortReviews => reviews row
  end.

Section Leaderboard.
Variable toLowerCase : string → string.

(** [s.includes(sub)] *)
Definition includes (s sub : string) : bool :=
  bool_decide (is_Some (String.index 0 sub s)).

(** The rows the leaderboard shows. *)
Definition sortedData (data : list ContributorStat) (sortKey : SortKey)
    (sortOrder : SortOrder) (searchTerm : string) : list ContributorStat :=
  let filtered :=
    if bool_decide (searchTerm = EmptyString) then data
    else filter (fun row => includes (toLowerCase (user row))
                                     (toLowerCase searchTerm) = true) data in
  js_sort (fun a b =>
             let aVal := sortValue sortKey a in
             let bVal := sortValue sortKey b in
             match sortOrder with
             | Asc => Some (aVal - bVal)
             | Desc => Some (bVal - aVal)
             end) filtered.
End Leaderboard.

(** The order the leaderboard shows its rows in. *)
Definition inOrder (sortKey : SortKey) (sortOrder : SortOrder)
    (a b : ContributorStat) : Prop :=
  match sortOrder with
  | Asc => sortValue sortKey a ≤ sortValue sortKey b
  | Desc => sortValue sortKey b ≤ sortValue sortKey a
  end.

(** ** Observations on the collectors *)

(** The organisation and the repository a request names. *)
Definition requestOrg (req : Request) : string :=
  match req with
  | GetStatsContributors org _ | GetCommits org _ _ _ _ | GetCommit org _ _
  | GetPulls org _ _ | GetPull org _ _ | GetReviews org _ _ => org
  end.

Definition requestRepo (req : Request) : string :=
  match req with
  | GetStatsContributors _ repo | GetCommits _ repo _ _ _ | GetCommit _ repo _
  | GetPulls _ repo _ | GetPull _ repo _ | GetReviews _ repo _ => repo
  end.

(** An event that, if it is a request, carries [token] and names [org] and
    one of the repositories [names]. *)
Definition sentFor (token org : string) (names : list string) (ev : Event) : Prop :=
  match ev with
  | EFetch token' req _ =>
      token' = token ∧ requestOrg req = org ∧ requestRepo req ∈ names
  | _ => True
  end.

(** The requests for the pages 1, 2, ... of the commit listing of a branch,
    with their outcomes. *)
Definition pageCalls (token org repoName defaultBranch : string)
    (since : option string) (outs : list Outcome) : list Event :=
  imap (fun i out =>
          EFetch token
            (GetCommits org repoName (Some defaultBranch) (Z.of_nat i + 1) since) out)
       outs.

(** The requests for the reviews of pull requests, one each, with their
    outcomes. *)
Definition reviewCalls (token org repoName : string) (prs : list PullRequest)
    (outs : list Outcome) : list Event :=
  zip_with (fun pr out => EFetch token (GetReviews org repoName (pr_number pr)) out)
           prs outs.

Definition isCommitsPage (ev : Event) : bool :=
  match ev with
  | EFetch _ (GetCommits _ _ _ _ _) _ => true
  | _ => false
  end.

Definition isCommitDetail (ev : Event) : bool :=
  match ev with
  | EFetch _ (GetCommit _ _ _) _ => true
  | _ => false
  end.

(** A value of the review map as [fetchReviews] builds it for the pull
    requests [prs]: at least one review, no more dates and no more pull
    requests than reviews, every pull request once, and only pull requests
    of [prs]. *)
Definition reviewOf (prs : list PullRequest) (ri : ReviewInfo) : Prop :=
  match ri with
  | ReviewCount _ => False
  | ReviewObj count submitted_at reviewed =>
      (1 ≤ length reviewed)%nat
      ∧ Z.of_nat (length reviewed) ≤ count
      ∧ Z.of_nat (length submitted_at) ≤ count
      ∧ Forall (fun d => truthyDate d = true) submitted_at
      ∧ NoDup (pi_number <$> reviewed)
      ∧ Forall (fun p => ∃ pr, pr ∈ prs ∧ pi_number p = pr_number pr
                               ∧ pi_title p = prTitle (pr_title pr) (pr_number pr)
                               ∧ pi_url p = pr_url pr) reviewed
  end.

(** An answer with a status and a body, after 100 ms. *)
Definition answer (st : Z) (b : Body) : Outcome :=
  Responds 100 {| status := st; rateLimitRemaining := Some "4000"%string;
                  rateLimitReset := None; body := b |}.

(** A source that is down: every request gets a 500. *)
Definition failingNet (_ : list Event) (_ : string) (_ : Request) : Outcome :=
  answer 500 BodyInvalid.

(** A commit of alice with a given hash. *)
Definition rawCommitOf (k : Z) : RawCommit :=
  {| rc_sha := pretty k; rc_login := Some "alice"%string; rc_avatar_url := None;
     rc_message := Some "work"%string; rc_author_date := Iso (sampleNow - k * 60000);
     rc_committer_date := Undefined; rc_html_url := None |}.

(** A source whose commit listing has a full first page and a second page
    of three commits, and whose third and later pages fail; every pull
    request has two reviews, one of them pending. *)
Definition pagedNet (_ : list Event) (_ : string) (req : Request) : Outcome :=
  match req with
  | GetCommits _ _ _ page _ =>
      if page =? 1 then answer 200 (BodyCommits (rawCommitOf <$> seqZ 0 100))
      else if page =? 2 then answer 200 (BodyCommits (rawCommitOf <$> seqZ 100 3))
      else answer 502 BodyInvalid
  | GetReviews _ _ _ =>
      answer 200 (BodyReviews [ {| rr_login := Some "carol"%string;
                                   rr_submitted_at := Iso (sampleNow - 86400000) |};
                                {| rr_login := Some "carol"%string;
                                   rr_submitted_at := Null |} ])
  | GetStatsContributors _ _ => answer 204 BodyInvalid
  | _ => answer 500 BodyInvalid
  end.

(** A source whose first page of commits is full and whose second fails. *)
Definition halfNet (_ : list Event) (_ : string) (req : Request) : Outcome :=
  match req with
  | GetCommits _ _ _ page _ =>
      if page =? 1 then answer 200 (BodyCommits (rawCommitOf <$> seqZ 0 100))
      else answer 502 BodyInvalid
  | _ => answer 500 BodyInvalid
  end.

(** Two pull requests to look for reviews of. *)
Definition samplePull (n : Z) : PullRequest :=
  {| pr_number := n; pr_user := Some "bob"%string; pr_avatar_url := None;
     pr_created_at := Iso (sampleNow - 3 * 86400000); pr_merged_at := Null;
     pr_state := "open"; pr_title := None; pr_url := None;
     pr_additions := None; pr_deletions := None;
     pr_commits := None; pr_changed_files := None |}.

(** A repository of the listing, and a source of listings with one full
    page and a second page of two repositories. *)
Definition sampleRawRepo (k : Z) : RawRepo :=
  {| raw_id := k; raw_name := "repo" +:+ pretty k;
     raw_full_name := "acme/repo" +:+ pretty k; raw_description := None;
     raw_updated_at := Iso sampleNow; raw_pushed_at := Iso sampleNow;
     raw_stargazers_count := 0; raw_fork := false; raw_language := None;
     raw_default_branch := Some "main"%string; raw_size := 1;
     raw_others := [("private"%string, "false"%string)] |}.

Definition samplePages : list (list RawRepo) :=
  [ sampleRawRepo <$> seqZ 0 100; sampleRawRepo <$> seqZ 100 2 ].

Definition pagedSource (_ : list ListingCall) (_ _ : string) (page : Z)
  : ListingOutcome :=
  ListingResponds 100
    {| lr_status := 200; lr_statusText := "OK";
       lr_rateLimitRemaining := Some "4000"%string; lr_rateLimitReset := None;
       lr_body := Some (default [] (samplePages !! Z.to_nat (page - 1))) |}.

(** A source that turns the token down. *)
Definition unauthorizedSource (_ : list ListingCall) (_ _ : string) (_ : Z)
  : ListingOutcome :=
  ListingResponds 100
    {| lr_status := 401; lr_statusText := "Unauthorized";
       lr_rateLimitRemaining := Some "59"%string; lr_rateLimitReset := None;
       lr_body := None |}.

Definition freshListing : ListingWorld :=
  {| lw_store := ∅; lw_clock := sampleNow; lw_calls := [] |}.

(** A codec for the listings of the sample source: it writes down how many
    repositories the listing holds, one character each. *)
Definition sampleReposCodec : Codec (list RepoMetadata) :=
  {| stringify := fun v t =>
       sampleStringify (string_of_list_ascii (repeat "r"%char (length v))) t;
     parse := fun s =>
       (fun p : string * option Z =>
          (metadataOf <$> (sampleRawRepo <$> seqZ 0 (Z.of_nat (String.length p.1))), p.2))
         <$> sampleParse s |}.

(** ** The selection of repositories *)

Section Selection.
Variable toLowerCase : string → string.

(** [fetchedRepos.filter((r) => !r.fork)]: what the application selects
    when a listing arrives. *)
Definition autoSelected (fetchedRepos : list RepoMetadata) : list RepoMetadata :=
  filter (fun r => rm_fork r = false) fetchedRepos.

Definition filteredRepos (repos : list RepoMetadata) (searchTerm : string)
  : list RepoMetadata :=
  if bool_decide (searchTerm = EmptyString) then repos
  else filter (fun repo => includes (toLowerCase (rm_name repo))
                                    (toLowerCase searchTerm) = true) repos.

(** [selected.some((r) => r.id === repo.id)] *)
Definition isSelected (selected : list RepoMetadata) (repo : RepoMetadata) : bool :=
  existsb (fun r => bool_decide (rm_id r = rm_id repo)) selected.

(** The handlers, as the selection they pass to [onChange]. *)
Definition handleToggle (selected : list RepoMetadata) (repo : RepoMetadata)
  : list RepoMetadata :=
  if isSelected selected repo
  then filter (fun r => rm_id r ≠ rm_id repo) selected
  else selected ++ [repo].

Definition handleSelectAll (repos : list RepoMetadata) : list RepoMetadata := repos.

Definition handleDeselectAll : list RepoMetadata := [].

Definition handleSelectFiltered (repos selected : list RepoMetadata)
    (searchTerm : string) : list RepoMetadata :=
  selected ++ filter (fun repo => isSelected selected repo = false)
                     (filteredRepos repos searchTerm).

(** What the user can do with the selector: click a repository of the
    list, or one of the three buttons (the last with the search term
    typed so far). *)
Inductive Action : Type :=
  | Toggle (repo : RepoMetadata)
  | SelectAll
  | DeselectAll
  | SelectFiltered (searchTerm : string).

Definition act (repos selected : list RepoMetadata) (a : Action) : list RepoMetadata :=
  match a with
  | Toggle repo => handleToggle selected repo
  | SelectAll => handleSelectAll repos
  | DeselectAll => handleDeselectAll
  | SelectFiltered searchTerm => handleSelectFiltered repos selected searchTerm
  end.

(** A click lands on a repository that is listed. *)
Definition onList (repos : list RepoMetadata) (a : Action) : Prop :=
  match a with
  | Toggle repo => repo ∈ repos
  | _ => True
  end.
End Selection.

(** Three repositories of the sample listing, and some clicks. *)
Definition sampleListing : list RepoMetadata :=
  metadataOf <$> (sampleRawRepo <$> seqZ 0 3).

Definition sampleClicks : list Action :=
  [ Toggle (metadataOf (sampleRawRepo 1)); SelectFiltered "repo";
    Toggle (metadataOf (sampleRawRepo 2)); SelectAll;
    Toggle (metadataOf (sampleRawRepo 0)); SelectFiltered "0" ].

(** ** The details of merged pull requests *)

(** [prs.filter(pr => pr.merged_at)] *)
Definition mergedOf (prs : list PullRequest) : list PullRequest :=
  filter (fun pr => truthyDate (pr_merged_at pr) = true) prs.

(** What the body of the loop over [mergedPRs] leaves of [pr], given how
    the request for its details ended. *)
Definition detailed (pr : PullRequest) (out : Outcome) : PullRequest :=
  match out with
  | Responds _ r =>
      if ok r
      then match body r with
           | BodyPull details => withDetails pr details
           | _ => pr
           end
      else pr
  | Rejects _ _ => pr
  end.

(** The requests for the details of pull requests, one each, with their
    outcomes. *)
Definition detailCalls (token org repoName : string) (prs : list PullRequest)
    (outs : list Outcome) : list Event :=
  zip_with (fun pr out => EFetch token (GetPull org repoName (pr_number pr)) out)
           prs outs.

(** A pull request of bob, merged when its number is not a multiple of
    three, and a source that lists 48 of them on one page and answers the
    requests for details of those with an even number. *)
Definition mergedPull (n : Z) : RawPull :=
  {| rp_number := n; rp_login := Some "bob"%string; rp_avatar_url := None;
     rp_created_at := Iso (sampleNow - 3 * 86400000);
     rp_merged_at := if n mod 3 =? 0 then Null else Iso (sampleNow - 86400000);
     rp_closed_at := Null; rp_updated_at := Iso (sampleNow - 86400000);
     rp_state := "closed"; rp_title := Some "Work"%string; rp_html_url := None |}.

Definition mergingNet (_ : list Event) (_ : string) (req : Request) : Outcome :=
  match req with
  | GetPulls _ _ _ => answer 200 (BodyPulls (mergedPull <$> seqZ 1 48))
  | GetPull _ _ n =>
      if n mod 2 =? 0
      then answer 200 (BodyPull {| pd_additions := Some 5; pd_deletions := Some 2;
                                   pd_commits := None; pd_changed_files := Some 1 |})
      else answer 500 BodyInvalid
  | _ => answer 500 BodyInvalid
  end.

(** ** Logins that name no inherited property *)

Definition plainLogin (u : option string) : bool :=
  match truthyStr u with
  | Some login => negb (inherited login)
  | None => true
  end.

(** No login of a record names an inherited property. *)
Definition plainLogins (rd : RepoData) : bool :=
  forallb (fun c => plainLogin (c_user c)) (rd_commits rd)
  && forallb (fun pr => plainLogin (pr_user pr)) (rd_prs rd)
  && forallb (fun p => negb (inherited p.1)) (rd_reviews rd).

(** A record without the review entries of such logins. *)
Definition withoutInheritedReviews (rd : RepoData) : RepoData :=
  {| rd_repoName := rd_repoName rd; rd_commits := rd_commits rd; rd_prs := rd_prs rd;
     rd_reviews := filter (fun p => inherited p.1 = false) (rd_reviews rd) |}.

(** ** A contributor whose login is [constructor] *)

(** The source of [flakyNet], where the commit of every repository but
    [api] is by the user [constructor]. *)
Definition constructorNet (_ : list Event) (_ : string) (req : Request) : Outcome :=
  let answers (repo : string) (b : Body) : Outcome :=
    if bool_decide (repo = "broken"%string) then Rejects 50 "Failed to fetch"
    else Responds 100 {| status := 200; rateLimitRemaining := Some "4000"%string;
                         rateLimitReset := None; body := b |} in
  match req with
  | GetCommits _ repo _ _ _ =>
      answers repo
        (BodyCommits [ {| rc_sha := "c0ffee1234";
                          rc_login := Some (if bool_decide (repo = "api"%string)
                                            then "alice" else "constructor")%string;
                          rc_avatar_url := None; rc_message := Some "fix"%string;
                          rc_author_date := Iso (sampleNow - 3600000);
                          rc_committer_date := Undefined; rc_html_url := None |} ])
  | GetPulls _ repo _ => answers repo (BodyPulls [])
  | GetReviews _ repo _ => answers repo (BodyReviews [])
  | GetStatsContributors _ _ =>
      Responds 80 {| status := 202; rateLimitRemaining := Some "4000"%string;
                     rateLimitReset := None; body := BodyStats None |}
  | GetCommit _ repo _ => answers repo (BodyCommit None)
  | GetPull _ repo _ => answers repo BodyInvalid
  end.

(** The callbacks of a caller that wants no snapshots. *)
Definition logOnly : Callbacks :=
  {| onProgress := true; onDataUpdate := false; onLog := true |}.

(** A commit was listed on a page fetched during [tr]. *)
Definition commitListed (tr : list Event) (commit : RawCommit) : Prop :=
  ∃ token req dt r data,
    EFetch token req (Responds dt r) ∈ tr ∧ body r = BodyCommits data ∧ commit ∈ data.

(** A world whose store holds, under the key of the statistics of [app], a
    text that is no cache entry. *)
Definition staleWorld : World :=
  {| w_store := {[ (CACHE_PREFIX +:+ "stats_v2_acme_app")%string := "garbled"%string ]};
     w_clock := sampleNow; w_trace := [] |}.

(** ** A zone with daylight saving time *)

(** America/New_York around the end of daylight saving time on 5 November
    2023 at 06:00 UTC: four hours behind UTC before that instant, five
    after. The local times from 01:00 to 02:00 of that day occur twice;
    [offsetOf] reads them as the earlier instant, as ECMAScript asks. *)
Definition newYork : TimeZone :=
  {| offsetAt := fun t => if t <? 1699164000000 then -4 * 3600000 else -5 * 3600000;
     offsetOf := fun tl => if tl <? 1699149600000 then -4 * 3600000 else -5 * 3600000 |}.

(** A repository with one commit of alice, made on 2023-10-20T12:00:00Z. *)
Definition autumnRepo : RepoData :=
  {| rd_repoName := "web";
     rd_commits := [ sampleCommit "alice" (Iso 1697803200000) ];
     rd_prs := []; rd_reviews := [] |}.

(** ** The recent items of a contributor, read off the input *)

(** [if (list.length < 20) list.push(...)], for the items a step offers. *)
Definition push20 {X : Type} (l items : list X) : list X :=
  if (length l <? 20)%nat then l ++ items else l.

(** The commits of [repoDataArray] counted for [u], as the items of
    [commitsList], in the order [aggregateStats] visits them: repository
    by repository, each in the order of its listing. *)
Definition commitItems (now : Z) (daysFilter : option Z) (u : string)
    (repoDataArray : list RepoData) : list CommitItem :=
  concat ((fun rd => commitItemOf (rd_repoName rd)
                       <$> filter (fun c => counted now daysFilter u c) (rd_commits rd))
            <$> repoDataArray).

(** The pull requests counted for [u], as the items of [prsList], in the
    same order. *)
Definition prItems (now : Z) (daysFilter : option Z) (u : string)
    (repoDataArray : list RepoData) : list PrItem :=
  concat ((fun rd => prItemOf (rd_repoName rd)
                       <$> filter (fun pr => countedPr now daysFilter u pr) (rd_prs rd))
            <$> repoDataArray).

(** ** The weeks of a contributor, read off the input *)

(** Whether the local week of a date starts at [k]. *)
Definition inWeek (zone : TimeZone) (k : option Z) (d : DateStr) : bool :=
  bool_decide (weekTsOf zone (getTime d) = k).

(** The review dates of one value of a review map that are counted and
    fall in the week [k]; a value without dates counts for no week. *)
Definition weekReviews (zone : TimeZone) (now : Z) (daysFilter : option Z)
    (k : option Z) (ri : ReviewInfo) : Z :=
  match ri with
  | ReviewCount _ => 0
  | ReviewObj _ ds _ =>
      Z.of_nat (length (filter (fun d => inWeek zone k d)
                          (filter (fun d => negb (truthyDays daysFilter
                                                  && ltNum (getTime d) (cutoffMs now daysFilter)))
                                  ds)))
  end.

(** The activity of [u] in the week [k]: the counted commits dated in it,
    the counted pull requests dated in it (by [merged_at || created_at])
    with the lines of the merged ones, and the counted review dates in
    it. *)
Definition weekBucket (zone : TimeZone) (now : Z) (daysFilter : option Z)
    (u : string) (k : option Z) (repoDataArray : list RepoData) : Bucket :=
  let prs :=
    filter (fun pr => inWeek zone k (orDate (pr_merged_at pr) (pr_created_at pr)))
           (prsBy now daysFilter u repoDataArray) in
  {| b_additions := sumZ (linesAdded <$> prs);
     b_deletions := sumZ (linesDeleted <$> prs);
     b_commits :=
       Z.of_nat (length (filter (fun c => inWeek zone k (c_date c))
                           (filter (fun c => counted now daysFilter u c)
                                   (concat (rd_commits <$> repoDataArray)))));
     b_pullRequests := Z.of_nat (length prs);
     b_reviews := sumZ (weekReviews zone now daysFilter k <$> reviewsBy u repoDataArray) |}.

(* ===================================================================== *)
(** * Part II. Properties                                                  *)
(* ===================================================================== *)

(** ** Objects and sorting *)

Section ObjectFacts.
Context {K V : Type} `{EqDecision K}.
Implicit Types (o : list (K * V)) (k : K) (v : V).

Lemma obj_get_app o1 o2 k :
  obj_get k (o1 ++ o2) =
    match obj_get k o1 with Some v => Some v | None => obj_get k o2 end.
Proof.
  induction o1 as [|[k' v'] o1 IH]; simpl; [done|].
  destruct (decide (k' = k)); auto.
Qed.

Lemma obj_get_alter f o k k' :
  obj_get k' (obj_alter f k o) =
    if decide (k = k') then f <$> obj_get k' o else obj_get k' o.
Proof.
  induction o as [|[k0 v0] o IH]; simpl.
  - by destruct (decide _).
  - destruct (decide (k0 = k)) as [->|Hne]; simpl.
    + destruct (decide (k = k')) as [->|]; simpl; [done|].
      destruct (decide (k = k')); [done|]. done.
    + destruct (decide (k0 = k')) as [->|]; simpl.
      * destruct (decide (k = k')); [congruence|done].
      * apply IH.
Qed.

Lemma obj_get_ensure o k v k' :
  obj_get k' (obj_ensure k v o) =
    match obj_get k' o with
    | Some x => Some x
    | None => if decide (k = k') then Some v else None
    end.
Proof.
  unfold obj_ensure. destruct (obj_get k o) eqn:E.
  - destruct (obj_get k' o) eqn:E'; [done|].
    destruct (decide (k = k')); [congruence | done].
  - rewrite obj_get_app. simpl. by destruct (obj_get k' o).
Qed.

Lemma obj_get_elem_of o k v : obj_get k o = Some v → (k, v) ∈ o.
Proof.
  induction o as [|[k0 v0] o IH]; simpl; [done|].
  destruct (decide (k0 = k)) as [->|].
  - intros [= ->]. left.
  - intros. right. auto.
Qed.

Lemma obj_get_None o k : obj_get k o = None ↔ k ∉ o.*1.
Proof.
  induction o as [|[k0 v0] o IH]; csimpl.
  - split; [intros _; apply not_elem_of_nil | done].
  - rewrite not_elem_of_cons. destruct (decide (k0 = k)) as [->|Hne].
    + split; [done | intros [? _]; done].
    + rewrite IH. split; [by split | by intros [_ ?]].
Qed.

Lemma obj_get_NoDup o k v : NoDup o.*1 → (k, v) ∈ o → obj_get k o = Some v.
Proof.
  induction o as [|[k0 v0] o IH]; csimpl.
  - intros _ Hin. by apply elem_of_nil in Hin.
  - rewrite NoDup_cons. intros [Hni Hnd] Hin.
    apply elem_of_cons in Hin as [[= <- <-]|Hin].
    + by rewrite decide_True.
    + destruct (decide (k0 = k)) as [->|]; [|by apply IH].
      exfalso. apply Hni. apply list_elem_of_fmap. by exists (k, v).
Qed.

Lemma obj_alter_keys f k o : (obj_alter f k o).*1 = o.*1.
Proof.
  induction o as [|[k0 v0] o IH]; csimpl; [done|].
  destruct (decide (k0 = k)); csimpl; by rewrite ?IH.
Qed.

Lemma obj_ensure_NoDup k v o : NoDup o.*1 → NoDup (obj_ensure k v o).*1.
Proof.
  unfold obj_ensure. destruct (obj_get k o) eqn:E; [done|].
  intros Hnd. rewrite fmap_app. simpl. apply NoDup_app. split; [done|].
  split; [|apply NoDup_singleton].
  intros x Hx ->%list_elem_of_singleton. by apply obj_get_None in E.
Qed.

(** What holds of every value survives [obj_alter] and [obj_ensure]. *)
Lemma obj_alter_Forall (P : K → V → Prop) f k o :
  (∀ v, P k v → P k (f v)) →
  Forall (fun p => P p.1 p.2) o → Forall (fun p => P p.1 p.2) (obj_alter f k o).
Proof.
  intros Hf. induction 1 as [|[k0 v0] o Hp Ho IH]; simpl in *; [constructor|].
  destruct (decide (k0 = k)) as [->|]; constructor; simpl; auto.
Qed.

Lemma obj_ensure_Forall (P : K → V → Prop) k v o :
  P k v →
  Forall (fun p => P p.1 p.2) o → Forall (fun p => P p.1 p.2) (obj_ensure k v o).
Proof.
  intros Hv Ho. unfold obj_ensure. destruct (obj_get k o); [done|].
  apply Forall_app. split; [done|]. by constructor.
Qed.
End ObjectFacts.

Section SortFacts.
Context {A : Type} (cmp : A → A → option Z).

Lemma sort_insert_Permutation x l : sort_insert cmp x l ≡ₚ x :: l.
Proof.
  induction l as [|y l IH]; simpl; [done|].
  destruct (comesAfter cmp x y); [|done].
  rewrite IH. apply Permutation_swap.
Qed.

Lemma js_sort_Permutation l : js_sort cmp l ≡ₚ l.
Proof.
  induction l as [|x l IH]; simpl; [done|].
  by rewrite sort_insert_Permutation, IH.
Qed.

Lemma js_sort_length l : length (js_sort cmp l) = length l.
Proof. apply Permutation_length, js_sort_Permutation. Qed.

Lemma elem_of_js_sort x l : x ∈ js_sort cmp l ↔ x ∈ l.
Proof. by rewrite js_sort_Permutation. Qed.
End SortFacts.

Lemma obj_entries_Permutation {K V : Type} (idx : K → option Z) (o : list (K * V)) :
  obj_entries idx o ≡ₚ o.
Proof.
  unfold obj_entries. rewrite js_sort_Permutation.
  induction o as [|p o IH]; [done|].
  rewrite !filter_cons. destruct (decide (is_Some (idx p.1))).
  - rewrite decide_False by (intros Hn; by apply Hn). simpl. by f_equiv.
  - rewrite decide_True by done.
    rewrite <- Permutation_middle. by f_equiv.
Qed.

Lemma elem_of_obj_entries {K V : Type} (idx : K → option Z) (o : list (K * V)) p :
  p ∈ obj_entries idx o ↔ p ∈ o.
Proof. by rewrite obj_entries_Permutation. Qed.

(** ** The aggregator's accumulator *)

Section Accumulator.
Variables (zone : TimeZone) (now : Z) (daysFilter : option Z).

(** Keys of [userMap] never repeat. *)
Lemma commitStep_NoDup repoName um c : NoDup um.*1 → NoDup (commitStep zone now daysFilter repoName um c).*1.
Proof.
  intros Hnd. unfold commitStep.
  destruct (truthyStr _); [|done]. destruct (filteredOut _ _ _); [done|].
  rewrite obj_alter_keys. by apply obj_ensure_NoDup.
Qed.

Lemma prStep_NoDup repoName um pr : NoDup um.*1 → NoDup (prStep zone now daysFilter repoName um pr).*1.
Proof.
  intros Hnd. unfold prStep.
  destruct (truthyStr _); [|done]. simpl. destruct (filteredOut _ _ _); [done|].
  rewrite obj_alter_keys. by apply obj_ensure_NoDup.
Qed.

Lemma reviewStep_NoDup repoName um r : NoDup um.*1 → NoDup (reviewStep zone now daysFilter repoName um r).*1.
Proof.
  intros Hnd. unfold reviewStep. destruct r as [u ri].
  rewrite obj_alter_keys. by apply obj_ensure_NoDup.
Qed.

Lemma fold_left_preserves {S X : Type} (P : S → Prop) (f : S → X → S) l s :
  (∀ s x, P s → P (f s x)) → P s → P (fold_left f l s).
Proof. intros Hf. revert s. induction l; simpl; auto. Qed.

Lemma repoStep_NoDup um rd : NoDup um.*1 → NoDup (repoStep zone now daysFilter um rd).*1.
Proof.
  intros Hnd. unfold repoStep.
  apply (fold_left_preserves (fun um : list (string * UserEntry) => NoDup um.*1)); [intros; by apply reviewStep_NoDup|].
  apply (fold_left_preserves (fun um : list (string * UserEntry) => NoDup um.*1)); [intros; by apply prStep_NoDup|].
  apply (fold_left_preserves (fun um : list (string * UserEntry) => NoDup um.*1)); [intros; by apply commitStep_NoDup|].
  done.
Qed.

Lemma buildUserMap_NoDup l : NoDup (buildUserMap zone now daysFilter l).*1.
Proof.
  unfold buildUserMap.
  apply (fold_left_preserves (fun um : list (string * UserEntry) => NoDup um.*1)); [intros; by apply repoStep_NoDup|].
  apply NoDup_nil_2.
Qed.

Lemma fold_left_preserves_in {S X : Type} (P : S → Prop) (f : S → X → S) l s :
  (∀ s x, x ∈ l → P s → P (f s x)) → P s → P (fold_left f l s).
Proof.
  revert s. induction l as [|x l IH]; intros s Hf Hs; simpl; [done|].
  apply IH.
  - intros s' y Hy. apply Hf. by right.
  - apply Hf; [left | done].
Qed.

(** An invariant of the entries: whatever holds of a fresh entry and is
    kept by the updates the loops perform for the items of
    [repoDataArray] holds of every entry of the final map. *)
Section EntryInvariant.
Variable repoDataArray : list RepoData.
Variable Q : string → UserEntry → Prop.
Hypothesis Q_new : ∀ u a, Q u (newEntry u a).
Hypothesis Q_commit : ∀ rd c u e,
  rd ∈ repoDataArray → c ∈ rd_commits rd →
  truthyStr (c_user c) = Some u →
  filteredOut now daysFilter (c_date c) = false →
  Q u e →
  Q u (entryAddCommit (rd_repoName rd) c
         (weekTsOf zone (getTime (c_date c))) e).
Hypothesis Q_pr : ∀ rd pr u e,
  rd ∈ repoDataArray → pr ∈ rd_prs rd →
  truthyStr (pr_user pr) = Some u →
  filteredOut now daysFilter (orDate (pr_merged_at pr) (pr_created_at pr)) = false →
  Q u e →
  Q u (entryAddPr (rd_repoName rd) pr
         (weekTsOf zone (getTime (orDate (pr_merged_at pr) (pr_created_at pr)))) e).
Hypothesis Q_reviewed : ∀ rd u n ds ps p e,
  rd ∈ repoDataArray → (u, ReviewObj n ds ps) ∈ rd_reviews rd → p ∈ ps →
  Q u e → Q u (entryAddReviewed (rd_repoName rd) e p).
Hypothesis Q_dated : ∀ u d e,
  Q u e → Q u (entryAddReviews 1 (Some (weekTsOf zone (getTime d))) e).
Hypothesis Q_undated : ∀ u n e, Q u e → Q u (entryAddReviews n None e).
Hypothesis Q_mark : ∀ u r e, Q u e → Q u (entryMarkReviewed r e).

Let Inv (um : list (string * UserEntry)) := Forall (fun p => Q p.1 p.2) um.

Lemma commitStep_inv rd um c :
  rd ∈ repoDataArray → c ∈ rd_commits rd →
  Inv um → Inv (commitStep zone now daysFilter (rd_repoName rd) um c).
Proof.
  intros Hrd Hc Hinv. unfold commitStep.
  destruct (truthyStr _) as [u|] eqn:Hu; [|done].
  destruct (filteredOut _ _ _) eqn:Hf; [done|].
  apply obj_alter_Forall; [intros; by eapply Q_commit|].
  by apply obj_ensure_Forall.
Qed.

Lemma prStep_inv rd um pr :
  rd ∈ repoDataArray → pr ∈ rd_prs rd →
  Inv um → Inv (prStep zone now daysFilter (rd_repoName rd) um pr).
Proof.
  intros Hrd Hp Hinv. unfold prStep.
  destruct (truthyStr _) as [u|] eqn:Hu; [|done]. simpl.
  destruct (filteredOut _ _ _) eqn:Hf; [done|].
  apply obj_alter_Forall; [intros; by eapply Q_pr|].
  by apply obj_ensure_Forall.
Qed.

Lemma reviewDateStep_inv u e d :
  Q u e → Q u (reviewDateStep zone now daysFilter e d).
Proof.
  intros. unfold reviewDateStep. simpl.
  destruct (_ && _); [done|]. by apply Q_dated.
Qed.

Lemma reviewStep_inv rd um r :
  rd ∈ repoDataArray → r ∈ rd_reviews rd →
  Inv um → Inv (reviewStep zone now daysFilter (rd_repoName rd) um r).
Proof.
  intros Hrd Hr Hinv. unfold reviewStep. destruct r as [u ri].
  apply obj_alter_Forall; [|by apply obj_ensure_Forall].
  intros e He. apply Q_mark.
  assert (Q u (fold_left (entryAddReviewed (rd_repoName rd))
                 match ri with ReviewCount _ => [] | ReviewObj _ _ ps => ps end e)) as H1.
  { destruct ri as [n|n ds ps]; [done|].
    apply (fold_left_preserves_in (Q u)); [|done].
    intros e' p Hp He'. by eapply Q_reviewed. }
  destruct (0 <? length _)%nat.
  - apply (fold_left_preserves (Q u)); [intros; by apply reviewDateStep_inv | done].
  - by apply Q_undated.
Qed.

Lemma repoStep_inv rd um :
  rd ∈ repoDataArray → Inv um → Inv (repoStep zone now daysFilter um rd).
Proof.
  intros Hrd Hum. unfold repoStep.
  apply (fold_left_preserves_in Inv).
  { intros um' r Hr%elem_of_obj_entries. by apply reviewStep_inv. }
  apply (fold_left_preserves_in Inv); [intros; by apply prStep_inv|].
  apply (fold_left_preserves_in Inv); [intros; by apply commitStep_inv|].
  done.
Qed.

Lemma buildUserMap_inv : Inv (buildUserMap zone now daysFilter repoDataArray).
Proof.
  unfold buildUserMap. apply (fold_left_preserves_in Inv); [|constructor].
  intros um rd Hrd Hum. by apply repoStep_inv.
Qed.
End EntryInvariant.

(** Every entry is stored under its own login. *)
Lemma buildUserMap_user l u e : (u, e) ∈ buildUserMap zone now daysFilter l → e_user e = u.
Proof.
  intros Hin.
  assert (Forall (fun p : string * UserEntry => e_user p.2 = p.1)
            (buildUserMap zone now daysFilter l)) as H
    by (apply (buildUserMap_inv l (fun u e => e_user e = u)); done).
  rewrite Forall_forall in H. by apply (H (u, e)).
Qed.

(** The records of the result are the emitted active entries. *)
Lemma elem_of_aggregateStats l r :
  r ∈ aggregateStats zone now daysFilter l ↔
  ∃ e, r = emit zone now daysFilter e ∧ hasActivity e = true
       ∧ (e_user e, e) ∈ buildUserMap zone now daysFilter l.
Proof.
  unfold aggregateStats. rewrite list_elem_of_fmap. split.
  - intros (e & -> & He). apply list_elem_of_filter in He as [Hact He].
    apply list_elem_of_fmap in He as ([u e'] & -> & He).
    apply elem_of_obj_entries in He. simpl in *.
    exists e'. split; [done|]. split; [by apply Is_true_true|].
    by rewrite (buildUserMap_user _ _ _ He).
  - intros (e & -> & Hact & He). exists e. split; [done|].
    apply list_elem_of_filter. split; [by apply Is_true_true|].
    apply list_elem_of_fmap. exists (e_user e, e). split; [done|].
    by apply elem_of_obj_entries.
Qed.
End Accumulator.

(** ** Net lines (C1) and the exclusion rule (C4) *)

(** C1. Every record returned by [aggregateStats] has
    [net = additions - deletions]: the record is emitted from an entry of the
    final [userMap], whose accumulated [additions] and [deletions] it copies,
    and [net] is their difference, computed at emission (an entry stores no
    net of its own). *)
Theorem aggregateStats_net zone now daysFilter repoDataArray :
  Forall (fun r =>
            net r = additions r - deletions r
            ∧ ∃ e, (user r, e) ∈ buildUserMap zone now daysFilter repoDataArray
                   ∧ additions r = e_additions e
                   ∧ deletions r = e_deletions e
                   ∧ net r = e_additions e - e_deletions e)
         (aggregateStats zone now daysFilter repoDataArray).
Proof.
  apply Forall_forall. intros r Hr.
  apply elem_of_aggregateStats in Hr as (e & -> & _ & He).
  split; [reflexivity|]. exists e. by repeat split.
Qed.

Lemma hasActivity_spec e :
  hasActivity e = true ↔
  0 < e_additions e ∨ 0 < e_deletions e ∨ 0 < e_commits e
  ∨ 0 < e_pullRequests e ∨ 0 < e_reviews e.
Proof.
  unfold hasActivity. rewrite !orb_true_iff, !Z.ltb_lt. tauto.
Qed.

(** C4. Every record returned by [aggregateStats] has a positive total among
    additions, deletions, commits, pullRequests and reviews; and a login
    whose entry of the final [userMap] has all five totals at zero has no
    record in the result. *)
Theorem aggregateStats_active_only zone now daysFilter repoDataArray :
  Forall (fun r =>
            0 < additions r ∨ 0 < deletions r ∨ 0 < commits r
            ∨ 0 < pullRequests r ∨ 0 < reviews r)
         (aggregateStats zone now daysFilter repoDataArray)
  ∧ ∀ u e,
      obj_get u (buildUserMap zone now daysFilter repoDataArray) = Some e →
      e_additions e = 0 → e_deletions e = 0 → e_commits e = 0 →
      e_pullRequests e = 0 → e_reviews e = 0 →
      Forall (fun r => user r ≠ u)
             (aggregateStats zone now daysFilter repoDataArray).
Proof.
  split.
  - apply Forall_forall. intros r Hr.
    apply elem_of_aggregateStats in Hr as (e & -> & Hact & _).
    by apply hasActivity_spec in Hact.
  - intros u e Hget Ha Hd Hc Hp Hr. apply Forall_forall. intros r Hin Hu.
    apply elem_of_aggregateStats in Hin as (e' & -> & Hact & He'). simpl in Hu.
    rewrite Hu in He'.
    apply obj_get_NoDup in He'; [|apply buildUserMap_NoDup].
    assert (e' = e) as -> by congruence.
    apply hasActivity_spec in Hact. lia.
Qed.

(** ** The time window applied to commits (C3) *)

Lemma obj_get_upsert {K V : Type} `{EqDecision K} (f : V → V) (k k' : K) (v : V)
    (o : list (K * V)) :
  obj_get k' (obj_alter f k (obj_ensure k v o)) =
    if decide (k = k') then Some (f (default v (obj_get k o))) else obj_get k' o.
Proof.
  rewrite obj_get_alter, obj_get_ensure.
  destruct (decide (k = k')) as [->|Hne]; by destruct (obj_get k' o).
Qed.

Section CommitCount.
Variables (zone : TimeZone) (now : Z) (daysFilter : option Z).

Lemma userCommits_commitStep r um c u :
  userCommits u (commitStep zone now daysFilter r um c) =
    userCommits u um + (if counted now daysFilter u c then 1 else 0).
Proof.
  unfold commitStep, counted, userCommits.
  destruct (truthyStr (c_user c)) as [u'|] eqn:Hu; simpl.
  - destruct (filteredOut _ _ _) eqn:Hf; simpl.
    + rewrite andb_false_r. lia.
    + rewrite andb_true_r, obj_get_upsert.
      destruct (decide (u' = u)) as [->|Hne].
      * rewrite bool_decide_eq_true_2 by done.
        destruct (obj_get u um); simpl; lia.
      * rewrite bool_decide_eq_false_2 by congruence. lia.
  - lia.
Qed.

Lemma userCommits_prStep r um pr u :
  userCommits u (prStep zone now daysFilter r um pr) = userCommits u um.
Proof.
  unfold prStep, userCommits.
  destruct (truthyStr (pr_user pr)) as [u'|]; simpl; [|done].
  destruct (filteredOut _ _ _); [done|].
  rewrite obj_get_upsert. destruct (decide (u' = u)) as [->|]; [|done].
  by destruct (obj_get u um).
Qed.

Lemma e_commits_reviewed r ps e :
  e_commits (fold_left (entryAddReviewed r) ps e) = e_commits e.
Proof. revert e. induction ps as [|p ps IH]; intros e; simpl; [done|]. by rewrite IH. Qed.

Lemma e_commits_reviewDates ds e :
  e_commits (fold_left (reviewDateStep zone now daysFilter) ds e) = e_commits e.
Proof.
  revert e. induction ds as [|d ds IH]; intros e; simpl; [done|].
  rewrite IH. unfold reviewDateStep. simpl. by destruct (_ && _).
Qed.

Lemma userCommits_reviewStep r um x u :
  userCommits u (reviewStep zone now daysFilter r um x) = userCommits u um.
Proof.
  unfold reviewStep, userCommits. destruct x as [u' ri].
  rewrite obj_get_upsert. destruct (decide (u' = u)) as [->|]; [|done].
  simpl. destruct (0 <? length _)%nat; simpl.
  - rewrite e_commits_reviewDates, e_commits_reviewed. by destruct (obj_get u um).
  - rewrite e_commits_reviewed. by destruct (obj_get u um).
Qed.

Lemma userCommits_fold_const {X : Type} (f : list (string * UserEntry) → X → _) l um u :
  (∀ um x, userCommits u (f um x) = userCommits u um) →
  userCommits u (fold_left f l um) = userCommits u um.
Proof.
  intros Hf. revert um. induction l as [|x l IH]; intros um; simpl; [done|].
  by rewrite IH, Hf.
Qed.

Lemma userCommits_commits r cs um u :
  userCommits u (fold_left (commitStep zone now daysFilter r) cs um) =
    userCommits u um + Z.of_nat (length (filter (fun c => counted now daysFilter u c) cs)).
Proof.
  revert um. induction cs as [|c cs IH]; intros um; simpl; [lia|].
  rewrite IH, userCommits_commitStep, filter_cons.
  destruct (decide (counted now daysFilter u c)) as [Hc|Hc].
  - apply Is_true_true in Hc. rewrite Hc. rewrite length_cons. lia.
  - apply Is_true_false in Hc. rewrite Hc. lia.
Qed.

Lemma userCommits_buildUserMap l u :
  userCommits u (buildUserMap zone now daysFilter l) =
    Z.of_nat (length (filter (fun c => negb (filteredOut now daysFilter (c_date c)))
                             (commitsBy u l))).
Proof.
  unfold buildUserMap, commitsBy.
  assert (∀ um, userCommits u (fold_left (repoStep zone now daysFilter) l um) =
                userCommits u um
                + Z.of_nat (length (filter (fun c => counted now daysFilter u c)
                                           (concat (rd_commits <$> l))))) as H.
  { induction l as [|rd l IH]; intros um; csimpl; [lia|].
    rewrite IH. unfold repoStep.
    rewrite userCommits_fold_const by (intros; apply userCommits_reviewStep).
    rewrite userCommits_fold_const by (intros; apply userCommits_prStep).
    rewrite userCommits_commits, filter_app, length_app. lia. }
  rewrite H. unfold userCommits at 1. simpl. rewrite Z.add_0_l. do 2 f_equal.
  rewrite list_filter_filter. apply list_filter_iff.
  intros c. unfold counted.
  rewrite andb_True, bool_decide_spec. tauto.
Qed.

(** What the result reports for a login is what [userMap] accumulated. *)
Lemma commitsOfUser_aggregateStats l u :
  commitsOfUser u (aggregateStats zone now daysFilter l) =
    userCommits u (buildUserMap zone now daysFilter l).
Proof.
  pose proof (userCommits_buildUserMap l u) as Hcount.
  unfold commitsOfUser.
  destruct (list_find _ _) as [[i r]|] eqn:Hfind.
  - apply list_find_Some in Hfind as (Hi & Hu & _).
    apply list_elem_of_lookup_2, elem_of_aggregateStats in Hi as (e & -> & _ & He).
    simpl in Hu. rewrite Hu in He.
    unfold userCommits.
    by rewrite (obj_get_NoDup _ _ _ (buildUserMap_NoDup _ _ _ l) He).
  - apply list_find_None in Hfind. rewrite Forall_forall in Hfind.
    unfold userCommits in *.
    destruct (obj_get u _) as [e|] eqn:Hget; [|done].
    apply obj_get_elem_of in Hget.
    pose proof (buildUserMap_user _ _ _ _ _ _ Hget) as Hue.
    destruct (hasActivity e) eqn:Hact.
    + exfalso. apply (Hfind (emit zone now daysFilter e)); [|done].
      apply elem_of_aggregateStats. exists e. by rewrite Hue.
    + unfold hasActivity in Hact. rewrite !orb_false_iff, !Z.ltb_ge in Hact. lia.
Qed.
End CommitCount.

Lemma filteredOut_Iso now d ms :
  d ≠ 0 →
  filteredOut now (Some d) (Iso ms) = (ms / 1000 <? cutoffMs now (Some d) / 1000).
Proof.
  intros Hd. unfold filteredOut, cutoffTimestamp, truthyDays. simpl.
  by rewrite (proj2 (Z.eqb_neq d 0) Hd).
Qed.

(** C3, as the code has it. With [daysFilter] set, the commit total of a
    login is the number of its commits that the filter keeps, and the filter
    compares whole seconds: a dated commit is kept exactly when its date,
    floored to seconds, is not before the cutoff floored to seconds. So a
    commit at the cutoff instant is counted, one dated a full second or more
    before the cutoff is not, and one dated a millisecond before the cutoff
    is dropped only when the cutoff falls on a whole second. *)
Theorem commit_cutoff_in_whole_seconds zone now d repoDataArray u :
  d ≠ 0 →
  commitsOfUser u (aggregateStats zone now (Some d) repoDataArray) =
    Z.of_nat (length (filter (fun c => negb (filteredOut now (Some d) (c_date c)))
                             (commitsBy u repoDataArray)))
  ∧ (∀ ms, filteredOut now (Some d) (Iso ms) = false
           ↔ cutoffMs now (Some d) / 1000 ≤ ms / 1000)
  ∧ filteredOut now (Some d) (Iso (cutoffMs now (Some d))) = false
  ∧ (∀ ms, ms ≤ cutoffMs now (Some d) - 1000 →
           filteredOut now (Some d) (Iso ms) = true)
  ∧ (filteredOut now (Some d) (Iso (cutoffMs now (Some d) - 1)) = true
     ↔ cutoffMs now (Some d) mod 1000 = 0).
Proof.
  intros Hd. split; [|split; [|split; [|split]]].
  - rewrite commitsOfUser_aggregateStats. apply userCommits_buildUserMap.
  - intros ms. rewrite filteredOut_Iso by done. rewrite Z.ltb_ge. done.
  - rewrite filteredOut_Iso by done. apply Z.ltb_ge. lia.
  - intros ms Hms. rewrite filteredOut_Iso by done. apply Z.ltb_lt.
    pose proof (Z.div_le_mono ms (cutoffMs now (Some d) - 1000) 1000 ltac:(lia) Hms) as H.
    replace (cutoffMs now (Some d) - 1000) with (cutoffMs now (Some d) + (-1) * 1000) in H by lia.
    rewrite Z.div_add in H by lia. lia.
  - rewrite filteredOut_Iso by done. rewrite Z.ltb_lt.
    generalize (cutoffMs now (Some d)). intros c.
    pose proof (Z.div_mod c 1000 ltac:(lia)) as Hc.
    pose proof (Z.mod_pos_bound c 1000 ltac:(lia)) as Hb.
    pose proof (Z.div_mod (c - 1) 1000 ltac:(lia)) as Hc1.
    pose proof (Z.mod_pos_bound (c - 1) 1000 ltac:(lia)) as Hb1.
    lia.
Qed.

(** The statement above at the sample run: alice's one commit, dated at the
    cutoff instant. *)
Lemma commit_cutoff_in_whole_seconds_witness :
  commitsOfUser "alice"
    (aggregateStats utcZone sampleNow (Some 7) [oneCommitRepo (cutoffMs sampleNow (Some 7))]) =
    Z.of_nat (length (filter (fun c => negb (filteredOut sampleNow (Some 7) (c_date c)))
                             (commitsBy "alice" [oneCommitRepo (cutoffMs sampleNow (Some 7))])))
  ∧ (∀ ms, filteredOut sampleNow (Some 7) (Iso ms) = false
           ↔ cutoffMs sampleNow (Some 7) / 1000 ≤ ms / 1000)
  ∧ filteredOut sampleNow (Some 7) (Iso (cutoffMs sampleNow (Some 7))) = false
  ∧ (∀ ms, ms ≤ cutoffMs sampleNow (Some 7) - 1000 →
           filteredOut sampleNow (Some 7) (Iso ms) = true)
  ∧ (filteredOut sampleNow (Some 7) (Iso (cutoffMs sampleNow (Some 7) - 1)) = true
     ↔ cutoffMs sampleNow (Some 7) mod 1000 = 0).
Proof.
  apply (commit_cutoff_in_whole_seconds utcZone sampleNow 7
           [oneCommitRepo (cutoffMs sampleNow (Some 7))] "alice").
  lia.
Defined.

(** C3 as stated fails: in the sample run the cutoff is 1699395200500; a
    commit dated one millisecond earlier, at 1699395200499, falls in the same
    second as the cutoff and is counted. *)
Lemma commit_one_ms_before_cutoff_counted :
  cutoffMs sampleNow (Some 7) = 1699395200500
  ∧ commitsOfUser "alice"
      (aggregateStats utcZone sampleNow (Some 7) [oneCommitRepo (1699395200500 - 1)]) = 1.
Proof. split; vm_compute; reflexivity. Qed.

(** ** aggregateStats as it is called *)

Section ResultFolds.
Context {A B : Type}.

Lemma foldResult_ok (f : A → B → Result A) (g : A → B → A) l a :
  Forall (fun x => ∀ a, f a x = Ok (g a x)) l →
  foldResult f l a = Ok (fold_left g l a).
Proof.
  intros Hl. revert a. induction Hl as [|x l Hx _ IH]; intros a; simpl; [done|].
  rewrite Hx. simpl. apply IH.
Qed.

Lemma foldResult_ends (f : A → B → Result A) l a :
  (∀ a x, f a x ≠ OutOfFuel) → foldResult f l a ≠ OutOfFuel.
Proof.
  intros Hf. revert a. induction l as [|x l IH]; intros a; simpl; [done|].
  specialize (Hf a x). destruct (f a x); simpl; [apply IH|done..].
Qed.

(** A loop that returns went through every step without a throw. *)
Lemma foldResult_Ok_inv (f : A → B → Result A) (g : A → B → A) (keep : B → bool) l a a' :
  (∀ a x a1, f a x = Ok a1 → a1 = if keep x then g a x else a) →
  foldResult f l a = Ok a' →
  a' = fold_left g (filter (fun x => keep x = true) l) a.
Proof.
  intros Hf. revert a. induction l as [|x l IH]; intros a; simpl.
  { by intros [= <-]. }
  destruct (f a x) as [a1| |] eqn:Hx; simpl; [|done..].
  intros Hrest. apply IH in Hrest. rewrite (Hf _ _ _ Hx) in Hrest.
  rewrite filter_cons. destruct (keep x) eqn:Hk.
  - by rewrite decide_True by done.
  - by rewrite decide_False by done.
Qed.

Lemma foldResult_Throw_inv (f : A → B → Result A) l a message :
  foldResult f l a = Throw message → ∃ a0 x, x ∈ l ∧ f a0 x = Throw message.
Proof.
  revert a. induction l as [|x l IH]; intros a; simpl; [done|].
  destruct (f a x) as [a1| |] eqn:Hx; simpl; [|intros [= <-]|done].
  - intros Hrest. destruct (IH _ Hrest) as (a0 & y & Hy & Hthrow).
    exists a0, y. split; [by right|done].
  - exists a, x. split; [by left|done].
Qed.
Lemma foldResult_preserves (Inv : A → Prop) (f : A → B → Result A) l a a' :
  (∀ a x a1, Inv a → f a x = Ok a1 → Inv a1) →
  Inv a → foldResult f l a = Ok a' → Inv a'.
Proof.
  intros Hf. revert a. induction l as [|x l IH]; intros a Ha; simpl.
  { by intros [= <-]. }
  destruct (f a x) as [a1| |] eqn:Hx; simpl; [|done..].
  apply IH. by eapply Hf.
Qed.
End ResultFolds.

Section AggregateCalled.
Variables (zone : TimeZone) (now : Z) (daysFilter : option Z).

Lemma commitStepJS_plain repoName um c :
  plainLogin (c_user c) = true →
  commitStepJS zone now daysFilter repoName um c
  = Ok (commitStep zone now daysFilter repoName um c).
Proof.
  unfold plainLogin, commitStepJS, commitStep.
  destruct (truthyStr (c_user c)) as [u|]; [|done].
  intros Hu. destruct (filteredOut _ _ _); [done|].
  by destruct (inherited u).
Qed.

Lemma prStepJS_plain repoName um pr :
  plainLogin (pr_user pr) = true →
  prStepJS zone now daysFilter repoName um pr
  = Ok (prStep zone now daysFilter repoName um pr).
Proof.
  unfold plainLogin, prStepJS, prStep.
  destruct (truthyStr (pr_user pr)) as [u|]; [|done].
  intros Hu. cbv zeta. destruct (filteredOut _ _ _); [done|].
  by destruct (inherited u).
Qed.

Lemma reviewStepJS_plain repoName um p :
  inherited p.1 = false →
  reviewStepJS zone now daysFilter repoName um p
  = Ok (reviewStep zone now daysFilter repoName um p).
Proof. unfold reviewStepJS. cbv zeta. by intros ->. Qed.

Lemma plain_entries (o : list (string * ReviewInfo)) :
  forallb (fun p => negb (inherited p.1)) o = true →
  Forall (fun p => inherited p.1 = false) (obj_entries strIndex o).
Proof.
  intros Ho. apply Forall_forall. intros p Hp.
  apply elem_of_obj_entries in Hp.
  rewrite forallb_forall in Ho. apply negb_true_iff, Ho.
  by apply list_elem_of_In.
Qed.

Lemma repoStepJS_plain um rd :
  plainLogins rd = true →
  repoStepJS zone now daysFilter um rd = Ok (repoStep zone now daysFilter um rd).
Proof.
  unfold plainLogins, repoStepJS, repoStep. cbv zeta.
  intros [[Hc Hp]%andb_true_iff Hr]%andb_true_iff.
  rewrite (foldResult_ok _ (commitStep zone now daysFilter (rd_repoName rd))).
  2:{ apply Forall_forall. intros c Hin um0. apply commitStepJS_plain.
      rewrite forallb_forall in Hc. by apply Hc, list_elem_of_In. }
  simpl.
  rewrite (foldResult_ok _ (prStep zone now daysFilter (rd_repoName rd))).
  2:{ apply Forall_forall. intros pr Hin um0. apply prStepJS_plain.
      rewrite forallb_forall in Hp. by apply Hp, list_elem_of_In. }
  simpl.
  apply foldResult_ok. eapply Forall_impl; [by apply plain_entries|].
  intros p Hpl um0. by apply reviewStepJS_plain.
Qed.

(** Without such logins the call returns what [aggregateStats]
    computes. *)
Lemma aggregateStatsJS_plain repoDataArray :
  forallb plainLogins repoDataArray = true →
  aggregateStatsJS zone now daysFilter repoDataArray
  = Ok (aggregateStats zone now daysFilter repoDataArray).
Proof.
  intros Hall. unfold aggregateStatsJS, buildUserMapJS, aggregateStats, buildUserMap.
  rewrite (foldResult_ok _ (repoStep zone now daysFilter)); [done|].
  apply Forall_forall. intros rd Hin um0. apply repoStepJS_plain.
  rewrite forallb_forall in Hall. by apply Hall, list_elem_of_In.
Qed.

(** The call returns or throws. *)
Lemma aggregateStatsJS_ends repoDataArray :
  aggregateStatsJS zone now daysFilter repoDataArray ≠ OutOfFuel.
Proof.
  unfold aggregateStatsJS, buildUserMapJS.
  assert (foldResult (repoStepJS zone now daysFilter) repoDataArray [] ≠ OutOfFuel) as H.
  { apply foldResult_ends. intros um rd. unfold repoStepJS. cbv zeta.
    assert (foldResult (commitStepJS zone now daysFilter (rd_repoName rd))
              (rd_commits rd) um ≠ OutOfFuel) as H1.
    { apply foldResult_ends. intros a c. unfold commitStepJS.
      destruct (truthyStr _); [|done]. destruct (filteredOut _ _ _); [done|].
      by destruct (inherited _). }
    destruct (foldResult (commitStepJS _ _ _ _) _ _) as [um1| |]; simpl; [|done..].
    assert (foldResult (prStepJS zone now daysFilter (rd_repoName rd))
              (rd_prs rd) um1 ≠ OutOfFuel) as H2.
    { apply foldResult_ends. intros a pr. unfold prStepJS.
      destruct (truthyStr _); [|done]. destruct (filteredOut _ _ _); [done|].
      by destruct (inherited _). }
    destruct (foldResult (prStepJS _ _ _ _) _ _) as [um2| |]; simpl; [|done..].
    apply foldResult_ends. intros a p. unfold reviewStepJS. cbv zeta.
    destruct (inherited _); [|done]. destruct (_ <? _)%nat; [done|].
    by destruct (List.find _ _). }
  by destruct (foldResult _ _ _).
Qed.
(** *** Where the call returns *)

Lemma inherited_no_index k : inherited k = true → strIndex k = None.
Proof.
  unfold inherited. intros Hk%bool_decide_eq_true. unfold inheritedNames in Hk.
  repeat (apply elem_of_cons in Hk as [->|Hk]; [reflexivity|]).
  by apply elem_of_nil in Hk.
Qed.

Lemma filter_all {X : Type} (P : X → Prop) `{∀ x, Decision (P x)} (l : list X) :
  Forall P l → filter P l = l.
Proof.
  induction 1 as [|x l Hx _ IH]; [done|]. by rewrite filter_cons_True, IH.
Qed.

(** Review entries under inherited names are listed after the array
    indexes, so leaving them out commutes with [Object.entries]. *)
Lemma obj_entries_plain (o : list (string * ReviewInfo)) :
  obj_entries strIndex (filter (fun p => inherited p.1 = false) o)
  = filter (fun p => inherited p.1 = false) (obj_entries strIndex o).
Proof.
  unfold obj_entries. rewrite filter_app. f_equal.
  - rewrite (filter_all (fun p : string * ReviewInfo => inherited p.1 = false)
               (js_sort _ _)).
    2:{ apply Forall_forall. intros p Hp. rewrite js_sort_Permutation in Hp.
        apply list_elem_of_filter in Hp as [[z Hz] _].
        destruct (inherited p.1) eqn:Hi; [|done].
        apply inherited_no_index in Hi. congruence. }
    f_equal. apply list_filter_filter_l.
    intros p [z Hz]. destruct (inherited p.1) eqn:Hi; [|done].
    apply inherited_no_index in Hi. congruence.
  - rewrite !list_filter_filter. apply list_filter_iff. intros p. tauto.
Qed.

Lemma commitStepJS_Ok repoName um c um' :
  commitStepJS zone now daysFilter repoName um c = Ok um' →
  um' = commitStep zone now daysFilter repoName um c.
Proof.
  unfold commitStepJS, commitStep.
  destruct (truthyStr (c_user c)) as [u|]; [|by intros [= <-]].
  destruct (filteredOut _ _ _); [by intros [= <-]|].
  destruct (inherited u); [done|]. by intros [= <-].
Qed.

Lemma prStepJS_Ok repoName um pr um' :
  prStepJS zone now daysFilter repoName um pr = Ok um' →
  um' = prStep zone now daysFilter repoName um pr.
Proof.
  unfold prStepJS, prStep. cbv zeta.
  destruct (truthyStr (pr_user pr)) as [u|]; [|by intros [= <-]].
  destruct (filteredOut _ _ _); [by intros [= <-]|].
  destruct (inherited u); [done|]. by intros [= <-].
Qed.

Lemma reviewStepJS_Ok repoName um p um' :
  reviewStepJS zone now daysFilter repoName um p = Ok um' →
  um' = if negb (inherited p.1) then reviewStep zone now daysFilter repoName um p else um.
Proof.
  unfold reviewStepJS. cbv zeta.
  destruct (inherited p.1); simpl; [|by intros [= <-]].
  destruct (_ <? _)%nat; [done|]. destruct (List.find _ _); [done|]. by intros [= <-].
Qed.

Lemma foldResult_Ok_all {X : Type}
    (f : list (string * UserEntry) → X → Result (list (string * UserEntry)))
    (g : list (string * UserEntry) → X → list (string * UserEntry)) l um um' :
  (∀ um x um1, f um x = Ok um1 → um1 = g um x) →
  foldResult f l um = Ok um' → um' = fold_left g l um.
Proof.
  intros Hf. revert um. induction l as [|x l IH]; intros um; simpl.
  { by intros [= <-]. }
  destruct (f um x) as [um1| |] eqn:Hx; simpl; [|done..].
  rewrite <- (Hf _ _ _ Hx). apply IH.
Qed.

Lemma repoStepJS_Ok um rd um' :
  repoStepJS zone now daysFilter um rd = Ok um' →
  um' = repoStep zone now daysFilter um (withoutInheritedReviews rd).
Proof.
  unfold repoStepJS, repoStep, withoutInheritedReviews. cbv zeta. simpl.
  destruct (foldResult (commitStepJS _ _ _ _) _ _) as [um1| |] eqn:H1; simpl; [|done..].
  apply (foldResult_Ok_all _ (commitStep zone now daysFilter (rd_repoName rd))) in H1;
    [|apply commitStepJS_Ok].
  destruct (foldResult (prStepJS _ _ _ _) _ _) as [um2| |] eqn:H2; simpl; [|done..].
  apply (foldResult_Ok_all _ (prStep zone now daysFilter (rd_repoName rd))) in H2;
    [|apply prStepJS_Ok].
  intros H3.
  apply (foldResult_Ok_inv _ (reviewStep zone now daysFilter (rd_repoName rd))
           (fun p => negb (inherited p.1))) in H3; [|apply reviewStepJS_Ok].
  rewrite H3, H2, H1, obj_entries_plain. f_equal.
  apply list_filter_iff. intros p. by destruct (inherited p.1).
Qed.

Lemma buildUserMapJS_Ok repoDataArray um :
  buildUserMapJS zone now daysFilter repoDataArray = Ok um →
  um = buildUserMap zone now daysFilter (withoutInheritedReviews <$> repoDataArray).
Proof.
  unfold buildUserMapJS, buildUserMap. intros Hrun.
  apply (foldResult_Ok_all _ (fun um rd => repoStep zone now daysFilter um
                                            (withoutInheritedReviews rd))) in Hrun;
    [|apply repoStepJS_Ok].
  rewrite Hrun. generalize (@nil (string * UserEntry)).
  clear Hrun. induction repoDataArray as [|rd l IH]; intros um0; [done|]. csimpl. apply IH.
Qed.

Lemma plainLogins_without rd :
  plainLogins rd = true → withoutInheritedReviews rd = rd.
Proof.
  unfold plainLogins, withoutInheritedReviews. intros [_ Hr]%andb_true_iff.
  destruct rd as [name cs prs reviews]. simpl in *. f_equal.
  apply filter_all, Forall_forall. intros p Hp.
  rewrite forallb_forall in Hr. apply negb_true_iff, Hr. by apply list_elem_of_In.
Qed.

End AggregateCalled.

(** ** Week boundaries *)

Section WeekFacts.
Variable tzMinutes : Z.

(** In a zone at a fixed offset the local-time methods are plain
    arithmetic. *)
Lemma fixed_setHours0 t :
  setHours0 (fixedZone tzMinutes) t
  = (t + tzMs tzMinutes) / msPerDay * msPerDay - tzMs tzMinutes.
Proof. done. Qed.

Lemma fixed_getDay t :
  getDay (fixedZone tzMinutes) t = ((t + tzMs tzMinutes) / msPerDay + 4) mod 7.
Proof. done. Qed.

Lemma fixed_setDateBack t n :
  setDateBack (fixedZone tzMinutes) t n = t - n * msPerDay.
Proof. unfold setDateBack, utcTime, localTime. simpl. lia. Qed.

Lemma weekStartMs_eq t :
  let L := (t + tzMs tzMinutes) / msPerDay in
  weekStartMs (fixedZone tzMinutes) t = (L - (L + 4) mod 7) * msPerDay - tzMs tzMinutes.
Proof.
  unfold weekStartMs. cbv zeta.
  rewrite fixed_setDateBack, fixed_getDay, fixed_setHours0.
  replace ((t + tzMs tzMinutes) / msPerDay * msPerDay - tzMs tzMinutes + tzMs tzMinutes)
    with ((t + tzMs tzMinutes) / msPerDay * msPerDay) by lia.
  rewrite Z.div_mul by done. lia.
Qed.

Lemma sundayOf_sunday t : (sundayOf tzMinutes t + 4) mod 7 = 0.
Proof.
  unfold sundayOf. simpl. generalize ((t + tzMs tzMinutes) / msPerDay). intros L.
  Z.div_mod_to_equations. lia.
Qed.

(** The local day of an instant that is local midnight of day [W]. *)
Lemma local_day_of_midnight W :
  (W * msPerDay - tzMs tzMinutes + tzMs tzMinutes) / msPerDay = W.
Proof.
  replace (W * msPerDay - tzMs tzMinutes + tzMs tzMinutes) with (W * msPerDay) by lia.
  by apply Z.div_mul.
Qed.

(** Whole weeks before a week start are week starts: local midnight, on a
    Sunday, and fixed by the week computation. *)
Lemma week_start_shift t j :
  let s := weekStartMs (fixedZone tzMinutes) t - j * (7 * msPerDay) in
  setHours0 (fixedZone tzMinutes) s = s ∧ getDay (fixedZone tzMinutes) s = 0 ∧ weekStartMs (fixedZone tzMinutes) s = s.
Proof.
  simpl. rewrite weekStartMs_eq. simpl. fold (sundayOf tzMinutes t).
  pose proof (sundayOf_sunday t) as Hs.
  set (W := sundayOf tzMinutes t - 7 * j).
  assert (sundayOf tzMinutes t * msPerDay - tzMs tzMinutes - j * (7 * msPerDay)
          = W * msPerDay - tzMs tzMinutes) as -> by (unfold W; lia).
  assert ((W + 4) mod 7 = 0) as HW.
  { unfold W. replace (sundayOf tzMinutes t - 7 * j + 4) with (sundayOf tzMinutes t + 4 + (- j) * 7) by lia.
    by rewrite Z.mod_add. }
  assert (setHours0 (fixedZone tzMinutes) (W * msPerDay - tzMs tzMinutes)
          = W * msPerDay - tzMs tzMinutes) as H0.
  { rewrite fixed_setHours0. by rewrite local_day_of_midnight. }
  assert (getDay (fixedZone tzMinutes) (W * msPerDay - tzMs tzMinutes) = 0) as H1.
  { rewrite fixed_getDay. by rewrite local_day_of_midnight. }
  split; [done|]. split; [done|].
  unfold weekStartMs. cbv zeta. rewrite H0, H1, fixed_setDateBack. lia.
Qed.

(** Week starts are whole seconds. *)
Lemma weekStartMs_seconds t : weekStartMs (fixedZone tzMinutes) t / 1000 * 1000 = weekStartMs (fixedZone tzMinutes) t.
Proof.
  rewrite weekStartMs_eq. simpl. fold (sundayOf tzMinutes t).
  unfold msPerDay, tzMs.
  replace (sundayOf tzMinutes t * (24 * 60 * 60 * 1000) - tzMinutes * 60 * 1000)
    with ((sundayOf tzMinutes t * 86400 - tzMinutes * 60) * 1000) by lia.
  by rewrite Z.div_mul.
Qed.

(** The week of an instant contains it. *)
Lemma weekStartMs_contains t :
  weekStartMs (fixedZone tzMinutes) t ≤ t < weekStartMs (fixedZone tzMinutes) t + 7 * msPerDay.
Proof.
  rewrite weekStartMs_eq. simpl.
  pose proof (Z.div_mod (t + tzMs tzMinutes) msPerDay ltac:(done)) as Hd.
  pose proof (Z.mod_pos_bound (t + tzMs tzMinutes) msPerDay ltac:(done)) as Hb.
  pose proof (Z.mod_pos_bound ((t + tzMs tzMinutes) / msPerDay + 4) 7 ltac:(done)) as Hm.
  unfold msPerDay in *. lia.
Qed.

Lemma weekTsOf_normalized t : normalized (fixedZone tzMinutes) (weekTsOf (fixedZone tzMinutes) t).
Proof.
  unfold normalized. destruct t as [t|]; simpl; [|done].
  rewrite weekStartMs_seconds.
  pose proof (week_start_shift t 0) as (_ & _ & H). simpl in H.
  replace (weekStartMs (fixedZone tzMinutes) t - 0 * (7 * msPerDay)) with (weekStartMs (fixedZone tzMinutes) t) in H by lia.
  by rewrite H.
Qed.
End WeekFacts.

(** ** The weekly window (C2) *)

Section WeeklyWindow.
Variables (tzMinutes now : Z) (daysFilter : option Z).

Let weekMapOf (ws : list Week) : list (option Z * Week) :=
  fold_left (weekMapStep (fixedZone tzMinutes)) ws [].

Lemma weekMapOf_snoc ws w :
  weekMapOf (ws ++ [w]) = weekMapStep (fixedZone tzMinutes) (weekMapOf ws) w.
Proof. unfold weekMapOf. apply List.fold_left_app. Qed.

Lemma weekMap_get_None ws k :
  Forall (fun w => normalized (fixedZone tzMinutes) (week w)) ws →
  (∀ w, w ∈ ws → week w ≠ k) →
  obj_get k (weekMapOf ws) = None.
Proof.
  induction ws as [|w ws IH] using rev_ind; intros Hn Hk; [done|].
  apply Forall_app in Hn as [Hn Hw]. apply Forall_inv in Hw.
  rewrite weekMapOf_snoc. unfold weekMapStep. simpl.
  unfold normalized in Hw. rewrite Hw.
  assert (week w ≠ k) as Hne by (apply Hk; set_solver).
  assert (obj_get k (weekMapOf ws) = None) as Hget by (apply IH; [done|]; intros; apply Hk; set_solver).
  destruct (obj_get (week w) (weekMapOf ws)).
  - rewrite obj_get_alter. by rewrite decide_False.
  - rewrite obj_get_app, Hget. simpl. by rewrite decide_False.
Qed.

Lemma weekMap_get_Some ws w :
  NoDup (week <$> ws) →
  Forall (fun w => normalized (fixedZone tzMinutes) (week w)) ws →
  w ∈ ws →
  obj_get (week w) (weekMapOf ws) = Some w.
Proof.
  induction ws as [|w0 ws IH] using rev_ind; intros Hnd Hn Hin.
  { by apply elem_of_nil in Hin. }
  rewrite fmap_app in Hnd. apply NoDup_app in Hnd as (Hnd & Hfresh & _).
  apply Forall_app in Hn as [Hn Hw0]. apply Forall_inv in Hw0.
  assert (∀ w', w' ∈ ws → week w' ≠ week w0) as Hother.
  { intros w' Hw' Heq. apply (Hfresh (week w')).
    - apply list_elem_of_fmap. by exists w'.
    - rewrite Heq. simpl. left. }
  rewrite weekMapOf_snoc. unfold weekMapStep. simpl.
  unfold normalized in Hw0. rewrite Hw0.
  rewrite (weekMap_get_None ws (week w0)) by done.
  rewrite obj_get_app.
  apply elem_of_app in Hin as [Hin|Hin].
  - by rewrite IH.
  - apply list_elem_of_singleton in Hin as ->.
    rewrite (weekMap_get_None ws (week w0)) by done.
    simpl. rewrite decide_True by done. by destruct w0.
Qed.

(** The array [emit] builds from [stats.weeklyData] before filling. *)
Let weeklyArrayOf (wd : list (option Z * Bucket)) : list Week :=
  js_sort (fun a b => subNum (week a) (week b))
          ((fun p => {| week := p.1; w_data := p.2 |}) <$> obj_entries numIndex wd).

Lemma elem_of_weeklyArrayOf wd w :
  w ∈ weeklyArrayOf wd ↔ (week w, w_data w) ∈ wd.
Proof.
  unfold weeklyArrayOf. rewrite elem_of_js_sort, list_elem_of_fmap. split.
  - intros ([k b] & -> & Hin). by apply elem_of_obj_entries in Hin.
  - intros Hin. exists (week w, w_data w). split; [by destruct w|].
    by apply elem_of_obj_entries.
Qed.

Lemma weeklyArrayOf_weeks wd : week <$> weeklyArrayOf wd ≡ₚ wd.*1.
Proof.
  unfold weeklyArrayOf. rewrite js_sort_Permutation, <- list_fmap_compose.
  by rewrite obj_entries_Permutation.
Qed.

(** With distinct, normalised keys, [weekMap] is [stats.weeklyData] again. *)
Lemma weekMap_of_weeklyData wd ts :
  NoDup wd.*1 → Forall (fun p => normalized (fixedZone tzMinutes) p.1) wd →
  obj_get (Some ts) (weekMapOf (weeklyArrayOf wd)) =
    (fun b => {| week := Some ts; w_data := b |}) <$> obj_get (Some ts) wd.
Proof.
  intros Hnd Hn.
  assert (Forall (fun w => normalized (fixedZone tzMinutes) (week w)) (weeklyArrayOf wd)) as Hn'.
  { apply Forall_forall. intros w Hw. apply (proj1 (elem_of_weeklyArrayOf wd w)) in Hw.
    rewrite Forall_forall in Hn. by apply (Hn (week w, w_data w)). }
  destruct (obj_get (Some ts) wd) as [b|] eqn:Hget; simpl.
  - apply obj_get_elem_of in Hget.
    apply (weekMap_get_Some _ {| week := Some ts; w_data := b |}); [|done|].
    + by rewrite weeklyArrayOf_weeks.
    + by apply elem_of_weeklyArrayOf.
  - apply weekMap_get_None; [done|].
    intros w Hw Hk. apply (proj1 (elem_of_weeklyArrayOf wd w)) in Hw.
    apply obj_get_None in Hget. apply Hget.
    apply list_elem_of_fmap. exists (week w, w_data w). split; [by rewrite Hk | done].
Qed.

(** The weekly buckets of the accumulator have distinct, normalised keys. *)
Lemma bumpWeek_keys f t wd :
  NoDup wd.*1 ∧ Forall (fun p => normalized (fixedZone tzMinutes) p.1) wd →
  NoDup (bumpWeek f (weekTsOf (fixedZone tzMinutes) t) wd).*1
  ∧ Forall (fun p => normalized (fixedZone tzMinutes) p.1) (bumpWeek f (weekTsOf (fixedZone tzMinutes) t) wd).
Proof.
  intros [Hnd Hn]. unfold bumpWeek. split.
  - rewrite obj_alter_keys. by apply obj_ensure_NoDup.
  - apply (obj_alter_Forall (fun k _ => normalized (fixedZone tzMinutes) k)); [done|].
    apply (obj_ensure_Forall (fun k _ => normalized (fixedZone tzMinutes) k)); [|done].
    apply weekTsOf_normalized.
Qed.

Lemma buildUserMap_weeklyData l u e :
  (u, e) ∈ buildUserMap (fixedZone tzMinutes) now daysFilter l →
  NoDup (e_weeklyData e).*1
  ∧ Forall (fun p => normalized (fixedZone tzMinutes) p.1) (e_weeklyData e).
Proof.
  intros Hin.
  assert (Forall (fun p : string * UserEntry =>
                    NoDup (e_weeklyData p.2).*1
                    ∧ Forall (fun p => normalized (fixedZone tzMinutes) p.1) (e_weeklyData p.2))
                 (buildUserMap (fixedZone tzMinutes) now daysFilter l)) as H.
  { apply (buildUserMap_inv (fixedZone tzMinutes) now daysFilter l
             (fun _ e => NoDup (e_weeklyData e).*1
                         ∧ Forall (fun p => normalized (fixedZone tzMinutes) p.1) (e_weeklyData e))).
    - intros. simpl. split; [apply NoDup_nil_2 | constructor].
    - intros. simpl. by apply bumpWeek_keys.
    - intros ? pr ? e' ? ? ? ? He'. simpl.
      destruct (hasLineStats pr); simpl.
      + by do 2 apply bumpWeek_keys.
      + by apply bumpWeek_keys.
    - intros. simpl. done.
    - intros. simpl. by apply bumpWeek_keys.
    - intros. simpl. done.
    - intros. simpl. done. }
  rewrite Forall_forall in H. apply (H (u, e) Hin).
Qed.

(** The filled array: one entry per week of the window, holding the
    bucket recorded for that week, or zeros. *)
Lemma fillWeeks_length wm :
  length (fillWeeks (fixedZone tzMinutes) now daysFilter wm) = Z.to_nat (maxWeeks daysFilter).
Proof. unfold fillWeeks. by rewrite length_fmap, length_seqZ. Qed.

Lemma fillWeeks_lookup wm (i : nat) w :
  fillWeeks (fixedZone tzMinutes) now daysFilter wm !! i = Some w →
  let ts := startTs (fixedZone tzMinutes) now daysFilter + Z.of_nat i * secondsPerWeek in
  (i < Z.to_nat (maxWeeks daysFilter))%nat
  ∧ w = match obj_get (Some ts) wm with
        | Some w' => w'
        | None => {| week := Some ts; w_data := zeroBucket |}
        end.
Proof.
  unfold fillWeeks. rewrite list_lookup_fmap. intros H.
  destruct (seqZ 0 (maxWeeks daysFilter) !! i) as [j|] eqn:Hj; [|done].
  apply lookup_seqZ in Hj as [-> Hi]. simpl in H. injection H as <-.
  split; [lia|]. by rewrite Z.add_0_l.
Qed.
End WeeklyWindow.

Lemma maxWeeks_ceil d : 0 < d → 7 * (maxWeeks (Some d) - 1) < d ≤ 7 * maxWeeks (Some d).
Proof.
  intros Hd. unfold maxWeeks, truthyDays. simpl.
  rewrite (proj2 (Z.eqb_neq d 0)) by lia. simpl.
  Z.div_mod_to_equations. lia.
Qed.

(** The window in a zone at a fixed offset from UTC. With [daysFilter] set
    to a positive number of days [d], every record carries exactly
    ceil(d / 7) weekly entries, and 52 when [daysFilter] is null. The i-th
    entry is keyed by the week start lying (n - 1 - i) whole weeks before
    the current week's start, so the keys run from (latest - (n - 1) weeks)
    to the latest week in steps of exactly 7 days, without repetition; each
    key is local midnight of a Sunday; the latest one is the week
    containing now. An entry holds the bucket the accumulator recorded
    under its key, and zeros when there is none. *)
Lemma weeklyData_window tzMinutes now daysFilter repoDataArray :
  match daysFilter with Some d => 0 < d | None => True end →
  match daysFilter with
  | Some d => 7 * (maxWeeks daysFilter - 1) < d ≤ 7 * maxWeeks daysFilter
  | None => maxWeeks daysFilter = 52
  end
  ∧ endTs (fixedZone tzMinutes) now * 1000 = weekStartMs (fixedZone tzMinutes) now
  ∧ endTs (fixedZone tzMinutes) now * 1000 ≤ now < endTs (fixedZone tzMinutes) now * 1000 + 7 * msPerDay
  ∧ Forall (fun r =>
       length (weeklyData r) = Z.to_nat (maxWeeks daysFilter)
       ∧ NoDup (week <$> weeklyData r)
       ∧ ∃ e, (user r, e) ∈ buildUserMap (fixedZone tzMinutes) now daysFilter repoDataArray
         ∧ ∀ (i : nat) w, weeklyData r !! i = Some w →
             ∃ ts, ts = endTs (fixedZone tzMinutes) now
                        - (maxWeeks daysFilter - 1 - Z.of_nat i) * (7 * 24 * 60 * 60)
                   ∧ week w = Some ts
                   ∧ setHours0 (fixedZone tzMinutes) (ts * 1000) = ts * 1000
                   ∧ getDay (fixedZone tzMinutes) (ts * 1000) = 0
                   ∧ w_data w = default zeroBucket (obj_get (Some ts) (e_weeklyData e)))
     (aggregateStats (fixedZone tzMinutes) now daysFilter repoDataArray).
Proof.
  intros Hd.
  assert (endTs (fixedZone tzMinutes) now * 1000 = weekStartMs (fixedZone tzMinutes) now) as Hend
    by apply weekStartMs_seconds.
  split; [|split; [done|split]].
  - destruct daysFilter as [d|]; [by apply maxWeeks_ceil | done].
  - rewrite Hend. apply weekStartMs_contains.
  - apply Forall_forall. intros r Hr.
    apply elem_of_aggregateStats in Hr as (e & -> & _ & He).
    pose proof (buildUserMap_weeklyData _ _ _ _ _ _ He) as [Hnd Hnorm].
    assert (∀ (i : nat) w,
              weeklyData (emit (fixedZone tzMinutes) now daysFilter e) !! i = Some w →
              week w = Some (endTs (fixedZone tzMinutes) now
                             - (maxWeeks daysFilter - 1 - Z.of_nat i) * (7 * 24 * 60 * 60))
              ∧ w_data w = default zeroBucket
                  (obj_get (Some (endTs (fixedZone tzMinutes) now
                             - (maxWeeks daysFilter - 1 - Z.of_nat i) * (7 * 24 * 60 * 60)))
                           (e_weeklyData e))) as Hlook.
    { intros i w Hw. simpl in Hw. apply fillWeeks_lookup in Hw as [_ ->].
      assert (startTs (fixedZone tzMinutes) now daysFilter + Z.of_nat i * secondsPerWeek
              = endTs (fixedZone tzMinutes) now
                - (maxWeeks daysFilter - 1 - Z.of_nat i) * (7 * 24 * 60 * 60)) as ->
        by (unfold startTs, secondsPerWeek; lia).
      rewrite weekMap_of_weeklyData by done.
      by destruct (obj_get _ (e_weeklyData e)). }
    split; [apply fillWeeks_length|]. split.
    + apply NoDup_alt. intros i j k Hi Hj.
      apply list_lookup_fmap_Some in Hi as (wi & -> & Hwi).
      apply list_lookup_fmap_Some in Hj as (wj & Heq & Hwj).
      apply Hlook in Hwi as [Hwi _]. apply Hlook in Hwj as [Hwj _].
      rewrite Hwi, Hwj in Heq. injection Heq. lia.
    + exists e. split; [done|]. intros i w Hw.
      apply Hlook in Hw as [Hk Hdata].
      eexists. split; [reflexivity|]. split; [done|].
      pose proof (week_start_shift tzMinutes now (maxWeeks daysFilter - 1 - Z.of_nat i))
        as (H0 & H1 & _). simpl in H0, H1.
      assert ((endTs (fixedZone tzMinutes) now
               - (maxWeeks daysFilter - 1 - Z.of_nat i) * (7 * 24 * 60 * 60)) * 1000
              = weekStartMs (fixedZone tzMinutes) now
                - (maxWeeks daysFilter - 1 - Z.of_nat i) * (7 * msPerDay)) as ->
        by (unfold msPerDay; lia).
      done.
Qed.

(** The sample run, evaluated: five weekly entries, seven days apart, ending
    at the week of Sunday 12 November 2023; the commit of 13 November sits
    in the last one. *)
Example weeklyData_sample :
  (fun r => (fun w => (week w, b_commits (w_data w))) <$> weeklyData r)
    <$> aggregateStats utcZone sampleNow (Some 30) [oneCommitRepo (sampleNow - 86400000)]
  = [[(Some 1697328000, 0); (Some 1697932800, 0); (Some 1698537600, 0);
      (Some 1699142400, 0); (Some 1699747200, 1)]].
Proof. vm_compute. reflexivity. Qed.

(** C2, at an input the code can receive. The browser is in New York, the
    call is made on 14 November 2023 over the last 30 days, and alice has
    one commit, of 20 October. The commit counts in her total and is
    stored under the start of its local week, Sunday 15 October at
    midnight, which is 04:00 UTC under daylight saving time. The window,
    though, is counted back from the current week's start (12 November,
    05:00 UTC) in steps of 7 * 24 * 60 * 60 seconds: its keys before the end
    of daylight saving time fall on 05:00 UTC, one hour past the local
    midnights, so they are no week starts, none of them matches the stored
    week, and all five entries are zero-filled: the week with alice's
    commit is reported as a week without activity. *)
Theorem weeklyData_loses_week_across_dst :
  let rows := aggregateStats newYork sampleNow (Some 30) [autumnRepo] in
  aggregateStatsJS newYork sampleNow (Some 30) [autumnRepo] = Ok rows
  ∧ (fun r => (user r, commits r)) <$> rows = [("alice"%string, 1)]
  ∧ (fun r => (fun w => (week w, w_data w)) <$> weeklyData r) <$> rows
    = [[(Some 1697346000, zeroBucket); (Some 1697950800, zeroBucket);
        (Some 1698555600, zeroBucket); (Some 1699160400, zeroBucket);
        (Some 1699765200, zeroBucket)]]
  ∧ weekTsOf newYork (Some 1697803200000) = Some 1697342400
  ∧ weekTsOf newYork (Some (1697346000 * 1000)) = Some 1697342400
  ∧ weekTsOf newYork (Some sampleNow) = Some 1699765200
  ∧ filteredOut sampleNow (Some 30) (Iso 1697803200000) = false.
Proof. repeat split; vm_compute; reflexivity. Qed.

(** The same call in a zone that stays five hours behind UTC: the stored
    week and the first key of the window agree, and the commit is there. *)
Example weeklyData_fixed_offset_sample :
  (fun r => (fun w => (week w, b_commits (w_data w))) <$> weeklyData r)
    <$> aggregateStats (fixedZone (-300)) sampleNow (Some 30) [autumnRepo]
  = [[(Some 1697346000, 1); (Some 1697950800, 0); (Some 1698555600, 0);
      (Some 1699160400, 0); (Some 1699765200, 0)]].
Proof. vm_compute. reflexivity. Qed.

(** ** The recent-item lists *)

Section SortedByDate.
Context {A : Type} (date : A → DateStr).

Let cmp (a b : A) : option Z := byDateDesc (date a) (date b).
Let R (a b : A) : Prop := notBefore (date a) (date b).

Lemma sort_insert_sorted x l :
  is_Some (getTime (date x)) →
  Forall (fun y => is_Some (getTime (date y))) l →
  StronglySorted R l → StronglySorted R (sort_insert cmp x l).
Proof.
  intros [tx Hx] Hl Hs. induction Hs as [|y l Hs IH Hy]; simpl.
  - repeat constructor.
  - apply Forall_cons in Hl as [[ty Hty] Hl].
    unfold comesAfter, cmp, byDateDesc. rewrite Hx, Hty. simpl.
    destruct (0 <? ty - tx) eqn:Hlt.
    + apply Z.ltb_lt in Hlt. constructor; [by apply IH|].
      rewrite sort_insert_Permutation. constructor; [|done].
      unfold R, notBefore. rewrite Hx, Hty. lia.
    + apply Z.ltb_ge in Hlt. constructor; [by constructor|].
      constructor.
      * unfold R, notBefore. rewrite Hx, Hty. lia.
      * eapply Forall_impl; [exact Hy|]. intros z. unfold R, notBefore.
        rewrite Hx, Hty. destruct (getTime (date z)); [lia|done].
Qed.

Lemma js_sort_sorted l :
  Forall (fun y => is_Some (getTime (date y))) l →
  StronglySorted R (js_sort cmp l).
Proof.
  induction 1 as [|x l Hx Hl IH]; simpl; [constructor|].
  apply sort_insert_sorted; [done| |done].
  by rewrite js_sort_Permutation.
Qed.
End SortedByDate.

Section RecentLists.
Variables (zone : TimeZone) (now : Z) (daysFilter : option Z).

Lemma push_bounded {X : Type} (l : list X) x :
  (length l ≤ 20)%nat →
  (length (if (length l <? 20)%nat then l ++ [x] else l) ≤ 20)%nat.
Proof.
  intros H. destruct (length l <? 20)%nat eqn:E; [|done].
  apply Nat.ltb_lt in E. rewrite length_app. simpl. lia.
Qed.

Lemma buildUserMap_bounded l u e :
  (u, e) ∈ buildUserMap zone now daysFilter l →
  (length (e_commitsList e) ≤ 20 ∧ length (e_prsList e) ≤ 20
   ∧ length (e_reviewsList e) ≤ 20)%nat.
Proof.
  intros Hin.
  assert (Forall (fun p : string * UserEntry =>
                    (length (e_commitsList p.2) ≤ 20 ∧ length (e_prsList p.2) ≤ 20
                     ∧ length (e_reviewsList p.2) ≤ 20)%nat)
                 (buildUserMap zone now daysFilter l)) as H.
  { apply (buildUserMap_inv zone now daysFilter l
             (fun _ e => (length (e_commitsList e) ≤ 20 ∧ length (e_prsList e) ≤ 20
                          ∧ length (e_reviewsList e) ≤ 20)%nat)).
    - intros. simpl. lia.
    - intros ? ? ? e' _ _ _ _ (H1 & H2 & H3). simpl.
      split; [by apply push_bounded | done].
    - intros ? ? ? e' _ _ _ _ (H1 & H2 & H3). simpl.
      split; [done|]. split; [by apply push_bounded | done].
    - intros ? ? ? ? ? ? e' _ _ _ (H1 & H2 & H3). simpl.
      split; [done|]. split; [done|].
      destruct (_ && _) eqn:E; [|done].
      apply andb_true_iff in E as [E _]. apply Nat.ltb_lt in E.
      rewrite length_app. simpl. lia.
    - intros. simpl. done.
    - intros. simpl. done.
    - intros. simpl. done. }
  rewrite Forall_forall in H. apply (H (u, e) Hin).
Qed.
End RecentLists.

Section ListOrigins.
Variables (zone : TimeZone) (now : Z) (daysFilter : option Z).

Lemma push_Forall {X : Type} (P : X → Prop) (l : list X) x :
  P x → Forall P l → Forall P (if (length l <? 20)%nat then l ++ [x] else l).
Proof.
  intros Hx Hl. destruct (length l <? 20)%nat; [|done].
  apply Forall_app. split; [done | by constructor].
Qed.

Lemma buildUserMap_origins l u e :
  (u, e) ∈ buildUserMap zone now daysFilter l →
  Forall (commitItemFrom now daysFilter l u) (e_commitsList e)
  ∧ Forall (prItemFrom now daysFilter l u) (e_prsList e)
  ∧ Forall (reviewItemFrom l u) (e_reviewsList e).
Proof.
  intros Hin.
  assert (Forall (fun p : string * UserEntry =>
                    Forall (commitItemFrom now daysFilter l p.1) (e_commitsList p.2)
                    ∧ Forall (prItemFrom now daysFilter l p.1) (e_prsList p.2)
                    ∧ Forall (reviewItemFrom l p.1) (e_reviewsList p.2))
                 (buildUserMap zone now daysFilter l)) as H.
  { apply (buildUserMap_inv zone now daysFilter l
             (fun u e => Forall (commitItemFrom now daysFilter l u) (e_commitsList e)
                         ∧ Forall (prItemFrom now daysFilter l u) (e_prsList e)
                         ∧ Forall (reviewItemFrom l u) (e_reviewsList e))).
    - intros. simpl. repeat split; constructor.
    - intros rd c u' e' Hrd Hc Hu Hf (H1 & H2 & H3). simpl.
      split; [|done]. apply push_Forall; [|done].
      by exists rd, c.
    - intros rd pr u' e' Hrd Hp Hu Hf (H1 & H2 & H3). simpl.
      split; [done|]. split; [|done]. apply push_Forall; [|done].
      by exists rd, pr.
    - intros rd u' n ds ps p e' Hrd Hr Hp (H1 & H2 & H3). simpl.
      split; [done|]. split; [done|].
      destruct (_ && _); [|done].
      apply Forall_app. split; [done|]. constructor; [|constructor].
      by exists rd, n, ds, ps, p.
    - intros. simpl. done.
    - intros. simpl. done.
    - intros. simpl. done. }
  rewrite Forall_forall in H. apply (H (u, e) Hin).
Qed.
End ListOrigins.

(** What the three lists of a record do satisfy. Each has at most 20
    entries; every entry stems from an item of the input that is attributed
    to the contributor and, for commits and pull requests, passes the time
    filter; the commit list and the authored-PR list are ordered
    most-recent-first whenever their entries are dated; the reviewed-PR list
    is emitted as accumulated, without a sort. *)
Theorem recent_lists_bounded_and_sorted zone now daysFilter repoDataArray :
  Forall (fun r =>
      (length (commitsList r) ≤ 20 ∧ length (prsList r) ≤ 20
       ∧ length (reviewsList r) ≤ 20)%nat
      ∧ Forall (commitItemFrom now daysFilter repoDataArray (user r)) (commitsList r)
      ∧ Forall (prItemFrom now daysFilter repoDataArray (user r)) (prsList r)
      ∧ Forall (reviewItemFrom repoDataArray (user r)) (reviewsList r)
      ∧ (Forall (fun it => is_Some (getTime (ci_date it))) (commitsList r) →
         StronglySorted (fun a b => notBefore (ci_date a) (ci_date b)) (commitsList r))
      ∧ (Forall (fun it => is_Some (getTime (pri_date it))) (prsList r) →
         StronglySorted (fun a b => notBefore (pri_date a) (pri_date b)) (prsList r))
      ∧ ∃ e, (user r, e) ∈ buildUserMap zone now daysFilter repoDataArray
             ∧ reviewsList r = e_reviewsList e)
    (aggregateStats zone now daysFilter repoDataArray).
Proof.
  apply Forall_forall. intros r Hr.
  apply elem_of_aggregateStats in Hr as (e & -> & _ & He).
  pose proof (buildUserMap_bounded _ _ _ _ _ _ He) as (Hb1 & Hb2 & Hb3).
  pose proof (buildUserMap_origins _ _ _ _ _ _ He) as (Ho1 & Ho2 & Ho3).
  simpl. rewrite !js_sort_length.
  split; [done|].
  split; [by rewrite js_sort_Permutation|].
  split; [by rewrite js_sort_Permutation|].
  split; [done|].
  split; [|split].
  - intros Hd. rewrite js_sort_Permutation in Hd.
    by apply (js_sort_sorted ci_date).
  - intros Hd. rewrite js_sort_Permutation in Hd.
    by apply (js_sort_sorted pri_date).
  - by exists e.
Qed.

(** C9, at an input the code can receive. Alice has twenty commits from
    2020 in the first repository and her newest commit, from 2023, in the
    second. The list is filled with [commitsList.length < 20] while the
    input is visited and sorted only at emission, so it holds the first
    twenty commits visited, all from the first repository and none later
    than 13 September 2020; her most recent commit, which passes the filter
    and counts in her total of 21, is not in it. *)
Theorem recent_commits_miss_the_newest :
  let newest := commitItemOf "app" (sampleCommit "alice" (Iso 1699000000000)) in
  ∃ r, aggregateStatsJS utcZone sampleNow None [legacyRepo; appRepo] = Ok [r]
       ∧ aggregateStats utcZone sampleNow None [legacyRepo; appRepo] = [r]
       ∧ user r = "alice"%string ∧ commits r = 21
       ∧ length (commitsList r) = 20%nat
       ∧ Forall (fun it => ci_repo it = "legacy"%string) (commitsList r)
       ∧ Forall (fun it => notBefore (Iso 1600000000000) (ci_date it)) (commitsList r)
       ∧ (newest ∉ commitsList r)
       ∧ commitItemFrom sampleNow None [legacyRepo; appRepo] "alice" newest.
Proof.
  eexists. split; [vm_compute; reflexivity|].
  split; [vm_compute; reflexivity|].
  split; [reflexivity|]. split; [reflexivity|]. split; [reflexivity|].
  split; [|split; [|split]].
  - repeat constructor.
  - repeat (constructor; [vm_compute; discriminate|]). constructor.
  - intros Hin. apply list_elem_of_In in Hin. vm_compute in Hin.
    repeat (destruct Hin as [Hin|Hin]; [discriminate Hin|]). done.
  - exists appRepo, (sampleCommit "alice" (Iso 1699000000000)).
    split; [set_solver|]. split; [set_solver|]. done.
Qed.

(** ** The response cache (C5) *)

Lemma prefix_app (p s : string) : String.prefix p (p +:+ s) = true.
Proof.
  induction p as [|a p IH]; simpl; [by destruct s|].
  destruct (ascii_dec a a); [exact IH|done].
Qed.

Lemma cache_key_prefixed key : String.prefix CACHE_PREFIX (CACHE_PREFIX +:+ key) = true.
Proof. apply prefix_app. Qed.

Lemma not_prefixed_ne k key : String.prefix CACHE_PREFIX k = false → CACHE_PREFIX +:+ key ≠ k.
Proof. intros Hk <-. by rewrite cache_key_prefixed in Hk. Qed.

Lemma clearCache_lookup (store : gmap string string) k :
  clearCache store !! k = if String.prefix CACHE_PREFIX k then None else store !! k.
Proof.
  unfold clearCache. destruct (String.prefix CACHE_PREFIX k) eqn:Hk.
  - apply map_lookup_filter_None. right. intros x _. simpl. congruence.
  - destruct (store !! k) as [x|] eqn:Hs.
    + by apply map_lookup_filter_Some.
    + apply map_lookup_filter_None. by left.
Qed.

Section StorageFacts.
Context {Json : Type}.
Variable stringify : Json → Z → string.
Variable parse : string → option (Json * option Z).
Variable timestampOf : string → option (option Z).
Variable fits : gmap string string → bool.

Lemma clearOldCache_lookup now (store : gmap string string) k :
  clearOldCache timestampOf now store !! k =
    match store !! k with
    | Some x => if isOld timestampOf now k x then None else Some x
    | None => None
    end.
Proof.
  unfold clearOldCache. destruct (store !! k) as [x|] eqn:Hs.
  - destruct (isOld timestampOf now k x) eqn:Hold.
    + apply map_lookup_filter_None. right. intros y Hy. simpl. congruence.
    + by apply map_lookup_filter_Some.
  - apply map_lookup_filter_None. by left.
Qed.

Lemma isOld_not_prefixed now k x :
  String.prefix CACHE_PREFIX k = false → isOld timestampOf now k x = false.
Proof. intros Hk. unfold isOld. by rewrite Hk. Qed.

Lemma clearCache_clearOldCache now (store : gmap string string) :
  clearCache (clearOldCache timestampOf now store) = clearCache store.
Proof.
  apply map_eq. intros k. rewrite !clearCache_lookup.
  destruct (String.prefix CACHE_PREFIX k) eqn:Hk; [done|].
  rewrite clearOldCache_lookup. destruct (store !! k) as [x|]; [|done].
  by rewrite isOld_not_prefixed.
Qed.

Lemma getFromCache_absent now key (store : gmap string string) :
  store !! (CACHE_PREFIX +:+ key) = None →
  getFromCache parse now key store = (None, store).
Proof. intros Hs. unfold getFromCache. by rewrite Hs. Qed.

(** What [saveToCache] leaves in the store, case by case. *)
Lemma saveToCache_cases now key v (store : gmap string string) :
  let s := stringify v now in
  let k := CACHE_PREFIX +:+ key in
  saveToCache stringify timestampOf fits now key v store =
    if 500 * 1024 <? Z.of_nat (String.length s) then store
    else if fits (<[k := s]> store) then <[k := s]> store
    else if fits (<[k := s]> (clearOldCache timestampOf now store))
         then <[k := s]> (clearOldCache timestampOf now store)
         else clearCache store.
Proof.
  intros s k. unfold saveToCache, setItem. fold s k.
  destruct (_ <? _); [done|]. destruct (fits (<[k:=s]> store)); [done|].
  destruct (fits _); [done|]. apply clearCache_clearOldCache.
Qed.
End StorageFacts.

Section CacheFacts.
Context {Json : Type}.
Variable stringify : Json → Z → string.
Variable parse : string → option (Json * option Z).
Variable timestampOf : string → option (option Z).
Variable fits : gmap string string → bool.

(** What is stored under a key after a write that went through. *)
Lemma saveToCache_stored now key v store :
  Z.of_nat (String.length (stringify v now)) ≤ 500 * 1024 →
  fits (<[CACHE_PREFIX +:+ key := stringify v now]> store) = true
  ∨ fits (<[CACHE_PREFIX +:+ key := stringify v now]>
            (clearOldCache timestampOf now store)) = true →
  saveToCache stringify timestampOf fits now key v store !! (CACHE_PREFIX +:+ key)
  = Some (stringify v now).
Proof.
  intros Hsize Hfits. unfold saveToCache. simpl.
  rewrite (proj2 (Z.ltb_ge _ _) Hsize).
  unfold setItem.
  destruct (fits (<[_ := _]> store)) eqn:H1.
  - apply lookup_insert_eq.
  - destruct Hfits as [?|H2]; [congruence|]. rewrite H2.
    apply lookup_insert_eq.
Qed.

Hypothesis parse_stringify : ∀ v t, parse (stringify v t) = Some (v, Some t).
Hypothesis parse_empty : parse EmptyString = None.

Lemma stringify_nonempty v t : stringify v t ≠ EmptyString.
Proof. intros H. pose proof (parse_stringify v t) as Hp. rewrite H in Hp. congruence. Qed.

Lemma getFromCache_stored now' key v t store :
  store !! (CACHE_PREFIX +:+ key) = Some (stringify v t) →
  getFromCache parse now' key store =
    if CACHE_EXPIRY_MS <? now' - t
    then (None, delete (CACHE_PREFIX +:+ key) store)
    else (Some v, store).
Proof.
  intros Hs. unfold getFromCache. rewrite Hs.
  rewrite bool_decide_eq_false_2 by apply stringify_nonempty.
  by rewrite parse_stringify.
Qed.

(** C5, as the code has it. [saveToCache(key, v)] at [now] ends in one
    of three ways. An entry of at most 500KB that the store takes, at
    once or after the expired entries are purged, is returned by
    [getFromCache(key)] as long as no more than 30 minutes have passed
    since the write, the store staying as it is; once more than 30
    minutes have passed, [getFromCache(key)] returns null and deletes
    the entry. An entry of more than 500KB is not written: the store is
    left as it was, so a read returns what it would have returned
    without the write. An entry the store has no room for, not even
    after the purge, is not kept and the whole cache is cleared: every
    read that follows, of this key or another, returns null. *)
Theorem cache_round_trip now key v store :
  let entry := stringify v now in
  let slot := CACHE_PREFIX +:+ key in
  let store' := saveToCache stringify timestampOf fits now key v store in
  (Z.of_nat (String.length entry) ≤ 500 * 1024 →
   fits (<[slot := entry]> store) = true
   ∨ fits (<[slot := entry]> (clearOldCache timestampOf now store)) = true →
   (∀ now', now' - now ≤ CACHE_EXPIRY_MS →
            getFromCache parse now' key store' = (Some v, store'))
   ∧ (∀ now', CACHE_EXPIRY_MS < now' - now →
              getFromCache parse now' key store' = (None, delete slot store')
              ∧ delete slot store' !! slot = None))
  ∧ (500 * 1024 < Z.of_nat (String.length entry) →
     store' = store
     ∧ ∀ now' key', getFromCache parse now' key' store'
                    = getFromCache parse now' key' store)
  ∧ (Z.of_nat (String.length entry) ≤ 500 * 1024 →
     fits (<[slot := entry]> store) = false →
     fits (<[slot := entry]> (clearOldCache timestampOf now store)) = false →
     store' = clearCache store
     ∧ ∀ now' key', getFromCache parse now' key' store' = (None, store')).
Proof.
  intros entry slot store'. split; [|split].
  - intros Hsize Hfits.
    pose proof (saveToCache_stored now key v store Hsize Hfits) as Hs.
    fold store' in Hs. split.
    + intros now' Hnow. rewrite (getFromCache_stored now' key v now store' Hs).
      by rewrite (proj2 (Z.ltb_ge _ _) Hnow).
    + intros now' Hnow. rewrite (getFromCache_stored now' key v now store' Hs).
      rewrite (proj2 (Z.ltb_lt _ _) Hnow). split; [done|]. apply lookup_delete_eq.
  - intros Hbig.
    assert (store' = store) as ->; [|done].
    unfold store'. rewrite saveToCache_cases. cbv zeta. fold entry.
    by rewrite (proj2 (Z.ltb_lt _ _) Hbig).
  - intros Hsize Hf1 Hf2.
    assert (store' = clearCache store) as ->.
    { unfold store'. rewrite saveToCache_cases. cbv zeta. fold entry slot.
      by rewrite (proj2 (Z.ltb_ge _ _) Hsize), Hf1, Hf2. }
    split; [done|]. intros now' key'. apply getFromCache_absent.
    by rewrite clearCache_lookup, cache_key_prefixed.
Qed.
End CacheFacts.

Lemma decodePos_encodePos p rest : decodePos (encodePos p rest) = Some (p, rest).
Proof. induction p as [p IH|p IH|]; simpl; rewrite ?IH; done. Qed.

Lemma sampleParse_stringify v t : sampleParse (sampleStringify v t) = Some (v, Some t).
Proof. destruct t; simpl; rewrite ?decodePos_encodePos; done. Qed.

(** The three cases on the sample codec and the sample store, which holds
    a listing cached under [repos_acme]: the text [[]] written with room for
    it; a text of more than 500KB; and [[]] again with no room at all. *)
Lemma cache_round_trip_witness :
  let slot := (CACHE_PREFIX +:+ "repos_acme")%string in
  let accepted :=
    saveToCache sampleStringify sampleTimestampOf (fun _ => true) sampleNow "repos_acme"
      "[]" sampleStore in
  let oversized :=
    saveToCache sampleStringify sampleTimestampOf (fun _ => true) sampleNow "repos_acme"
      largeText sampleStore in
  let refused :=
    saveToCache sampleStringify sampleTimestampOf (fun _ => false) sampleNow "repos_acme"
      "[]" sampleStore in
  ((∀ now', now' - sampleNow ≤ CACHE_EXPIRY_MS →
            getFromCache sampleParse now' "repos_acme" accepted = (Some "[]"%string, accepted))
   ∧ (∀ now', CACHE_EXPIRY_MS < now' - sampleNow →
              getFromCache sampleParse now' "repos_acme" accepted
              = (None, delete slot accepted)
              ∧ delete slot accepted !! slot = None))
  ∧ (oversized = sampleStore
     ∧ ∀ now' key', getFromCache sampleParse now' key' oversized
                    = getFromCache sampleParse now' key' sampleStore)
  ∧ (refused = clearCache sampleStore
     ∧ ∀ now' key', getFromCache sampleParse now' key' refused = (None, refused)).
Proof.
  intros slot accepted oversized refused. split; [|split].
  - destruct (cache_round_trip sampleStringify sampleParse sampleTimestampOf (fun _ => true)
                sampleParse_stringify eq_refl sampleNow "repos_acme" "[]"%string sampleStore)
      as (Hrun & _ & _).
    apply Hrun; [vm_compute; discriminate | left; reflexivity].
  - destruct (cache_round_trip sampleStringify sampleParse sampleTimestampOf (fun _ => true)
                sampleParse_stringify eq_refl sampleNow "repos_acme" largeText sampleStore)
      as (_ & Hrun & _).
    apply Hrun. vm_compute. reflexivity.
  - destruct (cache_round_trip sampleStringify sampleParse sampleTimestampOf (fun _ => false)
                sampleParse_stringify eq_refl sampleNow "repos_acme" "[]"%string sampleStore)
      as (_ & _ & Hrun).
    apply Hrun; [vm_compute; discriminate | reflexivity | reflexivity].
Defined.

(** C5 as stated fails for three reasons. A payload of 512000 characters
    serialises to more than 500KB, so [saveToCache] skips it and the read
    that follows returns null. When the store has no room, even after
    purging, the value is dropped likewise. And at exactly 30 minutes after
    the write the entry is still served: it expires only after more than
    30 minutes. *)
Lemma cache_round_trip_fails :
  fst (getFromCache sampleParse sampleNow "repos_acme"
         (saveToCache sampleStringify sampleTimestampOf (fun _ => true)
            sampleNow "repos_acme" largeText ∅)) = None
  ∧ fst (getFromCache sampleParse sampleNow "repos_acme"
           (saveToCache sampleStringify sampleTimestampOf (fun _ => false)
              sampleNow "repos_acme" "[]" ∅)) = None
  ∧ fst (getFromCache sampleParse (sampleNow + 30 * 60 * 1000) "repos_acme"
           (saveToCache sampleStringify sampleTimestampOf (fun _ => true)
              sampleNow "repos_acme" "[]" ∅)) = Some "[]"%string.
Proof. split; [|split]; vm_compute; reflexivity. Qed.

(** ** Runs of the collector *)

Ltac munfold :=
  unfold mbind, mret, M_bind, M_ret, bind, ret, throw, outOfFuel, tryCatch in *.

Section RunFacts.
Variable net : list Event → string → Request → Outcome.

(** A request adds exactly its own event to the trace. *)
Lemma fetch_run token req w :
  ∃ out, net (w_trace w) token req = out
    ∧ fetch net token req w =
        (match out with Responds _ r => Ok r | Rejects _ m => Throw m end,
         {| w_store := w_store w;
            w_clock := w_clock w + match out with Responds dt _ | Rejects dt _ => dt end;
            w_trace := w_trace w ++ [EFetch token req out] |}).
Proof.
  eexists. split; [reflexivity|]. unfold fetch.
  by destruct (net (w_trace w) token req).
Qed.
End RunFacts.

(** ** Pagination of pull requests under a since-date (C7) *)

Section PullsSince.
Variable net : list Event → string → Request → Outcome.
Variable fits : gmap string string → bool.
Variable toISOString : Z → string.
Variable timestampOf : string → option (option Z).
Variable prsCodec : Codec (list PullRequest).
Variables (token org repoName : string) (since : Z).

Lemma keptSince_spec raw :
  keptSince since raw = true ↔
  ∃ t, getTime (effectiveDate raw) = Some t ∧ since ≤ t.
Proof.
  unfold keptSince, geNum. destruct (getTime (effectiveDate raw)) as [t|].
  - rewrite Z.leb_le. split; [by exists t | by intros (? & [= <-] & ?)].
  - split; [done | by intros (? & ? & ?)].
Qed.

Lemma pagesOnly_nil : pagesOnly since [].
Proof.
  split; [constructor|]. intros pre ev post H. by destruct pre.
Qed.

Lemma pagesOnly_singleton ev : isPullsPage ev = true → pagesOnly since [ev].
Proof.
  intros Hev. split; [by repeat constructor|].
  intros pre ev' post H _. destruct pre as [|? pre]; simplify_eq/=; [done|].
  by destruct pre.
Qed.

Lemma pagesOnly_cons ev tr :
  isPullsPage ev = true → allFilteredOut since ev = false →
  pagesOnly since tr → pagesOnly since (ev :: tr).
Proof.
  intros Hev Hne [Hall Hstop]. split; [by constructor|].
  intros pre ev' post H Hx. destruct pre as [|? pre]; simplify_eq/=.
  - congruence.
  - by eapply Hstop.
Qed.

Lemma app_split_left {X : Type} (P : X → Prop) (l1 l2 pre : list X) x post :
  l1 ++ l2 = pre ++ x :: post → P x → Forall (fun y => ¬ P y) l2 →
  ∃ post1, l1 = pre ++ x :: post1 ∧ post = post1 ++ l2.
Proof.
  intros Heq Hx Hl2. revert pre Heq.
  induction l1 as [|a l1 IH]; intros pre Heq; simpl in Heq.
  - exfalso. rewrite Forall_forall in Hl2. apply (Hl2 x); [|done].
    rewrite Heq. set_solver.
  - destruct pre as [|b pre]; simpl in Heq; injection Heq as -> Heq.
    + subst post. by exists l1.
    + destruct (IH pre Heq) as (post1 & -> & ->). by exists post1.
Qed.

Lemma listedIn_mono tr tr' raw : tr ⊆ tr' → listedIn tr raw → listedIn tr' raw.
Proof.
  intros Hsub (tk & o & rp & page & dt & r & data & Hin & H).
  exists tk, o, rp, page, dt, r, data. split; [by apply Hsub | done].
Qed.

Lemma filter_nil_forallb {X : Type} (P : X → bool) (l : list X) :
  forallb (fun x => negb (P x)) l = true → filter (fun x => P x) l = [].
Proof.
  induction l as [|x l IH]; simpl; [done|].
  intros [Hx Hl]%andb_true_iff. rewrite filter_cons.
  destruct (decide (P x)) as [Hp|_]; [|by apply IH].
  by destruct (P x).
Qed.

Lemma pullsLoop_run fuel page prs w res w' :
  pullsLoop net fuel token org repoName (Some since) page prs w = (res, w') →
  ∃ tr, w_trace w' = w_trace w ++ tr ∧ w_store w' = w_store w
        ∧ pagesOnly since tr
        ∧ ∀ prs', res = Ok prs' →
            ∃ added, prs' = prs ++ added
              ∧ Forall (fun pr => ∃ raw, listedIn tr raw ∧ keptSince since raw = true
                                         ∧ pr = prOfRaw raw) added.
Proof.
  revert page prs w res w'.
  induction fuel as [|fuel IH]; intros page prs w res w' Hrun; simpl in Hrun.
  { munfold. simplify_eq. exists []. rewrite app_nil_r.
    split; [done|]. split; [done|]. split; [apply pagesOnly_nil | done]. }
  destruct (10 <? page) eqn:Hpage.
  { munfold. simplify_eq. exists []. rewrite app_nil_r.
    split; [done|]. split; [done|]. split; [apply pagesOnly_nil|].
    intros ? [= <-]. exists []. by rewrite app_nil_r. }
  munfold.
  destruct (fetch_run net token (GetPulls org repoName page) w) as (out & Hout & Hf).
  rewrite Hf in Hrun. clear Hf.
  set (ev := EFetch token (GetPulls org repoName page) out) in *.
  assert (isPullsPage ev = true) as Hev by done.
  destruct out as [dt r|dt msg].
  2:{ simplify_eq. exists [ev]. split; [done|]. split; [done|].
      split; [by apply pagesOnly_singleton | done]. }
  destruct (ok r) eqn:Hok; simpl in Hrun.
  2:{ simplify_eq. exists [ev]. split; [done|]. split; [done|].
      split; [by apply pagesOnly_singleton|].
      intros ? [= <-]. exists []. by rewrite app_nil_r. }
  unfold jsonPulls in Hrun.
  destruct (body r) as [| | |data| | |] eqn:Hbody; munfold;
    try (simplify_eq; exists [ev]; split; [done|]; split; [done|];
         split; [by apply pagesOnly_singleton | done]).
  destruct ((0 <? length data)%nat && (length (filter _ data) =? 0)%nat) eqn:Hstop.
  { simplify_eq. exists [ev]. split; [done|]. split; [done|].
    split; [by apply pagesOnly_singleton|].
    intros ? [= <-]. exists []. by rewrite app_nil_r. }
  assert (∀ tr', Forall (fun pr => ∃ raw, listedIn (ev :: tr') raw
                                   ∧ keptSince since raw = true ∧ pr = prOfRaw raw)
                 (prOfRaw <$> filter (fun pr => keptSince since pr) data)) as Hadd.
  { intros tr'. apply Forall_fmap, Forall_forall. intros raw Hraw.
    apply list_elem_of_filter in Hraw as [Hk Hraw]. exists raw.
    split; [|split; [by apply Is_true_true | done]].
    exists token, org, repoName, page, dt, r, data.
    split; [left | done]. }
  destruct (length data <? 100)%nat eqn:Hshort.
  { simplify_eq. exists [ev]. split; [done|]. split; [done|].
    split; [by apply pagesOnly_singleton|].
    intros ? [= <-]. by eexists. }
  apply IH in Hrun as (tr & Htr & Hst & Hpages & Hres). simpl in Htr, Hst.
  exists (ev :: tr). split; [by rewrite Htr, <- app_assoc|]. split; [done|].
  split.
  - apply pagesOnly_cons; [done| |done].
    unfold ev. simpl. rewrite Hok, Hbody. simpl.
    apply Nat.ltb_ge in Hshort.
    rewrite (proj2 (Nat.ltb_lt 0 (length data))) in * by lia. simpl in *.
    apply Nat.eqb_neq in Hstop.
    apply not_true_is_false. intros Hall. apply Hstop.
    by rewrite (filter_nil_forallb _ _ Hall).
  - intros prs' Hr. destruct (Hres prs' Hr) as (added & -> & Hadded).
    eexists. split; [by rewrite <- app_assoc|].
    apply Forall_app. split; [apply Hadd|].
    eapply Forall_impl; [exact Hadded|].
    intros pr (raw & Hl & Hk & ->). exists raw. split; [|done].
    eapply listedIn_mono; [|exact Hl]. set_solver.
Qed.

Lemma pullsLoop_total fuel page prs w :
  11 - page < Z.of_nat fuel → (0 < fuel)%nat →
  (pullsLoop net fuel token org repoName (Some since) page prs w).1 ≠ OutOfFuel.
Proof.
  revert page prs w. induction fuel as [|fuel IH]; intros page prs w Hfuel Hpos; [lia|].
  simpl. destruct (10 <? page) eqn:Hpage; [done|]. apply Z.ltb_ge in Hpage.
  munfold.
  destruct (fetch_run net token (GetPulls org repoName page) w) as (out & Hout & ->).
  destruct out as [dt r|dt msg]; [|done].
  destruct (ok r); simpl; [|done].
  unfold jsonPulls. destruct (body r); munfold; try done.
  destruct (_ && _); [done|]. destruct (_ <? 100)%nat; [done|].
  apply IH; lia.
Qed.

Lemma enrichOne_run pr w :
  ∃ pr' out,
    enrichOne net token org repoName pr w =
      (Ok pr', {| w_store := w_store w;
                  w_clock := w_clock w + match out with Responds dt _ | Rejects dt _ => dt end;
                  w_trace := w_trace w ++ [EFetch token (GetPull org repoName (pr_number pr)) out] |})
    ∧ stripDetails pr' = stripDetails pr.
Proof.
  unfold enrichOne. munfold.
  destruct (fetch_run net token (GetPull org repoName (pr_number pr)) w) as (out & Hout & ->).
  destruct out as [dt r|dt msg]; [|by exists pr, (Rejects dt msg)].
  destruct (ok r); [|by exists pr, (Responds dt r)].
  unfold jsonPull. destruct (body r) as [| | | |details| |]; munfold;
    try (by exists pr, (Responds dt r)).
  by exists (withDetails pr details), (Responds dt r).
Qed.

Lemma enrichMerged_run budget prs w :
  ∃ prs' tr w',
    enrichMerged net budget token org repoName prs w = (Ok prs', w')
    ∧ w_trace w' = w_trace w ++ tr ∧ w_store w' = w_store w
    ∧ Forall (fun ev => isPullsPage ev = false) tr
    ∧ Forall2 (fun pr pr' => stripDetails pr' = stripDetails pr) prs prs'.
Proof.
  revert budget w. induction prs as [|pr prs IH]; intros budget w; simpl.
  { exists [], [], w. rewrite app_nil_r.
    split; [done|]. split; [done|]. split; [done|]. split; constructor. }
  destruct (truthyDate (pr_merged_at pr)).
  - destruct budget as [|budget].
    + exists (pr :: prs), [], w. rewrite app_nil_r.
      split; [done|]. split; [done|]. split; [done|]. split; [constructor|].
      apply Forall_Forall2_diag, Forall_forall. done.
    + munfold. destruct (enrichOne_run pr w) as (pr' & out & -> & Hpr').
      match goal with |- context [enrichMerged _ _ _ _ _ _ ?w1] =>
        destruct (IH budget w1) as (prs' & tr & w' & -> & Htr & Hst & Hev & Hall) end.
      simpl in Htr, Hst.
      exists (pr' :: prs'), (EFetch token (GetPull org repoName (pr_number pr)) out :: tr), w'.
      split; [done|]. split; [by rewrite Htr, <- app_assoc|]. split; [done|].
      split; [by constructor | by constructor].
  - munfold. destruct (IH budget w) as (prs' & tr & w' & -> & Htr & Hst & Hev & Hall).
    exists (pr :: prs'), tr, w'.
    split; [done|]. split; [done|]. split; [done|]. split; [done | by constructor].
Qed.

(** C7. Starting from a cache miss, [fetchPullRequests] with a since-date
    ends within its ten pages (it returns or throws); every pull request
    it returns was listed on a page it fetched and has an effective date
    (merged_at, else closed_at, else updated_at) on or after the
    since-date; and once a page comes back with at least one pull request
    none of which passes the filter, no further page is requested: the
    requests that follow, if any, are detail requests. *)
Theorem fetchPullRequests_since fuel w :
  (getFromCache (parse prsCodec) (w_clock w)
     (prsCacheKey toISOString org repoName (Some since)) (w_store w)).1 = None →
  (10 < fuel)%nat →
  ∃ res tr w',
    fetchPullRequests net fits toISOString timestampOf prsCodec
      fuel token org repoName (Some since) w = (res, w')
    ∧ res ≠ OutOfFuel
    ∧ w_trace w' = w_trace w ++ tr
    ∧ (∀ prs, res = Ok prs →
         Forall (fun pr => ∃ raw t,
                             listedIn tr raw
                             ∧ getTime (effectiveDate raw) = Some t ∧ since ≤ t
                             ∧ stripDetails pr = prOfRaw raw) prs)
    ∧ (∀ pre ev post, tr = pre ++ ev :: post →
         allFilteredOut since ev = true →
         Forall (fun ev' => isPullsPage ev' = false) post).
Proof.
  intros Hmiss Hfuel. unfold fetchPullRequests. munfold. unfold cacheGet.
  rewrite Hmiss.
  match goal with |- context [pullsLoop _ _ _ _ _ _ _ _ ?w1] => set (w1' := w1) end.
  pose proof (pullsLoop_total fuel 1 [] w1' ltac:(lia) ltac:(lia)) as Htot.
  destruct (pullsLoop net fuel token org repoName (Some since) 1 [] w1')
    as [res1 w2] eqn:Hloop.
  apply pullsLoop_run in Hloop as (tr1 & Htr1 & Hst1 & [Hpages Hstop] & Hres1).
  simpl in Htr1, Htot.
  assert (∀ pre ev post, tr1 = pre ++ ev :: post →
            allFilteredOut since ev = true →
            Forall (fun ev' => isPullsPage ev' = false) post) as Hstop1.
  { intros pre ev post Heq Hev. by rewrite (Hstop pre ev post Heq Hev). }
  destruct res1 as [prs| |]; [| |done].
  2:{ exists (Throw message), tr1, w2. repeat split; try done. }
  destruct (enrichMerged_run 30 prs w2) as (prs' & tr2 & w3 & -> & Htr2 & Hst2 & Hev2 & Hall).
  unfold cachePut.
  eexists (Ok prs'), (tr1 ++ tr2), _. split; [done|]. split; [done|].
  split; [simpl; by rewrite Htr2, Htr1, <- app_assoc|]. split.
  - intros ? [= <-].
    destruct (Hres1 prs eq_refl) as (added & Hadded & Hfrom). simpl in Hadded. subst added.
    apply Forall_forall. intros pr' Hpr'.
    apply list_elem_of_lookup in Hpr' as [i Hi].
    destruct (Forall2_lookup_r _ _ _ _ _ Hall Hi) as (pr & Hpr & Hstrip).
    rewrite Forall_forall in Hfrom.
    destruct (Hfrom pr (list_elem_of_lookup_2 _ _ _ Hpr)) as (raw & Hl & Hk & ->).
    apply keptSince_spec in Hk as (t & Ht & Hle).
    exists raw, t. split; [|done].
    eapply listedIn_mono; [|exact Hl]. set_solver.
  - intros pre ev post Heq Hev.
    destruct (app_split_left (fun e => isPullsPage e = true) tr1 tr2 pre ev post Heq)
      as (post1 & Hl & ->).
    + by destruct ev as [? [] []| | | |].
    + eapply Forall_impl; [exact Hev2|]. intros e He. by rewrite He.
    + by rewrite (Hstop pre ev post1 Hl Hev).
Qed.
End PullsSince.

(** The statement above in the sample world: every page of the listing
    holds a hundred pull requests last touched in 2020, the since-date is
    the sample cutoff, and the store is empty. *)
Lemma fetchPullRequests_since_witness :
  ∃ res tr w',
    fetchPullRequests staleNet (fun _ => true) sampleISO sampleTimestampOf nullCodec
      11 "ghp_x" "acme" "app" (Some (cutoffMs sampleNow (Some 7))) freshWorld = (res, w')
    ∧ res ≠ OutOfFuel
    ∧ w_trace w' = w_trace freshWorld ++ tr
    ∧ (∀ prs, res = Ok prs →
         Forall (fun pr => ∃ raw t,
                             listedIn tr raw
                             ∧ getTime (effectiveDate raw) = Some t
                             ∧ cutoffMs sampleNow (Some 7) ≤ t
                             ∧ stripDetails pr = prOfRaw raw) prs)
    ∧ (∀ pre ev post, tr = pre ++ ev :: post →
         allFilteredOut (cutoffMs sampleNow (Some 7)) ev = true →
         Forall (fun ev' => isPullsPage ev' = false) post).
Proof.
  apply (fetchPullRequests_since staleNet (fun _ => true) sampleISO sampleTimestampOf
           nullCodec "ghp_x" "acme" "app" (cutoffMs sampleNow (Some 7)) 11 freshWorld).
  - reflexivity.
  - lia.
Defined.

(** The scenario of the specification, run: the first page holds a hundred
    pull requests and none passes the filter; the run sends that one request
    and returns no pull request. *)
Example one_stale_page_one_request :
  ∃ out,
    let run :=
      fetchPullRequests staleNet (fun _ => true) sampleISO sampleTimestampOf nullCodec
        11 "ghp_x" "acme" "app" (Some (cutoffMs sampleNow (Some 7))) freshWorld in
    run.1 = Ok []
    ∧ w_trace run.2 = [EFetch "ghp_x" (GetPulls "acme" "app" 1) out]
    ∧ allFilteredOut (cutoffMs sampleNow (Some 7))
        (EFetch "ghp_x" (GetPulls "acme" "app" 1) out) = true.
Proof. eexists. split; [|split]; vm_compute; reflexivity. Qed.

(** ** What a computation adds to the trace *)

Section Emits.
Context {A B : Type} (P : Event → Prop).

Lemma emits_ret (a : A) : emits P (mret a).
Proof. intros w. exists []. by rewrite app_nil_r. Qed.

Lemma emits_throw msg : emits P (throw (A:=A) msg).
Proof. intros w. exists []. by rewrite app_nil_r. Qed.

Lemma emits_outOfFuel : emits P (outOfFuel (A:=A)).
Proof. intros w. exists []. by rewrite app_nil_r. Qed.

Lemma emits_liftResult (r : Result A) : emits P (liftResult r).
Proof. intros w. exists []. by rewrite app_nil_r. Qed.

Lemma emits_bind (m : M A) (f : A → M B) :
  emits P m → (∀ a, emits P (f a)) → emits P (m ≫= f).
Proof.
  intros Hm Hf w. munfold. destruct (Hm w) as (tr1 & Htr1 & HP1).
  destruct (m w) as [[a| |] w1]; simpl in *; [|by exists tr1..].
  destruct (Hf a w1) as (tr2 & Htr2 & HP2).
  exists (tr1 ++ tr2). rewrite Htr2, Htr1, app_assoc.
  split; [done|]. by apply Forall_app.
Qed.

Lemma emits_tryCatch (m : M A) (h : string → M A) :
  emits P m → (∀ e, emits P (h e)) → emits P (tryCatch m h).
Proof.
  intros Hm Hh w. munfold. destruct (Hm w) as (tr1 & Htr1 & HP1).
  destruct (m w) as [[a|e|] w1]; simpl in *; [by exists tr1| |by exists tr1].
  destruct (Hh e w1) as (tr2 & Htr2 & HP2).
  exists (tr1 ++ tr2). rewrite Htr2, Htr1, app_assoc.
  split; [done|]. by apply Forall_app.
Qed.
End Emits.

Lemma emits_mono {A : Type} (P Q : Event → Prop) (m : M A) :
  (∀ ev, P ev → Q ev) → emits P m → emits Q m.
Proof.
  intros HPQ Hm w. destruct (Hm w) as (tr & Htr & HP).
  exists tr. split; [done|]. by eapply Forall_impl.
Qed.

Section EmitsPrimitives.
Variable net : list Event → string → Request → Outcome.
Variable fits : gmap string string → bool.
Variable timestampOf : string → option (option Z).
Variable P : Event → Prop.

Lemma emits_fetch token req :
  (∀ out, P (EFetch token req out)) → emits P (fetch net token req).
Proof.
  intros HP w. destruct (fetch_run net token req w) as (out & _ & ->).
  exists [EFetch token req out]. split; [done|]. by repeat constructor.
Qed.

Lemma emits_notify ev : P ev → emits P (notify ev).
Proof. intros HP w. exists [ev]. split; [done|]. by repeat constructor. Qed.

Lemma emits_call present ev : P ev → emits P (call present ev).
Proof.
  intros HP. destruct present; simpl; [by apply emits_notify | apply emits_ret].
Qed.

Lemma emits_dateNow : emits P dateNow.
Proof. intros w. exists []. by rewrite app_nil_r. Qed.

Lemma emits_cacheGet {A} (c : Codec A) key : emits P (cacheGet c key).
Proof. intros w. exists []. by rewrite app_nil_r. Qed.

Lemma emits_cachePut {A} (c : Codec A) key (data : A) :
  emits P (cachePut fits timestampOf c key data).
Proof. intros w. exists []. by rewrite app_nil_r. Qed.
End EmitsPrimitives.

(** ** The collector only sends requests *)

Section CollectorEmits.
Variable net : list Event → string → Request → Outcome.
Variable fits : gmap string string → bool.
Variable zone : TimeZone.
Variable toISOString : Z → string.
Variable timestampOf : string → option (option Z).
Variable commitsCodec : Codec (list Commit).
Variable prsCodec : Codec (list PullRequest).
Variable reviewsCodec : Codec (list (string * ReviewInfo)).

Let isFetch (ev : Event) : Prop := match ev with EFetch _ _ _ => True | _ => False end.

Ltac emits_step :=
  first [ apply emits_ret | apply emits_throw | apply emits_outOfFuel
        | apply emits_fetch; done | apply emits_cacheGet | apply emits_cachePut
        | apply emits_bind; [|intros ?] | apply emits_tryCatch; [|intros ?] ].

Lemma emits_commitsLoop fuel token org repoName branch sinceDate page commits :
  emits isFetch (commitsLoop net toISOString fuel token org repoName branch sinceDate page commits).
Proof.
  revert page commits. induction fuel as [|fuel IH]; intros page commits; simpl.
  { emits_step. }
  destruct (pastLastPage _ _); [emits_step|].
  emits_step; [emits_step|]. destruct (negb _); [emits_step|].
  emits_step.
  { unfold jsonCommits. destruct (body _); emits_step. }
  destruct (_ =? 0)%nat; [emits_step|]. destruct (_ <? 100)%nat; [emits_step|].
  apply IH.
Qed.

Lemma emits_fetchCommits fuel token org repoName branch sinceDate :
  emits isFetch (fetchCommits net fits toISOString timestampOf commitsCodec
                   fuel token org repoName branch sinceDate).
Proof.
  unfold fetchCommits. emits_step; [emits_step|].
  destruct a; [emits_step|].
  emits_step; [apply emits_commitsLoop|]. emits_step; emits_step.
Qed.

Lemma emits_pullsLoop fuel token org repoName sinceDate page prs :
  emits isFetch (pullsLoop net fuel token org repoName sinceDate page prs).
Proof.
  revert page prs. induction fuel as [|fuel IH]; intros page prs; simpl.
  { emits_step. }
  destruct (pastLastPage _ _); [emits_step|].
  emits_step; [emits_step|]. destruct (negb _); [emits_step|].
  emits_step.
  { unfold jsonPulls. destruct (body _); emits_step. }
  destruct (_ && _); [emits_step|]. destruct (_ <? 100)%nat; [emits_step|].
  apply IH.
Qed.

Lemma emits_enrichMerged budget token org repoName prs :
  emits isFetch (enrichMerged net budget token org repoName prs).
Proof.
  revert budget. induction prs as [|pr prs IH]; intros budget; simpl; [emits_step|].
  destruct (truthyDate _).
  - destruct budget; [emits_step|].
    emits_step.
    + unfold enrichOne. emits_step; [|emits_step].
      emits_step; [emits_step|]. destruct (ok _); [|emits_step].
      emits_step; [|emits_step]. unfold jsonPull. destruct (body _); emits_step.
    + emits_step; [apply IH | emits_step].
  - emits_step; [apply IH | emits_step].
Qed.

Lemma emits_fetchPullRequests fuel token org repoName sinceDate :
  emits isFetch (fetchPullRequests net fits toISOString timestampOf prsCodec
                   fuel token org repoName sinceDate).
Proof.
  unfold fetchPullRequests. emits_step; [emits_step|].
  destruct a; [emits_step|].
  emits_step; [apply emits_pullsLoop|].
  emits_step; [apply emits_enrichMerged|]. emits_step; emits_step.
Qed.

Lemma emits_reviewsLoop token org repoName reviewData prs :
  emits isFetch (reviewsLoop net token org repoName reviewData prs).
Proof.
  revert reviewData. induction prs as [|pr prs IH]; intros reviewData; simpl; [emits_step|].
  emits_step; [|apply IH].
  unfold reviewsOfPr. emits_step; [|emits_step].
  emits_step; [emits_step|]. destruct (negb _); [emits_step|].
  emits_step; [|emits_step]. unfold jsonReviews. destruct (body _); emits_step.
Qed.

Lemma emits_fetchReviews token org repoName prs sinceDate :
  emits isFetch (fetchReviews net fits toISOString timestampOf reviewsCodec
                   token org repoName prs sinceDate).
Proof.
  unfold fetchReviews. emits_step; [emits_step|].
  destruct a; [emits_step|].
  emits_step; [apply emits_reviewsLoop|]. emits_step; emits_step.
Qed.

Lemma emits_collectRepo fuel cb token org sinceDate total i repo :
  emits isCollecting
    (collectRepo net fits toISOString timestampOf commitsCodec prsCodec reviewsCodec
       fuel cb token org sinceDate total i repo).
Proof.
  unfold collectRepo.
  apply emits_bind.
  { eapply emits_mono; [|apply emits_fetchCommits]. by intros []. }
  intros commits. apply emits_bind.
  { eapply emits_mono; [|apply emits_fetchPullRequests]. by intros []. }
  intros prs. apply emits_bind.
  { eapply emits_mono; [|apply emits_fetchReviews]. by intros []. }
  intros reviews. apply emits_bind; [by apply emits_call | intros; apply emits_ret].
Qed.
End CollectorEmits.

(** ** Bounded paging terminates *)

Section Terminates.
Context {A B : Type}.

Lemma terminates_ret (a : A) : terminates (mret a).
Proof. by intros w. Qed.

Lemma terminates_throw msg : terminates (throw (A:=A) msg).
Proof. by intros w. Qed.

Lemma terminates_bind (m : M A) (f : A → M B) :
  terminates m → (∀ a, terminates (f a)) → terminates (m ≫= f).
Proof.
  intros Hm Hf w. munfold. specialize (Hm w).
  destruct (m w) as [[a| |] w1]; simpl in *; [apply Hf|done..].
Qed.

Lemma terminates_tryCatch (m : M A) (h : string → M A) :
  terminates m → (∀ e, terminates (h e)) → terminates (tryCatch m h).
Proof.
  intros Hm Hh w. munfold. specialize (Hm w).
  destruct (m w) as [[a|e|] w1]; simpl in *; [done|apply Hh|done].
Qed.
End Terminates.

Section CollectorTerminates.
Variable net : list Event → string → Request → Outcome.
Variable fits : gmap string string → bool.
Variable toISOString : Z → string.
Variable timestampOf : string → option (option Z).
Variable commitsCodec : Codec (list Commit).
Variable prsCodec : Codec (list PullRequest).
Variable reviewsCodec : Codec (list (string * ReviewInfo)).

Lemma terminates_fetch token req : terminates (fetch net token req).
Proof.
  intros w. destruct (fetch_run net token req w) as (out & _ & ->). by destruct out.
Qed.

Ltac term_step :=
  first [ apply terminates_ret | apply terminates_throw | apply terminates_fetch
        | by intros ?
        | apply terminates_bind; [|intros ?] | apply terminates_tryCatch; [|intros ?] ].

Lemma terminates_commitsLoop fuel token org repoName branch since page commits :
  11 - page < Z.of_nat fuel → (0 < fuel)%nat →
  terminates (commitsLoop net toISOString fuel token org repoName branch (Some since)
                page commits).
Proof.
  revert page commits. induction fuel as [|fuel IH]; intros page commits Hfuel Hpos; [lia|].
  simpl. destruct (10 <? page) eqn:Hpage; [term_step|]. apply Z.ltb_ge in Hpage.
  term_step; [term_step|]. destruct (negb _); [term_step|].
  term_step.
  { unfold jsonCommits. destruct (body _); term_step. }
  destruct (_ =? 0)%nat; [term_step|]. destruct (_ <? 100)%nat; [term_step|].
  apply IH; lia.
Qed.

Lemma terminates_pullsLoop fuel token org repoName since page prs :
  11 - page < Z.of_nat fuel → (0 < fuel)%nat →
  terminates (pullsLoop net fuel token org repoName (Some since) page prs).
Proof. intros ? ? w. by apply pullsLoop_total. Qed.

Lemma terminates_enrichMerged budget token org repoName prs :
  terminates (enrichMerged net budget token org repoName prs).
Proof.
  intros w. destruct (enrichMerged_run net token org repoName budget prs w)
    as (prs' & tr & w' & -> & _). done.
Qed.

Lemma terminates_reviewsLoop token org repoName reviewData prs :
  terminates (reviewsLoop net token org repoName reviewData prs).
Proof.
  revert reviewData. induction prs as [|pr prs IH]; intros reviewData; simpl; [term_step|].
  term_step; [|apply IH].
  unfold reviewsOfPr. term_step; [|term_step].
  term_step; [term_step|]. destruct (negb _); [term_step|].
  term_step; [|term_step]. unfold jsonReviews. destruct (body _); term_step.
Qed.

Lemma terminates_collectRepo fuel cb token org since total i repo :
  (10 < fuel)%nat →
  terminates
    (collectRepo net fits toISOString timestampOf commitsCodec prsCodec reviewsCodec
       fuel cb token org (Some since) total i repo).
Proof.
  intros Hfuel. unfold collectRepo.
  apply terminates_bind.
  { unfold fetchCommits. term_step; [term_step|]. destruct a; [term_step|].
    term_step; [apply terminates_commitsLoop; lia|]. term_step; term_step. }
  intros commits. apply terminates_bind.
  { unfold fetchPullRequests. term_step; [term_step|]. destruct a; [term_step|].
    term_step; [apply terminates_pullsLoop; lia|].
    term_step; [apply terminates_enrichMerged|]. term_step; term_step. }
  intros prs. apply terminates_bind.
  { unfold fetchReviews. term_step; [term_step|]. destruct a; [term_step|].
    term_step; [apply terminates_reviewsLoop|]. term_step; term_step. }
  intros reviews. apply terminates_bind; [|term_step].
  unfold call. destruct (onLog cb); term_step.
Qed.
End CollectorTerminates.

(** ** The orchestrator (C8) *)

Lemma progressOf_app tr1 tr2 : progressOf (tr1 ++ tr2) = progressOf tr1 ++ progressOf tr2.
Proof. apply omap_app. Qed.

Lemma updatesOf_app tr1 tr2 : updatesOf (tr1 ++ tr2) = updatesOf tr1 ++ updatesOf tr2.
Proof. apply omap_app. Qed.

Lemma progressOf_collecting tr : Forall isCollecting tr → progressOf tr = [].
Proof.
  induction 1 as [|ev tr Hev _ IH]; [done|].
  destruct ev as [| |[]| |]; simpl in *; done.
Qed.

Lemma updatesOf_collecting tr : Forall isCollecting tr → updatesOf tr = [].
Proof.
  induction 1 as [|ev tr Hev _ IH]; [done|].
  destruct ev as [| |[]| |]; simpl in *; done.
Qed.

Section Orchestrator.
Variable net : list Event → string → Request → Outcome.
Variable fits : gmap string string → bool.
Variable zone : TimeZone.
Variable toISOString : Z → string.
Variable timestampOf : string → option (option Z).
Variable commitsCodec : Codec (list Commit).
Variable prsCodec : Codec (list PullRequest).
Variable reviewsCodec : Codec (list (string * ReviewInfo)).
Variables (fuel : nat) (cb : Callbacks) (token org : string).
Variables (daysFilter sinceDate : option Z) (total : Z).

Let collect (i : Z) (repo : Repo) : M RepoData :=
  collectRepo net fits toISOString timestampOf commitsCodec prsCodec reviewsCodec
    fuel cb token org sinceDate total i repo.

Let loop (i : Z) (repos : list Repo) (arr : list RepoData) : M (list RepoData) :=
  reposLoop net fits zone toISOString timestampOf commitsCodec prsCodec
    reviewsCodec fuel cb token org daysFilter sinceDate total i repos arr.

(** One iteration of the loop. A collection that throws is logged and
    replaced by the empty record; either way the progress callback is
    called and, when the snapshot callback is given, [aggregateStats],
    whose throw ends the loop. *)
Lemma loop_cons i repo rest arr w :
  loop i (repo :: rest) arr w =
    let after (arr' : list RepoData) (w1 : World) :=
      let w2 := tell (onProgress cb) (EProgress (roundPercent (i + 1) total)) w1 in
      if onDataUpdate cb then
        match aggregateStatsJS zone (w_clock w2) daysFilter arr' with
        | Ok data => loop (i + 1) rest arr' (tell true (EDataUpdate data (i + 1) total) w2)
        | Throw message => (Throw message, w2)
        | OutOfFuel => (OutOfFuel, w2)
        end
      else loop (i + 1) rest arr' w2 in
    match collect i repo
            (tell (onLog cb) (ELog (LogStart (repo_name repo) (i + 1) total)) w) with
    | (Ok rd, w1) => after (arr ++ [rd]) w1
    | (Throw error, w1) =>
        after (arr ++ [emptyRepoData (repo_name repo)])
          (tell (onLog cb) (ELog (LogError (repo_name repo) (i + 1) total error)) w1)
    | (OutOfFuel, w1) => (OutOfFuel, w1)
    end.
Proof.
  unfold loop, collect, tell. simpl. munfold.
  unfold call, notify, dateNow, liftResult.
  assert (∀ w0 : World, {| w_store := w_store w0; w_clock := w_clock w0;
                           w_trace := w_trace w0 ++ [] |} = w0) as Hid.
  { intros [? ? ?]. simpl. by rewrite app_nil_r. }
  destruct (onLog cb), (onProgress cb), (onDataUpdate cb); simpl; munfold;
    rewrite ?Hid;
    (destruct (collectRepo _ _ _ _ _ _ _ _ _ _ _ _ _ _ _ _) as [[rd|error|] w1]; simpl;
     destruct w1 as [s1 c1 t1]; simpl; rewrite ?app_nil_r, <- ?app_assoc; try done;
     destruct (aggregateStatsJS _ _ _ _); simpl; rewrite ?app_nil_r, <- ?app_assoc; done).
Qed.

Lemma loop_terminates since repos : ∀ i arr,
  sinceDate = Some since → (10 < fuel)%nat → terminates (loop i repos arr).
Proof.
  intros i arr Hsince Hfuel. revert i arr.
  induction repos as [|repo rest IH]; intros i arr w; [done|].
  rewrite loop_cons. cbv zeta.
  pose proof (terminates_collectRepo net fits toISOString timestampOf commitsCodec
                prsCodec reviewsCodec fuel cb token org since total i repo Hfuel
                (tell (onLog cb) (ELog (LogStart (repo_name repo) (i + 1) total)) w)) as Hc.
  unfold collect. rewrite Hsince.
  destruct (collectRepo _ _ _ _ _ _ _ _ _ _ _ _ _ _ _ _) as [[rd|error|] w1];
    simpl in *; [| |done].
  - destruct (onDataUpdate cb); [|apply IH].
    pose proof (aggregateStatsJS_ends zone
                  (w_clock (tell (onProgress cb) (EProgress (roundPercent (i + 1) total)) w1))
                  daysFilter (arr ++ [rd])) as Hends.
    destruct (aggregateStatsJS _ _ _ _); [apply IH|done|done].
  - destruct (onDataUpdate cb); [|apply IH].
    match goal with |- context [aggregateStatsJS ?z ?n ?d ?a] =>
      pose proof (aggregateStatsJS_ends z n d a) as Hends;
      destruct (aggregateStatsJS z n d a); [apply IH|done|done] end.
Qed.
End Orchestrator.

(** C8, at an input the code can receive. Three repositories over the last
    7 days; the second cannot be fetched; the commit of the first is by
    the GitHub user [constructor]. [userMap[user]] is then the inherited
    property, no entry is created, and [aggregateStats] throws at
    [userMap[user].reposContributed.add], outside the [try] of the loop.
    With the snapshot callback the run ends after the first repository:
    one progress value, no [error] entry, no result. Without it the loop
    goes through the three repositories and logs the error of the second,
    and the aggregation at the end throws: no data comes back for the
    other repositories either. *)
Theorem fetchAllStats_aborts_on_inherited_login :
  let run cb :=
    fetchAllStats constructorNet (fun _ => true) utcZone sampleISO sampleTimestampOf
      nullCodec nullCodec nullCodec 11 cb "ghp_x" "acme" sampleRepos (Some 7) freshWorld in
  (run allCallbacks).1 = Throw (readingUndefined "add")
  ∧ progressOf (w_trace (run allCallbacks).2) = [Some 33]
  ∧ updatesOf (w_trace (run allCallbacks).2) = []
  ∧ errorsOf (w_trace (run allCallbacks).2) = []
  ∧ (run logOnly).1 = Throw (readingUndefined "add")
  ∧ progressOf (w_trace (run logOnly).2) = [Some 33; Some 67; Some 100]
  ∧ errorsOf (w_trace (run logOnly).2) = [LogError "broken" 2 3 "Failed to fetch"].
Proof. repeat split; vm_compute; reflexivity. Qed.

(** The scenario of the specification with ordinary logins, run: the
    second of three repositories cannot be fetched. The run returns alice
    with the two commits of the other repositories, reports 33, 67 and
    100 percent, delivers three snapshots, and logs one error, for the
    second repository. *)
Example one_repository_fails :
  let run :=
    fetchAllStats flakyNet (fun _ => true) utcZone sampleISO sampleTimestampOf
      nullCodec nullCodec nullCodec 11 allCallbacks "ghp_x" "acme"
      sampleRepos (Some 7) freshWorld in
  summaryOf run.1 = [("alice"%string, 2, 2)]
  ∧ progressOf (w_trace run.2) = [Some 33; Some 67; Some 100]
  ∧ snapshotsOf (w_trace run.2) = [(1%nat, 1, 3); (1%nat, 2, 3); (1%nat, 3, 3)]
  ∧ errorsOf (w_trace run.2) = [LogError "broken" 2 3 "Failed to fetch"].
Proof. repeat split; vm_compute; reflexivity. Qed.

(** ** Statistics that stay at "computing" *)

(** A read that misses leaves a store on which every later read of the key
    misses and changes nothing. *)
Lemma getFromCache_miss_stable {Json : Type} (parse : string → option (Json * option Z))
    now key store :
  (getFromCache parse now key store).1 = None →
  ∀ now', getFromCache parse now' key (getFromCache parse now key store).2
          = (None, (getFromCache parse now key store).2).
Proof.
  unfold getFromCache.
  destruct (store !! (CACHE_PREFIX +:+ key)) as [cached|] eqn:Hs; simpl.
  2:{ intros _ now'. by rewrite Hs. }
  destruct (bool_decide (cached = EmptyString)) eqn:He; simpl.
  { intros _ now'. by rewrite Hs, He. }
  destruct (parse cached) as [[data timestamp]|] eqn:Hp; simpl.
  2:{ intros _ now'. by rewrite Hs, He, Hp. }
  destruct (expired now timestamp); simpl; [|done].
  intros _ now'. by rewrite lookup_delete_eq.
Qed.

Section StatsFallback.
Variable net : list Event → string → Request → Outcome.
Variable fits : gmap string string → bool.
Variable zone : TimeZone.
Variable toISOString : Z → string.
Variable toLocaleTimeString : Z → string.
Variable timestampOf : string → option (option Z).
Variable statsCodec : Codec (list Contributor).
Variable yearBefore : Z → Z.
Variables (token org repoName : string).

Lemma pollTrace_cons out outs :
  outs ≠ [] →
  pollTrace token org repoName (out :: outs) =
    EFetch token (GetStatsContributors org repoName) out
      :: EDelay 1500 :: pollTrace token org repoName outs.
Proof. by destruct outs. Qed.

(** X27. The polls before the fallback. On a cache miss, while the
    statistics endpoint answers 202, [fetchStats] asks it once and then
    once more per retry, each answer being what the source gave at that
    point, and waits 1.5 s between consecutive requests; with the
    retries used up it hands over to [fetchCommitsAsStats]: the run is
    the run of the fallback from the world the polls leave, so it
    returns what the fallback returns and throws what the fallback
    throws. *)
Theorem fetchStats_hands_over retries : ∀ w,
  (getFromCache (parse statsCodec) (w_clock w)
     ("stats_v2_" +:+ org +:+ "_" +:+ repoName) (w_store w)).1 = None →
  (∀ tr, stillComputing (net tr token (GetStatsContributors org repoName))) →
  ∃ outs,
    length outs = S retries ∧ Forall stillComputing outs
    ∧ Forall (fun out => ∃ tr, net tr token (GetStatsContributors org repoName) = out) outs
    ∧ fetchStats net fits zone toISOString toLocaleTimeString timestampOf
        statsCodec yearBefore retries token org repoName w
      = fetchCommitsAsStats net fits zone toISOString timestampOf statsCodec
          yearBefore token org repoName
          {| w_store := (getFromCache (parse statsCodec) (w_clock w)
                           ("stats_v2_" +:+ org +:+ "_" +:+ repoName) (w_store w)).2;
             w_clock := w_clock w + sumZ (elapsedOf <$> outs) + 1500 * Z.of_nat retries;
             w_trace := w_trace w ++ pollTrace token org repoName outs |}.
Proof.
  induction retries as [|n IH]; intros [store clock trace] Hmiss Hnet; simpl in Hmiss.
  - simpl. munfold. unfold cacheGet. simpl.
    destruct (getFromCache _ _ _ _) as [cached store0]. simpl in Hmiss. subst cached.
    simpl. unfold fetch. simpl. pose proof (Hnet trace) as Hnow.
    destruct (net trace token (GetStatsContributors org repoName)) as [dt r|] eqn:Hout;
      [|done].
    simpl in Hnow. rewrite Hnow. simpl.
    exists [Responds dt r]. split; [done|]. split; [by repeat constructor|].
    split; [constructor; [by exists trace|constructor]|].
    simpl. unfold sumZ. simpl. do 2 f_equal. lia.
  - simpl. munfold. unfold cacheGet. simpl.
    pose proof (getFromCache_miss_stable (parse statsCodec) clock
                  ("stats_v2_" +:+ org +:+ "_" +:+ repoName) store Hmiss) as Hstable.
    destruct (getFromCache _ clock _ store) as [cached store0]. simpl in Hmiss, Hstable.
    subst cached. simpl. unfold fetch. simpl. pose proof (Hnet trace) as Hnow.
    destruct (net trace token (GetStatsContributors org repoName)) as [dt r|] eqn:Hout;
      [|done].
    simpl in Hnow. rewrite Hnow. simpl. unfold delay. simpl.
    match goal with |- context [fetchStats _ _ _ _ _ _ _ _ n _ _ _ ?w2] =>
      destruct (IH w2) as (outs & Hlen & Hall & Hfrom & Hrun)
    end.
    { simpl. by rewrite Hstable. }
    { done. }
    exists (Responds dt r :: outs).
    split; [simpl; by rewrite Hlen|]. split; [by constructor|].
    split; [constructor; [by exists trace|done]|].
    rewrite Hrun. cbn [w_store w_clock w_trace]. rewrite Hstable. cbn [fst snd].
    rewrite pollTrace_cons by (by destruct outs).
    f_equal. f_equal.
    + rewrite fmap_cons. unfold sumZ. cbn [foldr elapsedOf]. lia.
    + by rewrite <- !app_assoc.
Qed.
End StatsFallback.

(** The default of three retries from a world whose store holds an
    unreadable entry under the key: four polls, then the fallback. *)
Lemma fetchStats_hands_over_witness :
  ∃ outs,
    length outs = 4%nat ∧ Forall stillComputing outs
    ∧ Forall (fun out => ∃ tr, computingNet tr "ghp_x" (GetStatsContributors "acme" "app") = out)
             outs
    ∧ fetchStats computingNet (fun _ => true) utcZone sampleISO sampleISO sampleTimestampOf
        nullCodec sampleYearBefore 3 "ghp_x" "acme" "app" staleWorld
      = fetchCommitsAsStats computingNet (fun _ => true) utcZone sampleISO sampleTimestampOf
          nullCodec sampleYearBefore "ghp_x" "acme" "app"
          {| w_store := (getFromCache (parse (@nullCodec (list Contributor))) (w_clock staleWorld)
                           ("stats_v2_" +:+ "acme" +:+ "_" +:+ "app") (w_store staleWorld)).2;
             w_clock := w_clock staleWorld + sumZ (elapsedOf <$> outs) + 1500 * Z.of_nat 3;
             w_trace := w_trace staleWorld ++ pollTrace "ghp_x" "acme" "app" outs |}.
Proof.
  apply (fetchStats_hands_over computingNet (fun _ => true) utcZone sampleISO sampleISO
           sampleTimestampOf nullCodec sampleYearBefore "ghp_x" "acme" "app" 3 staleWorld).
  - reflexivity.
  - intros tr. reflexivity.
Defined.

(** C6, at an input the code can receive. The statistics endpoint answers
    202 to the four polls and the commit listing holds a commit by the
    GitHub user [constructor]. [fetchStats] polls four times, waits three
    times 1.5 s and hands over to [fetchCommitsAsStats]; there
    [authorMap[login]] is the inherited property, no entry is created, and
    [authorMap[login].weeks[weekTs]] throws outside any [try]: the run ends
    with a [TypeError] instead of statistics. With the same answers and
    the commit by alice the fallback returns her statistics. *)
Theorem fetchStats_fallback_throws :
  let run repoName :=
    fetchStats constructorNet (fun _ => true) utcZone sampleISO sampleISO sampleTimestampOf
      nullCodec sampleYearBefore 3 "ghp_x" "acme" repoName freshWorld in
  (run "web"%string).1 = Throw (readingUndefined "1699747200")
  ∧ length (filter (fun ev => isWait ev = true) (w_trace (run "web"%string).2)) = 3%nat
  ∧ length (w_trace (run "web"%string).2) = 9%nat
  ∧ (run "api"%string).1
    = Ok [ {| ct_login := Some "alice"%string; ct_avatar_url := None; ct_total := 1;
              ct_weeks := [ mkStatWeek (Some 1699747200) 0 0 1 ] |} ].
Proof. repeat split; vm_compute; reflexivity. Qed.

(** That run against a source that lists two commits of alice, evaluated:
    four polls and three waits of 1.5 s, then the fallback lists the
    commits and fetches their details; alice's two commits come back as
    statistics, 5.12 s after the start. *)
Example fetchStats_sample_run :
  let run :=
    fetchStats computingNet (fun _ => true) utcZone sampleISO sampleISO sampleTimestampOf
      nullCodec sampleYearBefore 3 "ghp_x" "acme" "app" freshWorld in
  run.1 = Ok [ {| ct_login := Some "alice"%string; ct_avatar_url := None; ct_total := 2;
                  ct_weeks := [ mkStatWeek (Some 1698537600) 12 3 1;
                                mkStatWeek (Some 1699747200) 12 3 1 ] |} ]
  ∧ w_clock run.2 = sampleNow + 5120
  ∧ length (filter (fun ev => isWait ev = true) (w_trace run.2)) = 3%nat
  ∧ length (w_trace run.2) = 10%nat.
Proof. repeat split; vm_compute; reflexivity. Qed.

(** ** The aggregator leaves its input alone (C10) *)

Ltac hunfold := unfold mbind, mret, H_bind, H_ret, bindH, retH, failH in *.

Section Keeps.
Variable base : nat.

Lemma keeps_ret {A} (a : A) (Q : A → Prop) : Q a → keeps base (mret a) Q.
Proof. intros HQ h Hlen Hcl. repeat split; try done. by intros ? [= <-]. Qed.

Lemma keeps_fail {A} (Q : A → Prop) : keeps base failH Q.
Proof. intros h Hlen Hcl. repeat split; done. Qed.

Lemma keeps_bind {A B} (m : H A) (f : A → H B) (Q : A → Prop) (R : B → Prop) :
  keeps base m Q → (∀ a, Q a → keeps base (f a) R) → keeps base (m ≫= f) R.
Proof.
  intros Hm Hf h Hlen Hcl. hunfold.
  destruct (Hm h Hlen Hcl) as (Hl1 & Hfr1 & Hcl1 & HQ).
  destruct (m h) as [[a|] h1]; simpl in *; [|repeat split; done].
  destruct (Hf a (HQ a eq_refl) h1 ltac:(lia) Hcl1) as (Hl2 & Hfr2 & Hcl2 & HR).
  split; [lia|]. split; [|done].
  intros l Hl. by rewrite Hfr2, Hfr1.
Qed.

Lemma keeps_mono {A} (m : H A) (Q R : A → Prop) :
  (∀ a, Q a → R a) → keeps base m Q → keeps base m R.
Proof.
  intros HQR Hm h Hlen Hcl. destruct (Hm h Hlen Hcl) as (? & ? & ? & HQ).
  repeat split; try done. intros a Ha. by apply HQR, HQ.
Qed.

(** A literal whose locations are all new objects is a new object. *)
Lemma keeps_alloc c :
  Forall (fun l => base ≤ l)%nat (locsOf c) →
  keeps base (allocH c) (fun l => base ≤ l)%nat.
Proof.
  intros Hc h Hlen Hcl. unfold allocH. simpl.
  split; [rewrite length_app; lia|]. split; [|split].
  - intros l Hl. apply lookup_app_l. lia.
  - intros l c' Hl Hlook.
    destruct (decide (l < length h)%nat) as [Hlt|Hge].
    + rewrite lookup_app_l in Hlook by done. exact (Hcl l c' Hl Hlook).
    + rewrite lookup_app_r in Hlook by lia.
      destruct (l - length h)%nat; simpl in Hlook; [by simplify_eq|].
      by rewrite lookup_nil in Hlook.
  - by intros ? [= <-].
Qed.

(** Reading changes nothing; a cell of the run holds locations of the
    run only. *)
Lemma keeps_read l : keeps base (readH l) (fun _ => True).
Proof. intros h Hlen Hcl. unfold readH. repeat split; done. Qed.

Lemma keeps_read_own l :
  (base ≤ l)%nat →
  keeps base (readH l) (fun c => Forall (fun l' => base ≤ l')%nat (locsOf c)).
Proof.
  intros Hl h Hlen Hcl. unfold readH. simpl. repeat split; try done.
  intros c Hc. exact (Hcl l c Hl Hc).
Qed.

(** Writing to an object of the run leaves the others alone. *)
Lemma keeps_write l c :
  (base ≤ l)%nat → Forall (fun l' => base ≤ l')%nat (locsOf c) →
  keeps base (writeH l c) (fun _ => True).
Proof.
  intros Hl Hc h Hlen Hcl. unfold writeH.
  destruct (decide (l < length h)%nat) as [Hlt|]; simpl; [|repeat split; done].
  split; [by rewrite length_insert|]. split; [|split; [|done]].
  - intros l' Hl'. apply list_lookup_insert_ne. lia.
  - intros l' c' Hl' Hlook.
    destruct (decide (l = l')) as [<-|Hne].
    + rewrite list_lookup_insert_eq in Hlook by done. by simplify_eq.
    + rewrite list_lookup_insert_ne in Hlook by done. exact (Hcl l' c' Hl' Hlook).
Qed.

Lemma keeps_forEach {X} (f : X → H unit) (l : list X) :
  (∀ x, x ∈ l → keeps base (f x) (fun _ => True)) →
  keeps base (forEachH f l) (fun _ => True).
Proof.
  induction l as [|x l IH]; intros Hf; simpl; [by apply keeps_ret|].
  eapply keeps_bind; [apply Hf; left|]. intros _ _. apply IH.
  intros y Hy. apply Hf. by right.
Qed.

Lemma keeps_mapH {X Y} (f : X → H Y) (l : list X) (Q : Y → Prop) :
  (∀ x, x ∈ l → keeps base (f x) Q) →
  keeps base (mapH f l) (Forall Q).
Proof.
  induction l as [|x l IH]; intros Hf; simpl; [by apply keeps_ret|].
  eapply keeps_bind; [apply Hf; left|]. intros y Hy.
  eapply keeps_bind; [apply IH; intros z Hz; apply Hf; by right|].
  intros ys Hys. apply keeps_ret. by constructor.
Qed.

Lemma keeps_filterH {X} (f : X → H bool) (l : list X) (P : X → Prop) :
  Forall P l →
  (∀ x, x ∈ l → keeps base (f x) (fun _ => True)) →
  keeps base (filterH f l) (Forall P).
Proof.
  induction 1 as [|x l Hx Hl IH]; intros Hf; simpl; [by apply keeps_ret|].
  eapply keeps_bind; [apply Hf; left|]. intros b _.
  eapply keeps_bind; [apply IH; intros z Hz; apply Hf; by right|].
  intros xs Hxs. apply keeps_ret. destruct b; [by constructor | done].
Qed.
End Keeps.

Lemma obj_get_Forall {K V} `{EqDecision K} (P : V → Prop) (o : list (K * V)) k v :
  Forall P o.*2 → obj_get k o = Some v → P v.
Proof.
  intros Ho Hget. apply obj_get_elem_of in Hget.
  rewrite Forall_forall in Ho. apply Ho.
  apply list_elem_of_fmap. by exists (k, v).
Qed.

Lemma obj_entries_Forall {K V} (idx : K → option Z) (P : V → Prop) (o : list (K * V)) :
  Forall P o.*2 → Forall P (obj_entries idx o).*2.
Proof. intros Ho. by rewrite obj_entries_Permutation. Qed.

Lemma sorted_by_key_Forall {K} (P : loc → Prop) (cmp : loc * K → loc * K → option Z)
    (items : list loc) (keys : list K) :
  Forall P items → Forall P (fst <$> js_sort cmp (zip items keys)).
Proof.
  intros Hitems. rewrite js_sort_Permutation.
  rewrite Forall_forall in Hitems. apply Forall_forall. intros l Hl.
  apply list_elem_of_fmap in Hl as ([l' k] & -> & Hin).
  apply Hitems. by apply elem_of_zip_l in Hin.
Qed.

Section KeepsProgram.
Variable base : nat.

Ltac kread :=
  intros; eapply keeps_bind; [apply keeps_read|];
  intros [] _; first [by apply keeps_ret | apply keeps_fail].

Lemma keeps_readCommit l : keeps base (readCommit l) (fun _ => True).
Proof. kread. Qed.
Lemma keeps_readPull l : keeps base (readPull l) (fun _ => True).
Proof. kread. Qed.
Lemma keeps_readPrInfo l : keeps base (readPrInfo l) (fun _ => True).
Proof. kread. Qed.
Lemma keeps_readSet l : keeps base (readSet l) (fun _ => True).
Proof. kread. Qed.
Lemma keeps_readBucket l : keeps base (readBucket l) (fun _ => True).
Proof. kread. Qed.
Lemma keeps_readWeek l : keeps base (readWeek l) (fun _ => True).
Proof. kread. Qed.
Lemma keeps_readCommitItem l : keeps base (readCommitItem l) (fun _ => True).
Proof. kread. Qed.
Lemma keeps_readPrItem l : keeps base (readPrItem l) (fun _ => True).
Proof. kread. Qed.
Lemma keeps_readReviewItem l : keeps base (readReviewItem l) (fun _ => True).
Proof. kread. Qed.
Lemma keeps_readArray l : keeps base (readArray l) (fun _ => True).
Proof. kread. Qed.
Lemma keeps_readEntry l : keeps base (readEntry l) (fun _ => True).
Proof. kread. Qed.

Ltac kown :=
  intros; eapply keeps_bind; [by apply keeps_read_own|];
  intros [] Hown; first [by apply keeps_ret | apply keeps_fail].

Lemma keeps_readArray_own l :
  (base ≤ l)%nat → keeps base (readArray l) (Forall (fun l' => base ≤ l')%nat).
Proof. kown. Qed.

Lemma keeps_readUserMap_own l :
  (base ≤ l)%nat →
  keeps base (readUserMap l) (fun um => Forall (fun l' => base ≤ l')%nat um.*2).
Proof. kown. Qed.

Lemma keeps_readWeekly_own l :
  (base ≤ l)%nat →
  keeps base (readWeekly l) (fun wd => Forall (fun l' => base ≤ l')%nat wd.*2).
Proof. kown. Qed.

Lemma keeps_readEntry_own l :
  (base ≤ l)%nat → keeps base (readEntry l) (ownEntry base).
Proof.
  intros; eapply keeps_bind; [by apply keeps_read_own|].
  intros [] Hown; try apply keeps_fail. apply keeps_ret.
  simpl in Hown. unfold ownEntry.
  by repeat (apply Forall_cons in Hown as [? Hown]).
Qed.

Lemma keeps_modifyEntry le (f : EntryCell → EntryCell) :
  (base ≤ le)%nat →
  (∀ e, locsOf (CEntry (f e)) = locsOf (CEntry e)) →
  keeps base (modifyEntry le f) (fun _ => True).
Proof.
  intros Hle Hf. eapply keeps_bind; [by apply keeps_readEntry_own|].
  intros e (? & ? & ? & ? & ?). apply keeps_write; [done|].
  rewrite Hf. simpl. by repeat constructor.
Qed.

Lemma keeps_ensureEntry lum u avatar :
  (base ≤ lum)%nat →
  keeps base (ensureEntry lum u avatar) (fun le => base ≤ le)%nat.
Proof.
  intros Hlum. eapply keeps_bind; [by apply keeps_readUserMap_own|].
  intros um Hown. destruct (obj_get u um) as [le|] eqn:Hget.
  { apply keeps_ret. apply (obj_get_Forall (fun l => base ≤ l)%nat _ _ _ Hown Hget). }
  eapply keeps_bind; [by apply keeps_alloc|]. intros lset Hset.
  eapply keeps_bind; [by apply keeps_alloc|]. intros lwd Hwd.
  eapply keeps_bind; [by apply keeps_alloc|]. intros lprs Hprs.
  eapply keeps_bind; [by apply keeps_alloc|]. intros lrev Hrev.
  eapply keeps_bind; [by apply keeps_alloc|]. intros lcom Hcom.
  eapply keeps_bind; [apply keeps_alloc; simpl; by repeat constructor|].
  intros le Hle.
  eapply keeps_bind; [|intros _ _; by apply keeps_ret].
  apply keeps_write; [done|]. simpl. rewrite fmap_app.
  apply Forall_app. split; [done|]. by repeat constructor.
Qed.

Lemma keeps_addRepo le repoName :
  (base ≤ le)%nat → keeps base (addRepo le repoName) (fun _ => True).
Proof.
  intros Hle. eapply keeps_bind; [by apply keeps_readEntry_own|].
  intros e (? & ? & ? & ? & ?).
  eapply keeps_bind; [apply keeps_readSet|]. intros s _.
  by apply keeps_write.
Qed.

Lemma keeps_pushItem larr item :
  (base ≤ larr)%nat → locsOf item = [] →
  keeps base (pushItem larr item) (fun _ => True).
Proof.
  intros Hl Hitem. eapply keeps_bind; [by apply keeps_readArray_own|].
  intros items Hitems. destruct (length items <? 20)%nat; [|by apply keeps_ret].
  eapply keeps_bind; [apply keeps_alloc; by rewrite Hitem|]. intros li Hli.
  apply keeps_write; [done|]. simpl. apply Forall_app. by repeat constructor.
Qed.

Lemma keeps_bumpWeekH lwd weekTs f :
  (base ≤ lwd)%nat → keeps base (bumpWeekH lwd weekTs f) (fun _ => True).
Proof.
  intros Hl. eapply keeps_bind; [by apply keeps_readWeekly_own|].
  intros wd Hown.
  eapply (keeps_bind _ _ _ (fun lb => base ≤ lb)%nat).
  - destruct (obj_get weekTs wd) as [lb|] eqn:Hget.
    + apply keeps_ret. apply (obj_get_Forall (fun l => base ≤ l)%nat _ _ _ Hown Hget).
    + eapply keeps_bind; [by apply keeps_alloc|]. intros lb Hlb.
      eapply keeps_bind; [|intros _ _; by apply keeps_ret].
      apply keeps_write; [done|]. simpl. rewrite fmap_app.
      apply Forall_app. by repeat constructor.
  - intros lb Hlb. eapply keeps_bind; [apply keeps_readBucket|].
    intros b _. by apply keeps_write.
Qed.

Lemma keeps_sortByH {K} (readKey : loc → H K) (cmp : K → K → option Z) larr :
  (base ≤ larr)%nat →
  (∀ l, keeps base (readKey l) (fun _ => True)) →
  keeps base (sortByH readKey cmp larr) (fun _ => True).
Proof.
  intros Hl Hkey. eapply keeps_bind; [by apply keeps_readArray_own|].
  intros items Hitems.
  eapply keeps_bind; [apply keeps_mapH; intros; apply Hkey|].
  intros keys _. apply keeps_write; [done|]. simpl.
  by apply sorted_by_key_Forall.
Qed.

Section Steps.
Variables (zone : TimeZone) (now : Z) (daysFilter : option Z).

Lemma keeps_commitStepH lum repoName lc :
  (base ≤ lum)%nat →
  keeps base (commitStepH zone now daysFilter lum repoName lc) (fun _ => True).
Proof.
  intros Hlum. eapply keeps_bind; [apply keeps_readCommit|].
  intros commit _. destruct (truthyStr (c_user commit)); [|by apply keeps_ret].
  destruct (filteredOut now daysFilter (c_date commit)); [by apply keeps_ret|].
  eapply keeps_bind; [by apply keeps_ensureEntry|]. intros le Hle.
  eapply keeps_bind; [by apply keeps_modifyEntry|]. intros _ _.
  eapply keeps_bind; [by apply keeps_addRepo|]. intros _ _.
  eapply keeps_bind; [by apply keeps_readEntry_own|].
  intros e (? & ? & ? & ? & ?).
  eapply keeps_bind; [by apply keeps_pushItem|]. intros _ _.
  by apply keeps_bumpWeekH.
Qed.

Lemma keeps_prStepH lum repoName lp :
  (base ≤ lum)%nat →
  keeps base (prStepH zone now daysFilter lum repoName lp) (fun _ => True).
Proof.
  intros Hlum. eapply keeps_bind; [apply keeps_readPull|].
  intros pr _. destruct (truthyStr (pr_user pr)); [|by apply keeps_ret].
  simpl.
  destruct (filteredOut now daysFilter _); [by apply keeps_ret|].
  eapply keeps_bind; [by apply keeps_ensureEntry|]. intros le Hle.
  eapply keeps_bind; [by apply keeps_modifyEntry|]. intros _ _.
  eapply keeps_bind; [by apply keeps_addRepo|]. intros _ _.
  eapply keeps_bind; [by apply keeps_readEntry_own|].
  intros e (? & ? & ? & ? & ?).
  eapply keeps_bind; [by apply keeps_pushItem|]. intros _ _.
  eapply (keeps_bind _ _ _ (fun _ => True)).
  { destruct (hasLineStats pr); [by apply keeps_modifyEntry | by apply keeps_ret]. }
  intros _ _.
  eapply keeps_bind; [by apply keeps_bumpWeekH|]. intros _ _.
  destruct (hasLineStats pr); [by apply keeps_bumpWeekH | by apply keeps_ret].
Qed.

Lemma keeps_reviewedStepH repoName lrev lp :
  (base ≤ lrev)%nat →
  keeps base (reviewedStepH repoName lrev lp) (fun _ => True).
Proof.
  intros Hl. eapply keeps_bind; [apply keeps_readPrInfo|]. intros prInfo _.
  eapply keeps_bind; [by apply keeps_readArray_own|]. intros items Hitems.
  eapply keeps_bind; [apply keeps_mapH; intros; apply keeps_readReviewItem|].
  intros its _.
  destruct (_ && _); [|by apply keeps_ret].
  eapply keeps_bind; [by apply keeps_alloc|]. intros li Hli.
  apply keeps_write; [done|]. simpl. apply Forall_app. by repeat constructor.
Qed.

Lemma keeps_reviewDateStepH le lwd date :
  (base ≤ le)%nat → (base ≤ lwd)%nat →
  keeps base (reviewDateStepH zone now daysFilter le lwd date) (fun _ => True).
Proof.
  intros Hle Hlwd. unfold reviewDateStepH.
  destruct (_ && _); [by apply keeps_ret|].
  eapply keeps_bind; [by apply keeps_modifyEntry|]. intros _ _.
  by apply keeps_bumpWeekH.
Qed.

Lemma keeps_reviewStepH lum repoName entry :
  (base ≤ lum)%nat →
  keeps base (reviewStepH zone now daysFilter lum repoName entry)
        (fun _ => True).
Proof.
  intros Hlum. destruct entry as [u reviewInfo]. unfold reviewStepH.
  eapply (keeps_bind _ _ _ (fun _ => True)).
  { destruct reviewInfo as [n|lri]; [by apply keeps_ret|].
    eapply keeps_bind; [apply keeps_read|]. intros c _.
    destruct c; try apply keeps_fail.
    eapply keeps_bind; [apply keeps_read|]. intros dates _.
    eapply keeps_bind; [apply keeps_read|]. intros reviewed _.
    by apply keeps_ret. }
  intros [[count submittedDates] reviewedPRs] _.
  eapply keeps_bind; [by apply keeps_ensureEntry|]. intros le Hle.
  eapply keeps_bind; [by apply keeps_readEntry_own|].
  intros e (? & ? & ? & ? & ?).
  eapply keeps_bind.
  { apply keeps_forEach. intros; by apply keeps_reviewedStepH. }
  intros _ _.
  eapply (keeps_bind _ _ _ (fun _ => True)).
  { destruct (0 <? length submittedDates)%nat.
    - apply keeps_forEach. intros; by apply keeps_reviewDateStepH.
    - by apply keeps_modifyEntry. }
  intros _ _.
  eapply keeps_bind; [by apply keeps_readEntry_own|]. intros e' _.
  destruct (0 <? h_reviews e'); [by apply keeps_addRepo | by apply keeps_ret].
Qed.

Lemma keeps_repoStepH lum lrd :
  (base ≤ lum)%nat →
  keeps base (repoStepH zone now daysFilter lum lrd) (fun _ => True).
Proof.
  intros Hlum. eapply keeps_bind; [apply keeps_read|]. intros rd _.
  destruct rd; try apply keeps_fail.
  eapply keeps_bind; [apply keeps_read|]. intros cs _.
  eapply (keeps_bind _ _ _ (fun _ => True)).
  { destruct cs; try by apply keeps_ret.
    apply keeps_forEach. intros; by apply keeps_commitStepH. }
  intros _ _.
  eapply keeps_bind; [apply keeps_read|]. intros ps _.
  eapply (keeps_bind _ _ _ (fun _ => True)).
  { destruct ps; try by apply keeps_ret.
    apply keeps_forEach. intros; by apply keeps_prStepH. }
  intros _ _.
  eapply keeps_bind; [apply keeps_read|]. intros rs _.
  destruct rs; try by apply keeps_ret.
  apply keeps_forEach. intros; by apply keeps_reviewStepH.
Qed.

Lemma keeps_weekMapStepH lwm lw :
  (base ≤ lwm)%nat →
  keeps base (weekMapStepH zone lwm lw) (fun _ => True).
Proof.
  intros Hl. eapply keeps_bind; [apply keeps_readWeek|]. intros w _.
  simpl.
  eapply keeps_bind; [by apply keeps_readWeekly_own|]. intros wm Hown.
  destruct (obj_get _ wm) as [lm|] eqn:Hget.
  - eapply keeps_bind; [apply keeps_readWeek|]. intros m _.
    apply keeps_write; [|done].
    apply (obj_get_Forall (fun l => base ≤ l)%nat _ _ _ Hown Hget).
  - eapply keeps_bind; [by apply keeps_alloc|]. intros lnew Hnew.
    apply keeps_write; [done|]. simpl. rewrite fmap_app.
    apply Forall_app. by repeat constructor.
Qed.

Lemma keeps_fillStepH lwm lfilled i :
  (base ≤ lwm)%nat → (base ≤ lfilled)%nat →
  keeps base (fillStepH zone now daysFilter lwm lfilled i) (fun _ => True).
Proof.
  intros Hlwm Hlf. unfold fillStepH.
  eapply keeps_bind; [by apply keeps_readWeekly_own|]. intros wm Hown.
  eapply (keeps_bind _ _ _ (fun lw => base ≤ lw)%nat).
  { destruct (obj_get _ wm) as [lm|] eqn:Hget.
    - apply keeps_ret. apply (obj_get_Forall (fun l => base ≤ l)%nat _ _ _ Hown Hget).
    - by apply keeps_alloc. }
  intros lw Hlw.
  eapply keeps_bind; [by apply keeps_readArray_own|]. intros filled Hfilled.
  apply keeps_write; [done|]. simpl. apply Forall_app. by repeat constructor.
Qed.

Lemma keeps_emitH le :
  (base ≤ le)%nat →
  keeps base (emitH zone now daysFilter le) (fun l => base ≤ l)%nat.
Proof.
  intros Hle. eapply keeps_bind; [by apply keeps_readEntry_own|].
  intros stats (? & ? & ? & ? & ?).
  eapply keeps_bind; [by apply keeps_readWeekly_own|]. intros wd Hwd.
  eapply (keeps_bind _ _ _ (Forall (fun l => base ≤ l)%nat)).
  { apply keeps_mapH. intros p _.
    eapply keeps_bind; [apply keeps_readBucket|]. intros b _.
    by apply keeps_alloc. }
  intros weeks Hweeks.
  eapply keeps_bind; [by apply keeps_alloc|]. intros lweekly Hlweekly.
  eapply keeps_bind.
  { apply keeps_sortByH; [done|]. intros l.
    eapply keeps_bind; [apply keeps_readWeek|]. intros; by apply keeps_ret. }
  intros _ _.
  eapply keeps_bind; [by apply keeps_readArray_own|]. intros weeklyArray _.
  eapply keeps_bind; [by apply keeps_alloc|]. intros lwm Hlwm.
  eapply keeps_bind.
  { apply keeps_forEach. intros; by apply keeps_weekMapStepH. }
  intros _ _.
  eapply keeps_bind; [by apply keeps_alloc|]. intros lfilled Hlfilled.
  eapply keeps_bind.
  { apply keeps_forEach. intros; by apply keeps_fillStepH. }
  intros _ _.
  eapply keeps_bind; [apply keeps_readSet|]. intros repos _.
  eapply keeps_bind.
  { apply keeps_sortByH; [done|]. intros l.
    eapply keeps_bind; [apply keeps_readPrItem|]. intros; by apply keeps_ret. }
  intros _ _.
  eapply keeps_bind.
  { apply keeps_sortByH; [done|]. intros l.
    eapply keeps_bind; [apply keeps_readCommitItem|]. intros; by apply keeps_ret. }
  intros _ _.
  apply keeps_alloc. simpl. by repeat constructor.
Qed.

Lemma keeps_aggregateStatsH repoDataArray :
  keeps base (aggregateStatsH zone now daysFilter repoDataArray)
        (fun l => base ≤ l)%nat.
Proof.
  eapply keeps_bind; [by apply keeps_alloc|]. intros lum Hlum.
  eapply keeps_bind; [apply keeps_readArray|]. intros repos _.
  eapply keeps_bind.
  { apply keeps_forEach. intros; by apply keeps_repoStepH. }
  intros _ _.
  eapply keeps_bind; [by apply keeps_readUserMap_own|]. intros um Hum.
  eapply keeps_bind.
  { apply keeps_alloc. simpl. by apply obj_entries_Forall. }
  intros lvalues Hlvalues.
  eapply keeps_bind; [by apply keeps_readArray_own|]. intros values Hvalues.
  eapply keeps_bind.
  { apply keeps_filterH; [exact Hvalues|]. intros le _.
    eapply keeps_bind; [apply keeps_readEntry|]. intros e _.
    by apply keeps_ret. }
  intros kept Hkept.
  eapply keeps_bind; [by apply keeps_alloc|]. intros lkept _.
  eapply (keeps_bind _ _ _ (Forall (fun l => base ≤ l)%nat)).
  { apply keeps_mapH. intros le Hin. apply keeps_emitH.
    rewrite Forall_forall in Hkept. by apply Hkept. }
  intros outs Houts. by apply keeps_alloc.
Qed.
End Steps.
End KeepsProgram.

Section KeepsStore.
Variable base : nat.

Lemma keeps_storeReview entry :
  keeps base (storeReview entry)
        (fun p => match p.2 with inr l => (base ≤ l)%nat | inl _ => True end).
Proof.
  unfold storeReview. destruct (entry.2) as [n|n ds ps]; [by apply keeps_ret|].
  eapply keeps_bind; [by apply keeps_alloc|]. intros lsub Hlsub.
  eapply (keeps_bind _ _ _ (Forall (fun l => base ≤ l)%nat)).
  { apply keeps_mapH. intros; by apply keeps_alloc. }
  intros lps Hlps.
  eapply keeps_bind; [by apply keeps_alloc|]. intros lprs Hlprs.
  eapply keeps_bind; [apply keeps_alloc; simpl; by repeat constructor|].
  intros lri Hlri. by apply keeps_ret.
Qed.

Lemma keeps_storeRepo rd :
  keeps base (storeRepo rd) (fun l => base ≤ l)%nat.
Proof.
  eapply (keeps_bind _ _ _ (Forall (fun l => base ≤ l)%nat)).
  { apply keeps_mapH. intros; by apply keeps_alloc. }
  intros lcs Hlcs.
  eapply keeps_bind; [by apply keeps_alloc|]. intros lcommits Hlcommits.
  eapply (keeps_bind _ _ _ (Forall (fun l => base ≤ l)%nat)).
  { apply keeps_mapH. intros; by apply keeps_alloc. }
  intros lps Hlps.
  eapply keeps_bind; [by apply keeps_alloc|]. intros lprs Hlprs.
  eapply keeps_bind; [apply keeps_mapH; intros; apply keeps_storeReview|].
  intros props Hprops.
  eapply keeps_bind.
  { apply keeps_alloc. simpl. clear -Hprops.
    induction Hprops as [|[k [n|l]] props Hp _ IH]; simpl; [done|done|].
    by constructor. }
  intros lreviews Hlreviews.
  apply keeps_alloc. simpl. by repeat constructor.
Qed.
End KeepsStore.

Lemma closedFrom_length (h : list Cell) : closedFrom (length h) h.
Proof.
  intros l c Hl Hlook. apply lookup_lt_Some in Hlook. lia.
Qed.

Lemma take_unchanged (h h' : list Cell) :
  (length h ≤ length h')%nat →
  (∀ l, (l < length h)%nat → h' !! l = h !! l) →
  take (length h) h' = h.
Proof.
  intros Hlen Hsame. apply list_eq. intros l.
  destruct (decide (l < length h)%nat) as [Hlt|Hge].
  - rewrite lookup_take_lt by done. by apply Hsame.
  - rewrite lookup_take_ge by lia. symmetry. apply lookup_ge_None. lia.
Qed.

(** A call of [aggregateStats] changes no object that existed before the
    call: the store it leaves begins with the store it was given, cell for
    cell. The objects the call creates hold references to objects of the
    call only, and the array it returns is one of them. *)
Lemma aggregateStatsH_frame (zone : TimeZone) (now : Z) (daysFilter : option Z)
    (repoDataArray : loc) (h : list Cell) :
  let r := aggregateStatsH zone now daysFilter repoDataArray h in
  take (length h) r.2 = h
  ∧ closedFrom (length h) r.2
  ∧ (∀ out, r.1 = Some out → (length h ≤ out)%nat).
Proof.
  intros r.
  destruct (keeps_aggregateStatsH (length h) zone now daysFilter repoDataArray h
              (le_n _) (closedFrom_length h)) as (Hlen & Hsame & Hclosed & Hout).
  split; [by apply take_unchanged|]. by split.
Qed.

(** The loop of [fetchAllStats] pushes each repository's record on
    [repoDataArray] and aggregates over the array. Over the whole loop and
    the final aggregation, the array only grows, by the records pushed, and
    no other object that existed before changes. *)
Lemma snapshots_leave_inputs (zone : TimeZone) (clock : nat → Z) (daysFilter : option Z)
    (repoDataArray : loc) (collected : list RepoData) :
  ∀ (i : nat) (h : list Cell) (arr : list loc),
    h !! repoDataArray = Some (CArray arr) →
    let r := snapshotsH zone clock daysFilter repoDataArray i collected h in
    (length h ≤ length r.2)%nat
    ∧ (∀ l, (l < length h)%nat → l ≠ repoDataArray → r.2 !! l = h !! l)
    ∧ ∃ pushed, r.2 !! repoDataArray = Some (CArray (arr ++ pushed))
                ∧ Forall (fun l => length h ≤ l)%nat pushed
                ∧ (is_Some r.1 → length pushed = length collected).
Proof.

  induction collected as [|rd rest IH]; intros i h arr Harr; simpl.
  - destruct (keeps_aggregateStatsH (length h) zone (clock i) daysFilter
                repoDataArray h (le_n _) (closedFrom_length h))
      as (Hlen & Hsame & _ & _).
    hunfold.
    destruct (aggregateStatsH _ _ _ _ h) as [[final|] h1]; simpl in *.
    + split; [done|]. split; [by intros; apply Hsame|].
      exists []. rewrite app_nil_r, Hsame by (by eapply lookup_lt_Some).
      split; [done|]. split; [constructor | done].
    + split; [done|]. split; [by intros; apply Hsame|].
      exists []. rewrite app_nil_r, Hsame by (by eapply lookup_lt_Some).
      split; [done|]. split; [constructor|]. by intros [? ?].
  - assert (Hlt : (repoDataArray < length h)%nat) by (by eapply lookup_lt_Some).
    destruct (keeps_storeRepo (length h) rd h (le_n _) (closedFrom_length h))
      as (Hlen1 & Hsame1 & _ & Hlrd).
    hunfold.
    destruct (storeRepo rd h) as [[lrd|] h1]; simpl in *; cycle 1.
    { split; [done|]. split; [by intros; apply Hsame1|].
      exists []. rewrite app_nil_r, Hsame1 by done.
      split; [done|]. split; [constructor|]. by intros [? ?]. }
    specialize (Hlrd lrd eq_refl).
    unfold readArray, readH. hunfold. simpl.
    rewrite Hsame1, Harr by done. simpl.
    unfold writeH. rewrite decide_True by lia. simpl.
    match goal with
    | |- context [aggregateStatsH _ _ _ _ ?s] => set (h2 := s)
    end.
    assert (Hlen2 : length h2 = length h1) by apply length_insert.
    destruct (keeps_aggregateStatsH (length h2) zone (clock i) daysFilter
                repoDataArray h2 (le_n _) (closedFrom_length h2))
      as (Hlen3 & Hsame3 & _ & _).
    destruct (aggregateStatsH _ _ _ _ h2) as [[current|] h3]; simpl in *; cycle 1.
    { split; [lia|]. split.
      - intros l Hl Hne. rewrite Hsame3 by lia. unfold h2.
        rewrite list_lookup_insert_ne by done. by apply Hsame1.
      - exists [lrd]. rewrite Hsame3 by lia. unfold h2.
        rewrite list_lookup_insert_eq by lia.
        split; [done|]. split; [by repeat constructor|]. by intros [? ?]. }
    assert (Harr3 : h3 !! repoDataArray = Some (CArray (arr ++ [lrd]))).
    { rewrite Hsame3 by lia. unfold h2. by rewrite list_lookup_insert_eq by lia. }
    destruct (IH (S i) h3 _ Harr3) as (Hlen4 & Hsame4 & pushed & Hfinal & Hpushed & Hcount).
    destruct (snapshotsH _ _ _ _ _ rest h3) as [[later|] h4]; simpl in *.
    + split; [lia|]. split.
      * intros l Hl Hne. rewrite Hsame4, Hsame3 by (done || lia). unfold h2.
        rewrite list_lookup_insert_ne by done. by apply Hsame1.
      * exists (lrd :: pushed). rewrite Hfinal, <- app_assoc. simpl.
        split; [done|]. split.
        -- constructor; [done|]. eapply Forall_impl; [exact Hpushed|].
           simpl. intros; lia.
        -- intros _. f_equal. by apply Hcount.
    + split; [lia|]. split.
      * intros l Hl Hne. rewrite Hsame4, Hsame3 by (done || lia). unfold h2.
        rewrite list_lookup_insert_ne by done. by apply Hsame1.
      * exists (lrd :: pushed). rewrite Hfinal, <- app_assoc. simpl.
        split; [done|]. split.
        -- constructor; [done|]. eapply Forall_impl; [exact Hpushed|].
           simpl. intros; lia.
        -- by intros [? ?].
Qed.

(** On the sample run the store model and the functional model agree: two
    repositories are collected, and each of the three snapshots read back
    from the store is the functional model's result over the
    repositories collected up to then. *)
Example snapshots_sample :
  let h0 := (allocH (CArray []) []).2 in
  let run := snapshotsH utcZone (fun _ => sampleNow) (Some 30) 0%nat 0%nat sampleCollected h0 in
  match run.1 with
  | Some [first; second; final] =>
      loadStats run.2 first = Some (aggregateStats utcZone sampleNow (Some 30) [webRepo])
      ∧ loadStats run.2 second
        = Some (aggregateStats utcZone sampleNow (Some 30) sampleCollected)
      ∧ loadStats run.2 final
        = Some (aggregateStats utcZone sampleNow (Some 30) sampleCollected)
  | _ => False
  end.
Proof. vm_compute. repeat split; reflexivity. Qed.

(** ** The store model computes what the functional model computes *)

Lemma heapOf_lookup (h : list Cell) (l : nat) : heapOf h !! l = h !! l.
Proof. unfold heapOf. by rewrite lookup_map_seq_0. Qed.

Lemma heapOf_snoc (h : list Cell) (c : Cell) :
  heapOf (h ++ [c]) = <[length h := c]> (heapOf h).
Proof. unfold heapOf. by rewrite map_seq_snoc. Qed.

Lemma heapOf_insert (h : list Cell) (l : nat) (c : Cell) :
  (l < length h)%nat → heapOf (<[l := c]> h) = <[l := c]> (heapOf h).
Proof.
  intros Hl. apply map_eq. intros i. rewrite heapOf_lookup.
  destruct (decide (i = l)) as [->|Hne].
  - rewrite lookup_insert_eq. by apply list_lookup_insert_eq.
  - rewrite lookup_insert_ne by done. rewrite heapOf_lookup.
    by apply list_lookup_insert_ne.
Qed.

Section Rules.
Context `{!gen_heapGS nat Cell Σ}.

Lemma wpH_ret {A} (a : A) (post : A → iProp Σ) : post a -∗ wpH (mret a) post.
Proof. iIntros "HP" (h) "Hh". iModIntro. iExists a, h. by iFrame. Qed.

Lemma wpH_bind {A B} (m : H A) (f : A → H B) (post : B → iProp Σ) :
  wpH m (fun a => wpH (f a) post) -∗ wpH (m ≫= f) post.
Proof.
  iIntros "Hm" (h) "Hh". iMod ("Hm" with "Hh") as (a h1) "(%Hm & Hh & Hf)".
  iMod ("Hf" with "Hh") as (b h2) "(%Hf & Hh & HP)".
  iModIntro. iExists b, h2. iFrame. iPureIntro. hunfold. by rewrite Hm.
Qed.

Lemma wpH_wand {A} (m : H A) (post post' : A → iProp Σ) :
  wpH m post -∗ (∀ a, post a -∗ post' a) -∗ wpH m post'.
Proof.
  iIntros "Hm Hpost" (h) "Hh". iMod ("Hm" with "Hh") as (a h1) "(%Hm & Hh & HP)".
  iModIntro. iExists a, h1. iFrame. iSplit; [done|]. by iApply "Hpost".
Qed.

Lemma wpH_bupd {A} (m : H A) (post : A → iProp Σ) :
  (|==> wpH m post) -∗ wpH m post.
Proof. iIntros "Hm" (h) "Hh". iMod "Hm". by iApply "Hm". Qed.

Lemma wpH_post_bupd {A} (m : H A) (post : A → iProp Σ) :
  wpH m (fun a => |==> post a) -∗ wpH m post.
Proof.
  iIntros "Hm" (h) "Hh". iMod ("Hm" with "Hh") as (a h1) "(%Hm & Hh & >HP)".
  iModIntro. iExists a, h1. by iFrame.
Qed.

Lemma wpH_alloc (c : Cell) (post : loc → iProp Σ) :
  (∀ l, l ↦ c -∗ post l) -∗ wpH (allocH c) post.
Proof.
  iIntros "HP" (h) "Hh".
  iMod (gen_heap_alloc _ (length h) c with "Hh") as "(Hh & Hl & _)".
  { rewrite heapOf_lookup. apply lookup_ge_None. lia. }
  iModIntro. iExists (length h), (h ++ [c]). rewrite heapOf_snoc. iFrame.
  iSplit; [done|]. by iApply "HP".
Qed.

Lemma wpH_read (l : loc) dq (c : Cell) (post : Cell → iProp Σ) :
  l ↦{dq} c -∗ (l ↦{dq} c -∗ post c) -∗ wpH (readH l) post.
Proof.
  iIntros "Hl HP" (h) "Hh". iDestruct (gen_heap_valid with "Hh Hl") as %Hl.
  rewrite heapOf_lookup in Hl.
  iModIntro. iExists c, h. iFrame. iSplit.
  - iPureIntro. unfold readH. f_equal. exact Hl.
  - by iApply "HP".
Qed.

Lemma wpH_write (l : loc) (c c' : Cell) (post : unit → iProp Σ) :
  l ↦ c -∗ (l ↦ c' -∗ post tt) -∗ wpH (writeH l c') post.
Proof.
  iIntros "Hl HP" (h) "Hh". iDestruct (gen_heap_valid with "Hh Hl") as %Hl.
  rewrite heapOf_lookup in Hl. apply lookup_lt_Some in Hl.
  iMod (gen_heap_update with "Hh Hl") as "[Hh Hl]".
  iModIntro. iExists tt, (<[l := c']> h). rewrite heapOf_insert by done. iFrame.
  iSplit.
  - iPureIntro. unfold writeH. by rewrite decide_True.
  - by iApply "HP".
Qed.
End Rules.

(** Sorting and enumeration act on the keys only. *)
Section Naturality.
Context {A B : Type} (g : A → B).

Lemma sort_insert_fmap (cmp : A → A → option Z) (cmp' : B → B → option Z) x l :
  (∀ a b, cmp' (g a) (g b) = cmp a b) →
  sort_insert cmp' (g x) (g <$> l) = g <$> sort_insert cmp x l.
Proof.
  intros Hcmp. induction l as [|y l IH]; csimpl; [done|].
  unfold comesAfter. rewrite Hcmp.
  destruct (cmp x y) as [c|]; [|done].
  destruct (0 <? c); [|done]. csimpl. by rewrite <- IH.
Qed.

Lemma js_sort_fmap (cmp : A → A → option Z) (cmp' : B → B → option Z) l :
  (∀ a b, cmp' (g a) (g b) = cmp a b) →
  js_sort cmp' (g <$> l) = g <$> js_sort cmp l.
Proof.
  intros Hcmp. induction l as [|x l IH]; csimpl; [done|].
  rewrite IH. by apply sort_insert_fmap.
Qed.
End Naturality.

Lemma obj_entries_fmap {K A B} (idx : K → option Z) (g : K * A → K * B)
    (o : list (K * A)) :
  (∀ p, (g p).1 = p.1) →
  obj_entries idx (g <$> o) = g <$> obj_entries idx o.
Proof.
  intros Hg. unfold obj_entries. rewrite fmap_app. f_equal.
  - rewrite <- (js_sort_fmap g (fun a b => subNum (idx a.1) (idx b.1))
                               (fun a b => subNum (idx a.1) (idx b.1)))
      by (intros a b; by rewrite !Hg).
    f_equal. induction o as [|p o IH]; csimpl; [done|].
    rewrite !filter_cons, Hg.
    destruct (decide (is_Some (idx p.1))); csimpl; by rewrite IH.
  - induction o as [|p o IH]; csimpl; [done|].
    rewrite !filter_cons, Hg.
    destruct (decide (¬ is_Some (idx p.1))); csimpl; by rewrite IH.
Qed.

(** Two lists with the same keys are the two sides of one list. *)
Lemma same_keys_zipped {K A B} (ps : list (K * A)) (qs : list (K * B)) :
  Forall2 (fun p q => p.1 = q.1) ps qs →
  ∃ zs : list (K * (A * B)),
    ps = (fun z => (z.1, z.2.1)) <$> zs ∧ qs = (fun z => (z.1, z.2.2)) <$> zs.
Proof.
  induction 1 as [|[k a] [k' b] ps qs Hk _ (zs & -> & ->)]; [by exists []|].
  simpl in Hk. subst k'. by exists ((k, (a, b)) :: zs).
Qed.

Lemma obj_get_same_keys {K A B} `{EqDecision K} (ps : list (K * A)) (qs : list (K * B)) k :
  ps.*1 = qs.*1 → obj_get k ps = None → obj_get k qs = None.
Proof. intros Hk. rewrite !obj_get_None. by rewrite Hk. Qed.

Lemma obj_alter_const {K V} `{EqDecision K} (f : V → V) k v (m : list (K * V)) :
  obj_get k m = Some v → obj_alter (fun _ => f v) k m = obj_alter f k m.
Proof.
  induction m as [|[k' v'] m IH]; simpl; [done|].
  destruct (decide (k' = k)); [by intros [= ->]|]. intros. by rewrite IH.
Qed.

Section Loops.
Context `{!gen_heapGS nat Cell Σ}.

Lemma wpH_forEach {X Y St} (f : X → H unit) (g : St → Y → St)
    (R0 : X → Y → iProp Σ) (R : St → iProp Σ) ls ys a :
  ([∗ list] l;y ∈ ls;ys, R0 l y) -∗
  □ (∀ l y a, R0 l y -∗ R a -∗ wpH (f l) (fun _ => R (g a y))) -∗
  R a -∗ wpH (forEachH f ls) (fun _ => R (fold_left g ys a)).
Proof.
  iIntros "Hl #Hf".
  iInduction ls as [|l ls] "IH" forall (ys a); destruct ys as [|y ys]; simpl;
    try done.
  - iIntros "HR". by iApply wpH_ret.
  - iDestruct "Hl" as "[Hly Hl]". iIntros "HR". iApply wpH_bind.
    iApply (wpH_wand with "[Hly HR]"); [iApply ("Hf" with "Hly HR")|].
    iIntros (_) "HR". iApply ("IH" with "Hl HR").
Qed.

Lemma wpH_mapH {X Y Z'} (f : X → H Z') (R0 : X → Y → iProp Σ)
    (R : Z' → Y → iProp Σ) ls ys :
  ([∗ list] l;y ∈ ls;ys, R0 l y) -∗
  □ (∀ l y, R0 l y -∗ wpH (f l) (fun r => R r y)) -∗
  wpH (mapH f ls) (fun rs => [∗ list] r;y ∈ rs;ys, R r y).
Proof.
  iIntros "Hl #Hf".
  iInduction ls as [|l ls] "IH" forall (ys); destruct ys as [|y ys]; simpl;
    try done.
  - by iApply wpH_ret.
  - iDestruct "Hl" as "[Hly Hl]". iApply wpH_bind.
    iApply (wpH_wand with "[Hly]"); [iApply ("Hf" with "Hly")|].
    iIntros (r) "Hr". iApply wpH_bind.
    iApply (wpH_wand with "[Hl]"); [iApply ("IH" with "Hl")|].
    iIntros (rs) "Hrs". iApply wpH_ret. simpl. iFrame.
Qed.

Lemma wpH_filterH {X Y} (f : X → H bool) (g : Y → bool)
    (R0 : X → Y → iProp Σ) ls ys :
  ([∗ list] l;y ∈ ls;ys, R0 l y) -∗
  □ (∀ l y, R0 l y -∗ wpH (f l) (fun b => ⌜b = g y⌝ ∗ R0 l y)) -∗
  wpH (filterH f ls)
      (fun kept => [∗ list] l;y ∈ kept;filter (fun y => g y) ys, R0 l y).
Proof.
  iIntros "Hl #Hf".
  iInduction ls as [|l ls] "IH" forall (ys); destruct ys as [|y ys]; simpl;
    try done.
  - by iApply wpH_ret.
  - iDestruct "Hl" as "[Hly Hl]". iApply wpH_bind.
    iApply (wpH_wand with "[Hly]"); [iApply ("Hf" with "Hly")|].
    iIntros (b) "[-> Hly]". iApply wpH_bind.
    iApply (wpH_wand with "[Hl]"); [iApply ("IH" with "Hl")|].
    iIntros (kept) "Hkept". iApply wpH_ret.
    rewrite filter_cons. destruct (g y) eqn:Hg.
    + rewrite decide_True by done. simpl. iFrame.
    + rewrite decide_False by (by intros []). done.
Qed.

Lemma wpH_forEach_same {Y St} (f : Y → H unit) (g : St → Y → St)
    (R : St → iProp Σ) ys a :
  □ (∀ y a, R a -∗ wpH (f y) (fun _ => R (g a y))) -∗
  R a -∗ wpH (forEachH f ys) (fun _ => R (fold_left g ys a)).
Proof.
  iIntros "#Hf". iInduction ys as [|y ys] "IH" forall (a); simpl.
  - iIntros "HR". by iApply wpH_ret.
  - iIntros "HR". iApply wpH_bind.
    iApply (wpH_wand with "[HR]"); [iApply ("Hf" with "HR")|].
    iIntros (_) "HR". iApply ("IH" with "HR").
Qed.

(** Reading a key off every element of an array. *)
Lemma wpH_mapH_keys {X Kk} (rd : loc → H Kk) (inj : X → Cell) (key : X → Kk)
    dq ls xs :
  (∀ l x (post : Kk → iProp Σ),
     l ↦{dq} inj x -∗ (l ↦{dq} inj x -∗ post (key x)) -∗ wpH (rd l) post) →
  ([∗ list] l;x ∈ ls;xs, l ↦{dq} inj x) -∗
  wpH (mapH rd ls)
      (fun ks => ⌜ks = key <$> xs⌝ ∗ [∗ list] l;x ∈ ls;xs, l ↦{dq} inj x).
Proof.
  iIntros (Hrd) "Hl".
  iInduction ls as [|l ls] "IH" forall (xs); destruct xs as [|x xs]; simpl;
    try done.
  - iApply wpH_ret. by iSplit.
  - iDestruct "Hl" as "[Hlx Hl]". iApply wpH_bind.
    iApply (Hrd with "Hlx"). iIntros "Hlx". iApply wpH_bind.
    iApply (wpH_wand with "[Hl]"); [iApply ("IH" with "Hl")|].
    iIntros (ks) "[-> Hl]". iApply wpH_ret. iFrame. done.
Qed.
End Loops.

Section Reorder.
Context `{!gen_heapGS nat Cell Σ}.

Lemma big_sepL2_fmap_both {T A B} (f : T → A) (g : T → B)
    (R : A → B → iProp Σ) (zs : list T) :
  ([∗ list] a;b ∈ (f <$> zs);(g <$> zs), R a b) ⊣⊢ [∗ list] z ∈ zs, R (f z) (g z).
Proof. induction zs as [|z zs IH]; csimpl; [done|]. by rewrite IH. Qed.

Lemma big_sepL2_same_keys {K A B} (R : K * A → K * B → iProp Σ) ps qs :
  (∀ p q, R p q -∗ ⌜p.1 = q.1⌝) →
  ([∗ list] p;q ∈ ps;qs, R p q) -∗ ⌜Forall2 (fun p q => p.1 = q.1) ps qs⌝.
Proof.
  iIntros (Hkey) "H".
  iInduction ps as [|p ps] "IH" forall (qs); destruct qs as [|q qs]; simpl;
    try done.
  iDestruct "H" as "[Hpq H]". iDestruct (Hkey with "Hpq") as %Hk.
  iDestruct ("IH" with "H") as %IH. iPureIntro. by constructor.
Qed.

(** Enumerating both sides of a keyed pair of lists keeps them paired. *)
Lemma entries_sepL2 {K A B} (idx : K → option Z) (R : K * A → K * B → iProp Σ)
    ps qs :
  (∀ p q, R p q -∗ ⌜p.1 = q.1⌝) →
  ([∗ list] p;q ∈ ps;qs, R p q) -∗
  [∗ list] p;q ∈ obj_entries idx ps;obj_entries idx qs, R p q.
Proof.
  iIntros (Hkey) "H".
  iDestruct (big_sepL2_same_keys _ _ _ Hkey with "H") as %HF.
  destruct (same_keys_zipped _ _ HF) as (zs & -> & ->).
  rewrite !obj_entries_fmap by done.
  rewrite !big_sepL2_fmap_both.
  by rewrite (big_opL_permutation _ _ _ (obj_entries_Permutation idx zs)).
Qed.
End Reorder.

Section Keyed.
Context `{!gen_heapGS nat Cell Σ} {K V : Type} `{EqDecision K}.
Implicit Types (R : loc → V → iProp Σ) (props : list (K * loc)) (m : list (K * V)).

Lemma keyed_keys R props m : keyed R props m -∗ ⌜props.*1 = m.*1⌝.
Proof.
  iIntros "H". unfold keyed.
  iInduction props as [|p props] "IH" forall (m); destruct m as [|q m]; simpl;
    try done.
  iDestruct "H" as "[[%Hk _] H]". iDestruct ("IH" with "H") as %IH.
  iPureIntro. csimpl. by f_equal.
Qed.

Lemma keyed_snoc R props m k l v :
  keyed R props m -∗ R l v -∗ keyed R (props ++ [(k, l)]) (m ++ [(k, v)]).
Proof.
  iIntros "H Hl". unfold keyed. iApply (big_sepL2_app with "H"). simpl. by iFrame.
Qed.

Lemma keyed_access R props m k l :
  obj_get k props = Some l →
  keyed R props m -∗
  ∃ v, ⌜obj_get k m = Some v⌝ ∗ R l v
       ∗ (∀ v', R l v' -∗ keyed R props (obj_alter (fun _ => v') k m)).
Proof.
  iIntros (Hget) "H". unfold keyed.
  iInduction props as [|[k0 l0] props] "IH" forall (m Hget);
    destruct m as [|[k1 v1] m]; simpl in *; try done.
  iDestruct "H" as "[[%Hk HR] H]". simpl in Hk. subst k1.
  destruct (decide (k0 = k)) as [->|Hne].
  - injection Hget as ->. iExists v1. iFrame. iSplit; [done|].
    iIntros (v') "HR". by iFrame.
  - iDestruct ("IH" with "[//] H") as (v) "(%Hv & HR' & Hclose)".
    iExists v. iFrame. iSplit; [done|].
    iIntros (v') "Hv'". iSplit; [done|]. by iApply "Hclose".
Qed.
End Keyed.

Lemma obj_get_same_keys_Some {K A B} `{EqDecision K} (ps : list (K * A))
    (qs : list (K * B)) k a :
  ps.*1 = qs.*1 → obj_get k ps = Some a → is_Some (obj_get k qs).
Proof.
  intros Hk Ha. destruct (obj_get k qs) eqn:Hq; [done|].
  apply obj_get_None in Hq. rewrite <- Hk in Hq.
  apply obj_get_elem_of in Ha. exfalso. apply Hq.
  apply list_elem_of_fmap. by exists (k, a).
Qed.

Lemma obj_alter_snoc_new {K V} `{EqDecision K} (f : V → V) k v (m : list (K * V)) :
  obj_get k m = None → obj_alter f k (m ++ [(k, v)]) = m ++ [(k, f v)].
Proof.
  induction m as [|[k' v'] m IH]; simpl.
  - intros _. by rewrite decide_True.
  - destruct (decide (k' = k)); [done|]. intros. by rewrite IH.
Qed.

Lemma obj_ensure_Some {K V} `{EqDecision K} k v v0 (m : list (K * V)) :
  obj_get k m = Some v0 → obj_ensure k v m = m.
Proof. intros Hget. unfold obj_ensure. by rewrite Hget. Qed.

Lemma obj_ensure_None {K V} `{EqDecision K} k v (m : list (K * V)) :
  obj_get k m = None → obj_ensure k v m = m ++ [(k, v)].
Proof. intros Hget. unfold obj_ensure. by rewrite Hget. Qed.

Section Primitives.
Context `{!gen_heapGS nat Cell Σ}.

Ltac typed_read :=
  iIntros "Hl HP"; iApply wpH_bind; iApply (wpH_read with "Hl");
  iIntros "Hl"; iApply wpH_ret; by iApply "HP".

Lemma wpH_readArray l dq x (post : _ → iProp Σ) :
  l ↦{dq} CArray x -∗ (l ↦{dq} CArray x -∗ post x) -∗ wpH (readArray l) post.
Proof. typed_read. Qed.
Lemma wpH_readCommit l dq x (post : _ → iProp Σ) :
  l ↦{dq} CCommit x -∗ (l ↦{dq} CCommit x -∗ post x) -∗ wpH (readCommit l) post.
Proof. typed_read. Qed.
Lemma wpH_readPull l dq x (post : _ → iProp Σ) :
  l ↦{dq} CPull x -∗ (l ↦{dq} CPull x -∗ post x) -∗ wpH (readPull l) post.
Proof. typed_read. Qed.
Lemma wpH_readPrInfo l dq x (post : _ → iProp Σ) :
  l ↦{dq} CPrInfo x -∗ (l ↦{dq} CPrInfo x -∗ post x) -∗ wpH (readPrInfo l) post.
Proof. typed_read. Qed.
Lemma wpH_readUserMap l dq x (post : _ → iProp Σ) :
  l ↦{dq} CUserMap x -∗ (l ↦{dq} CUserMap x -∗ post x) -∗ wpH (readUserMap l) post.
Proof. typed_read. Qed.
Lemma wpH_readEntry l dq x (post : _ → iProp Σ) :
  l ↦{dq} CEntry x -∗ (l ↦{dq} CEntry x -∗ post x) -∗ wpH (readEntry l) post.
Proof. typed_read. Qed.
Lemma wpH_readSet l dq x (post : _ → iProp Σ) :
  l ↦{dq} CSet x -∗ (l ↦{dq} CSet x -∗ post x) -∗ wpH (readSet l) post.
Proof. typed_read. Qed.
Lemma wpH_readWeekly l dq x (post : _ → iProp Σ) :
  l ↦{dq} CWeekly x -∗ (l ↦{dq} CWeekly x -∗ post x) -∗ wpH (readWeekly l) post.
Proof. typed_read. Qed.
Lemma wpH_readBucket l dq x (post : _ → iProp Σ) :
  l ↦{dq} CBucket x -∗ (l ↦{dq} CBucket x -∗ post x) -∗ wpH (readBucket l) post.
Proof. typed_read. Qed.
Lemma wpH_readWeek l dq x (post : _ → iProp Σ) :
  l ↦{dq} CWeek x -∗ (l ↦{dq} CWeek x -∗ post x) -∗ wpH (readWeek l) post.
Proof. typed_read. Qed.
Lemma wpH_readCommitItem l dq x (post : _ → iProp Σ) :
  l ↦{dq} CCommitItem x -∗ (l ↦{dq} CCommitItem x -∗ post x) -∗
  wpH (readCommitItem l) post.
Proof. typed_read. Qed.
Lemma wpH_readPrItem l dq x (post : _ → iProp Σ) :
  l ↦{dq} CPrItem x -∗ (l ↦{dq} CPrItem x -∗ post x) -∗ wpH (readPrItem l) post.
Proof. typed_read. Qed.
Lemma wpH_readReviewItem l dq x (post : _ → iProp Σ) :
  l ↦{dq} CReviewItem x -∗ (l ↦{dq} CReviewItem x -∗ post x) -∗
  wpH (readReviewItem l) post.
Proof. typed_read. Qed.

Lemma wpH_modifyEntry le ec f (post : unit → iProp Σ) :
  le ↦ CEntry ec -∗ (le ↦ CEntry (f ec) -∗ post tt) -∗ wpH (modifyEntry le f) post.
Proof.
  iIntros "Hle HP". iApply wpH_bind. iApply (wpH_readEntry with "Hle").
  iIntros "Hle". iApply (wpH_write with "Hle"). iApply "HP".
Qed.

Lemma wpH_addRepo le dq ec s repoName (post : unit → iProp Σ) :
  le ↦{dq} CEntry ec -∗ h_reposContributed ec ↦ CSet s -∗
  (le ↦{dq} CEntry ec -∗ h_reposContributed ec ↦ CSet (setAdd repoName s) -∗ post tt) -∗
  wpH (addRepo le repoName) post.
Proof.
  iIntros "Hle Hs HP". iApply wpH_bind. iApply (wpH_readEntry with "Hle").
  iIntros "Hle". iApply wpH_bind. iApply (wpH_readSet with "Hs").
  iIntros "Hs". iApply (wpH_write with "Hs"). iApply ("HP" with "Hle").
Qed.

Lemma wpH_pushItem {X} (inj : X → Cell) la xs x :
  isItems inj (DfracOwn 1) la xs -∗
  wpH (pushItem la (inj x))
      (fun _ => isItems inj (DfracOwn 1) la
                  (if (length xs <? 20)%nat then xs ++ [x] else xs)).
Proof.
  iIntros "(%ls & Hla & Hitems)".
  iDestruct (big_sepL2_length with "Hitems") as %Hlen.
  iApply wpH_bind. iApply (wpH_readArray with "Hla"). iIntros "Hla".
  cbv beta. rewrite Hlen. destruct (length xs <? 20)%nat.
  - iApply wpH_bind. iApply wpH_alloc. iIntros (li) "Hli".
    iApply (wpH_write with "Hla"). iIntros "Hla".
    iExists (ls ++ [li]). iFrame "Hla".
    iApply (big_sepL2_app with "Hitems"). simpl. by iFrame.
  - iApply wpH_ret. iExists ls. iFrame.
Qed.

Lemma wpH_bumpWeekH lwd wd weekTs f :
  isKeyed CBucket (DfracOwn 1) lwd wd -∗
  wpH (bumpWeekH lwd weekTs f)
      (fun _ => isKeyed CBucket (DfracOwn 1) lwd (bumpWeek f weekTs wd)).
Proof.
  iIntros "(%props & Hlwd & Hk)".
  iDestruct (keyed_keys with "Hk") as %Hkeys.
  iApply wpH_bind. iApply (wpH_readWeekly with "Hlwd"). iIntros "Hlwd".
  unfold bumpWeek. destruct (obj_get weekTs props) as [lb|] eqn:Hget.
  - iDestruct (keyed_access _ _ _ _ _ Hget with "Hk") as (b) "(%Hb & Hlb & Hclose)".
    iApply wpH_bind. iApply wpH_ret.
    iApply wpH_bind. iApply (wpH_readBucket with "Hlb"). iIntros "Hlb".
    iApply (wpH_write with "Hlb"). iIntros "Hlb".
    iExists props. iFrame "Hlwd".
    rewrite (obj_ensure_Some _ _ _ _ Hb), <- (obj_alter_const f _ _ _ Hb).
    by iApply "Hclose".
  - pose proof (obj_get_same_keys _ _ _ Hkeys Hget) as Hnone.
    iApply wpH_bind. iApply wpH_bind. iApply wpH_alloc. iIntros (lb) "Hlb".
    iApply wpH_bind. iApply (wpH_write with "Hlwd"). iIntros "Hlwd".
    iApply wpH_ret.
    iApply wpH_bind. iApply (wpH_readBucket with "Hlb"). iIntros "Hlb".
    iApply (wpH_write with "Hlb"). iIntros "Hlb".
    iExists (props ++ [(weekTs, lb)]). iFrame "Hlwd".
    rewrite (obj_ensure_None _ _ _ Hnone), (obj_alter_snoc_new _ _ _ _ Hnone).
    iApply (keyed_snoc with "Hk Hlb").
Qed.

Lemma wpH_ensureEntry lum um u avatar :
  isUserMap lum um -∗
  wpH (ensureEntry lum u avatar)
      (fun le => ∃ props, lum ↦ CUserMap props ∗ ⌜obj_get u props = Some le⌝
                          ∗ keyed isEntry props (obj_ensure u (newEntry u avatar) um)).
Proof.
  iIntros "(%props & Hlum & Hk)".
  iDestruct (keyed_keys with "Hk") as %Hkeys.
  iApply wpH_bind. iApply (wpH_readUserMap with "Hlum"). iIntros "Hlum".
  destruct (obj_get u props) as [le|] eqn:Hget.
  - destruct (obj_get_same_keys_Some _ _ _ _ Hkeys Hget) as [e He].
    iApply wpH_ret. iExists props. iFrame "Hlum".
    rewrite (obj_ensure_Some _ _ _ _ He). by iFrame.
  - pose proof (obj_get_same_keys _ _ _ Hkeys Hget) as Hnone.
    iApply wpH_bind. iApply wpH_alloc. iIntros (lset) "Hset".
    iApply wpH_bind. iApply wpH_alloc. iIntros (lwd) "Hwd".
    iApply wpH_bind. iApply wpH_alloc. iIntros (lprs) "Hprs".
    iApply wpH_bind. iApply wpH_alloc. iIntros (lrev) "Hrev".
    iApply wpH_bind. iApply wpH_alloc. iIntros (lcom) "Hcom".
    iApply wpH_bind. iApply wpH_alloc. iIntros (le) "Hle".
    iApply wpH_bind. iApply (wpH_write with "Hlum"). iIntros "Hlum".
    iApply wpH_ret. iExists (props ++ [(u, le)]). iFrame "Hlum".
    rewrite (obj_ensure_None _ _ _ Hnone). iSplit.
    { iPureIntro. rewrite obj_get_app, Hget. simpl. by rewrite decide_True. }
    iApply (keyed_snoc with "Hk").
    iExists _. iFrame "Hle". simpl. iFrame "Hset".
    iSplit; [iPureIntro; by repeat split|].
    unfold isKeyed, isItems, keyed.
    iSplitL "Hwd"; [iExists []; by iFrame|].
    iSplitL "Hprs"; [iExists []; by iFrame|].
    iSplitL "Hrev"; iExists []; by iFrame.
Qed.
End Primitives.

Section Steps.
Context `{!gen_heapGS nat Cell Σ}.
Variables (zone : TimeZone) (now : Z) (daysFilter : option Z).

Lemma wpH_commitStepH lum um repoName lc dq commit :
  lc ↦{dq} CCommit commit -∗ isUserMap lum um -∗
  wpH (commitStepH zone now daysFilter lum repoName lc)
      (fun _ => isUserMap lum (commitStep zone now daysFilter repoName um commit)).
Proof.
  iIntros "Hlc Hum". unfold commitStepH, commitStep.
  iApply wpH_bind. iApply (wpH_readCommit with "Hlc"). iIntros "_".
  destruct (truthyStr (c_user commit)) as [u|]; [|by iApply wpH_ret].
  destruct (filteredOut now daysFilter (c_date commit)); [by iApply wpH_ret|].
  iApply wpH_bind.
  iApply (wpH_wand with "[Hum]"); [iApply (wpH_ensureEntry with "Hum")|].
  iIntros (le) "(%props & Hlum & %Hget & Hk)".
  iDestruct (keyed_access _ _ _ _ _ Hget with "Hk") as (e) "(%He & Hent & Hclose)".
  iDestruct "Hent" as (ec) "(Hle & %Hs & Hset & Hwd & Hprs & Hrev & Hcom)".
  iApply wpH_bind. iApply (wpH_modifyEntry with "Hle"). iIntros "Hle".
  iApply wpH_bind. iApply (wpH_addRepo with "Hle Hset"). iIntros "Hle Hset".
  iApply wpH_bind. iApply (wpH_readEntry with "Hle"). iIntros "Hle".
  iApply wpH_bind.
  iApply (wpH_wand with "[Hcom]"); [iApply (wpH_pushItem CCommitItem with "Hcom")|].
  iIntros (_) "Hcom".
  iApply (wpH_wand with "[Hwd]"); [iApply (wpH_bumpWeekH with "Hwd")|].
  iIntros (_) "Hwd".
  iExists props. iFrame "Hlum". rewrite <- (obj_alter_const _ _ _ _ He).
  iApply "Hclose". iExists _. iFrame "Hle". simpl. iFrame.
  iPureIntro. destruct Hs as (?&?&?&?&?&?&?). repeat split; simpl; congruence.
Qed.

Lemma wpH_prStepH lum um repoName lp dq pr :
  lp ↦{dq} CPull pr -∗ isUserMap lum um -∗
  wpH (prStepH zone now daysFilter lum repoName lp)
      (fun _ => isUserMap lum (prStep zone now daysFilter repoName um pr)).
Proof.
  iIntros "Hlp Hum". unfold prStepH, prStep.
  iApply wpH_bind. iApply (wpH_readPull with "Hlp"). iIntros "_".
  destruct (truthyStr (pr_user pr)) as [u|]; [|by iApply wpH_ret].
  cbv zeta.
  destruct (filteredOut now daysFilter _); [by iApply wpH_ret|].
  iApply wpH_bind.
  iApply (wpH_wand with "[Hum]"); [iApply (wpH_ensureEntry with "Hum")|].
  iIntros (le) "(%props & Hlum & %Hget & Hk)".
  iDestruct (keyed_access _ _ _ _ _ Hget with "Hk") as (e) "(%He & Hent & Hclose)".
  iDestruct "Hent" as (ec) "(Hle & %Hs & Hset & Hwd & Hprs & Hrev & Hcom)".
  iApply wpH_bind. iApply (wpH_modifyEntry with "Hle"). iIntros "Hle".
  iApply wpH_bind. iApply (wpH_addRepo with "Hle Hset"). iIntros "Hle Hset".
  iApply wpH_bind. iApply (wpH_readEntry with "Hle"). iIntros "Hle".
  iApply wpH_bind.
  iApply (wpH_wand with "[Hprs]"); [iApply (wpH_pushItem CPrItem with "Hprs")|].
  iIntros (_) "Hprs".
  destruct Hs as (?&?&?&?&?&?&?).
  destruct (hasLineStats pr) eqn:Hstats.
  - iApply wpH_bind. iApply (wpH_modifyEntry with "Hle"). iIntros "Hle".
    iApply wpH_bind.
    iApply (wpH_wand with "[Hwd]"); [iApply (wpH_bumpWeekH with "Hwd")|].
    iIntros (_) "Hwd".
    iApply (wpH_wand with "[Hwd]"); [iApply (wpH_bumpWeekH with "Hwd")|].
    iIntros (_) "Hwd".
    iExists props. iFrame "Hlum". rewrite <- (obj_alter_const _ _ _ _ He).
    iApply "Hclose". iExists _. iFrame "Hle". unfold entryAddPr.
    rewrite Hstats. simpl. iFrame.
    iPureIntro. repeat split; simpl; congruence.
  - iApply wpH_bind. iApply wpH_ret.
    iApply wpH_bind.
    iApply (wpH_wand with "[Hwd]"); [iApply (wpH_bumpWeekH with "Hwd")|].
    iIntros (_) "Hwd". iApply wpH_ret.
    iExists props. iFrame "Hlum". rewrite <- (obj_alter_const _ _ _ _ He).
    iApply "Hclose". iExists _. iFrame "Hle". unfold entryAddPr.
    rewrite Hstats. simpl. iFrame.
    iPureIntro. repeat split; simpl; try congruence; lia.
Qed.

Lemma wpH_reviewedStepH repoName le ptr e lp dq prInfo :
  lp ↦{dq} CPrInfo prInfo -∗ entryAt le ptr e -∗
  wpH (reviewedStepH repoName (h_reviewsList ptr) lp)
      (fun _ => entryAt le ptr (entryAddReviewed repoName e prInfo)).
Proof.
  iIntros "Hlp (%ec & Hle & %Hp & %Hs & Hset & Hwd & Hprs & Hrev & Hcom)".
  iDestruct "Hrev" as (ls) "[Hla Hitems]".
  iDestruct (big_sepL2_length with "Hitems") as %Hlen.
  unfold reviewedStepH.
  iApply wpH_bind. iApply (wpH_readPrInfo with "Hlp"). iIntros "_".
  iApply wpH_bind. iApply (wpH_readArray with "Hla"). iIntros "Hla".
  iApply wpH_bind.
  iApply (wpH_wand with "[Hitems]").
  { iApply (wpH_mapH_keys readReviewItem CReviewItem id with "Hitems").
    iIntros (l x post) "Hl HP". iApply (wpH_readReviewItem with "Hl HP"). }
  iIntros (its) "[-> Hitems]". rewrite list_fmap_id, Hlen.
  destruct ((length (e_reviewsList e) <? 20)%nat && _) eqn:Hcond.
  - iApply wpH_bind. iApply wpH_alloc. iIntros (li) "Hli".
    iApply (wpH_write with "Hla"). iIntros "Hla".
    iExists ec. iFrame "Hle". simpl. rewrite Hcond. iFrame "Hset Hwd Hprs Hcom".
    iSplit; [done|]. iSplit; [done|].
    iExists (ls ++ [li]). iFrame "Hla".
    iApply (big_sepL2_app with "Hitems"). simpl. by iFrame.
  - iApply wpH_ret.
    iExists ec. iFrame "Hle". simpl. rewrite Hcond. iFrame "Hset Hwd Hprs Hcom".
    iSplit; [done|]. iSplit; [done|]. iExists ls. iFrame.
Qed.

Lemma wpH_reviewDateStepH le ptr e date :
  entryAt le ptr e -∗
  wpH (reviewDateStepH zone now daysFilter le (h_weeklyData ptr) date)
      (fun _ => entryAt le ptr (reviewDateStep zone now daysFilter e date)).
Proof.
  iIntros "(%ec & Hle & %Hp & %Hs & Hset & Hwd & Hprs & Hrev & Hcom)".
  unfold reviewDateStepH, reviewDateStep. cbv zeta.
  destruct (truthyDays daysFilter && _).
  - iApply wpH_ret. iExists ec. by iFrame.
  - iApply wpH_bind. iApply (wpH_modifyEntry with "Hle"). iIntros "Hle".
    iApply (wpH_wand with "[Hwd]"); [iApply (wpH_bumpWeekH with "Hwd")|].
    iIntros (_) "Hwd". iExists _. iFrame "Hle". simpl. iFrame.
    iPureIntro. destruct Hs as (?&?&?&?&?&?&?). split; [done|].
    repeat split; simpl; congruence.
Qed.

Lemma wpH_review_tail lum um repoName u count dates lps ps :
  ([∗ list] l;p ∈ lps;ps, l ↦□ CPrInfo p) -∗ isUserMap lum um -∗
  wpH (le ← ensureEntry lum u None;
       e ← readEntry le;
       forEachH (reviewedStepH repoName (h_reviewsList e)) lps;;
       (if (0 <? length dates)%nat
        then forEachH (reviewDateStepH zone now daysFilter le (h_weeklyData e)) dates
        else modifyEntry le
               (fun e => setTotals e (h_additions e) (h_deletions e) (h_commits e)
                           (h_pullRequests e) (h_reviews e + count)));;
       e' ← readEntry le;
       if 0 <? h_reviews e' then addRepo le repoName else mret tt)
      (fun _ => isUserMap lum
         (obj_alter
            (fun e =>
               let e1 := fold_left (entryAddReviewed repoName) ps e in
               let e2 :=
                 if (0 <? length dates)%nat
                 then fold_left (reviewDateStep zone now daysFilter) dates e1
                 else entryAddReviews count None e1 in
               entryMarkReviewed repoName e2)
            u (obj_ensure u (newEntry u None) um))).
Proof.
  iIntros "Hps Hum".
  iApply wpH_bind.
  iApply (wpH_wand with "[Hum]"); [iApply (wpH_ensureEntry with "Hum")|].
  iIntros (le) "(%props & Hlum & %Hget & Hk)".
  iDestruct (keyed_access _ _ _ _ _ Hget with "Hk") as (e) "(%He & Hent & Hclose)".
  iDestruct "Hent" as (ec) "(Hle & %Hs & Hset & Hwd & Hprs & Hrev & Hcom)".
  iApply wpH_bind. iApply (wpH_readEntry with "Hle"). iIntros "Hle".
  iAssert (entryAt le ec e) with "[Hle Hset Hwd Hprs Hrev Hcom]" as "Hent".
  { iExists ec. iFrame. iPureIntro. split; [by repeat split | done]. }
  iApply wpH_bind.
  iApply (wpH_wand with "[Hps Hent]").
  { iApply (wpH_forEach _ (entryAddReviewed repoName)
              (fun l p => l ↦□ CPrInfo p)%I (entryAt le ec) with "Hps [] Hent").
    iIntros "!>" (l p a) "Hl Ha". iApply (wpH_reviewedStepH with "Hl Ha"). }
  iIntros (_) "Hent". cbv zeta.
  set (e1 := fold_left (entryAddReviewed repoName) ps e).
  iApply wpH_bind.
  iApply (wpH_wand _ (fun _ => entryAt le ec
            (if (0 <? length dates)%nat
             then fold_left (reviewDateStep zone now daysFilter) dates e1
             else entryAddReviews count None e1)) with "[Hent]").
  { destruct (0 <? length dates)%nat.
    - iApply (wpH_forEach_same _ (reviewDateStep zone now daysFilter)
                (entryAt le ec) with "[] Hent").
      iIntros "!>" (y a) "Ha". iApply (wpH_reviewDateStepH with "Ha").
    - iDestruct "Hent" as "(%ec1 & Hle & %Hp & %Hs1 & Hrest)".
      iApply (wpH_modifyEntry with "Hle"). iIntros "Hle".
      iExists _. iFrame "Hle". simpl. iFrame.
      iPureIntro. destruct Hs1 as (?&?&?&?&?&?&?). split; [done|].
      repeat split; simpl; congruence. }
  iIntros (_) "Hent".
  set (e2 := if (0 <? length dates)%nat
             then fold_left (reviewDateStep zone now daysFilter) dates e1
             else entryAddReviews count None e1).
  iDestruct "Hent" as "(%ec2 & Hle & %Hp & %Hs2 & Hset & Hwd & Hprs & Hrev & Hcom)".
  destruct Hp as (E1 & E2 & E3 & E4 & E5).
  rewrite <- E1, <- E2, <- E3, <- E4, <- E5.
  iApply wpH_bind. iApply (wpH_readEntry with "Hle"). iIntros "Hle".
  assert (h_reviews ec2 = e_reviews e2) as Hrv by (by destruct Hs2 as (?&?&?&?&?&?&?)).
  iApply (wpH_wand _ (fun _ => isEntry le (entryMarkReviewed repoName e2))
            with "[-Hclose Hlum]").
  2:{ iIntros (_) "Hent". iExists props. iFrame "Hlum".
      rewrite <- (obj_alter_const _ _ _ _ He). by iApply "Hclose". }
  rewrite Hrv. destruct (0 <? e_reviews e2) eqn:Hpos.
  - iApply (wpH_addRepo with "Hle Hset"). iIntros "Hle Hset".
    iExists ec2. iFrame "Hle". simpl. rewrite Hpos. by iFrame.
  - iApply wpH_ret. iExists ec2. iFrame "Hle". simpl. rewrite Hpos. by iFrame.
Qed.

Lemma wpH_reviewStepH lum um repoName p r :
  isReview p r -∗ isUserMap lum um -∗
  wpH (reviewStepH zone now daysFilter lum repoName p)
      (fun _ => isUserMap lum (reviewStep zone now daysFilter repoName um r)).
Proof.
  destruct p as [u [n|lri]], r as [u' [m|m ds ps]]; iIntros "[%Hk Hr] Hum";
    simpl in Hk; subst u'; simpl; try done.
  - iDestruct "Hr" as %->. unfold reviewStepH, reviewStep.
    iApply wpH_bind. iApply wpH_ret.
    iApply (wpH_review_tail lum um repoName u m [] [] [] with "[] Hum"). done.
  - iDestruct "Hr" as (lsub lprs) "(Hlri & Hlsub & %lps & Hlprs & Hps)".
    unfold reviewStepH, reviewStep.
    iApply wpH_bind. iApply wpH_bind. iApply (wpH_read with "Hlri"). iIntros "_".
    cbv beta iota.
    iApply wpH_bind. iApply (wpH_read with "Hlsub"). iIntros "_".
    iApply wpH_bind. iApply (wpH_read with "Hlprs"). iIntros "_".
    iApply wpH_ret.
    iApply (wpH_review_tail lum um repoName u m ds lps ps with "Hps Hum").
Qed.

Lemma isReview_key p r : isReview p r -∗ ⌜p.1 = r.1⌝.
Proof. by iIntros "[% _]". Qed.

Lemma wpH_repoStepH lum um lrd rd :
  isRepo lrd rd -∗ isUserMap lum um -∗
  wpH (repoStepH zone now daysFilter lum lrd)
      (fun _ => isUserMap lum (repoStep zone now daysFilter um rd)).
Proof.
  iIntros "(%lcommits & %lprs & %lreviews & %props & Hlrd & Hcs & Hps & Hlr & Hrs) Hum".
  iDestruct "Hcs" as (lcs) "[Hlcommits Hcs]".
  iDestruct "Hps" as (lps) "[Hlprs Hps]".
  unfold repoStepH, repoStep. cbv zeta.
  iApply wpH_bind. iApply (wpH_read with "Hlrd"). iIntros "_". cbv beta iota.
  iApply wpH_bind. iApply (wpH_read with "Hlcommits"). iIntros "_".
  cbv beta iota. iApply wpH_bind.
  iApply (wpH_wand with "[Hcs Hum]").
  { iApply (wpH_forEach _ (commitStep zone now daysFilter (rd_repoName rd))
              (fun l c => l ↦□ CCommit c)%I (isUserMap lum) with "Hcs [] Hum").
    iIntros "!>" (l c a) "Hl Ha". iApply (wpH_commitStepH with "Hl Ha"). }
  iIntros (_) "Hum".
  iApply wpH_bind. iApply (wpH_read with "Hlprs"). iIntros "_".
  cbv beta iota. iApply wpH_bind.
  iApply (wpH_wand with "[Hps Hum]").
  { iApply (wpH_forEach _ (prStep zone now daysFilter (rd_repoName rd))
              (fun l c => l ↦□ CPull c)%I (isUserMap lum) with "Hps [] Hum").
    iIntros "!>" (l c a) "Hl Ha". iApply (wpH_prStepH with "Hl Ha"). }
  iIntros (_) "Hum".
  iApply wpH_bind. iApply (wpH_read with "Hlr"). iIntros "_". cbv beta iota.
  iDestruct (entries_sepL2 strIndex _ _ _ isReview_key with "Hrs") as "Hrs".
  iApply (wpH_forEach _ (reviewStep zone now daysFilter (rd_repoName rd))
            isReview (isUserMap lum) with "Hrs [] Hum").
  iIntros "!>" (l c a) "Hl Ha". iApply (wpH_reviewStepH with "Hl Ha").
Qed.
End Steps.

(** ** Emission *)

Lemma zip_fst_key {X Kk} (key : X → Kk) (zs : list (nat * X)) :
  zip zs.*1 (key <$> zs.*2) = (fun z => (z.1, key z.2)) <$> zs.
Proof. induction zs as [|z zs IH]; csimpl; [done|]. by rewrite IH. Qed.

Lemma fold_left_snoc_fmap {X Y} (f : X → Y) (l : list X) (acc : list Y) :
  fold_left (fun acc x => acc ++ [f x]) l acc = acc ++ (f <$> l).
Proof.
  revert acc. induction l as [|x l IH]; intros acc; csimpl.
  - by rewrite app_nil_r.
  - by rewrite IH, <- app_assoc.
Qed.

Section Emission.
Context `{!gen_heapGS nat Cell Σ}.

Lemma items_persist {X} (inj : X → Cell) ls xs :
  ([∗ list] l;x ∈ ls;xs, l ↦ inj x) ==∗ [∗ list] l;x ∈ ls;xs, l ↦□ inj x.
Proof.
  iIntros "H".
  iInduction ls as [|l ls] "IH" forall (xs); destruct xs as [|x xs]; simpl;
    try done.
  iDestruct "H" as "[Hl H]". iMod (pointsto_persist with "Hl") as "$".
  by iApply "IH".
Qed.

Lemma isItems_persist {X} (inj : X → Cell) la xs :
  isItems inj (DfracOwn 1) la xs ==∗ isItems inj DfracDiscarded la xs.
Proof.
  iIntros "(%ls & Hla & Hitems)". iMod (pointsto_persist with "Hla") as "Hla".
  iMod (items_persist with "Hitems") as "Hitems". iModIntro. iExists ls. iFrame.
Qed.

Lemma keyed_persist {K X} (inj : X → Cell) (props : list (K * loc)) (m : list (K * X)) :
  keyed (fun l v => l ↦ inj v)%I props m ==∗ keyed (fun l v => l ↦□ inj v)%I props m.
Proof.
  iIntros "H". unfold keyed.
  iInduction props as [|p props] "IH" forall (m); destruct m as [|q m]; simpl;
    try done.
  iDestruct "H" as "[[$ Hl] H]". iMod (pointsto_persist with "Hl") as "$".
  by iApply "IH".
Qed.

(** Sorting an array in place sorts the values it stands for. *)
Lemma sorted_items {X Kk} (inj : X → Cell) dq (key : X → Kk)
    (cmp : Kk → Kk → option Z) (ls : list loc) (xs : list X) :
  ([∗ list] l;x ∈ ls;xs, l ↦{dq} inj x) -∗
  [∗ list] l;x ∈ (js_sort (fun a b => cmp a.2 b.2) (zip ls (key <$> xs))).*1;
                 js_sort (fun a b => cmp (key a) (key b)) xs,
    l ↦{dq} inj x.
Proof.
  iIntros "H". iDestruct (big_sepL2_length with "H") as %Hlen.
  assert (∃ zs : list (nat * X), ls = zs.*1 ∧ xs = zs.*2) as (zs & -> & ->).
  { exists (zip ls xs). by rewrite fst_zip, snd_zip by lia. }
  rewrite zip_fst_key.
  rewrite (js_sort_fmap (fun z : nat * X => (z.1, key z.2))
             (fun a b => cmp (key a.2) (key b.2)) (fun a b => cmp a.2 b.2)) by done.
  rewrite <- list_fmap_compose.
  rewrite (js_sort_fmap snd (fun a b : nat * X => cmp (key a.2) (key b.2))
             (fun a b => cmp (key a) (key b))) by done.
  rewrite !big_sepL2_fmap_both.
  by rewrite (big_opL_permutation _ _ _ (js_sort_Permutation _ zs)).
Qed.

Lemma wpH_sortByH {X Kk} (readKey : loc → H Kk) (inj : X → Cell) (key : X → Kk)
    (cmp : Kk → Kk → option Z) la xs :
  (∀ l x (post : Kk → iProp Σ),
     l ↦ inj x -∗ (l ↦ inj x -∗ post (key x)) -∗ wpH (readKey l) post) →
  isItems inj (DfracOwn 1) la xs -∗
  wpH (sortByH readKey cmp la)
      (fun _ => isItems inj (DfracOwn 1) la
                  (js_sort (fun a b => cmp (key a) (key b)) xs)).
Proof.
  iIntros (Hkey) "(%ls & Hla & Hitems)". unfold sortByH.
  iApply wpH_bind. iApply (wpH_readArray with "Hla"). iIntros "Hla".
  iApply wpH_bind.
  iApply (wpH_wand with "[Hitems]");
    [iApply (wpH_mapH_keys readKey inj key _ _ _ Hkey with "Hitems")|].
  iIntros (ks) "[-> Hitems]".
  iApply (wpH_write with "Hla"). iIntros "Hla".
  iExists _. iFrame "Hla". iApply (sorted_items with "Hitems").
Qed.

Variables (zone : TimeZone) (now : Z) (daysFilter : option Z).

Lemma wpH_weekMapStepH lwm wm lw dq w :
  lw ↦{dq} CWeek w -∗ isKeyed CWeek (DfracOwn 1) lwm wm -∗
  wpH (weekMapStepH zone lwm lw)
      (fun _ => isKeyed CWeek (DfracOwn 1) lwm (weekMapStep zone wm w)).
Proof.
  iIntros "Hlw (%props & Hlwm & Hk)".
  iDestruct (keyed_keys with "Hk") as %Hkeys.
  unfold weekMapStepH, weekMapStep. cbv zeta.
  iApply wpH_bind. iApply (wpH_readWeek with "Hlw"). iIntros "_".
  iApply wpH_bind. iApply (wpH_readWeekly with "Hlwm"). iIntros "Hlwm".
  destruct (obj_get _ props) as [lm|] eqn:Hget.
  - iDestruct (keyed_access _ _ _ _ _ Hget with "Hk") as (m) "(%Hm & Hlm & Hclose)".
    rewrite Hm.
    iApply wpH_bind. iApply (wpH_readWeek with "Hlm"). iIntros "Hlm".
    iApply (wpH_write with "Hlm"). iIntros "Hlm".
    iExists props. iFrame "Hlwm".
    rewrite <- (obj_alter_const
                  (fun m => {| week := week m;
                               w_data := mergeBucket (w_data m) (w_data w) |})
                  _ _ _ Hm).
    by iApply "Hclose".
  - rewrite (obj_get_same_keys _ _ _ Hkeys Hget).
    iApply wpH_bind. iApply wpH_alloc. iIntros (lnew) "Hnew".
    iApply (wpH_write with "Hlwm"). iIntros "Hlwm".
    iExists _. iFrame "Hlwm". iApply (keyed_snoc with "Hk Hnew").
Qed.

Lemma wpH_fillStepH lwm props wm lfilled filled i :
  lwm ↦□ CWeekly props -∗ keyed (fun l v => l ↦□ CWeek v)%I props wm -∗
  (∃ ls, lfilled ↦ CArray ls ∗ [∗ list] l;w ∈ ls;filled, l ↦□ CWeek w) -∗
  wpH (fillStepH zone now daysFilter lwm lfilled i)
      (fun _ =>
         ∃ ls, lfilled ↦ CArray ls
               ∗ [∗ list] l;w ∈ ls;(filled ++
                    [match obj_get (Some (startTs zone now daysFilter
                                          + i * secondsPerWeek)) wm with
                     | Some w => w
                     | None => {| week := Some (startTs zone now daysFilter
                                                + i * secondsPerWeek);
                                  w_data := zeroBucket |}
                     end]),
                   l ↦□ CWeek w).
Proof.
  iIntros "Hlwm Hk (%ls & Hlf & Hfilled)".
  iDestruct (keyed_keys with "Hk") as %Hkeys.
  unfold fillStepH. cbv zeta.
  iApply wpH_bind. iApply (wpH_readWeekly with "Hlwm"). iIntros "_".
  destruct (obj_get _ props) as [lm|] eqn:Hget.
  - iDestruct (keyed_access _ _ _ _ _ Hget with "Hk") as (m) "(%Hm & Hlm & _)".
    rewrite Hm.
    iApply wpH_bind. iApply wpH_ret.
    iApply wpH_bind. iApply (wpH_readArray with "Hlf"). iIntros "Hlf".
    iApply (wpH_write with "Hlf"). iIntros "Hlf".
    iExists _. iFrame "Hlf". iApply (big_sepL2_app with "Hfilled"). simpl.
    by iFrame.
  - rewrite (obj_get_same_keys _ _ _ Hkeys Hget).
    iApply wpH_bind. iApply wpH_post_bupd. iApply wpH_alloc. iIntros (lw) "Hlw".
    iMod (pointsto_persist with "Hlw") as "Hlw". iModIntro.
    iApply wpH_bind. iApply (wpH_readArray with "Hlf"). iIntros "Hlf".
    iApply (wpH_write with "Hlf"). iIntros "Hlf".
    iExists _. iFrame "Hlf". iApply (big_sepL2_app with "Hfilled"). simpl.
    by iFrame.
Qed.

Lemma wpH_emitH le e :
  isEntry le e -∗
  wpH (emitH zone now daysFilter le)
      (fun out => isStat out (emit zone now daysFilter e)).
Proof.
  iIntros "(%ec & Hle & %Hs & Hset & Hwd & Hprs & Hrev & Hcom)".
  iDestruct "Hwd" as (props) "[Hlwd Hk]".
  unfold emitH.
  iApply wpH_bind. iApply (wpH_readEntry with "Hle"). iIntros "_".
  iApply wpH_bind. iApply (wpH_readWeekly with "Hlwd"). iIntros "_".
  unfold keyed.
  iDestruct (entries_sepL2 numIndex with "Hk") as "Hk".
  { iIntros (p q) "[% _]". done. }
  iApply wpH_bind.
  iApply (wpH_wand with "[Hk]").
  { iApply (wpH_mapH _ (fun p q => ⌜p.1 = q.1⌝ ∗ p.2 ↦ CBucket q.2)%I
              (fun r q => r ↦ CWeek {| week := q.1; w_data := q.2 |})%I
              with "Hk []").
    iIntros "!>" (p q) "[%Hpq Hb]".
    iApply wpH_bind. iApply (wpH_readBucket with "Hb"). iIntros "_".
    iApply wpH_alloc. iIntros (r) "Hr". by rewrite Hpq. }
  iIntros (weeks) "Hweeks".
  iApply wpH_bind. iApply wpH_alloc. iIntros (lweekly) "Hlweekly".
  iAssert (isItems CWeek (DfracOwn 1) lweekly
             ((fun p => {| week := p.1; w_data := p.2 |})
                <$> obj_entries numIndex (e_weeklyData e)))
    with "[Hlweekly Hweeks]" as "Hweekly".
  { iExists weeks. iFrame "Hlweekly". by rewrite big_sepL2_fmap_r. }
  iApply wpH_bind.
  iApply (wpH_wand with "[Hweekly]").
  { iApply (wpH_sortByH _ CWeek week subNum with "Hweekly").
    iIntros (l x post) "Hl HP". iApply wpH_bind.
    iApply (wpH_readWeek with "Hl"). iIntros "Hl". iApply wpH_ret.
    by iApply "HP". }
  iIntros (_) "(%lws & Hlweekly & Hws)".
  iApply wpH_bind. iApply (wpH_readArray with "Hlweekly"). iIntros "_".
  iApply wpH_bind. iApply wpH_alloc. iIntros (lwm) "Hlwm".
  iApply wpH_bind.
  iApply (wpH_wand with "[Hws Hlwm]").
  { iApply (wpH_forEach _ (weekMapStep zone) (fun l w => l ↦ CWeek w)%I
              (isKeyed CWeek (DfracOwn 1) lwm) with "Hws [] [Hlwm]").
    - iIntros "!>" (l w a) "Hl Ha". iApply (wpH_weekMapStepH with "Hl Ha").
    - iExists []. iFrame "Hlwm". unfold keyed. done. }
  iIntros (_) "Hwm". iApply wpH_bupd.
  iDestruct "Hwm" as (wprops) "[Hlwm Hwk]".
  iMod (pointsto_persist with "Hlwm") as "#Hlwm".
  iMod (keyed_persist with "Hwk") as "Hwk". unfold keyed.
  iDestruct "Hwk" as "#Hwk". iModIntro.
  iApply wpH_bind. iApply wpH_alloc. iIntros (lfilled) "Hlfilled".
  iApply wpH_bind.
  iApply (wpH_wand with "[Hlfilled]").
  { iApply (wpH_forEach_same _
              (fun (acc : list Week) i =>
                 acc ++ [match obj_get (Some (startTs zone now daysFilter
                                              + i * secondsPerWeek)) _ with
                         | Some w => w
                         | None => {| week := Some (startTs zone now daysFilter
                                                    + i * secondsPerWeek);
                                      w_data := zeroBucket |}
                         end])
              (fun filled => ∃ ls, lfilled ↦ CArray ls
                                   ∗ [∗ list] l;w ∈ ls;filled, l ↦□ CWeek w)%I
              _ [] with "[] [Hlfilled]").
    - iIntros "!>" (i a) "Ha". iApply (wpH_fillStepH with "Hlwm Hwk Ha").
    - iExists []. by iFrame. }
  iIntros (_) "(%lfs & Hlfilled & Hfs)".
  rewrite fold_left_snoc_fmap. rewrite app_nil_l.
  iApply wpH_bind. iApply (wpH_readSet with "Hset"). iIntros "_".
  iApply wpH_bind.
  iApply (wpH_wand with "[Hprs]").
  { iApply (wpH_sortByH _ CPrItem pri_date byDateDesc with "Hprs").
    iIntros (l x post) "Hl HP". iApply wpH_bind.
    iApply (wpH_readPrItem with "Hl"). iIntros "Hl". iApply wpH_ret.
    by iApply "HP". }
  iIntros (_) "Hprs".
  iApply wpH_bind.
  iApply (wpH_wand with "[Hcom]").
  { iApply (wpH_sortByH _ CCommitItem ci_date byDateDesc with "Hcom").
    iIntros (l x post) "Hl HP". iApply wpH_bind.
    iApply (wpH_readCommitItem with "Hl"). iIntros "Hl". iApply wpH_ret.
    by iApply "HP". }
  iIntros (_) "Hcom".
  iApply wpH_post_bupd. iApply wpH_alloc. iIntros (out) "Hout".
  iMod (pointsto_persist with "Hout") as "Hout".
  iMod (pointsto_persist with "Hlfilled") as "Hlfilled".
  iMod (isItems_persist with "Hprs") as "Hprs".
  iMod (isItems_persist with "Hrev") as "Hrev".
  iMod (isItems_persist with "Hcom") as "Hcom".
  iModIntro. iExists _. iFrame "Hout". simpl. iFrame "Hprs Hrev Hcom".
  iSplit.
  { iPureIntro. destruct Hs as (?&?&?&?&?&?&?).
    repeat split; simpl; congruence. }
  iExists lfs. iFrame "Hlfilled". unfold fillWeeks. done.
Qed.
End Emission.

(** ** The whole call *)

Section Call.
Context `{!gen_heapGS nat Cell Σ}.
Variables (zone : TimeZone) (now : Z) (daysFilter : option Z).

#[local] Instance isItems_persistent {X} (inj : X → Cell) la xs :
  Persistent (isItems inj DfracDiscarded la xs).
Proof. unfold isItems. apply _. Qed.

#[local] Instance isReview_persistent p r : Persistent (isReview p r).
Proof. destruct p as [u [n|l]], r as [u' [m|m ds ps]]; unfold isReview; apply _. Qed.

#[local] Instance isRepo_persistent l rd : Persistent (isRepo l rd).
Proof. unfold isRepo. apply _. Qed.

#[local] Instance isStat_persistent l s : Persistent (isStat l s).
Proof. unfold isStat. apply _. Qed.

#[local] Instance isStats_persistent l ss : Persistent (isStats l ss).
Proof. unfold isStats. apply _. Qed.

Lemma hasActivityH_eq ec e : sameScalars ec e → hasActivityH ec = hasActivity e.
Proof.
  intros (?&?&?&?&?&?&?). unfold hasActivityH, hasActivity. congruence.
Qed.

Lemma wpH_aggregateStatsH dq lin input :
  isRepos dq lin input -∗
  wpH (aggregateStatsH zone now daysFilter lin)
      (fun out => isRepos dq lin input
                  ∗ isStats out (aggregateStats zone now daysFilter input)).
Proof.
  iIntros "(%ls & Hlin & #Hrepos)". unfold aggregateStatsH.
  iApply wpH_bind. iApply wpH_alloc. iIntros (lum) "Hlum".
  iApply wpH_bind. iApply (wpH_readArray with "Hlin"). iIntros "Hlin".
  iApply wpH_bind.
  iApply (wpH_wand with "[Hlum]").
  { iApply (wpH_forEach _ (repoStep zone now daysFilter) isRepo
              (isUserMap lum) with "Hrepos [] [Hlum]").
    - iIntros "!>" (l rd a) "Hl Ha". iApply (wpH_repoStepH with "Hl Ha").
    - iExists []. iFrame "Hlum". unfold keyed. done. }
  iIntros (_) "(%props & Hlum & Hk)".
  iApply wpH_bind. iApply (wpH_readUserMap with "Hlum"). iIntros "_".
  iApply wpH_bind. iApply wpH_alloc. iIntros (lvalues) "Hlvalues".
  iApply wpH_bind. iApply (wpH_readArray with "Hlvalues"). iIntros "_".
  unfold keyed.
  iDestruct (entries_sepL2 strIndex with "Hk") as "Hk".
  { iIntros (p q) "[% _]". done. }
  iAssert ([∗ list] l;e ∈ (obj_entries strIndex props).*2;
                          (obj_entries strIndex
                             (buildUserMap zone now daysFilter input)).*2,
             isEntry l e)%I with "[Hk]" as "Hk".
  { rewrite big_sepL2_fmap_l, big_sepL2_fmap_r.
    iApply (big_sepL2_impl with "Hk"). iIntros "!>" (k p q _ _) "[_ $]". }
  iApply wpH_bind.
  iApply (wpH_wand with "[Hk]").
  { iApply (wpH_filterH _ hasActivity isEntry with "Hk").
    iIntros "!>" (l e) "(%ec & Hle & %Hs & Hrest)".
    iApply wpH_bind. iApply (wpH_readEntry with "Hle"). iIntros "Hle".
    iApply wpH_ret. iSplit; [iPureIntro; by apply hasActivityH_eq|].
    iExists ec. by iFrame. }
  iIntros (kept) "Hkept".
  iApply wpH_bind. iApply wpH_alloc. iIntros (lkept) "_".
  iApply wpH_bind.
  iApply (wpH_wand with "[Hkept]").
  { iApply (wpH_mapH _ isEntry
              (fun r e => isStat r (emit zone now daysFilter e)) with "Hkept").
    iIntros "!>" (l e) "He". iApply (wpH_emitH with "He"). }
  iIntros (outs) "Houts".
  iApply wpH_post_bupd. iApply wpH_alloc. iIntros (out) "Hout".
  iMod (pointsto_persist with "Hout") as "Hout". iModIntro.
  iSplitL "Hlin"; [iExists ls; by iFrame|].
  iExists outs. iFrame "Hout". unfold aggregateStats.
  by rewrite big_sepL2_fmap_r.
Qed.
End Call.

(** From a specification to a run. *)
Lemma wpH_adequacy {A} (m : H A) (h : list Cell) (rel : A → list Cell → Prop) :
  (∀ Σ (Hg : gen_heapGS nat Cell Σ),
     ([∗ map] l ↦ c ∈ heapOf h, l ↦ c) -∗
     wpH m (fun a => ∀ h', gen_heap_interp (heapOf h') -∗ ⌜rel a h'⌝)) →
  ∃ a h', m h = (Some a, h') ∧ rel a h'.
Proof.
  intros Hwp.
  apply (pure_soundness (PROP:=iPropI (gen_heapΣ nat Cell))).
  apply uPred.bupd_soundness; [apply _|].
  iMod (gen_heap_init (heapOf h)) as (Hg) "(Hh & Hpts & _)".
  iPoseProof (Hwp _ Hg with "Hpts") as "Hwp". unfold wpH.
  iMod ("Hwp" with "Hh") as (a h') "(%Hm & Hh' & Hpost)".
  iDestruct ("Hpost" with "Hh'") as %Hrel. iModIntro. iPureIntro. eauto.
Qed.

(** ** Reading values back from the store *)

Section ReadBack.
Context `{!gen_heapGS nat Cell Σ}.

Lemma sepL2_Forall2 {A B} (P : iProp Σ) (R : A → B → iProp Σ) (rel : A → B → Prop)
    la lb :
  (∀ a b, P -∗ R a b -∗ ⌜rel a b⌝) →
  P -∗ ([∗ list] a;b ∈ la;lb, R a b) -∗ ⌜Forall2 rel la lb⌝.
Proof.
  iIntros (Hrel) "HP H".
  iInduction la as [|a la] "IH" forall (lb); destruct lb as [|b lb]; simpl;
    try done.
  iDestruct "H" as "[Hab H]". iDestruct (Hrel with "HP Hab") as %Hab.
  iDestruct ("IH" with "HP H") as %IH. iPureIntro. by constructor.
Qed.

Lemma cell_load h l dq c :
  gen_heap_interp (heapOf h) -∗ l ↦{dq} c -∗ ⌜h !! l = Some c⌝.
Proof.
  iIntros "Hh Hl". iDestruct (gen_heap_valid with "Hh Hl") as %Hl.
  by rewrite heapOf_lookup in Hl.
Qed.

Lemma items_load {X} (inj : X → Cell) (rd : Cell → option X) dq h la xs :
  (∀ x, rd (inj x) = Some x) →
  gen_heap_interp (heapOf h) -∗ isItems inj dq la xs -∗
  ⌜loadArray h rd la = Some xs⌝.
Proof.
  iIntros (Hrd) "Hh (%ls & Hla & Hitems)".
  iDestruct (cell_load with "Hh Hla") as %Hla.
  iDestruct (sepL2_Forall2 _ _ (fun l x => h !! l = Some (inj x)) with "Hh Hitems")
    as %HF.
  { iIntros (l x) "Hh Hl". iApply (cell_load with "Hh Hl"). }
  iPureIntro. unfold loadArray. rewrite Hla. simpl. apply mapM_Some.
  eapply Forall2_impl; [exact HF|]. intros l x Hl. simpl. rewrite Hl. simpl.
  apply Hrd.
Qed.

Lemma stat_load h l s :
  gen_heap_interp (heapOf h) -∗ isStat l s -∗ ⌜h !! l ≫= loadStat h = Some s⌝.
Proof.
  iIntros "Hh (%sc & Hl & %Hs & Hws & Hps & Hrs & Hcs)".
  iDestruct (cell_load with "Hh Hl") as %Hl.
  iDestruct (items_load CWeek asWeek with "Hh Hws") as %Hws; [done|].
  iDestruct (items_load CPrItem asPrItem with "Hh Hps") as %Hps; [done|].
  iDestruct (items_load CReviewItem asReviewItem with "Hh Hrs") as %Hrs; [done|].
  iDestruct (items_load CCommitItem asCommitItem with "Hh Hcs") as %Hcs; [done|].
  iPureIntro. rewrite Hl. simpl. rewrite Hws, Hps, Hrs, Hcs. simpl.
  destruct Hs as (?&?&?&?&?&?&?&?&?). destruct s. simpl in *. congruence.
Qed.

Lemma stats_load h out ss :
  gen_heap_interp (heapOf h) -∗ isStats out ss -∗ ⌜loadStats h out = Some ss⌝.
Proof.
  iIntros "Hh (%ls & Hout & Hss)".
  iDestruct (cell_load with "Hh Hout") as %Hout.
  iDestruct (sepL2_Forall2 _ _ (fun l s => h !! l ≫= loadStat h = Some s)
               with "Hh Hss") as %HF.
  { iIntros (l s) "Hh Hl". iApply (stat_load with "Hh Hl"). }
  iPureIntro. unfold loadStats, loadArray. rewrite Hout. simpl.
  by apply mapM_Some.
Qed.

Lemma review_load h p r :
  gen_heap_interp (heapOf h) -∗ isReview p r -∗ ⌜loadReview h p = Some r⌝.
Proof.
  destruct p as [u [n|l]], r as [u' [m|m ds ps]]; iIntros "Hh [%Hk Hr]";
    simpl in Hk; subst u'; simpl; try done.
  - by iDestruct "Hr" as %->.
  - iDestruct "Hr" as (lsub lprs) "(Hl & Hlsub & Hps)".
    iDestruct (cell_load with "Hh Hl") as %Hl.
    iDestruct (cell_load with "Hh Hlsub") as %Hlsub.
    iDestruct (items_load CPrInfo asPrInfo with "Hh Hps") as %Hps; [done|].
    iPureIntro. unfold loadReview. simpl. rewrite Hl. simpl.
    rewrite Hlsub. simpl. by rewrite Hps.
Qed.

Lemma repo_load h l rd :
  gen_heap_interp (heapOf h) -∗ isRepo l rd -∗ ⌜h !! l ≫= loadRepo h = Some rd⌝.
Proof.
  iIntros "Hh (%lcommits & %lprs & %lreviews & %props & Hl & Hcs & Hps & Hlr & Hrs)".
  iDestruct (cell_load with "Hh Hl") as %Hl.
  iDestruct (cell_load with "Hh Hlr") as %Hlr.
  iDestruct (items_load CCommit asCommit with "Hh Hcs") as %Hcs; [done|].
  iDestruct (items_load CPull asPull with "Hh Hps") as %Hps; [done|].
  iDestruct (sepL2_Forall2 _ _ (fun p r => loadReview h p = Some r) with "Hh Hrs")
    as %HF.
  { iIntros (p r) "Hh Hp". iApply (review_load with "Hh Hp"). }
  apply mapM_Some in HF.
  iPureIntro. rewrite Hl. simpl. rewrite Hcs, Hps. simpl. rewrite Hlr. simpl.
  rewrite HF. simpl. by destruct rd.
Qed.

Lemma repos_load h dq lin input :
  gen_heap_interp (heapOf h) -∗ isRepos dq lin input -∗
  ⌜loadRepos h lin = Some input⌝.
Proof.
  iIntros "Hh (%ls & Hlin & Hrepos)".
  iDestruct (cell_load with "Hh Hlin") as %Hlin.
  iDestruct (sepL2_Forall2 _ _ (fun l rd => h !! l ≫= loadRepo h = Some rd)
               with "Hh Hrepos") as %HF.
  { iIntros (l rd) "Hh Hl". iApply (repo_load with "Hh Hl"). }
  iPureIntro. unfold loadRepos, loadArray. rewrite Hlin. simpl.
  by apply mapM_Some.
Qed.
End ReadBack.

Section Represent.
Context `{!gen_heapGS nat Cell Σ}.
Variable h : list Cell.

Lemma cell_rep l c :
  h !! l = Some c → ([∗ map] l' ↦ c' ∈ heapOf h, l' ↦□ c') -∗ l ↦□ c.
Proof.
  iIntros (Hl) "Hmap". iApply (big_sepM_lookup with "Hmap").
  by rewrite heapOf_lookup.
Qed.

Lemma Forall2_sepL2 {A B} (P : iProp Σ) `{!Persistent P} (R : A → B → iProp Σ)
    (rel : A → B → Prop) la lb :
  Forall2 rel la lb → (∀ a b, rel a b → P -∗ R a b) →
  P -∗ [∗ list] a;b ∈ la;lb, R a b.
Proof.
  intros HF HR. induction HF as [|a b la lb Hab _ IH]; iIntros "#HP"; simpl;
    [done|].
  iSplitL; [by iApply HR | by iApply IH].
Qed.

Lemma items_rep {X} (inj : X → Cell) (rd : Cell → option X) la xs :
  (∀ c x, rd c = Some x → c = inj x) →
  loadArray h rd la = Some xs →
  ([∗ map] l ↦ c ∈ heapOf h, l ↦□ c) -∗ isItems inj DfracDiscarded la xs.
Proof.
  intros Hinv Hload. unfold loadArray in Hload.
  destruct (h !! la) as [c|] eqn:Hla; simpl in Hload; [|done].
  destruct c as [elems| | | | | | | | | | | | | | | | |]; try done.
  apply mapM_Some in Hload.
  iIntros "#Hmap". iExists elems. iSplit; [by iApply cell_rep|].
  iApply (Forall2_sepL2 _ _ _ _ _ Hload with "Hmap").
  intros l x Hlx. destruct (h !! l) as [c|] eqn:Hl; simpl in Hlx; [|done].
  apply Hinv in Hlx as ->. by apply cell_rep.
Qed.

Lemma review_rep p r :
  loadReview h p = Some r →
  ([∗ map] l ↦ c ∈ heapOf h, l ↦□ c) -∗ isReview p r.
Proof.
  destruct p as [u [n|l]]; unfold loadReview; simpl.
  - intros [= <-]. iIntros "_". by iSplit.
  - destruct (h !! l) as [c|] eqn:Hl; simpl; [|done].
    destruct c as [| | | | | | |count lsub lprs| | | | | | | | | |]; try done.
    destruct (h !! lsub) as [c|] eqn:Hsub; simpl; [|done].
    destruct c as [|dates| | | | | | | | | | | | | | | |]; try done. simpl.
    destruct (loadArray h asPrInfo lprs) as [ps|] eqn:Hps; simpl; [|done].
    intros [= <-]. iIntros "#Hmap". iSplit; [done|]. simpl.
    iExists lsub, lprs. iSplit; [by iApply cell_rep|].
    iSplit; [by iApply cell_rep|].
    iApply (items_rep CPrInfo asPrInfo with "Hmap"); [|done].
    by intros [] x [= ->].
Qed.

Lemma repo_rep l rd :
  h !! l ≫= loadRepo h = Some rd →
  ([∗ map] l ↦ c ∈ heapOf h, l ↦□ c) -∗ isRepo l rd.
Proof.
  destruct (h !! l) as [c|] eqn:Hl; simpl; [|done].
  destruct c as [| |repoName lcommits lprs lreviews| | | | | | | | | | | | | | |];
    try done.
  simpl.
  destruct (loadArray h asCommit lcommits) as [cs|] eqn:Hcs; simpl; [|done].
  destruct (loadArray h asPull lprs) as [ps|] eqn:Hps; simpl; [|done].
  destruct (h !! lreviews) as [c|] eqn:Hlr; simpl; [|done].
  destruct c as [| | | | | |props| | | | | | | | | | |]; try done.
  destruct (mapM (loadReview h) props) as [rs|] eqn:Hrs; simpl; [|done].
  intros [= <-]. apply mapM_Some in Hrs.
  iIntros "#Hmap". iExists lcommits, lprs, lreviews, props. simpl.
  iSplit; [by iApply cell_rep|].
  iSplit; [iApply (items_rep CCommit asCommit with "Hmap");
           [by intros [] x [= ->] | done]|].
  iSplit; [iApply (items_rep CPull asPull with "Hmap");
           [by intros [] x [= ->] | done]|].
  iSplit; [by iApply cell_rep|].
  iApply (Forall2_sepL2 _ _ _ _ _ Hrs with "Hmap").
  intros p r Hpr. by apply review_rep.
Qed.

Lemma repos_rep lin input :
  loadRepos h lin = Some input →
  ([∗ map] l ↦ c ∈ heapOf h, l ↦□ c) -∗ isRepos DfracDiscarded lin input.
Proof.
  unfold loadRepos, loadArray.
  destruct (h !! lin) as [c|] eqn:Hlin; simpl; [|done].
  destruct c as [elems| | | | | | | | | | | | | | | | |]; try done.
  intros HF%mapM_Some.
  iIntros "#Hmap". iExists elems. iSplit; [by iApply cell_rep|].
  iApply (Forall2_sepL2 _ _ _ _ _ HF with "Hmap").
  intros l rd Hl. by apply repo_rep.
Qed.

Lemma store_persist :
  ([∗ map] l ↦ c ∈ heapOf h, l ↦ c) ==∗ [∗ map] l ↦ c ∈ heapOf h, l ↦□ c.
Proof.
  iIntros "H". iApply big_sepM_bupd. iApply (big_sepM_impl with "H").
  iIntros "!>" (l c _) "Hl". by iApply pointsto_persist.
Qed.
End Represent.

(** The store model returns; what it returns reads back as the result of
    the functional model on the value the argument stood for, and the
    argument still reads back as that value. *)
Lemma aggregateStatsH_refines (zone : TimeZone) (now : Z) (daysFilter : option Z)
    (h : list Cell) (repoDataArray : loc) (input : list RepoData) :
  loadRepos h repoDataArray = Some input →
  ∃ out h',
    aggregateStatsH zone now daysFilter repoDataArray h = (Some out, h')
    ∧ loadRepos h' repoDataArray = Some input
    ∧ loadStats h' out = Some (aggregateStats zone now daysFilter input).
Proof.
  intros Hinput. apply wpH_adequacy. iIntros (Σ Hg) "Hpts".
  iApply wpH_bupd. iMod (store_persist with "Hpts") as "#Hmap". iModIntro.
  iDestruct (repos_rep _ _ _ Hinput with "Hmap") as "Hrepos".
  iApply (wpH_wand with "[Hrepos]"); [iApply (wpH_aggregateStatsH with "Hrepos")|].
  iIntros (out) "[Hin Hout]". iIntros (h') "Hh".
  iDestruct (repos_load with "Hh Hin") as %Hin.
  iDestruct (stats_load with "Hh Hout") as %Hout. done.
Qed.

(** ** The loop of the orchestrator *)

Section Snapshots.
Context `{!gen_heapGS nat Cell Σ}.
Variables (zone : TimeZone) (clock : nat → Z) (daysFilter : option Z).

Lemma wpH_mapH_same {Y T} (f : Y → H T) (R : T → Y → iProp Σ) ys :
  □ (∀ y, wpH (f y) (fun r => R r y)) -∗
  wpH (mapH f ys) (fun rs => [∗ list] r;y ∈ rs;ys, R r y).
Proof.
  iIntros "#Hf". iInduction ys as [|y ys] "IH"; simpl.
  - by iApply wpH_ret.
  - iApply wpH_bind. iApply (wpH_wand with "Hf"). iIntros (r) "Hr".
    iApply wpH_bind. iApply (wpH_wand with "IH"). iIntros (rs) "Hrs".
    iApply wpH_ret. simpl. iFrame.
Qed.

Lemma wpH_storeItems {X} (inj : X → Cell) xs (post : list loc → iProp Σ) :
  (∀ ls, ([∗ list] l;x ∈ ls;xs, l ↦□ inj x) -∗ post ls) -∗
  wpH (mapH (fun x => allocH (inj x)) xs) post.
Proof.
  iIntros "HP". iApply wpH_post_bupd.
  iApply (wpH_wand with "[]").
  { iApply (wpH_mapH_same _ (fun l x => l ↦ inj x)%I).
    iIntros "!>" (x). iApply wpH_alloc. iIntros (l) "Hl". done. }
  iIntros (ls) "Hls". iMod (items_persist with "Hls") as "Hls". iModIntro.
  by iApply "HP".
Qed.

Lemma wpH_storeReview entry :
  ⊢ wpH (storeReview entry) (fun p => isReview p entry).
Proof.
  destruct entry as [u [n|n ds ps]]; unfold storeReview; simpl.
  - iApply wpH_ret. by iSplit.
  - iApply wpH_bind. iApply wpH_post_bupd. iApply wpH_alloc. iIntros (lsub) "Hlsub".
    iMod (pointsto_persist with "Hlsub") as "Hlsub". iModIntro.
    iApply wpH_bind. iApply wpH_storeItems. iIntros (lps) "Hlps".
    iApply wpH_bind. iApply wpH_post_bupd. iApply wpH_alloc. iIntros (lprs) "Hlprs".
    iMod (pointsto_persist with "Hlprs") as "Hlprs". iModIntro.
    iApply wpH_bind. iApply wpH_post_bupd. iApply wpH_alloc. iIntros (lri) "Hlri".
    iMod (pointsto_persist with "Hlri") as "Hlri". iModIntro.
    iApply wpH_ret. iSplit; [done|]. simpl.
    iExists lsub, lprs. iFrame "Hlri Hlsub". iExists lps. iFrame.
Qed.

Lemma wpH_storeRepo rd : ⊢ wpH (storeRepo rd) (fun l => isRepo l rd).
Proof.
  unfold storeRepo.
  iApply wpH_bind. iApply wpH_storeItems. iIntros (lcs) "Hlcs".
  iApply wpH_bind. iApply wpH_post_bupd. iApply wpH_alloc. iIntros (lcommits) "Hlc".
  iMod (pointsto_persist with "Hlc") as "Hlc". iModIntro.
  iApply wpH_bind. iApply wpH_storeItems. iIntros (lps) "Hlps".
  iApply wpH_bind. iApply wpH_post_bupd. iApply wpH_alloc. iIntros (lprs) "Hlp".
  iMod (pointsto_persist with "Hlp") as "Hlp". iModIntro.
  iApply wpH_bind.
  iApply (wpH_wand with "[]").
  { iApply (wpH_mapH_same _ isReview). iIntros "!>" (entry).
    iApply wpH_storeReview. }
  iIntros (props) "Hprops".
  iApply wpH_bind. iApply wpH_post_bupd. iApply wpH_alloc. iIntros (lreviews) "Hlr".
  iMod (pointsto_persist with "Hlr") as "Hlr". iModIntro.
  iApply wpH_post_bupd. iApply wpH_alloc. iIntros (l) "Hl".
  iMod (pointsto_persist with "Hl") as "Hl". iModIntro.
  iExists lcommits, lprs, lreviews, props. iFrame "Hl Hlr Hprops".
  iSplitL "Hlc Hlcs"; [iExists lcs; iFrame | iExists lps; iFrame].
Qed.

Lemma wpH_snapshotsH larr collected :
  ∀ i pushed,
    isRepos (DfracOwn 1) larr pushed -∗
    wpH (snapshotsH zone clock daysFilter larr i collected)
        (fun outs =>
           isRepos (DfracOwn 1) larr (pushed ++ collected)
           ∗ [∗ list] out;res ∈ outs;snapshotResults zone clock daysFilter
                                        i pushed collected,
               isStats out res).
Proof.
  induction collected as [|rd rest IH]; intros i pushed; iIntros "Hrepos"; simpl.
  - iApply wpH_bind.
    iApply (wpH_wand with "[Hrepos]"); [iApply (wpH_aggregateStatsH with "Hrepos")|].
    iIntros (final) "[Hrepos Hfinal]". iApply wpH_ret.
    rewrite app_nil_r. simpl. by iFrame.
  - iApply wpH_bind. iApply (wpH_wand with "[]"); [iApply wpH_storeRepo|].
    iIntros (lrd) "#Hlrd".
    iDestruct "Hrepos" as (ls) "[Hlarr #Hrepos]".
    iApply wpH_bind. iApply (wpH_readArray with "Hlarr"). iIntros "Hlarr".
    iApply wpH_bind. iApply (wpH_write with "Hlarr"). iIntros "Hlarr".
    iAssert (isRepos (DfracOwn 1) larr (pushed ++ [rd])) with "[Hlarr]" as "Hrepos'".
    { iExists (ls ++ [lrd]). iFrame "Hlarr".
      iApply (big_sepL2_app with "Hrepos"). simpl. by iFrame "Hlrd". }
    iApply wpH_bind.
    iApply (wpH_wand with "[Hrepos']");
      [iApply (wpH_aggregateStatsH with "Hrepos'")|].
    iIntros (current) "[Hrepos' Hcurrent]".
    iApply wpH_bind.
    iApply (wpH_wand with "[Hrepos']"); [iApply (IH with "Hrepos'")|].
    iIntros (later) "[Hrepos' Hlater]". iApply wpH_ret.
    rewrite <- app_assoc. simpl. iFrame.
Qed.
End Snapshots.

Lemma snapshotsH_refines (zone : TimeZone) (clock : nat → Z) (daysFilter : option Z)
    (h : list Cell) (repoDataArray : loc) (collected : list RepoData) :
  h !! repoDataArray = Some (CArray []) →
  ∃ outs h',
    snapshotsH zone clock daysFilter repoDataArray 0 collected h = (Some outs, h')
    ∧ loadRepos h' repoDataArray = Some collected
    ∧ Forall2 (fun out res => loadStats h' out = Some res) outs
              (snapshotResults zone clock daysFilter 0 [] collected).
Proof.
  intros Harr. apply wpH_adequacy. iIntros (Σ Hg) "Hpts".
  iDestruct (big_sepM_lookup _ _ repoDataArray with "Hpts") as "Hlarr".
  { by rewrite heapOf_lookup. }
  iApply (wpH_wand with "[Hlarr]").
  { iApply (wpH_snapshotsH _ _ _ _ _ 0%nat [] with "[Hlarr]").
    iExists []. by iFrame. }
  iIntros (outs) "[Hrepos Hstats]". iIntros (h') "Hh".
  iDestruct (repos_load with "Hh Hrepos") as %Hrepos.
  iDestruct (sepL2_Forall2 _ _ (fun out res => loadStats h' out = Some res)
               with "Hh Hstats") as %HF.
  { iIntros (out res) "Hh Hout". iApply (stats_load with "Hh Hout"). }
  done.
Qed.

(** The results of the loop, by index: the k-th aggregation is over the
    first k + 1 records, the last one over all of them. *)
Lemma snapshotResults_take (zone : TimeZone) (clock : nat → Z) (daysFilter : option Z)
    (collected : list RepoData) :
  ∀ (i : nat) (pushed : list RepoData),
    snapshotResults zone clock daysFilter i pushed collected =
      ((fun k => aggregateStats zone (clock (i + k)%nat) daysFilter
                   (pushed ++ take (S k) collected))
         <$> seq 0 (length collected))
      ++ [aggregateStats zone (clock (i + length collected)%nat) daysFilter
            (pushed ++ collected)].
Proof.
  induction collected as [|rd rest IH]; intros i pushed; simpl.
  - by rewrite Nat.add_0_r, app_nil_r.
  - rewrite Nat.add_0_r. f_equal. rewrite IH, <- fmap_S_seq, <- list_fmap_compose.
    rewrite <- app_assoc. simpl. f_equal.
    + apply list_fmap_ext. intros _ k _. simpl.
      by rewrite <- app_assoc, Nat.add_succ_r.
    + by rewrite Nat.add_succ_r.
Qed.


(** ** The cache and the rest of the storage *)

Section Storage.
Context {Json : Type}.
Variable stringify : Json → Z → string.
Variable parse : string → option (Json * option Z).
Variable timestampOf : string → option (option Z).
Variable fits : gmap string string → bool.

(** X1. No function of the cache touches a storage key that does not start
    with the cache prefix: whatever [getFromCache], [saveToCache],
    [clearOldCache] and [clearCache] do, such a key (the saved token, for
    one) holds afterwards what it held before. *)
Theorem cache_spares_other_keys now key v (store : gmap string string) k :
  String.prefix CACHE_PREFIX k = false →
  (getFromCache parse now key store).2 !! k = store !! k
  ∧ saveToCache stringify timestampOf fits now key v store !! k = store !! k
  ∧ clearOldCache timestampOf now store !! k = store !! k
  ∧ clearCache store !! k = store !! k.
Proof.
  intros Hk. pose proof (not_prefixed_ne k key Hk) as Hne.
  assert (clearOldCache timestampOf now store !! k = store !! k) as Hold.
  { rewrite clearOldCache_lookup. destruct (store !! k) as [x|]; [|done].
    by rewrite isOld_not_prefixed. }
  assert (clearCache store !! k = store !! k) as Hclear
    by (by rewrite clearCache_lookup, Hk).
  split; [|split; [|done]].
  - unfold getFromCache.
    destruct (store !! (CACHE_PREFIX +:+ key)) as [cached|]; [|done].
    destruct (bool_decide _); [done|].
    destruct (parse cached) as [[data timestamp]|]; [|done].
    destruct (expired now timestamp); [|done].
    simpl. by apply lookup_delete_ne.
  - rewrite saveToCache_cases. cbv zeta.
    destruct (_ <? _); [done|].
    destruct (fits _); [by apply lookup_insert_ne|].
    destruct (fits _); [|done].
    by rewrite lookup_insert_ne.
Qed.

(** X2. [clearCache] removes the keys that start with the cache prefix and
    no other; after it every [getFromCache], for whatever key and at
    whatever time, returns null and leaves the store as it is. *)
Theorem clearCache_empties_cache (store : gmap string string) :
  (∀ k, clearCache store !! k
        = if String.prefix CACHE_PREFIX k then None else store !! k)
  ∧ ∀ now key, getFromCache parse now key (clearCache store) = (None, clearCache store).
Proof.
  split; [apply clearCache_lookup|].
  intros now key. apply getFromCache_absent.
  by rewrite clearCache_lookup, cache_key_prefixed.
Qed.

(** X3. The purge keeps what can still be served. When the entry's
    timestamp is read the same way by both functions, an entry that
    [getFromCache] serves at some time is still served, with the same
    payload, after a [clearOldCache] that ran at that time or earlier. *)
Theorem clearOldCache_keeps_fresh now now' key (store : gmap string string) v :
  (∀ s d t, parse s = Some (d, t) → timestampOf s = Some t) →
  now ≤ now' →
  (getFromCache parse now' key store).1 = Some v →
  getFromCache parse now' key (clearOldCache timestampOf now store)
  = (Some v, clearOldCache timestampOf now store).
Proof.
  intros Hts Hnow Hget. unfold getFromCache in *.
  rewrite clearOldCache_lookup.
  destruct (store !! (CACHE_PREFIX +:+ key)) as [cached|] eqn:Hs; [|done].
  destruct (bool_decide (cached = EmptyString)) eqn:He; [done|].
  destruct (parse cached) as [[data timestamp]|] eqn:Hp; [|done].
  destruct (expired now' timestamp) eqn:Hexp; [done|].
  simpl in Hget. injection Hget as ->.
  assert (isOld timestampOf now (CACHE_PREFIX +:+ key) cached = false) as Hold.
  { unfold isOld. rewrite (Hts _ _ _ Hp).
    apply andb_false_iff. right.
    destruct timestamp as [t|]; [|done]. simpl in *.
    apply Z.ltb_ge. apply Z.ltb_ge in Hexp. lia. }
  by rewrite Hold, He, Hp, Hexp.
Qed.

(** X4. A write that finds no room, not even after the purge, ends by
    clearing the whole cache: the store is then what [clearCache] makes of
    the store before the write, so the value is not kept and every later
    read, of this key or another, returns null. *)
Theorem saveToCache_gives_up_by_clearing now key v (store : gmap string string) :
  Z.of_nat (String.length (stringify v now)) ≤ 500 * 1024 →
  fits (<[CACHE_PREFIX +:+ key := stringify v now]> store) = false →
  fits (<[CACHE_PREFIX +:+ key := stringify v now]>
          (clearOldCache timestampOf now store)) = false →
  let store' := saveToCache stringify timestampOf fits now key v store in
  store' = clearCache store
  ∧ ∀ now' key', getFromCache parse now' key' store' = (None, store').
Proof.
  intros Hsize Hf1 Hf2 store'.
  assert (store' = clearCache store) as ->.
  { unfold store'. rewrite saveToCache_cases. cbv zeta.
    by rewrite (proj2 (Z.ltb_ge _ _) Hsize), Hf1, Hf2. }
  split; [done|]. intros now' key'. apply getFromCache_absent.
  by rewrite clearCache_lookup, cache_key_prefixed.
Qed.
End Storage.

(** A store with the saved token and one cached listing, written at the
    sample instant. *)
Lemma cache_spares_other_keys_witness :
  (getFromCache sampleParse (sampleNow + 3600000) "repos_acme" sampleStore).2
     !! "github_leaderboard_token" = sampleStore !! "github_leaderboard_token"
  ∧ saveToCache sampleStringify sampleTimestampOf (fun _ => false)
      sampleNow "repos_acme" "[]" sampleStore !! "github_leaderboard_token"
    = sampleStore !! "github_leaderboard_token"
  ∧ clearOldCache sampleTimestampOf (sampleNow + 3600000) sampleStore
      !! "github_leaderboard_token" = sampleStore !! "github_leaderboard_token"
  ∧ clearCache sampleStore !! "github_leaderboard_token"
    = sampleStore !! "github_leaderboard_token".
Proof.
  apply (cache_spares_other_keys sampleStringify sampleParse sampleTimestampOf
           (fun _ => false) (sampleNow + 3600000) "repos_acme" "[]"%string sampleStore
           "github_leaderboard_token").
  reflexivity.
Defined.

Lemma clearOldCache_keeps_fresh_witness :
  getFromCache sampleParse (sampleNow + 60000) "repos_acme"
    (clearOldCache sampleTimestampOf sampleNow sampleStore)
  = (Some "[]"%string, clearOldCache sampleTimestampOf sampleNow sampleStore).
Proof.
  apply (clearOldCache_keeps_fresh sampleParse sampleTimestampOf
           sampleNow (sampleNow + 60000) "repos_acme" sampleStore "[]"%string).
  - intros s d t Hs. unfold sampleTimestampOf. rewrite Hs. reflexivity.
  - lia.
  - vm_compute. reflexivity.
Defined.

Lemma saveToCache_gives_up_by_clearing_witness :
  let store' :=
    saveToCache sampleStringify sampleTimestampOf (fun _ => false)
      sampleNow "commits_v4_acme_app_main" "[]" sampleStore in
  store' = clearCache sampleStore
  ∧ ∀ now' key', getFromCache sampleParse now' key' store' = (None, store').
Proof.
  apply (saveToCache_gives_up_by_clearing sampleStringify sampleParse sampleTimestampOf
           (fun _ => false) sampleNow "commits_v4_acme_app_main" "[]"%string sampleStore).
  - vm_compute. discriminate.
  - reflexivity.
  - reflexivity.
Defined.

(** ** More on the records of the aggregator *)

Lemma sumZ_app l1 l2 : sumZ (l1 ++ l2) = sumZ l1 + sumZ l2.
Proof. induction l1 as [|x l1 IH]; simpl; [done|]. unfold sumZ in *. simpl. lia. Qed.

Lemma sumZ_Permutation l1 l2 : l1 ≡ₚ l2 → sumZ l1 = sumZ l2.
Proof. induction 1; unfold sumZ in *; simpl; lia. Qed.

Lemma sumZ_zero {X : Type} (l : list X) : sumZ ((fun _ => 0) <$> l) = 0.
Proof. induction l as [|x l IH]; [done|]. unfold sumZ in *. csimpl. lia. Qed.

Lemma sumZ_ones {X : Type} (l : list X) : sumZ ((fun _ => 1) <$> l) = Z.of_nat (length l).
Proof. induction l as [|x l IH]; [done|]. unfold sumZ in *. csimpl. lia. Qed.

Lemma sumZ_scale {X : Type} (k : Z) (g : X → Z) (l : list X) :
  sumZ ((fun x => k * g x) <$> l) = k * sumZ (g <$> l).
Proof. induction l as [|x l IH]; unfold sumZ in *; csimpl; lia. Qed.

(** A sum that skips the items failing a test is the sum over the items
    that pass it. *)
Lemma sumZ_filter {X : Type} (P : X → Prop) `{∀ x, Decision (P x)} (g : X → Z) (l : list X) :
  sumZ ((fun x => if decide (P x) then g x else 0) <$> l) = sumZ (g <$> filter P l).
Proof.
  induction l as [|x l IH]; [done|]. rewrite filter_cons. csimpl.
  destruct (decide (P x)); unfold sumZ in *; csimpl; lia.
Qed.

Lemma sumZ_concat {X : Type} (g : X → Z) (ls : list (list X)) :
  sumZ (g <$> concat ls) = sumZ ((fun l => sumZ (g <$> l)) <$> ls).
Proof.
  induction ls as [|l ls IH]; [done|]. csimpl.
  rewrite fmap_app, sumZ_app, IH. unfold sumZ. simpl. done.
Qed.

Lemma setAdd_nonempty x s : setAdd x s ≠ [].
Proof.
  unfold setAdd. destruct (bool_decide (x ∈ s)) eqn:Hx.
  - apply bool_decide_eq_true in Hx. intros ->. by apply elem_of_nil in Hx.
  - intros Heq. by apply app_eq_nil in Heq as [_ ?].
Qed.

Lemma setAdd_NoDup x s : NoDup s → NoDup (setAdd x s).
Proof.
  intros Hnd. unfold setAdd. destruct (bool_decide (x ∈ s)) eqn:Hx; [done|].
  apply bool_decide_eq_false in Hx.
  apply NoDup_app. split; [done|]. split; [|apply NoDup_singleton].
  by intros y Hy ->%list_elem_of_singleton.
Qed.

Lemma elem_of_setAdd y x s : y ∈ setAdd x s → y = x ∨ y ∈ s.
Proof.
  unfold setAdd. destruct (bool_decide (x ∈ s)); [by right|].
  rewrite elem_of_app, list_elem_of_singleton. tauto.
Qed.

Section ReviewUpdates.
Variables (zone : TimeZone) (now : Z) (daysFilter : option Z).

(** The entry [reviewStep] stores for a login. *)
Let reviewed (repoName : string) (ri : ReviewInfo) (e : UserEntry) : UserEntry :=
  let e1 := fold_left (entryAddReviewed repoName)
              match ri with ReviewCount _ => [] | ReviewObj _ _ ps => ps end e in
  let e2 :=
    if (0 <? length match ri with ReviewCount _ => [] | ReviewObj _ ds _ => ds end)%nat
    then fold_left (reviewDateStep zone now daysFilter)
           match ri with ReviewCount _ => [] | ReviewObj _ ds _ => ds end e1
    else entryAddReviews match ri with ReviewCount n | ReviewObj n _ _ => n end None e1 in
  entryMarkReviewed repoName e2.

Lemma reviewStep_eq repoName um u ri :
  reviewStep zone now daysFilter repoName um (u, ri) =
    obj_alter (reviewed repoName ri) u (obj_ensure u (newEntry u None) um).
Proof. done. Qed.

(** A measure of an entry that the review updates change by [rho] per
    review counted. *)
Section Measure.
Context (mu : UserEntry → Z) (rho : Z).
Hypothesis mu_reviewed : ∀ r e p, mu (entryAddReviewed r e p) = mu e.
Hypothesis mu_reviews : ∀ n w e, mu (entryAddReviews n w e) = mu e + rho * n.
Hypothesis mu_mark : ∀ r e, mu (entryMarkReviewed r e) = mu e.

Lemma mu_fold_reviewed r ps e : mu (fold_left (entryAddReviewed r) ps e) = mu e.
Proof.
  revert e. induction ps as [|p ps IH]; intros e; simpl; [done|].
  by rewrite IH, mu_reviewed.
Qed.

Lemma mu_fold_dates ds e :
  mu (fold_left (reviewDateStep zone now daysFilter) ds e) =
    mu e + rho * Z.of_nat (length (filter
             (fun d => negb (truthyDays daysFilter
                             && ltNum (getTime d) (cutoffMs now daysFilter))) ds)).
Proof.
  revert e. induction ds as [|d ds IH]; intros e; simpl; [lia|].
  rewrite IH, filter_cons. unfold reviewDateStep. cbv zeta.
  destruct (truthyDays daysFilter && ltNum (getTime d) (cutoffMs now daysFilter)) eqn:Hcut.
  - rewrite decide_False by (simpl; tauto). lia.
  - rewrite decide_True by done.
    rewrite mu_reviews, length_cons. lia.
Qed.

Lemma mu_reviewed_entry r ri e :
  mu (reviewed r ri e) = mu e + rho * reviewsCounted now daysFilter ri.
Proof.
  unfold reviewed. cbv zeta. rewrite mu_mark.
  destruct ri as [n|n ds ps]; simpl.
  - by rewrite mu_reviews.
  - destruct (0 <? length ds)%nat.
    + by rewrite mu_fold_dates, mu_fold_reviewed.
    + by rewrite mu_reviews, mu_fold_reviewed.
Qed.
End Measure.

(** A measure the review updates leave alone. *)
Lemma unreviewed (mu : UserEntry → Z) :
  (∀ r e p, mu (entryAddReviewed r e p) = mu e) →
  (∀ n w e, mu (entryAddReviews n w e) = mu e) →
  (∀ r e, mu (entryMarkReviewed r e) = mu e) →
  ∀ r ri e, mu (reviewed r ri e) = mu e + 0.
Proof.
  intros H1 H2 H3 r ri e.
  rewrite (mu_reviewed_entry mu 0); [lia|done|intros; rewrite H2; lia|done].
Qed.

(** The review updates leave the repositories of an entry alone, up to
    the closing [reposContributed.add]. *)
Lemma repos_fold_reviewed r ps e :
  e_reposContributed (fold_left (entryAddReviewed r) ps e) = e_reposContributed e.
Proof. revert e. induction ps as [|p ps IH]; intros e; simpl; [done|]. by rewrite IH. Qed.

Lemma repos_fold_dates ds e :
  e_reposContributed (fold_left (reviewDateStep zone now daysFilter) ds e)
  = e_reposContributed e.
Proof.
  revert e. induction ds as [|d ds IH]; intros e; simpl; [done|].
  rewrite IH. unfold reviewDateStep. cbv zeta. by destruct (_ && _).
Qed.

Lemma repos_reviewed r ri e :
  e_reposContributed (reviewed r ri e) =
    if 0 <? e_reviews (reviewed r ri e)
    then setAdd r (e_reposContributed e) else e_reposContributed e.
Proof.
  unfold reviewed. cbv zeta. simpl.
  destruct ri as [n|n ds ps]; simpl.
  - done.
  - destruct (0 <? length ds)%nat.
    + by rewrite repos_fold_dates, repos_fold_reviewed.
    + simpl. by rewrite repos_fold_reviewed.
Qed.

Lemma sumZ_filter_bool {X : Type} (b : X → bool) (g : X → Z) (l : list X) :
  sumZ ((fun x => if b x then g x else 0) <$> l) = sumZ (g <$> filter (fun x => b x) l).
Proof.
  induction l as [|x l IH]; [done|]. rewrite filter_cons. csimpl.
  destruct (b x) eqn:Hb.
  - rewrite decide_True by done. unfold sumZ in *. csimpl. lia.
  - rewrite decide_False by (simpl; tauto). unfold sumZ in *. simpl. lia.
Qed.

(** *** Totals *)

Section Totals.
Context (mu : UserEntry → Z).
Context (dc : Commit → Z) (dp : PullRequest → Z) (dr : ReviewInfo → Z).
Hypothesis mu_new : ∀ u a, mu (newEntry u a) = 0.
Hypothesis mu_commit : ∀ r c e,
  mu (entryAddCommit r c (weekTsOf zone (getTime (c_date c))) e) = mu e + dc c.
Hypothesis mu_pr : ∀ r pr e,
  mu (entryAddPr r pr
        (weekTsOf zone (getTime (orDate (pr_merged_at pr) (pr_created_at pr)))) e)
  = mu e + dp pr.
Hypothesis mu_review : ∀ r ri e, mu (reviewed r ri e) = mu e + dr ri.

Let total (u : string) (um : list (string * UserEntry)) : Z :=
  match obj_get u um with
  | Some e => mu e
  | None => 0
  end.

Lemma total_commitStep r um c u :
  total u (commitStep zone now daysFilter r um c) =
    total u um + (if counted now daysFilter u c then dc c else 0).
Proof.
  unfold commitStep, counted, total.
  destruct (truthyStr (c_user c)) as [u'|] eqn:Hu; simpl; [|lia].
  destruct (filteredOut _ _ _) eqn:Hf; simpl.
  - rewrite andb_false_r. lia.
  - rewrite andb_true_r, obj_get_upsert.
    destruct (decide (u' = u)) as [->|Hne].
    + rewrite bool_decide_eq_true_2 by done. rewrite mu_commit.
      destruct (obj_get u um); simpl; [done|]. by rewrite mu_new.
    + rewrite bool_decide_eq_false_2 by congruence. lia.
Qed.

Lemma total_prStep r um pr u :
  total u (prStep zone now daysFilter r um pr) =
    total u um + (if countedPr now daysFilter u pr then dp pr else 0).
Proof.
  unfold prStep, countedPr, total.
  destruct (truthyStr (pr_user pr)) as [u'|] eqn:Hu; simpl; [|lia].
  destruct (filteredOut _ _ _) eqn:Hf; simpl.
  - rewrite andb_false_r. lia.
  - rewrite andb_true_r, obj_get_upsert.
    destruct (decide (u' = u)) as [->|Hne].
    + rewrite bool_decide_eq_true_2 by done. rewrite mu_pr.
      destruct (obj_get u um); simpl; [done|]. by rewrite mu_new.
    + rewrite bool_decide_eq_false_2 by congruence. lia.
Qed.

Lemma total_reviewStep r um (p : string * ReviewInfo) u :
  total u (reviewStep zone now daysFilter r um p) =
    total u um + (if decide (p.1 = u) then dr p.2 else 0).
Proof.
  destruct p as [u' ri]. rewrite reviewStep_eq. unfold total. simpl.
  rewrite obj_get_upsert.
  destruct (decide (u' = u)) as [->|Hne]; [|lia].
  rewrite mu_review.
  destruct (obj_get u um); simpl; [done|]. by rewrite mu_new.
Qed.

Lemma total_fold {X : Type} (f : list (string * UserEntry) → X → list (string * UserEntry))
    (contrib : X → Z) l um u :
  (∀ um x, total u (f um x) = total u um + contrib x) →
  total u (fold_left f l um) = total u um + sumZ (contrib <$> l).
Proof.
  intros Hf. revert um. induction l as [|x l IH]; intros um; csimpl.
  - unfold sumZ. simpl. lia.
  - rewrite IH, Hf. unfold sumZ. simpl. lia.
Qed.

Lemma total_repoStep um rd u :
  total u (repoStep zone now daysFilter um rd) =
    total u um
    + sumZ (dc <$> filter (fun c => counted now daysFilter u c) (rd_commits rd))
    + sumZ (dp <$> filter (fun pr => countedPr now daysFilter u pr) (rd_prs rd))
    + sumZ (dr <$> (snd <$> filter (fun p => p.1 = u) (rd_reviews rd))).
Proof.
  unfold repoStep. cbv zeta.
  rewrite (total_fold _ _ _ _ _ (fun um x => total_reviewStep (rd_repoName rd) um x u)).
  rewrite (total_fold _ _ _ _ _ (fun um x => total_prStep (rd_repoName rd) um x u)).
  rewrite (total_fold _ _ _ _ _ (fun um x => total_commitStep (rd_repoName rd) um x u)).
  rewrite !sumZ_filter_bool.
  rewrite (sumZ_Permutation _ _
             (fmap_Permutation _ _ _ (obj_entries_Permutation strIndex (rd_reviews rd)))).
  rewrite (sumZ_filter (fun p : string * ReviewInfo => p.1 = u) (fun p => dr p.2)).
  rewrite <- (list_fmap_compose snd dr).
  done.
Qed.

Lemma total_buildUserMap l u :
  total u (buildUserMap zone now daysFilter l) =
    sumZ (dc <$> filter (fun c => counted now daysFilter u c) (concat (rd_commits <$> l)))
    + sumZ (dp <$> prsBy now daysFilter u l)
    + sumZ (dr <$> reviewsBy u l).
Proof.
  unfold buildUserMap, prsBy, reviewsBy.
  assert (∀ um, total u (fold_left (repoStep zone now daysFilter) l um) =
            total u um
            + sumZ (dc <$> filter (fun c => counted now daysFilter u c)
                              (concat (rd_commits <$> l)))
            + sumZ (dp <$> filter (fun pr => countedPr now daysFilter u pr)
                              (concat (rd_prs <$> l)))
            + sumZ (dr <$> (snd <$> filter (fun p => p.1 = u)
                                            (concat (rd_reviews <$> l))))) as Hall.
  { induction l as [|rd l IH]; intros um; csimpl.
    - unfold sumZ. simpl. lia.
    - rewrite IH, total_repoStep.
      rewrite !filter_app, !fmap_app, !sumZ_app. lia. }
  rewrite Hall. unfold total. simpl. lia.
Qed.

(** What a record reports for the measure is its total over the input. *)
Lemma total_of_record l r e :
  r = emit zone now daysFilter e →
  (user r, e) ∈ buildUserMap zone now daysFilter l →
  mu e =
    sumZ (dc <$> filter (fun c => counted now daysFilter (user r) c)
                        (concat (rd_commits <$> l)))
    + sumZ (dp <$> prsBy now daysFilter (user r) l)
    + sumZ (dr <$> reviewsBy (user r) l).
Proof.
  intros -> He. rewrite <- total_buildUserMap. unfold total.
  by rewrite (obj_get_NoDup _ _ _ (buildUserMap_NoDup zone now daysFilter l) He).
Qed.
End Totals.

(** *** The weekly buckets *)

Lemma bucket_bump (f : Bucket → Bucket) w k wd :
  default zeroBucket (obj_get k (bumpWeek f w wd))
  = if decide (w = k) then f (default zeroBucket (obj_get k wd))
    else default zeroBucket (obj_get k wd).
Proof.
  unfold bumpWeek. rewrite obj_get_upsert.
  by destruct (decide (w = k)) as [->|].
Qed.

Section WeekMeasure.
Variable k : option Z.

Let bucketAt (e : UserEntry) : Bucket :=
  default zeroBucket (obj_get k (e_weeklyData e)).

Lemma bucketAt_commit r c e :
  bucketAt (entryAddCommit r c (weekTsOf zone (getTime (c_date c))) e)
  = if inWeek zone k (c_date c) then addCommit (bucketAt e) else bucketAt e.
Proof.
  unfold bucketAt, inWeek. simpl. rewrite bucket_bump.
  destruct (decide _) as [Hk|Hk].
  - by rewrite bool_decide_eq_true_2.
  - by rewrite bool_decide_eq_false_2.
Qed.

Lemma bucketAt_pr r pr e :
  bucketAt (entryAddPr r pr
              (weekTsOf zone (getTime (orDate (pr_merged_at pr) (pr_created_at pr)))) e)
  = if inWeek zone k (orDate (pr_merged_at pr) (pr_created_at pr))
    then addLines (linesAdded pr) (linesDeleted pr) (addPullRequest (bucketAt e))
    else bucketAt e.
Proof.
  unfold bucketAt, inWeek, linesAdded, linesDeleted. simpl.
  destruct (hasLineStats pr); simpl; rewrite ?bucket_bump;
    (destruct (decide _) as [Hk|Hk];
     [rewrite bool_decide_eq_true_2 by done|rewrite bool_decide_eq_false_2 by done]);
    try done.
  destruct (obj_get k (e_weeklyData e)) as [[]|];
    unfold addLines, addPullRequest; simpl; f_equal; lia.
Qed.

Lemma bucketAt_reviewed r e p : bucketAt (entryAddReviewed r e p) = bucketAt e.
Proof. done. Qed.

Lemma bucketAt_mark r e : bucketAt (entryMarkReviewed r e) = bucketAt e.
Proof. done. Qed.

Lemma bucketAt_reviews n w e :
  bucketAt (entryAddReviews n w e)
  = match w with
    | Some ts => if decide (ts = k) then addReview (bucketAt e) else bucketAt e
    | None => bucketAt e
    end.
Proof. unfold bucketAt. simpl. destruct w; [apply bucket_bump|done]. Qed.

(** A field of the bucket that reviews leave alone. *)
Lemma weekly_unreviewed (field : Bucket → Z) :
  (∀ b, field (addReview b) = field b) →
  ∀ r ri e, field (bucketAt (reviewed r ri e)) = field (bucketAt e) + 0.
Proof.
  intros Hfield. apply (unreviewed (fun e => field (bucketAt e))).
  - done.
  - intros n w e. rewrite bucketAt_reviews.
    destruct w as [ts|]; [|done]. by destruct (decide _).
  - done.
Qed.

Lemma weekly_dates ds e :
  b_reviews (bucketAt (fold_left (reviewDateStep zone now daysFilter) ds e))
  = b_reviews (bucketAt e)
    + Z.of_nat (length (filter (fun d => inWeek zone k d)
                          (filter (fun d => negb (truthyDays daysFilter
                                                  && ltNum (getTime d)
                                                           (cutoffMs now daysFilter)))
                                  ds))).
Proof.
  revert e. induction ds as [|d ds IH]; intros e; simpl; [lia|].
  rewrite IH. rewrite (filter_cons _ d). unfold reviewDateStep. cbv zeta.
  destruct (truthyDays daysFilter && ltNum (getTime d) (cutoffMs now daysFilter)) eqn:Hcut.
  - rewrite decide_False by (simpl; tauto). lia.
  - rewrite decide_True by done. rewrite bucketAt_reviews, filter_cons.
    unfold inWeek. destruct (decide (weekTsOf zone (getTime d) = k)) as [Hk|Hk].
    + rewrite decide_True by (by rewrite bool_decide_eq_true_2).
      simpl. lia.
    + rewrite decide_False by (rewrite bool_decide_eq_false_2 by done; simpl; tauto).
      lia.
Qed.

Lemma weekly_reviewed r ri e :
  b_reviews (bucketAt (reviewed r ri e))
  = b_reviews (bucketAt e) + weekReviews zone now daysFilter k ri.
Proof.
  unfold reviewed. cbv zeta. rewrite bucketAt_mark.
  assert (∀ ps e0, bucketAt (fold_left (entryAddReviewed r) ps e0) = bucketAt e0) as Hps.
  { intros ps. induction ps as [|p ps IH]; intros e0; simpl; [done|]. by rewrite IH. }
  destruct ri as [n|n ds ps]; simpl.
  - rewrite bucketAt_reviews. lia.
  - destruct (0 <? length ds)%nat eqn:Hds.
    + by rewrite weekly_dates, Hps.
    + apply Nat.ltb_ge in Hds. destruct ds; [|simpl in Hds; lia].
      rewrite bucketAt_reviews, Hps. simpl. lia.
Qed.

(** The bucket an entry holds for a week is the activity of its login
    in that week. *)
Lemma bucket_of_record l e :
  (e_user e, e) ∈ buildUserMap zone now daysFilter l →
  default zeroBucket (obj_get k (e_weeklyData e))
  = weekBucket zone now daysFilter (e_user e) k l.
Proof.
  intros He. fold (bucketAt e).
  pose (prDate := fun pr => orDate (pr_merged_at pr) (pr_created_at pr)).
  assert (b_commits (bucketAt e)
          = b_commits (weekBucket zone now daysFilter (e_user e) k l)) as Hc.
  { rewrite (total_of_record (fun e => b_commits (bucketAt e))
               (fun c => if inWeek zone k (c_date c) then 1 else 0)
               (fun _ => 0) (fun _ => 0)) with (l := l) (r := emit zone now daysFilter e);
      [|done
       |intros; rewrite bucketAt_commit; destruct (inWeek _ _ _); simpl; lia
       |intros; rewrite bucketAt_pr; destruct (inWeek _ _ _); simpl; lia
       |by apply weekly_unreviewed|done|done].
    simpl. rewrite !sumZ_zero, sumZ_filter_bool, sumZ_ones. lia. }
  assert (b_pullRequests (bucketAt e)
          = b_pullRequests (weekBucket zone now daysFilter (e_user e) k l)) as Hp.
  { rewrite (total_of_record (fun e => b_pullRequests (bucketAt e))
               (fun _ => 0)
               (fun pr => if inWeek zone k (prDate pr) then 1 else 0)
               (fun _ => 0)) with (l := l) (r := emit zone now daysFilter e);
      [|done
       |intros; rewrite bucketAt_commit; destruct (inWeek _ _ _); simpl; lia
       |intros; rewrite bucketAt_pr; unfold prDate; destruct (inWeek _ _ _); simpl; lia
       |by apply weekly_unreviewed|done|done].
    simpl. rewrite !sumZ_zero, sumZ_filter_bool, sumZ_ones. unfold prDate. lia. }
  assert (b_additions (bucketAt e)
          = b_additions (weekBucket zone now daysFilter (e_user e) k l)) as Ha.
  { rewrite (total_of_record (fun e => b_additions (bucketAt e))
               (fun _ => 0)
               (fun pr => if inWeek zone k (prDate pr) then linesAdded pr else 0)
               (fun _ => 0)) with (l := l) (r := emit zone now daysFilter e);
      [|done
       |intros; rewrite bucketAt_commit; destruct (inWeek _ _ _); simpl; lia
       |intros; rewrite bucketAt_pr; unfold prDate; destruct (inWeek _ _ _); simpl; lia
       |by apply weekly_unreviewed|done|done].
    simpl. rewrite !sumZ_zero, sumZ_filter_bool. unfold prDate. lia. }
  assert (b_deletions (bucketAt e)
          = b_deletions (weekBucket zone now daysFilter (e_user e) k l)) as Hd.
  { rewrite (total_of_record (fun e => b_deletions (bucketAt e))
               (fun _ => 0)
               (fun pr => if inWeek zone k (prDate pr) then linesDeleted pr else 0)
               (fun _ => 0)) with (l := l) (r := emit zone now daysFilter e);
      [|done
       |intros; rewrite bucketAt_commit; destruct (inWeek _ _ _); simpl; lia
       |intros; rewrite bucketAt_pr; unfold prDate; destruct (inWeek _ _ _); simpl; lia
       |by apply weekly_unreviewed|done|done].
    simpl. rewrite !sumZ_zero, sumZ_filter_bool. unfold prDate. lia. }
  assert (b_reviews (bucketAt e)
          = b_reviews (weekBucket zone now daysFilter (e_user e) k l)) as Hr.
  { rewrite (total_of_record (fun e => b_reviews (bucketAt e))
               (fun _ => 0) (fun _ => 0) (weekReviews zone now daysFilter k))
      with (l := l) (r := emit zone now daysFilter e);
      [|done
       |intros; rewrite bucketAt_commit; destruct (inWeek _ _ _); simpl; lia
       |intros; rewrite bucketAt_pr; destruct (inWeek _ _ _); simpl; lia
       |apply weekly_reviewed|done|done].
    simpl. rewrite !sumZ_zero. lia. }
  destruct (bucketAt e), (weekBucket zone now daysFilter (e_user e) k l).
  simpl in *. by subst.
Qed.
End WeekMeasure.

(** X7. The line and pull-request totals of a record come from the pull
    requests alone: [pullRequests] is the number of pull requests of the
    input that the contributor opened and that pass the time filter (by
    their merge date, else their creation date), merged or not;
    [additions] and [deletions] are the sums of the line counts of those
    among them that are merged and carry line counts. Commits and reviews
    add no lines. *)
Theorem aggregateStats_lines_from_pull_requests repoDataArray :
  Forall (fun r =>
            let prs := prsBy now daysFilter (user r) repoDataArray in
            pullRequests r = Z.of_nat (length prs)
            ∧ additions r = sumZ (linesAdded <$> prs)
            ∧ deletions r = sumZ (linesDeleted <$> prs))
         (aggregateStats zone now daysFilter repoDataArray).
Proof.
  apply Forall_forall. intros r Hr. cbv zeta.
  apply elem_of_aggregateStats in Hr as (e & Hr & _ & He).
  assert (user r = e_user e) as Hu by (by rewrite Hr).
  rewrite <- Hu in He.
  split; [|split].
  - replace (pullRequests r) with (e_pullRequests e) by (by rewrite Hr).
    rewrite (total_of_record e_pullRequests (fun _ => 0) (fun _ => 1) (fun _ => 0))
      with (l := repoDataArray) (r := r);
      [|done|intros; simpl; lia|done|apply unreviewed; by intros|done|done].
    rewrite !sumZ_zero, sumZ_ones. lia.
  - replace (additions r) with (e_additions e) by (by rewrite Hr).
    rewrite (total_of_record e_additions (fun _ => 0) linesAdded (fun _ => 0))
      with (l := repoDataArray) (r := r);
      [|done|intros; simpl; lia|done|apply unreviewed; by intros|done|done].
    rewrite !sumZ_zero. lia.
  - replace (deletions r) with (e_deletions e) by (by rewrite Hr).
    rewrite (total_of_record e_deletions (fun _ => 0) linesDeleted (fun _ => 0))
      with (l := repoDataArray) (r := r);
      [|done|intros; simpl; lia|done|apply unreviewed; by intros|done|done].
    rewrite !sumZ_zero. lia.
Qed.


(** *** One record per login *)

Lemma map_filter_NoDup {X Y : Type} (f : X → Y) (P : X → Prop) `{∀ x, Decision (P x)}
    (l : list X) :
  NoDup (f <$> l) → NoDup (f <$> filter P l).
Proof.
  intros Hnd. eapply sublist_NoDup; [exact Hnd|].
  apply fmap_sublist, sublist_filter.
Qed.

(** X5. The result holds one record per login: no two records of
    [aggregateStats] have the same [user]. *)
Theorem aggregateStats_one_record_per_login repoDataArray :
  NoDup (user <$> aggregateStats zone now daysFilter repoDataArray).
Proof.
  unfold aggregateStats.
  set (entries := obj_entries strIndex (buildUserMap zone now daysFilter repoDataArray)).
  rewrite <- list_fmap_compose.
  change (user ∘ emit zone now daysFilter) with e_user.
  apply map_filter_NoDup.
  rewrite <- list_fmap_compose.
  assert ((e_user ∘ snd) <$> entries = fst <$> entries) as ->.
  { apply Forall_fmap_ext_1, Forall_forall. intros [u e] Hin. simpl.
    apply elem_of_obj_entries in Hin.
    by apply (buildUserMap_user zone now daysFilter repoDataArray). }
  unfold entries. rewrite obj_entries_Permutation.
  apply buildUserMap_NoDup.
Qed.

(** *** The repositories of a contributor *)

Let active (e : UserEntry) : Prop :=
  0 < e_additions e ∨ 0 < e_deletions e ∨ 0 < e_commits e
  ∨ 0 < e_pullRequests e ∨ 0 < e_reviews e.

Let tidy (names : list string) (e : UserEntry) : Prop :=
  NoDup (e_reposContributed e)
  ∧ (∀ r, r ∈ e_reposContributed e → r ∈ names)
  ∧ (active e → e_reposContributed e ≠ []).

Lemma tidy_new names u a : tidy names (newEntry u a).
Proof.
  split; [apply NoDup_nil_2|]. split.
  - intros r Hr. by apply elem_of_nil in Hr.
  - unfold active. simpl. lia.
Qed.

Lemma tidy_setAdd names r e e' :
  r ∈ names → tidy names e →
  e_reposContributed e' = setAdd r (e_reposContributed e) → tidy names e'.
Proof.
  intros Hr (Hnd & Hsub & _) Heq. unfold tidy. rewrite Heq.
  split; [by apply setAdd_NoDup|]. split.
  - intros y [->|Hy]%elem_of_setAdd; auto.
  - intros _. apply setAdd_nonempty.
Qed.

Lemma tidy_reviewed names r ri e :
  r ∈ names → tidy names e → tidy names (reviewed r ri e).
Proof.
  intros Hr He. pose proof (repos_reviewed r ri e) as Hrepos.
  destruct (0 <? e_reviews (reviewed r ri e)) eqn:Hrev.
  - by eapply tidy_setAdd.
  - destruct He as (Hnd & Hsub & Hact). unfold tidy. rewrite Hrepos.
    split; [done|]. split; [done|].
    intros Ha. apply Hact. apply Z.ltb_ge in Hrev.
    unfold active in *.
    rewrite (mu_reviewed_entry e_additions 0) in Ha by (intros; simpl; lia).
    rewrite (mu_reviewed_entry e_deletions 0) in Ha by (intros; simpl; lia).
    rewrite (mu_reviewed_entry e_commits 0) in Ha by (intros; simpl; lia).
    rewrite (mu_reviewed_entry e_pullRequests 0) in Ha by (intros; simpl; lia).
    lia.
Qed.

Lemma buildUserMap_tidy l :
  Forall (fun p : string * UserEntry => tidy (rd_repoName <$> l) p.2)
         (buildUserMap zone now daysFilter l).
Proof.
  set (names := rd_repoName <$> l).
  set (Inv := fun um : list (string * UserEntry) =>
                Forall (fun p : string * UserEntry => tidy names p.2) um).
  unfold buildUserMap. apply (fold_left_preserves_in Inv); [|constructor].
  intros um rd Hrd Hum.
  assert (rd_repoName rd ∈ names) as Hname by (by apply list_elem_of_fmap_2).
  unfold repoStep. cbv zeta.
  apply (fold_left_preserves Inv).
  { intros um' [u ri] Hum'. rewrite reviewStep_eq.
    apply (obj_alter_Forall (fun _ e => tidy names e)).
    - intros e He. by apply tidy_reviewed.
    - apply (obj_ensure_Forall (fun _ e => tidy names e)); [apply tidy_new|done]. }
  apply (fold_left_preserves Inv).
  { intros um' pr Hum'. unfold prStep.
    destruct (truthyStr _) as [u|]; [|done]. cbv zeta.
    destruct (filteredOut _ _ _); [done|].
    apply (obj_alter_Forall (fun _ e => tidy names e)).
    - intros e He. by eapply tidy_setAdd.
    - apply (obj_ensure_Forall (fun _ e => tidy names e)); [apply tidy_new|done]. }
  apply (fold_left_preserves Inv); [|done].
  intros um' c Hum'. unfold commitStep.
  destruct (truthyStr _) as [u|]; [|done].
  destruct (filteredOut _ _ _); [done|].
  apply (obj_alter_Forall (fun _ e => tidy names e)).
  - intros e He. by eapply tidy_setAdd.
  - apply (obj_ensure_Forall (fun _ e => tidy names e)); [apply tidy_new|done].
Qed.

(** X6. Every record counts at least one repository and no more than the
    input has entries: [reposCount] lies between 1 and the length of
    [repoDataArray], since a record is emitted only for a contributor
    with a counted commit, pull request or review, each of which adds
    the name of its repository to the contributor's set. *)
Theorem aggregateStats_reposCount_bounds repoDataArray :
  Forall (fun r => 1 ≤ reposCount r ≤ Z.of_nat (length repoDataArray))
         (aggregateStats zone now daysFilter repoDataArray).
Proof.
  apply Forall_forall. intros r Hr.
  apply elem_of_aggregateStats in Hr as (e & -> & Hact & He).
  pose proof (buildUserMap_tidy repoDataArray) as Htidy.
  rewrite Forall_forall in Htidy.
  destruct (Htidy _ He) as (Hnd & Hsub & Hne). simpl in *.
  apply hasActivity_spec in Hact. specialize (Hne Hact).
  split.
  - destruct (e_reposContributed e); [done|]. simpl. lia.
  - pose proof (submseteq_length _ _ (NoDup_submseteq _ _ Hnd Hsub)) as Hlen.
    rewrite length_fmap in Hlen. lia.
Qed.
End ReviewUpdates.

(** ** Listing the repositories *)

Section ListingFacts.
Variable source : list ListingCall → string → string → Z → ListingOutcome.
Variable fits : gmap string string → bool.
Variable toLocaleTimeString : Z → string.
Variable timestampOf : string → option (option Z).
Variable reposCodec : Codec (list RepoMetadata).

(** The paging loop sends requests and nothing else: the store stays as
    it is, and the requests it adds carry the token, name the
    organisation and ask for consecutive pages. *)
Lemma reposPages_calls fuel token org : ∀ page repos w,
  let run := reposPages source toLocaleTimeString fuel token org page repos w in
  lw_store run.2 = lw_store w
  ∧ ∃ calls, lw_calls run.2 = lw_calls w ++ calls
             ∧ Forall (fun c => lc_token c = token ∧ lc_org c = org) calls
             ∧ lc_page <$> calls = seqZ page (Z.of_nat (length calls)).
Proof.
  induction fuel as [|fuel IH]; intros page repos w; simpl.
  { split; [done|]. exists []. by rewrite app_nil_r. }
  set (out := source (lw_calls w) token org page).
  assert (∀ (res : Result (list RawRepo)) dt,
            let w' := {| lw_store := lw_store w; lw_clock := lw_clock w + dt;
                         lw_calls := lw_calls w ++ [mkListingCall token org page out] |} in
            lw_store (res, w').2 = lw_store w
            ∧ ∃ calls, lw_calls (res, w').2 = lw_calls w ++ calls
                       ∧ Forall (fun c => lc_token c = token ∧ lc_org c = org) calls
                       ∧ lc_page <$> calls = seqZ page (Z.of_nat (length calls))) as Hone.
  { intros res dt. simpl. split; [done|].
    exists [mkListingCall token org page out]. split; [done|].
    split; [by repeat constructor|]. done. }
  destruct out as [dt response|dt message] eqn:Hout; [|apply Hone].
  destruct (negb (lr_ok response)); [apply Hone|].
  destruct (lr_body response) as [data|]; [|apply Hone].
  destruct (length data <? 100)%nat; [apply Hone|].
  match goal with
  | |- context [reposPages _ _ fuel token org (page + 1) ?r ?w0] =>
      destruct (IH (page + 1) r w0) as (Hs & calls & Hc & Hall & Hpages)
  end.
  cbv zeta in *. split; [by rewrite Hs|].
  exists (mkListingCall token org page (ListingResponds dt response) :: calls).
  split; [by rewrite Hc; simpl; rewrite <- app_assoc|].
  split; [by constructor|].
  csimpl. rewrite Hpages.
  replace (Z.of_nat (S (length calls))) with (Z.succ (Z.of_nat (length calls))) by lia.
  rewrite (seqZ_cons page) by lia. rewrite Z.pred_succ. by replace (Z.succ page) with (page + 1) by lia.
Qed.

(** The store after a call. *)
Lemma fetchRepos_store fuel token org w :
  let run := fetchRepos source fits toLocaleTimeString timestampOf reposCodec
               fuel token org w in
  let read := getFromCache (parse reposCodec) (lw_clock w) ("repos_" +:+ org) (lw_store w) in
  lw_store run.2 =
    match read.1, run.1 with
    | None, Ok repos =>
        saveToCache (stringify reposCodec) timestampOf fits (lw_clock run.2)
          ("repos_" +:+ org) repos read.2
    | _, _ => read.2
    end.
Proof.
  cbv zeta. unfold fetchRepos. cbv zeta.
  destruct (getFromCache _ _ _ _) as [[cached|] store0] eqn:Hread; simpl; [done|].
  match goal with
  | |- context [reposPages _ _ fuel token org 1 [] ?w0] =>
      pose proof (reposPages_calls fuel token org 1 [] w0) as [Hs _];
      destruct (reposPages source toLocaleTimeString fuel token org 1 [] w0)
        as [[repos|message|] w1]
  end; simpl in *; by rewrite ?Hs.
Qed.

(** X9. [fetchRepos] writes to the store only when it returns a fresh
    listing, and then what it writes is the list it returns: after a cache
    hit, an error or an abandoned run the store is what the opening
    [getFromCache] left; after a listing it is that store with the
    returned list saved under [repos_<org>], so no part of a listing that
    failed on a later page is ever cached. The requests it sends carry
    the token, name the organisation and ask for the pages 1, 2, ... in
    turn; a cache hit sends none. *)
Theorem fetchRepos_caches_what_it_returns fuel token org w :
  let run := fetchRepos source fits toLocaleTimeString timestampOf reposCodec
               fuel token org w in
  let read := getFromCache (parse reposCodec) (lw_clock w) ("repos_" +:+ org) (lw_store w) in
  lw_store run.2 =
    match read.1, run.1 with
    | None, Ok repos =>
        saveToCache (stringify reposCodec) timestampOf fits (lw_clock run.2)
          ("repos_" +:+ org) repos read.2
    | _, _ => read.2
    end
  ∧ ∃ calls, lw_calls run.2 = lw_calls w ++ calls
             ∧ Forall (fun c => lc_token c = token ∧ lc_org c = org) calls
             ∧ lc_page <$> calls = seqZ 1 (Z.of_nat (length calls))
             ∧ (is_Some read.1 → calls = []).
Proof.
  split; [apply fetchRepos_store|].
  unfold fetchRepos. cbv zeta.
  destruct (getFromCache _ _ _ _) as [[cached|] store0] eqn:Hread; simpl.
  { exists []. by rewrite app_nil_r. }
  match goal with
  | |- context [reposPages _ _ fuel token org 1 [] ?w0] =>
      pose proof (reposPages_calls fuel token org 1 [] w0) as (_ & calls & Hc & Hall & Hp);
      destruct (reposPages source toLocaleTimeString fuel token org 1 [] w0)
        as [[repos|message|] w1]
  end; simpl in *; exists calls; (split; [done|]); (split; [done|]); (split; [done|]);
    by intros [? ?].
Qed.

(** X10. A refused first page: on a cache miss, when the answer to the
    first request is not a success, [fetchRepos] throws after that one
    request; the message names the cause for the statuses 401, 404 and
    403 (rate limit used up, or access forbidden) and quotes status and
    status text otherwise. *)
Theorem fetchRepos_refused fuel token org w dt r :
  (getFromCache (parse reposCodec) (lw_clock w) ("repos_" +:+ org) (lw_store w)).1 = None →
  source (lw_calls w) token org 1 = ListingResponds dt r →
  lr_ok r = false →
  (0 < fuel)%nat →
  let run := fetchRepos source fits toLocaleTimeString timestampOf reposCodec
               fuel token org w in
  (∃ message, run.1 = Throw message
     ∧ (lr_status r = 401 →
        message = "Invalid token. Please check your Personal Access Token."%string)
     ∧ (lr_status r = 404 →
        message = ("Organization " +:+ String "034" (org +:+ String "034" " not found."))%string)
     ∧ (lr_status r = 403 → lr_rateLimitRemaining r = Some "0"%string →
        message = ("Rate limit exceeded. Resets at "
                   +:+ toLocaleTimeString (default 0 (lr_rateLimitReset r) * 1000))%string)
     ∧ (lr_status r = 403 → lr_rateLimitRemaining r ≠ Some "0"%string →
        message = "Access forbidden. Check your token permissions."%string)
     ∧ (lr_status r ≠ 401 → lr_status r ≠ 404 → lr_status r ≠ 403 →
        message = ("Failed to fetch repos: " +:+ pretty (lr_status r)
                   +:+ " " +:+ lr_statusText r)%string))
  ∧ lw_calls run.2 = lw_calls w ++ [mkListingCall token org 1 (ListingResponds dt r)].
Proof.
  intros Hmiss Hsrc Hok Hfuel. cbv zeta. unfold fetchRepos. cbv zeta.
  destruct (getFromCache _ _ _ _) as [cached store0]. simpl in Hmiss. subst cached.
  destruct fuel as [|fuel]; [lia|]. simpl. rewrite Hsrc, Hok. simpl.
  split; [|done].
  exists (listingError toLocaleTimeString org r). split; [done|].
  unfold listingError. repeat split.
  - intros ->. done.
  - intros ->. done.
  - intros -> ->. done.
  - intros -> Hne. simpl. by rewrite bool_decide_eq_false_2.
  - intros H1 H2 H3.
    by rewrite (proj2 (Z.eqb_neq _ _) H1), (proj2 (Z.eqb_neq _ _) H2),
               (proj2 (Z.eqb_neq _ _) H3).
Qed.

(** The loop over pages that arrive as expected. *)
Lemma reposPages_pages token org (full : list (list RawRepo)) (last : list RawRepo) :
  ∀ fuel page repos w,
  Forall (fun data => (100 ≤ length data)%nat) full →
  (length last < 100)%nat →
  (∀ calls (i : nat) data, (full ++ [last]) !! i = Some data →
     ∃ dt r, source calls token org (page + Z.of_nat i) = ListingResponds dt r
             ∧ lr_ok r = true ∧ lr_body r = Some data) →
  (length full < fuel)%nat →
  let run := reposPages source toLocaleTimeString fuel token org page repos w in
  run.1 = Ok (repos ++ concat full ++ last)
  ∧ ∃ calls, lw_calls run.2 = lw_calls w ++ calls ∧ length calls = S (length full).
Proof.
  induction full as [|data full IH]; intros fuel page repos w Hfull Hlast Hsrc Hfuel.
  - destruct fuel as [|fuel]; [simpl in Hfuel; lia|]. simpl.
    destruct (Hsrc (lw_calls w) 0%nat last eq_refl) as (dt & r & Hout & Hok & Hbody).
    rewrite Z.add_0_r in Hout. rewrite Hout, Hok, Hbody. simpl.
    rewrite (proj2 (Nat.ltb_lt _ _) Hlast). simpl. split; [done|].
    by eexists [_].
  - destruct fuel as [|fuel]; [simpl in Hfuel; lia|]. simpl.
    destruct (Hsrc (lw_calls w) 0%nat data eq_refl) as (dt & r & Hout & Hok & Hbody).
    rewrite Z.add_0_r in Hout. rewrite Hout, Hok, Hbody. simpl.
    apply Forall_cons in Hfull as [Hdata Hfull].
    rewrite (proj2 (Nat.ltb_ge _ _) Hdata).
    match goal with
    | |- context [reposPages _ _ fuel token org (page + 1) ?r0 ?w0] =>
        destruct (IH fuel (page + 1) r0 w0) as (Hres & calls & Hc & Hn);
          [done|done| |simpl in Hfuel; lia|]
    end.
    { intros calls i d Hi.
      destruct (Hsrc calls (S i) d Hi) as (dt' & r' & Hout' & Hr').
      exists dt', r'. split; [|done]. rewrite <- Hout'. f_equal. lia. }
    cbv zeta in *. split; [by rewrite Hres, <- !app_assoc|].
    eexists (_ :: calls). split; [by rewrite Hc; simpl; rewrite <- app_assoc|].
    simpl. by rewrite Hn.
Qed.

(** X11. Pagination. On a cache miss, when the source answers the requests
    for the pages 1, 2, ..., n with success, every page but the last
    holding at least 100 repositories and the last fewer, [fetchRepos]
    returns the metadata of the repositories of all n pages, in order,
    after asking for exactly the pages 1 to n with the token it was
    given, and saves that list in the cache. *)
Theorem fetchRepos_pages token org (full : list (list RawRepo)) (last : list RawRepo)
    fuel w :
  (getFromCache (parse reposCodec) (lw_clock w) ("repos_" +:+ org) (lw_store w)).1 = None →
  Forall (fun data => (100 ≤ length data)%nat) full →
  (length last < 100)%nat →
  (∀ calls (i : nat) data, (full ++ [last]) !! i = Some data →
     ∃ dt r, source calls token org (1 + Z.of_nat i) = ListingResponds dt r
             ∧ lr_ok r = true ∧ lr_body r = Some data) →
  (length full < fuel)%nat →
  let run := fetchRepos source fits toLocaleTimeString timestampOf reposCodec
               fuel token org w in
  let listing := metadataOf <$> (concat full ++ last) in
  run.1 = Ok listing
  ∧ (∃ calls, lw_calls run.2 = lw_calls w ++ calls
              ∧ Forall (fun c => lc_token c = token ∧ lc_org c = org) calls
              ∧ lc_page <$> calls = seqZ 1 (Z.of_nat (length full) + 1))
  ∧ lw_store run.2 =
      saveToCache (stringify reposCodec) timestampOf fits (lw_clock run.2)
        ("repos_" +:+ org) listing
        (getFromCache (parse reposCodec) (lw_clock w) ("repos_" +:+ org) (lw_store w)).2.
Proof.
  intros Hmiss Hfull Hlast Hsrc Hfuel. cbv zeta.
  pose proof (fetchRepos_store fuel token org w) as Hstore.
  cbv zeta in Hstore. rewrite Hmiss in Hstore.
  unfold fetchRepos in *. cbv zeta in *.
  destruct (getFromCache _ _ _ _) as [cached store0]. simpl in Hmiss. subst cached.
  simpl in *.
  match goal with
  | |- context [reposPages _ _ fuel token org 1 [] ?w0] =>
      pose proof (reposPages_pages token org full last fuel 1 [] w0
                    Hfull Hlast Hsrc Hfuel) as (Hrun & calls' & Hc' & Hn);
      pose proof (reposPages_calls fuel token org 1 [] w0) as (_ & calls & Hc & Hall & Hpages);
      destruct (reposPages source toLocaleTimeString fuel token org 1 [] w0)
        as [res w1] eqn:Hloop
  end.
  cbv zeta in *. simpl in Hrun. subst res. simpl in *.
  split; [done|]. split; [|exact Hstore].
  exists calls. split; [done|]. split; [done|].
  rewrite Hc in Hc'. apply app_inv_head in Hc'. subst calls'.
  rewrite Hpages, Hn. f_equal. lia.
Qed.
End ListingFacts.

Section ListingCache.
Variable source : list ListingCall → string → string → Z → ListingOutcome.
Variable fits : gmap string string → bool.
Variable toLocaleTimeString : Z → string.
Variable timestampOf : string → option (option Z).
Variable reposCodec : Codec (list RepoMetadata).

End ListingCache.

(** A source that answers 401: the message is the one about the token. *)
Lemma fetchRepos_refused_witness :
  let run := fetchRepos unauthorizedSource (fun _ => true) sampleISO sampleTimestampOf
               nullCodec 5 "ghp_bad" "acme" freshListing in
  (∃ message, run.1 = Throw message
     ∧ (401 = 401 →
        message = "Invalid token. Please check your Personal Access Token."%string)
     ∧ (401 = 404 →
        message = ("Organization " +:+ String "034" ("acme" +:+ String "034" " not found."))%string)
     ∧ (401 = 403 → Some "59"%string = Some "0"%string →
        message = ("Rate limit exceeded. Resets at "
                   +:+ sampleISO (default 0 None * 1000))%string)
     ∧ (401 = 403 → Some "59"%string ≠ Some "0"%string →
        message = "Access forbidden. Check your token permissions."%string)
     ∧ (401 ≠ 401 → 401 ≠ 404 → 401 ≠ 403 →
        message = ("Failed to fetch repos: " +:+ pretty 401
                   +:+ " " +:+ "Unauthorized")%string))
  ∧ lw_calls run.2
    = lw_calls freshListing
      ++ [mkListingCall "ghp_bad" "acme" 1
            (unauthorizedSource [] "ghp_bad" "acme" 1)].
Proof.
  apply (fetchRepos_refused unauthorizedSource (fun _ => true) sampleISO sampleTimestampOf
           nullCodec 5 "ghp_bad" "acme" freshListing 100
           {| lr_status := 401; lr_statusText := "Unauthorized";
              lr_rateLimitRemaining := Some "59"%string; lr_rateLimitReset := None;
              lr_body := None |}).
  - reflexivity.
  - reflexivity.
  - reflexivity.
  - lia.
Defined.

(** The sample source: a full page and a page of two. *)
Lemma fetchRepos_pages_witness :
  let run := fetchRepos pagedSource (fun _ => true) sampleISO sampleTimestampOf
               nullCodec 5 "ghp_x" "acme" freshListing in
  let listing := metadataOf <$> (concat [sampleRawRepo <$> seqZ 0 100]
                                 ++ (sampleRawRepo <$> seqZ 100 2)) in
  run.1 = Ok listing
  ∧ (∃ calls, lw_calls run.2 = lw_calls freshListing ++ calls
              ∧ Forall (fun c => lc_token c = "ghp_x"%string ∧ lc_org c = "acme"%string) calls
              ∧ lc_page <$> calls = seqZ 1 (Z.of_nat (length [sampleRawRepo <$> seqZ 0 100]) + 1))
  ∧ lw_store run.2 =
      saveToCache (stringify nullCodec) sampleTimestampOf (fun _ => true) (lw_clock run.2)
        ("repos_" +:+ "acme") listing
        (getFromCache (parse (nullCodec (A:=list RepoMetadata))) (lw_clock freshListing)
           ("repos_" +:+ "acme") (lw_store freshListing)).2.
Proof.
  apply (fetchRepos_pages pagedSource (fun _ => true) sampleISO sampleTimestampOf
           nullCodec "ghp_x" "acme" [sampleRawRepo <$> seqZ 0 100]
           (sampleRawRepo <$> seqZ 100 2) 5 freshListing).
  - reflexivity.
  - constructor; [|constructor]. rewrite length_fmap, length_seqZ. lia.
  - rewrite length_fmap, length_seqZ. lia.
  - intros calls i data Hi. eexists _, _. split; [reflexivity|]. split; [reflexivity|].
    simpl. replace (Z.to_nat (1 + Z.of_nat i - 1)) with i by lia.
    change samplePages with ([sampleRawRepo <$> seqZ 0 100] ++ [sampleRawRepo <$> seqZ 100 2]).
    by rewrite Hi.
  - simpl. lia.
Defined.


(** ** The commit listing *)

Section CommitPages.
Variable net : list Event → string → Request → Outcome.
Variable fits : gmap string string → bool.
Variable toISOString : Z → string.
Variable timestampOf : string → option (option Z).
Variable commitsCodec : Codec (list Commit).
Variables (token org repoName defaultBranch : string) (sinceDate : option Z).

Let req (page : Z) : Request :=
  GetCommits org repoName (Some defaultBranch) page (toISOString <$> sinceDate).

Let loop (fuel : nat) (page : Z) (commits : list Commit) : M (list Commit) :=
  commitsLoop net toISOString fuel token org repoName defaultBranch sinceDate page commits.

(** One pass of the loop, given the answer to its request. *)
Lemma commitsLoop_step fuel page commits w dt r :
  pastLastPage sinceDate page = false →
  net (w_trace w) token (req page) = Responds dt r →
  loop (S fuel) page commits w =
    let w1 := {| w_store := w_store w; w_clock := w_clock w + dt;
                 w_trace := w_trace w ++ [EFetch token (req page) (Responds dt r)] |} in
    if negb (ok r) then (Ok commits, w1)
    else match body r with
         | BodyCommits data =>
             if (length data =? 0)%nat then (Ok commits, w1)
             else if (length data <? 100)%nat then (Ok (commits ++ attributed data), w1)
             else loop fuel (page + 1) (commits ++ attributed data) w1
         | _ => (Throw "Unexpected end of JSON input", w1)
         end.
Proof.
  intros Hpast Hnet. unfold loop. simpl. rewrite Hpast. munfold.
  unfold fetch. fold (req page). rewrite Hnet. cbv zeta.
  destruct (negb (ok r)); [done|].
  unfold jsonCommits. destruct (body r); try done. munfold.
  destruct (length data =? 0)%nat; [done|].
  by destruct (length data <? 100)%nat.
Qed.

Lemma attributed_app l1 l2 : attributed (l1 ++ l2) = attributed l1 ++ attributed l2.
Proof. apply omap_app. Qed.

Lemma pastLastPage_before page page' :
  page' ≤ page → pastLastPage sinceDate page = false → pastLastPage sinceDate page' = false.
Proof.
  unfold pastLastPage. destruct sinceDate; [|done].
  rewrite !Z.ltb_ge. lia.
Qed.

(** How a listing ends: with a failed request, or with a page of fewer
    than a hundred commits. *)
Let ends (r : Response) (last : list RawCommit) : Prop :=
  (ok r = false ∧ last = [])
  ∨ (ok r = true ∧ body r = BodyCommits last ∧ (length last < 100)%nat).

(** The loop over full pages, up to the answer that ends the listing. *)
Lemma commitsLoop_pages (full : list (list RawCommit)) (last : list RawCommit) dt r :
  ∀ fuel page commits w,
  Forall (fun data => (100 ≤ length data)%nat) full →
  (∀ tr (i : nat) data, full !! i = Some data →
     ∃ dt' r', net tr token (req (page + Z.of_nat i)) = Responds dt' r'
               ∧ ok r' = true ∧ body r' = BodyCommits data) →
  (∀ tr, net tr token (req (page + Z.of_nat (length full))) = Responds dt r) →
  ends r last →
  pastLastPage sinceDate (page + Z.of_nat (length full)) = false →
  (length full < fuel)%nat →
  ∃ outs w',
    loop fuel page commits w = (Ok (commits ++ attributed (concat full ++ last)), w')
    ∧ w_store w' = w_store w
    ∧ length outs = S (length full)
    ∧ w_trace w' = w_trace w
        ++ imap (fun i out => EFetch token (req (page + Z.of_nat i)) out) outs.
Proof.
  induction full as [|data full IH];
    intros fuel page commits w Hfull Hsrc Hlast Hends Hpast Hfuel.
  - destruct fuel as [|fuel]; [simpl in Hfuel; lia|].
    simpl in Hlast, Hpast. rewrite Z.add_0_r in Hlast, Hpast.
    rewrite (commitsLoop_step fuel page commits w dt r Hpast (Hlast _)). cbv zeta.
    eexists [Responds dt r], _. simpl. rewrite Z.add_0_r.
    destruct Hends as [[Hok ->]|(Hok & Hbody & Hlen)]; rewrite Hok; simpl.
    + split; [by rewrite app_nil_r|]. done.
    + rewrite Hbody. destruct (length last =? 0)%nat eqn:Hnil.
      * apply Nat.eqb_eq in Hnil. destruct last; [|done].
        split; [by rewrite app_nil_r|]. done.
      * rewrite (proj2 (Nat.ltb_lt _ _) Hlen). done.
  - destruct fuel as [|fuel]; [simpl in Hfuel; lia|].
    destruct (Hsrc (w_trace w) 0%nat data eq_refl) as (dt0 & r0 & Hout & Hok & Hbody).
    rewrite Z.add_0_r in Hout.
    apply Forall_cons in Hfull as [Hdata Hfull].
    assert (pastLastPage sinceDate page = false) as Hpast0.
    { eapply pastLastPage_before; [|exact Hpast]. lia. }
    rewrite (commitsLoop_step fuel page commits w dt0 r0 Hpast0 Hout). cbv zeta.
    rewrite Hok, Hbody. simpl negb. cbv iota.
    replace (length data =? 0)%nat with false by (symmetry; apply Nat.eqb_neq; lia).
    rewrite (proj2 (Nat.ltb_ge _ _) Hdata).
    match goal with
    | |- context [loop fuel (page + 1) ?c0 ?w0] =>
        destruct (IH fuel (page + 1) c0 w0) as (outs & w' & Hrun & Hst & Hn & Htr);
          [done| | | done | |simpl in Hfuel; lia|]
    end.
    { intros tr i d Hi. destruct (Hsrc tr (S i) d Hi) as (dt' & r' & Hout' & Hr').
      exists dt', r'. split; [|done]. rewrite <- Hout'. do 2 f_equal. lia. }
    { intros tr. rewrite <- (Hlast tr). do 2 f_equal. simpl. lia. }
    { rewrite <- Hpast. f_equal. simpl. lia. }
    exists (Responds dt0 r0 :: outs), w'. rewrite Hrun.
    split.
    { replace (concat (data :: full) ++ last) with (data ++ (concat full ++ last))
        by (simpl; by rewrite <- app_assoc).
      by rewrite (attributed_app data), (app_assoc commits). }
    split; [done|]. split; [simpl; by rewrite Hn|].
    rewrite Htr. simpl. rewrite <- app_assoc. simpl. rewrite Z.add_0_r.
    apply (f_equal (app (w_trace w))). apply (f_equal (cons _)).
    apply imap_ext. intros i out _. simpl. do 2 f_equal. lia.
Qed.

Let cacheKey : string := commitsCacheKey toISOString org repoName defaultBranch sinceDate.

(** From the loop to [fetchCommits], on a cache miss. *)
Lemma fetchCommits_of_loop fuel w commits w1 :
  (getFromCache (parse commitsCodec) (w_clock w) cacheKey (w_store w)).1 = None →
  loop fuel 1 []
    {| w_store := (getFromCache (parse commitsCodec) (w_clock w) cacheKey (w_store w)).2;
       w_clock := w_clock w; w_trace := w_trace w |} = (Ok commits, w1) →
  fetchCommits net fits toISOString timestampOf commitsCodec fuel token org repoName
    defaultBranch sinceDate w
  = (Ok commits,
     {| w_store := saveToCache (stringify commitsCodec) timestampOf fits (w_clock w1)
                     cacheKey commits (w_store w1);
        w_clock := w_clock w1; w_trace := w_trace w1 |}).
Proof.
  intros Hmiss Hloop. unfold fetchCommits. munfold. unfold cacheGet. fold cacheKey.
  destruct (getFromCache _ _ _ _) as [cached store0]. simpl in *. subst cached.
  unfold loop in Hloop. rewrite Hloop. done.
Qed.

Lemma pageCalls_eq outs :
  imap (fun i out => EFetch token (req (1 + Z.of_nat i)) out) outs
  = pageCalls token org repoName defaultBranch (toISOString <$> sinceDate) outs.
Proof.
  unfold pageCalls. apply imap_ext. intros i out _. unfold req. do 2 f_equal. lia.
Qed.

(** X13. Pagination of the commit listing. On a cache miss, when the
    source answers the pages 1, 2, ..., n with success, every page but the
    last holding at least a hundred commits and the last fewer, and page n
    is within the page limit, [fetchCommits] returns the commits of all n
    pages that have an author login, in order, after exactly n requests,
    and saves that list in the cache. *)
Theorem fetchCommits_pages (full : list (list RawCommit)) (last : list RawCommit)
    dt r fuel w :
  (getFromCache (parse commitsCodec) (w_clock w) cacheKey (w_store w)).1 = None →
  Forall (fun data => (100 ≤ length data)%nat) full →
  (∀ tr (i : nat) data, full !! i = Some data →
     ∃ dt' r', net tr token (req (1 + Z.of_nat i)) = Responds dt' r'
               ∧ ok r' = true ∧ body r' = BodyCommits data) →
  (∀ tr, net tr token (req (1 + Z.of_nat (length full))) = Responds dt r) →
  ok r = true → body r = BodyCommits last → (length last < 100)%nat →
  pastLastPage sinceDate (1 + Z.of_nat (length full)) = false →
  (length full < fuel)%nat →
  let commits := attributed (concat full ++ last) in
  ∃ outs w',
    fetchCommits net fits toISOString timestampOf commitsCodec fuel token org repoName
      defaultBranch sinceDate w = (Ok commits, w')
    ∧ length outs = S (length full)
    ∧ w_trace w' = w_trace w
        ++ pageCalls token org repoName defaultBranch (toISOString <$> sinceDate) outs
    ∧ w_store w' =
        saveToCache (stringify commitsCodec) timestampOf fits (w_clock w') cacheKey commits
          (getFromCache (parse commitsCodec) (w_clock w) cacheKey (w_store w)).2.
Proof.
  intros Hmiss Hfull Hsrc Hlast Hok Hbody Hlen Hpast Hfuel commits.
  match goal with
  | |- context [getFromCache ?p ?n ?k ?s] => set (read := getFromCache p n k s) in *
  end.
  destruct (commitsLoop_pages full last dt r fuel 1 []
              {| w_store := read.2; w_clock := w_clock w; w_trace := w_trace w |}
              Hfull Hsrc Hlast) as (outs & w1 & Hrun & Hst & Hn & Htr);
    [right; by repeat split|done|done|].
  exists outs. eexists.
  rewrite (fetchCommits_of_loop fuel w _ w1 Hmiss Hrun). simpl.
  split; [done|]. split; [done|]. split; [by rewrite Htr, pageCalls_eq|].
  by rewrite Hst.
Qed.

(** X14. A failed request ends the listing without an error. On a cache
    miss, when the pages 1 to n arrive full and the request for page n+1
    is answered with a status that is not a success, [fetchCommits]
    throws nothing: it returns the commits of the n pages it has, and
    saves them in the cache as the listing of the branch. *)
Theorem fetchCommits_failed_page_keeps_partial (full : list (list RawCommit))
    dt r fuel w :
  (getFromCache (parse commitsCodec) (w_clock w) cacheKey (w_store w)).1 = None →
  Forall (fun data => (100 ≤ length data)%nat) full →
  (∀ tr (i : nat) data, full !! i = Some data →
     ∃ dt' r', net tr token (req (1 + Z.of_nat i)) = Responds dt' r'
               ∧ ok r' = true ∧ body r' = BodyCommits data) →
  (∀ tr, net tr token (req (1 + Z.of_nat (length full))) = Responds dt r) →
  ok r = false →
  pastLastPage sinceDate (1 + Z.of_nat (length full)) = false →
  (length full < fuel)%nat →
  let commits := attributed (concat full) in
  ∃ outs w',
    fetchCommits net fits toISOString timestampOf commitsCodec fuel token org repoName
      defaultBranch sinceDate w = (Ok commits, w')
    ∧ length outs = S (length full)
    ∧ w_trace w' = w_trace w
        ++ pageCalls token org repoName defaultBranch (toISOString <$> sinceDate) outs
    ∧ w_store w' =
        saveToCache (stringify commitsCodec) timestampOf fits (w_clock w') cacheKey commits
          (getFromCache (parse commitsCodec) (w_clock w) cacheKey (w_store w)).2.
Proof.
  intros Hmiss Hfull Hsrc Hlast Hok Hpast Hfuel commits.
  match goal with
  | |- context [getFromCache ?p ?n ?k ?s] => set (read := getFromCache p n k s) in *
  end.
  destruct (commitsLoop_pages full [] dt r fuel 1 []
              {| w_store := read.2; w_clock := w_clock w; w_trace := w_trace w |}
              Hfull Hsrc Hlast) as (outs & w1 & Hrun & Hst & Hn & Htr);
    [by left|done|done|].
  rewrite app_nil_r in Hrun.
  exists outs. eexists.
  rewrite (fetchCommits_of_loop fuel w _ w1 Hmiss Hrun). simpl.
  split; [done|]. split; [done|]. split; [by rewrite Htr, pageCalls_eq|].
  by rewrite Hst.
Qed.
End CommitPages.

(** The sample source with its full first page and its second page of three
    commits: two requests, 103 commits. *)
Lemma fetchCommits_pages_witness :
  let commits := attributed (concat [rawCommitOf <$> seqZ 0 100]
                             ++ (rawCommitOf <$> seqZ 100 3)) in
  ∃ outs w',
    fetchCommits pagedNet (fun _ => true) sampleISO sampleTimestampOf nullCodec 11
      "ghp_x" "acme" "app" "main" (Some (cutoffMs sampleNow (Some 7))) freshWorld
    = (Ok commits, w')
    ∧ length outs = S (length [rawCommitOf <$> seqZ 0 100])
    ∧ w_trace w' = w_trace freshWorld
        ++ pageCalls "ghp_x" "acme" "app" "main"
             (sampleISO <$> Some (cutoffMs sampleNow (Some 7))) outs
    ∧ w_store w' =
        saveToCache (stringify nullCodec) sampleTimestampOf (fun _ => true) (w_clock w')
          (commitsCacheKey sampleISO "acme" "app" "main" (Some (cutoffMs sampleNow (Some 7))))
          commits
          (getFromCache (parse (nullCodec (A:=list Commit))) (w_clock freshWorld)
             (commitsCacheKey sampleISO "acme" "app" "main"
                (Some (cutoffMs sampleNow (Some 7))))
             (w_store freshWorld)).2.
Proof.
  apply (fetchCommits_pages pagedNet (fun _ => true) sampleISO sampleTimestampOf nullCodec
           "ghp_x" "acme" "app" "main" (Some (cutoffMs sampleNow (Some 7)))
           [rawCommitOf <$> seqZ 0 100] (rawCommitOf <$> seqZ 100 3) 100
           {| status := 200; rateLimitRemaining := Some "4000"%string;
              rateLimitReset := None;
              body := BodyCommits (rawCommitOf <$> seqZ 100 3) |} 11 freshWorld).
  - reflexivity.
  - constructor; [|constructor]. rewrite length_fmap, length_seqZ. lia.
  - intros tr i data Hi. destruct i as [|i]; [|discriminate Hi].
    injection Hi as <-. eexists _, _. split; [reflexivity|]. split; reflexivity.
  - intros tr. reflexivity.
  - reflexivity.
  - reflexivity.
  - rewrite length_fmap, length_seqZ. lia.
  - reflexivity.
  - simpl. lia.
Defined.

(** A source whose second page fails: the hundred commits of the first page
    are returned, and cached, as the whole listing. *)
Lemma fetchCommits_failed_page_keeps_partial_witness :
  let commits := attributed (concat [rawCommitOf <$> seqZ 0 100]) in
  ∃ outs w',
    fetchCommits halfNet (fun _ => true) sampleISO sampleTimestampOf nullCodec 11
      "ghp_x" "acme" "app" "main" None freshWorld
    = (Ok commits, w')
    ∧ length outs = S (length [rawCommitOf <$> seqZ 0 100])
    ∧ w_trace w' = w_trace freshWorld
        ++ pageCalls "ghp_x" "acme" "app" "main" (sampleISO <$> None) outs
    ∧ w_store w' =
        saveToCache (stringify nullCodec) sampleTimestampOf (fun _ => true) (w_clock w')
          (commitsCacheKey sampleISO "acme" "app" "main" None) commits
          (getFromCache (parse (nullCodec (A:=list Commit))) (w_clock freshWorld)
             (commitsCacheKey sampleISO "acme" "app" "main" None)
             (w_store freshWorld)).2.
Proof.
  apply (fetchCommits_failed_page_keeps_partial halfNet (fun _ => true) sampleISO
           sampleTimestampOf nullCodec "ghp_x" "acme" "app" "main" None
           [rawCommitOf <$> seqZ 0 100] 100
           {| status := 502; rateLimitRemaining := Some "4000"%string;
              rateLimitReset := None; body := BodyInvalid |} 11 freshWorld).
  - reflexivity.
  - constructor; [|constructor]. rewrite length_fmap, length_seqZ. lia.
  - intros tr i data Hi. destruct i as [|i]; [|discriminate Hi].
    injection Hi as <-. eexists _, _. split; [reflexivity|]. split; reflexivity.
  - intros tr. reflexivity.
  - reflexivity.
  - reflexivity.
  - simpl. lia.
Defined.

Section CommitPageCap.
Variable net : list Event → string → Request → Outcome.
Variable fits : gmap string string → bool.
Variable toISOString : Z → string.
Variable timestampOf : string → option (option Z).
Variable commitsCodec : Codec (list Commit).
Variables (token org repoName defaultBranch : string) (since : Z).

Lemma commitsLoop_capped fuel : ∀ page commits w,
  ∃ tr, w_trace (commitsLoop net toISOString fuel token org repoName defaultBranch
                   (Some since) page commits w).2 = w_trace w ++ tr
        ∧ Forall (fun ev => isCommitsPage ev = true) tr
        ∧ Z.of_nat (length tr) ≤ Z.max 0 (11 - page).
Proof.
  induction fuel as [|fuel IH]; intros page commits w; simpl.
  { exists []. rewrite app_nil_r. split; [done|]. split; [constructor|]. simpl. lia. }
  destruct (10 <? page) eqn:Hpage.
  { exists []. rewrite app_nil_r. split; [done|]. split; [constructor|]. simpl. lia. }
  apply Z.ltb_ge in Hpage. munfold. unfold fetch.
  set (rq := GetCommits org repoName (Some defaultBranch) page (Some (toISOString since))).
  assert (∀ (res : Result (list Commit)) w1 out,
            w_trace w1 = w_trace w ++ [EFetch token rq out] →
            ∃ tr, w_trace (res, w1).2 = w_trace w ++ tr
                  ∧ Forall (fun ev => isCommitsPage ev = true) tr
                  ∧ Z.of_nat (length tr) ≤ Z.max 0 (11 - page)) as Hone.
  { intros res w1 out Hw1. exists [EFetch token rq out]. split; [done|].
    split; [by repeat constructor|]. simpl. lia. }
  destruct (net (w_trace w) token rq) as [dt r|dt m] eqn:Hout; [|by eapply Hone].
  destruct (negb (ok r)); [by eapply Hone|].
  unfold jsonCommits. destruct (body r); try (by eapply Hone). munfold.
  destruct (length data =? 0)%nat; [by eapply Hone|].
  destruct (length data <? 100)%nat; [by eapply Hone|].
  match goal with
  | |- context [commitsLoop _ _ fuel _ _ _ _ _ (page + 1) ?c0 ?w0] =>
      destruct (IH (page + 1) c0 w0) as (tr & Htr & Hall & Hlen)
  end.
  exists (EFetch token rq (Responds dt r) :: tr). rewrite Htr. simpl.
  split; [by rewrite <- app_assoc|]. split; [by constructor|]. lia.
Qed.

(** X15. The page limit. With a time range, [fetchCommits] sends at most
    ten requests, all of them for pages of the commit listing, whatever
    the source answers, and then ends (with the commits it has, or with
    the error of a request that failed in transit): ten iterations of its
    loop are always enough. *)
Theorem fetchCommits_page_cap fuel w :
  (10 < fuel)%nat →
  let run := fetchCommits net fits toISOString timestampOf commitsCodec fuel token org
               repoName defaultBranch (Some since) w in
  run.1 ≠ OutOfFuel
  ∧ ∃ tr, w_trace run.2 = w_trace w ++ tr
          ∧ Forall (fun ev => isCommitsPage ev = true) tr
          ∧ (length tr ≤ 10)%nat.
Proof.
  intros Hfuel. cbv zeta. unfold fetchCommits. munfold. unfold cacheGet.
  destruct (getFromCache _ _ _ _) as [[cached|] store0]; simpl.
  { split; [done|]. exists []. rewrite app_nil_r.
    split; [done|]. split; [constructor|simpl; lia]. }
  match goal with
  | |- context [commitsLoop _ _ fuel _ _ _ _ _ 1 [] ?w0] =>
      pose proof (terminates_commitsLoop net toISOString fuel token org repoName
                    defaultBranch since 1 [] ltac:(lia) ltac:(lia) w0) as Hterm;
      destruct (commitsLoop_capped fuel 1 [] w0) as (tr & Htr & Hall & Hlen);
      destruct (commitsLoop net toISOString fuel token org repoName defaultBranch
                  (Some since) 1 [] w0) as [[commits|message|] w1]
  end; simpl in *; [| |done].
  - split; [done|]. exists tr. split; [done|]. split; [done|]. lia.
  - split; [done|]. exists tr. split; [done|]. split; [done|]. lia.
Qed.
End CommitPageCap.

Lemma fetchCommits_page_cap_witness :
  let run := fetchCommits pagedNet (fun _ => true) sampleISO sampleTimestampOf nullCodec 11
               "ghp_x" "acme" "app" "main" (Some (cutoffMs sampleNow (Some 7))) freshWorld in
  run.1 ≠ OutOfFuel
  ∧ ∃ tr, w_trace run.2 = w_trace freshWorld ++ tr
          ∧ Forall (fun ev => isCommitsPage ev = true) tr
          ∧ (length tr ≤ 10)%nat.
Proof.
  apply (fetchCommits_page_cap pagedNet (fun _ => true) sampleISO sampleTimestampOf nullCodec
           "ghp_x" "acme" "app" "main" (cutoffMs sampleNow (Some 7)) 11 freshWorld).
  lia.
Defined.

(** ** The reviews of a repository *)

Lemma truthyStr_Some s u : truthyStr s = Some u → s = Some u ∧ u ≠ EmptyString.
Proof.
  unfold truthyStr. destruct s as [s'|]; [|done].
  destruct (decide (s' = EmptyString)); [done|]. by intros [= <-].
Qed.

Section Upsert.
Context {K V : Type} `{EqDecision K}.

Lemma obj_alter_app_new (f : V → V) (k : K) (o o' : list (K * V)) :
  obj_get k o = None → obj_alter f k (o ++ o') = o ++ obj_alter f k o'.
Proof.
  induction o as [|[k0 v0] o IH]; simpl; [done|].
  destruct (decide (k0 = k)); [done|]. intros Hget. by rewrite IH.
Qed.

(** [if (!o[k]) o[k] = v] followed by an update of [o[k]]: what holds of
    every value before holds after, when the update keeps it and
    establishes it for the fresh value. *)
Lemma upsert_Forall (Q : K → V → Prop) (f : V → V) (k : K) (v : V) (o : list (K * V)) :
  (∀ x, Q k x → Q k (f x)) → Q k (f v) →
  Forall (fun p => Q p.1 p.2) o →
  Forall (fun p => Q p.1 p.2) (obj_alter f k (obj_ensure k v o)).
Proof.
  intros Hf Hv Ho. unfold obj_ensure. destruct (obj_get k o) eqn:Hget.
  - by apply obj_alter_Forall.
  - rewrite obj_alter_app_new by done. simpl. rewrite decide_True by done.
    apply Forall_app. split; [done|]. by constructor.
Qed.
End Upsert.

Lemma existsb_number (n : Z) (ps : list PrInfo) :
  existsb (fun p => bool_decide (pi_number p = n)) ps = true ↔ n ∈ pi_number <$> ps.
Proof.
  rewrite existsb_exists, list_elem_of_fmap. split.
  - intros (p & Hin & Hp). apply bool_decide_eq_true in Hp.
    exists p. split; [done|]. by apply list_elem_of_In.
  - intros (p & -> & Hin). exists p. split; [by apply list_elem_of_In|].
    by apply bool_decide_eq_true.
Qed.

Section ReviewShape.
Variable prs : list PullRequest.

Let wellFormed (rd : list (string * ReviewInfo)) : Prop :=
  NoDup rd.*1 ∧ Forall (fun p => p.1 ≠ EmptyString ∧ reviewOf prs p.2) rd.

Lemma recordReview_wellFormed pr rd review :
  pr ∈ prs → wellFormed rd → wellFormed (recordReview pr rd review).
Proof.
  intros Hpr [Hnd Hall]. unfold recordReview.
  destruct (truthyStr (rr_login review)) as [u|] eqn:Hu; [|done].
  apply truthyStr_Some in Hu as [_ Hu]. cbv zeta. split.
  { rewrite obj_alter_keys. by apply obj_ensure_NoDup. }
  apply (upsert_Forall (fun k v => k ≠ EmptyString ∧ reviewOf prs v)); [| |done].
  - intros [n|n ds ps] [_ Hri]; [done|]. split; [done|].
    destruct Hri as (Hone & Hps & Hds & Hdates & Hnum & Hfrom).
    destruct (existsb _ ps) eqn:Hex;
      destruct (truthyDate (rr_submitted_at review)) eqn:Hdate; simpl;
      rewrite ?length_app, ?Forall_app, ?fmap_app; simpl;
      repeat split; try done; try lia; try (by repeat constructor).
    all: try (apply NoDup_app; split; [done|]; split; [|apply NoDup_singleton];
              intros x Hx ->%list_elem_of_singleton;
              apply existsb_number in Hx; congruence).
    all: constructor; [|constructor]; by exists pr.
  - split; [done|]. simpl.
    destruct (truthyDate (rr_submitted_at review)) eqn:Hdate; simpl;
      repeat split; try done; try lia; try (by repeat constructor);
      try apply NoDup_singleton.
    all: constructor; [|constructor]; by exists pr.
Qed.
End ReviewShape.

Section ReviewRequests.
Variable net : list Event → string → Request → Outcome.
Variable fits : gmap string string → bool.
Variable toISOString : Z → string.
Variable timestampOf : string → option (option Z).
Variable reviewsCodec : Codec (list (string * ReviewInfo)).
Variables (token org repoName : string).

(** What [reviews.forEach] records is what its body records for the
    reviews before the first one that throws. *)
Lemma recordReviews_fold pr reviews : ∀ rd,
  ∃ recorded, recordReviews pr rd reviews = fold_left (recordReview pr) recorded rd.
Proof.
  induction reviews as [|review reviews IH]; intros rd; simpl.
  { by exists []. }
  destruct (truthyStr (rr_login review)) as [u|] eqn:Hu.
  - destruct (inherited u); [by exists []|].
    destruct (IH (recordReview pr rd review)) as (recorded & ->).
    by exists (review :: recorded).
  - destruct (IH rd) as (recorded & ->). by exists recorded.
Qed.

(** The body of the loop sends one request and never throws: it returns
    the map as it was, or with the reviews of the answer recorded. *)
Lemma reviewsOfPr_run rd pr w :
  ∃ out rd' w',
    reviewsOfPr net token org repoName rd pr w = (Ok rd', w')
    ∧ w_store w' = w_store w
    ∧ w_trace w' = w_trace w ++ [EFetch token (GetReviews org repoName (pr_number pr)) out]
    ∧ (rd' = rd ∨ ∃ reviews, rd' = fold_left (recordReview pr) reviews rd).
Proof.
  unfold reviewsOfPr. munfold. unfold fetch.
  destruct (net (w_trace w) token (GetReviews org repoName (pr_number pr)))
    as [dt r|dt m] eqn:Hout.
  - destruct (negb (ok r)).
    + eexists _, _, _. split; [done|]. simpl. split; [done|]. split; [done|]. by left.
    + unfold jsonReviews. destruct (body r) eqn:Hbody; munfold;
        eexists _, _, _; (split; [done|]); simpl; (split; [done|]); (split; [done|]);
        first [by left | right; apply recordReviews_fold].
  - eexists _, _, _. split; [done|]. simpl. split; [done|]. split; [done|]. by left.
Qed.

Lemma reviewsLoop_run prs : ∀ rd w,
  ∃ outs rd' w',
    reviewsLoop net token org repoName rd prs w = (Ok rd', w')
    ∧ w_store w' = w_store w
    ∧ length outs = length prs
    ∧ w_trace w' = w_trace w ++ reviewCalls token org repoName prs outs
    ∧ ∀ Inv : list (string * ReviewInfo) → Prop,
        (∀ pr rd0 review, pr ∈ prs → Inv rd0 → Inv (recordReview pr rd0 review)) →
        Inv rd → Inv rd'.
Proof.
  induction prs as [|pr prs IH]; intros rd w; simpl.
  { exists [], rd, w. munfold. split; [done|]. split; [done|]. split; [done|].
    split; [by rewrite app_nil_r|]. auto. }
  munfold.
  destruct (reviewsOfPr_run rd pr w) as (out & rd1 & w1 & Hrun & Hst & Htr & Hrd).
  rewrite Hrun.
  destruct (IH rd1 w1) as (outs & rd' & w' & Hloop & Hst' & Hn & Htr' & Hinv).
  exists (out :: outs), rd', w'. split; [done|]. split; [congruence|].
  split; [simpl; by rewrite Hn|].
  split; [rewrite Htr', Htr; simpl; by rewrite <- app_assoc|].
  intros Inv Hstep Hrd0. apply Hinv.
  - intros pr0 rd0 review Hin. apply Hstep. by right.
  - destruct Hrd as [->|[reviews ->]]; [done|].
    apply (fold_left_preserves Inv); [|done].
    intros rd0 review. apply Hstep. by left.
Qed.

(** X16. [fetchReviews] never throws. Served from the cache it sends
    nothing and returns the cached map; otherwise it sends exactly one
    request per pull request, for the first fifty pull requests it is
    given, in their order, and returns a map whatever the answers are
    (a failure in transit, by its status or by its body included). *)
Theorem fetchReviews_requests pullRequests sinceDate w :
  let read := getFromCache (parse reviewsCodec) (w_clock w)
                (reviewsCacheKey toISOString org repoName sinceDate) (w_store w) in
  ∃ reviewData outs w',
    fetchReviews net fits toISOString timestampOf reviewsCodec token org repoName
      pullRequests sinceDate w = (Ok reviewData, w')
    ∧ w_trace w' = w_trace w
        ++ reviewCalls token org repoName (take 50 pullRequests) outs
    ∧ match read.1 with
      | Some cached => reviewData = cached ∧ outs = []
      | None => length outs = length (take 50 pullRequests)
      end.
Proof.
  cbv zeta. unfold fetchReviews. munfold. unfold cacheGet.
  destruct (getFromCache _ _ _ _) as [[cached|] store0]; simpl.
  { exists cached, []. eexists. split; [done|]. simpl.
    split; [|done]. unfold reviewCalls. by rewrite zip_with_nil_r, app_nil_r. }
  match goal with
  | |- context [reviewsLoop _ _ _ _ [] _ ?w0] =>
      destruct (reviewsLoop_run (take 50 pullRequests) [] w0)
        as (outs & rd' & w' & Hloop & _ & Hn & Htr & _)
  end.
  rewrite Hloop. exists rd', outs. eexists. split; [done|]. simpl. by split.
Qed.

(** X17. The map [fetchReviews] builds. On a cache miss every login of
    the result is non-empty and appears once, and its value is an object
    [{ count, submitted_at, prs }] with at least one review; [prs] lists
    each reviewed pull request once, all of them among the first fifty
    pull requests given, and neither [prs] nor [submitted_at] is longer
    than [count] (a review without a submission date is counted but
    leaves no date). *)
Theorem fetchReviews_shape pullRequests sinceDate w :
  (getFromCache (parse reviewsCodec) (w_clock w)
     (reviewsCacheKey toISOString org repoName sinceDate) (w_store w)).1 = None →
  ∃ reviewData w',
    fetchReviews net fits toISOString timestampOf reviewsCodec token org repoName
      pullRequests sinceDate w = (Ok reviewData, w')
    ∧ NoDup reviewData.*1
    ∧ Forall (fun p => p.1 ≠ EmptyString ∧ reviewOf (take 50 pullRequests) p.2) reviewData.
Proof.
  intros Hmiss. unfold fetchReviews. munfold. unfold cacheGet.
  destruct (getFromCache _ _ _ _) as [cached store0]. simpl in Hmiss. subst cached. simpl.
  match goal with
  | |- context [reviewsLoop _ _ _ _ [] _ ?w0] =>
      destruct (reviewsLoop_run (take 50 pullRequests) [] w0)
        as (outs & rd' & w' & Hloop & _ & _ & _ & Hinv)
  end.
  rewrite Hloop. exists rd'. eexists. split; [done|].
  apply (Hinv (fun rd => NoDup rd.*1
                         ∧ Forall (fun p => p.1 ≠ EmptyString
                                            ∧ reviewOf (take 50 pullRequests) p.2) rd)).
  - intros pr rd0 review Hpr Hrd0.
    by apply (recordReview_wellFormed (take 50 pullRequests)).
  - split; [apply NoDup_nil_2|constructor].
Qed.
End ReviewRequests.

(** Two pull requests, each with two reviews by carol, one of them
    pending: carol's entry counts four reviews, two dates and both pull
    requests. *)
Lemma fetchReviews_shape_witness :
  ∃ reviewData w',
    fetchReviews pagedNet (fun _ => true) sampleISO sampleTimestampOf nullCodec
      "ghp_x" "acme" "app" [samplePull 7; samplePull 9] None freshWorld = (Ok reviewData, w')
    ∧ NoDup reviewData.*1
    ∧ Forall (fun p => p.1 ≠ EmptyString
                       ∧ reviewOf (take 50 [samplePull 7; samplePull 9]) p.2) reviewData.
Proof.
  apply (fetchReviews_shape pagedNet (fun _ => true) sampleISO sampleTimestampOf nullCodec
           "ghp_x" "acme" "app" [samplePull 7; samplePull 9] None freshWorld).
  reflexivity.
Defined.

Example fetchReviews_sample :
  (fetchReviews pagedNet (fun _ => true) sampleISO sampleTimestampOf nullCodec
     "ghp_x" "acme" "app" [samplePull 7; samplePull 9] None freshWorld).1
  = Ok [("carol"%string,
         ReviewObj 4 [Iso (sampleNow - 86400000); Iso (sampleNow - 86400000)]
           [ {| pi_number := 7; pi_title := "PR #7"; pi_url := None |};
             {| pi_number := 9; pi_title := "PR #9"; pi_url := None |} ])].
Proof. vm_compute. reflexivity. Qed.

(** ** Statistics rebuilt from the commit listing *)

Section UpsertSum.
Context {K V : Type} `{EqDecision K}.
Variables (m : V → Z) (g : V → V) (d : Z).
Hypothesis m_g : ∀ x, m (g x) = m x + d.

Lemma sumZ_alter (k : K) (o : list (K * V)) x :
  obj_get k o = Some x →
  sumZ (m <$> (snd <$> obj_alter g k o)) = sumZ (m <$> (snd <$> o)) + d.
Proof.
  induction o as [|[k0 v0] o IH]; simpl; [done|].
  destruct (decide (k0 = k)) as [->|Hne]; csimpl.
  - intros _. unfold sumZ. simpl. rewrite m_g. lia.
  - intros Hget. unfold sumZ in *. simpl. rewrite (IH Hget). lia.
Qed.

(** An update of [o[k]], created with a value of measure 0 when missing,
    adds [d] to the sum of the measures. *)
Lemma sumZ_upsert (k : K) (z : V) (o : list (K * V)) :
  m z = 0 →
  sumZ (m <$> (snd <$> obj_alter g k (obj_ensure k z o)))
  = sumZ (m <$> (snd <$> o)) + d.
Proof.
  intros Hz. unfold obj_ensure. destruct (obj_get k o) as [x|] eqn:Hget.
  - by eapply sumZ_alter.
  - rewrite obj_alter_app_new by done. simpl. rewrite decide_True by done.
    rewrite !fmap_app, sumZ_app. unfold sumZ at 2. simpl. rewrite m_g, Hz. lia.
Qed.
End UpsertSum.

Section Tally.
Variable zone : TimeZone.
Variable commitStats : list (string * LineStats).

(** What [tallyCommit] keeps of every value of [authorMap]. *)
Let tallied (login : string) (e : AuthorEntry) : Prop :=
  ae_login e = login ∧ login ≠ EmptyString
  ∧ 1 ≤ ae_total e
  ∧ sumZ (t_c <$> (snd <$> ae_weeks e)) = ae_total e
  ∧ Forall (fun p : option Z * Tally => 1 ≤ t_c p.2) (ae_weeks e).

Lemma tallyCommit_tallied authorMap commit authorMap' :
  NoDup authorMap.*1 ∧ Forall (fun p => tallied p.1 p.2) authorMap →
  tallyCommit zone commitStats authorMap commit = Ok authorMap' →
  NoDup authorMap'.*1 ∧ Forall (fun p => tallied p.1 p.2) authorMap'.
Proof.
  intros [Hnd Hall]. unfold tallyCommit.
  destruct (truthyStr (rc_login commit)) as [login|] eqn:Hlogin; [|by intros [= <-]].
  apply truthyStr_Some in Hlogin as [_ Hlogin]. cbv zeta.
  destruct (inherited login); [done|]. intros [= <-]. split.
  { rewrite obj_alter_keys. by apply obj_ensure_NoDup. }
  set (weekTs := weekTsOf zone _).
  set (bump := fun t : Tally => {| t_c := t_c t + 1; t_a := _; t_d := _ |}).
  assert (∀ x : Tally, t_c (bump x) = t_c x + 1) as Hbump by done.
  apply (upsert_Forall tallied); [| |done].
  - intros e (Hl & Hne & Htot & Hs & Hw). unfold tallied. simpl.
    split; [done|]. split; [done|]. split; [lia|]. split.
    + rewrite (sumZ_upsert t_c bump 1 Hbump) by done. lia.
    + apply (upsert_Forall (fun _ t => 1 ≤ t_c t)); [| |done]; simpl; intros; lia.
  - unfold tallied. cbn [ae_login ae_total ae_weeks].
    split; [done|]. split; [done|]. split; [lia|]. split.
    + by rewrite (sumZ_upsert t_c bump 1 Hbump).
    + apply (upsert_Forall (fun _ t => 1 ≤ t_c t)); [| |constructor]; simpl; intros; lia.
Qed.

(** The loop over the commits returns when no login names an inherited
    property, and a throw is the throw of such a login. *)
Lemma tallyCommits_plain commits authorMap :
  Forall (fun c => plainLogin (rc_login c) = true) commits →
  ∃ authorMap', foldResult (tallyCommit zone commitStats) commits authorMap = Ok authorMap'.
Proof.
  intros Hall. revert authorMap.
  induction Hall as [|c commits Hc _ IH]; intros authorMap; simpl; [by eexists|].
  unfold tallyCommit at 1. unfold plainLogin in Hc.
  destruct (truthyStr (rc_login c)) as [login|]; simpl; [|apply IH].
  cbv zeta. destruct (inherited login); [done|]. simpl. apply IH.
Qed.

Lemma tallyCommits_throw commits authorMap message :
  foldResult (tallyCommit zone commitStats) commits authorMap = Throw message →
  ∃ commit login,
    commit ∈ commits ∧ truthyStr (rc_login commit) = Some login
    ∧ inherited login = true
    ∧ message = readingUndefined
                  (keyOfNum (weekTsOf zone
                               (getTime (orDate (rc_author_date commit)
                                                (rc_committer_date commit))))).
Proof.
  intros Hthrow. apply foldResult_Throw_inv in Hthrow as (am & commit & Hin & Hthrow).
  unfold tallyCommit in Hthrow.
  destruct (truthyStr (rc_login commit)) as [login|] eqn:Hlogin; [|done].
  cbv zeta in Hthrow. destruct (inherited login) eqn:Hinh; [|done].
  injection Hthrow as <-. by exists commit, login.
Qed.

Lemma tallyCommits_ends commits authorMap :
  foldResult (tallyCommit zone commitStats) commits authorMap ≠ OutOfFuel.
Proof.
  apply foldResult_ends. intros am c. unfold tallyCommit.
  destruct (truthyStr _); [|done]. cbv zeta. by destruct (inherited _).
Qed.

Lemma contributorOf_weeks e :
  Forall (fun p : option Z * Tally => 1 ≤ t_c p.2) (ae_weeks e) →
  sumZ (sw_c <$> ct_weeks (contributorOf e)) = sumZ (t_c <$> (snd <$> ae_weeks e))
  ∧ Forall (fun wk => 1 ≤ sw_c wk) (ct_weeks (contributorOf e)).
Proof.
  intros Hw. unfold contributorOf. simpl.
  set (conv := fun p : option Z * Tally =>
                 {| sw_w := p.1; sw_a := t_a p.2; sw_d := t_d p.2; sw_c := t_c p.2 |}).
  set (entries := obj_entries numIndex (ae_weeks e)).
  assert (Forall (fun wk => 1 ≤ sw_c wk) (conv <$> entries)) as Hall.
  { apply Forall_fmap. unfold entries.
    rewrite (obj_entries_Permutation numIndex (ae_weeks e)).
    eapply Forall_impl; [exact Hw|]. done. }
  rewrite filter_all.
  2:{ eapply Forall_impl; [exact Hall|]. intros wk Hwk. cbv beta in *.
      apply Is_true_true. unfold activeWeek.
      apply orb_true_iff. right. apply Z.ltb_lt. lia. }
  split.
  - rewrite (sumZ_Permutation _ _ (fmap_Permutation _ _ _ (js_sort_Permutation _ _))).
    rewrite <- !list_fmap_compose. apply sumZ_Permutation, fmap_Permutation.
    apply obj_entries_Permutation.
  - by rewrite (js_sort_Permutation _ (conv <$> entries)).
Qed.

(** The statistics built from a list of commits. *)
Lemma tally_stats commits authorMap :
  foldResult (tallyCommit zone commitStats) commits [] = Ok authorMap →
  let stats := contributorOf <$> (snd <$> obj_entries strIndex authorMap) in
  NoDup (ct_login <$> stats)
  ∧ Forall (fun c => (∃ login, ct_login c = Some login ∧ login ≠ EmptyString)
                     ∧ 1 ≤ ct_total c
                     ∧ sumZ (sw_c <$> ct_weeks c) = ct_total c
                     ∧ Forall (fun wk => 1 ≤ sw_c wk) (ct_weeks c)) stats.
Proof.
  intros Hfold. cbv zeta.
  assert (NoDup authorMap.*1 ∧ Forall (fun p => tallied p.1 p.2) authorMap) as [Hnd Hall].
  { apply (foldResult_preserves
             (fun am : list (string * AuthorEntry) =>
                NoDup am.*1 ∧ Forall (fun p => tallied p.1 p.2) am)
             (tallyCommit zone commitStats) commits [] authorMap); [| |done].
    - intros am c am' Ham Hstep. by eapply tallyCommit_tallied.
    - split; [apply NoDup_nil_2|constructor]. }
  set (entries := obj_entries strIndex authorMap).
  assert (Forall (fun p => tallied p.1 p.2) entries) as Hent.
  { unfold entries. by rewrite (obj_entries_Permutation strIndex authorMap). }
  split.
  - rewrite <- !list_fmap_compose.
    assert ((ct_login ∘ contributorOf ∘ snd) <$> entries = Some <$> (fst <$> entries)) as ->.
    { rewrite <- list_fmap_compose. apply Forall_fmap_ext_1.
      eapply Forall_impl; [exact Hent|]. intros [k e] (Hl & _). simpl in *. by rewrite Hl. }
    apply NoDup_fmap_2; [apply _|]. unfold entries.
    by rewrite (obj_entries_Permutation strIndex authorMap).
  - rewrite <- list_fmap_compose. apply Forall_fmap.
    eapply Forall_impl; [exact Hent|].
    intros [k e] (Hl & Hne & Htot & Hs & Hw). unfold compose. cbn [fst snd] in *.
    destruct (contributorOf_weeks e Hw) as [Hsum Hweeks].
    split; [exists k; split; [simpl; by rewrite Hl|done]|].
    split; [exact Htot|]. split; [|exact Hweeks]. rewrite Hsum. exact Hs.
Qed.
End Tally.

Section Fallback.
Variable net : list Event → string → Request → Outcome.
Variable fits : gmap string string → bool.
Variable zone : TimeZone.
Variable toISOString : Z → string.
Variable toLocaleTimeString : Z → string.
Variable timestampOf : string → option (option Z).
Variable statsCodec : Codec (list Contributor).
Variable yearBefore : Z → Z.
Variables (token org repoName : string).

Lemma recentPage_run since page w :
  ∃ out data w',
    recentPage net token org repoName since page w = (Ok data, w')
    ∧ w_store w' = w_store w
    ∧ w_trace w' = w_trace w
        ++ [EFetch token (GetCommits org repoName None page (Some since)) out]
    ∧ out = net (w_trace w) token (GetCommits org repoName None page (Some since))
    ∧ ∀ d, data = Some d → ∃ dt r, out = Responds dt r ∧ body r = BodyCommits d.
Proof.
  unfold recentPage. munfold. unfold fetch.
  destruct (net (w_trace w) token (GetCommits org repoName None page (Some since)))
    as [dt r|dt m] eqn:Hout.
  - destruct (negb (ok r)); [by eexists _, None, _|].
    unfold jsonCommits. destruct (body r) eqn:Hbody; munfold; try (by eexists _, None, _).
    destruct (length data =? 0)%nat; [by eexists _, None, _|].
    eexists _, (Some data), _. split; [done|]. split; [done|]. split; [done|].
    split; [done|]. intros d [= <-]. by exists dt, r.
  - by eexists _, None, _.
Qed.

Lemma recentCommits_run pagesLeft since : ∀ page commits w,
  ∃ added tr w',
    recentCommits net pagesLeft token org repoName since page commits w
    = (Ok (commits ++ added), w')
    ∧ w_store w' = w_store w
    ∧ w_trace w' = w_trace w ++ tr
    ∧ Forall (fun ev => isCommitsPage ev = true) tr
    ∧ (length tr ≤ pagesLeft)%nat
    ∧ Forall (commitListed tr) added
    ∧ ∀ P : RawCommit → Prop,
        (∀ tr0 req dt r data, net tr0 token req = Responds dt r →
           body r = BodyCommits data → Forall P data) →
        Forall P added.
Proof.
  induction pagesLeft as [|n IH]; intros page commits w; simpl.
  { exists [], [], w. munfold. rewrite !app_nil_r.
    split; [done|]. split; [done|]. split; [done|]. split; [constructor|].
    split; [done|]. split; [constructor|]. intros; constructor. }
  munfold.
  destruct (recentPage_run since page w) as (out & data & w1 & Hrun & Hst & Htr & Hout & Hdata).
  rewrite Hrun.
  destruct data as [data|].
  2:{ exists [], [EFetch token (GetCommits org repoName None page (Some since)) out], w1.
      rewrite app_nil_r. split; [done|]. split; [done|]. split; [done|].
      split; [by repeat constructor|]. split; [simpl; lia|].
      split; [constructor|]. intros; constructor. }
  destruct (Hdata data eq_refl) as (dt & r & -> & Hbody).
  assert (Forall (commitListed
                    [EFetch token (GetCommits org repoName None page (Some since))
                       (Responds dt r)]) data) as Hlisted.
  { apply Forall_forall. intros c Hc.
    exists token, (GetCommits org repoName None page (Some since)), dt, r, data.
    split; [apply list_elem_of_singleton; done|done]. }
  destruct (length data <? 100)%nat.
  { exists data, [EFetch token (GetCommits org repoName None page (Some since))
                    (Responds dt r)], w1.
    split; [done|]. split; [done|]. split; [done|].
    split; [by repeat constructor|]. split; [simpl; lia|]. split; [done|].
    intros P HP. by eapply HP. }
  destruct (IH (page + 1) (commits ++ data) w1)
    as (added & tr & w' & Hloop & Hst' & Htr' & Hall & Hlen & Hadded & HaddedP).
  rewrite Hloop.
  exists (data ++ added),
         (EFetch token (GetCommits org repoName None page (Some since)) (Responds dt r) :: tr),
         w'.
  split; [by rewrite app_assoc|].
  split; [congruence|]. split; [rewrite Htr', Htr; by rewrite <- app_assoc|].
  split; [by constructor|]. split; [simpl; lia|]. split.
  - apply Forall_app. split.
    + eapply Forall_impl; [exact Hlisted|].
      intros c (tok & req & dt0 & r0 & d0 & Hin & Hb & Hc).
      exists tok, req, dt0, r0, d0. split; [|done].
      apply list_elem_of_singleton in Hin as ->. by left.
    + eapply Forall_impl; [exact Hadded|].
      intros c (tok & req & dt0 & r0 & d0 & Hin & Hb & Hc).
      exists tok, req, dt0, r0, d0. split; [by right|done].
  - intros P HP. apply Forall_app. split; [by eapply HP|by apply HaddedP].
Qed.

Lemma commitDetail_run commitStats commit w :
  ∃ out commitStats' w',
    commitDetail net token org repoName commitStats commit w = (Ok commitStats', w')
    ∧ w_store w' = w_store w
    ∧ w_trace w' = w_trace w ++ [EFetch token (GetCommit org repoName (rc_sha commit)) out].
Proof.
  unfold commitDetail. munfold. unfold fetch.
  destruct (net (w_trace w) token (GetCommit org repoName (rc_sha commit)))
    as [dt r|dt m] eqn:Hout.
  - destruct (ok r); [|by eexists _, _, _].
    unfold jsonCommit. destruct (body r) eqn:Hbody; munfold; try (by eexists _, _, _).
    destruct stats as [[a d]|]; by eexists _, _, _.
  - by eexists _, _, _.
Qed.

Lemma commitDetails_run commits : ∀ commitStats w,
  ∃ commitStats' tr w',
    commitDetails net token org repoName commitStats commits w = (Ok commitStats', w')
    ∧ w_store w' = w_store w
    ∧ w_trace w' = w_trace w ++ tr
    ∧ Forall (fun ev => isCommitDetail ev = true) tr
    ∧ length tr = length commits.
Proof.
  induction commits as [|commit commits IH]; intros commitStats w; simpl.
  { exists commitStats, [], w. munfold. rewrite app_nil_r.
    split; [done|]. split; [done|]. split; [done|]. split; [constructor|done]. }
  munfold.
  destruct (commitDetail_run commitStats commit w) as (out & cs1 & w1 & Hrun & Hst & Htr).
  rewrite Hrun.
  destruct (IH cs1 w1) as (cs' & tr & w' & Hloop & Hst' & Htr' & Hall & Hlen).
  rewrite Hloop. eexists cs', (_ :: tr), w'. split; [done|].
  split; [congruence|]. split; [rewrite Htr', Htr; by rewrite <- app_assoc|].
  split; [by constructor|]. simpl. by rewrite Hlen.
Qed.

Let cacheKey : string := "commits_stats_v2_" +:+ org +:+ "_" +:+ repoName.

(** The fallback on a cache miss: the requests it sends, and then the
    loop over the commits, which decides between statistics and a
    throw. *)
Lemma fetchCommitsAsStats_miss w :
  (getFromCache (parse statsCodec) (w_clock w) cacheKey (w_store w)).1 = None →
  ∃ commits commitStats pages details w0,
    w_trace w0 = w_trace w ++ pages ++ details
    ∧ Forall (fun ev => isCommitsPage ev = true) pages ∧ (length pages ≤ 3)%nat
    ∧ Forall (fun ev => isCommitDetail ev = true) details ∧ (length details ≤ 50)%nat
    ∧ Forall (commitListed pages) commits
    ∧ (∀ P : RawCommit → Prop,
         (∀ tr0 req dt r data, net tr0 token req = Responds dt r →
            body r = BodyCommits data → Forall P data) →
         Forall P commits)
    ∧ fetchCommitsAsStats net fits zone toISOString timestampOf statsCodec yearBefore
        token org repoName w
      = match foldResult (tallyCommit zone commitStats) commits [] with
        | Ok authorMap =>
            let stats := contributorOf <$> (snd <$> obj_entries strIndex authorMap) in
            (Ok stats,
             {| w_store := saveToCache (stringify statsCodec) timestampOf fits (w_clock w0)
                             cacheKey stats (w_store w0);
                w_clock := w_clock w0; w_trace := w_trace w0 |})
        | Throw message => (Throw message, w0)
        | OutOfFuel => (OutOfFuel, w0)
        end.
Proof.
  intros Hmiss. unfold fetchCommitsAsStats. munfold. unfold cacheGet, dateNow, liftResult.
  fold cacheKey.
  destruct (getFromCache _ _ _ _) as [cached store0]. simpl in Hmiss. subst cached.
  cbn [fst snd w_store w_clock w_trace].
  match goal with
  | |- context [recentCommits _ 3 _ _ _ ?since 1 [] ?w0] =>
      destruct (recentCommits_run 3 since 1 [] w0)
        as (commits & pages & w1 & Hrun & Hst & Htr & Hpages & Hn & Hlisted & HlistedP)
  end.
  rewrite Hrun. cbn [app] in *.
  destruct (commitDetails_run (take 50 commits) [] w1)
    as (cs & details & w2 & Hrun2 & Hst2 & Htr2 & Hdetails & Hn2).
  rewrite Hrun2. unfold cachePut.
  exists commits, cs, pages, details, w2.
  split; [rewrite Htr2, Htr; by rewrite <- app_assoc|].
  split; [done|]. split; [done|]. split; [done|].
  split; [rewrite Hn2, length_take; lia|].
  split; [done|]. split; [done|].
  by destruct (foldResult _ _ _).
Qed.

(** X18. The fallback is bounded, and it throws in one case only.
    Whatever the source answers, [fetchCommitsAsStats] sends at most
    three requests for pages of the commit listing, followed by at most
    fifty for the details of single commits, and ends. When it throws,
    a commit of a page it fetched has an author login that names a
    property every object inherits (such as [constructor]). *)
Theorem fetchCommitsAsStats_bounded w :
  let run := fetchCommitsAsStats net fits zone toISOString timestampOf statsCodec
               yearBefore token org repoName w in
  ∃ pages details,
    w_trace run.2 = w_trace w ++ pages ++ details
    ∧ Forall (fun ev => isCommitsPage ev = true) pages ∧ (length pages ≤ 3)%nat
    ∧ Forall (fun ev => isCommitDetail ev = true) details ∧ (length details ≤ 50)%nat
    ∧ run.1 ≠ OutOfFuel
    ∧ ∀ message, run.1 = Throw message →
        ∃ commit login,
          commitListed pages commit
          ∧ truthyStr (rc_login commit) = Some login ∧ inherited login = true.
Proof.
  cbv zeta.
  destruct (getFromCache (parse statsCodec) (w_clock w) cacheKey (w_store w)).1
    as [cached|] eqn:Hread.
  - unfold fetchCommitsAsStats. munfold. unfold cacheGet. fold cacheKey.
    destruct (getFromCache _ _ _ _) as [c store0]. simpl in Hread. subst c. simpl.
    exists [], []. rewrite app_nil_r.
    split; [done|]. split; [constructor|]. split; [simpl; lia|]. split; [constructor|].
    split; [simpl; lia|]. done.
  - destruct (fetchCommitsAsStats_miss w Hread)
      as (commits & cs & pages & details & w0 & Htr & Hp & Hnp & Hd & Hnd & Hlisted & _ & ->).
    exists pages, details.
    pose proof (tallyCommits_ends zone cs commits []) as Hends.
    destruct (foldResult (tallyCommit zone cs) commits []) as [authorMap|message|] eqn:Hfold;
      [| |done]; cbn [fst snd w_trace].
    + split; [done|]. split; [done|]. split; [done|]. split; [done|]. split; [done|]. done.
    + split; [done|]. split; [done|]. split; [done|]. split; [done|]. split; [done|].
      split; [done|]. intros ? [= <-].
      apply tallyCommits_throw in Hfold as (commit & login & Hin & Hlogin & Hinh & _).
      exists commit, login. split; [|done].
      rewrite Forall_forall in Hlisted. by apply Hlisted.
Qed.

(** X19. The statistics the fallback builds. On a cache miss the fallback
    ends; it returns statistics when no commit the source lists has an
    author login that names a property every object inherits; and in
    whatever statistics it returns every contributor has a non-empty
    login, no login appears twice, every week listed has at least one
    commit, and the commits of the weeks add up to the contributor's
    [total]. *)
Theorem fetchCommitsAsStats_totals w :
  (getFromCache (parse statsCodec) (w_clock w) cacheKey (w_store w)).1 = None →
  let run := fetchCommitsAsStats net fits zone toISOString timestampOf statsCodec
               yearBefore token org repoName w in
  run.1 ≠ OutOfFuel
  ∧ ((∀ tr req dt r data,
        net tr token req = Responds dt r → body r = BodyCommits data →
        Forall (fun c => plainLogin (rc_login c) = true) data) →
     ∃ stats, run.1 = Ok stats)
  ∧ ∀ stats, run.1 = Ok stats →
      NoDup (ct_login <$> stats)
      ∧ Forall (fun c => (∃ login, ct_login c = Some login ∧ login ≠ EmptyString)
                         ∧ 1 ≤ ct_total c
                         ∧ sumZ (sw_c <$> ct_weeks c) = ct_total c
                         ∧ Forall (fun wk => 1 ≤ sw_c wk) (ct_weeks c)) stats.
Proof.
  intros Hmiss. cbv zeta.
  destruct (fetchCommitsAsStats_miss w Hmiss)
    as (commits & cs & pages & details & w0 & _ & _ & _ & _ & _ & _ & HlistedP & ->).
  pose proof (tallyCommits_ends zone cs commits []) as Hends.
  split; [|split].
  - by destruct (foldResult (tallyCommit zone cs) commits []).
  - intros Hplain.
    destruct (tallyCommits_plain zone cs commits [] (HlistedP _ Hplain)) as (authorMap & Hfold).
    rewrite Hfold. by eexists.
  - intros stats.
    destruct (foldResult (tallyCommit zone cs) commits []) as [authorMap| |] eqn:Hfold;
      [|done..].
    cbv zeta. cbn [fst]. intros [= <-]. by apply (tally_stats zone cs commits).
Qed.

(** *** The statistics endpoint *)

Lemma minimalStats_shape data :
  Forall (fun c => is_Some (truthyStr (ct_login c))
                   ∧ (length (ct_weeks c) ≤ 52)%nat
                   ∧ Forall (fun wk => activeWeek wk = true) (ct_weeks c))
         (minimalStats data).
Proof.
  unfold minimalStats. apply Forall_forall. intros c Hc.
  apply list_elem_of_filter in Hc as [Hlogin Hc].
  apply list_elem_of_fmap in Hc as (raw & -> & _). simpl in *.
  split; [done|]. unfold minimalWeeks. cbv zeta. split.
  - etransitivity; [apply length_filter|].
    rewrite length_fmap, length_drop. lia.
  - apply Forall_forall. intros wk Hwk.
    apply list_elem_of_filter in Hwk as [Hact _]. by apply Is_true_true.
Qed.

(** X20. What the answer of the statistics endpoint leads to. On a cache
    miss, after the one request: a 204 gives the empty list, and nothing
    is cached; a 403 with no requests left throws the rate-limit error,
    which names the reset time; a success with a non-empty list gives
    that list reduced (contributors with a login, at most their last 52
    weeks, only weeks with activity), which is cached; any other status
    that is not a success, 202 apart, hands over to
    [fetchCommitsAsStats]. *)
Theorem fetchStats_answers retries w dt r :
  let read := getFromCache (parse statsCodec) (w_clock w)
                ("stats_v2_" +:+ org +:+ "_" +:+ repoName) (w_store w) in
  read.1 = None →
  net (w_trace w) token (GetStatsContributors org repoName) = Responds dt r →
  let run := fetchStats net fits zone toISOString toLocaleTimeString timestampOf
               statsCodec yearBefore retries token org repoName w in
  let w1 := {| w_store := read.2; w_clock := w_clock w + dt;
               w_trace := w_trace w
                 ++ [EFetch token (GetStatsContributors org repoName) (Responds dt r)] |} in
  (status r = 204 → run = (Ok [], w1))
  ∧ (status r = 403 → rateLimitRemaining r = Some "0"%string →
     run = (Throw ("Rate limit exceeded. Resets at "
                   +:+ toLocaleTimeString (default 0 (rateLimitReset r) * 1000)), w1))
  ∧ (∀ data, ok r = true → status r ≠ 202 → status r ≠ 204 →
       body r = BodyStats (Some data) → data ≠ [] →
       run = (Ok (minimalStats data),
              {| w_store := saveToCache (stringify statsCodec) timestampOf fits (w_clock w1)
                              ("stats_v2_" +:+ org +:+ "_" +:+ repoName)
                              (minimalStats data) (w_store w1);
                 w_clock := w_clock w1; w_trace := w_trace w1 |})
       ∧ Forall (fun c => is_Some (truthyStr (ct_login c))
                          ∧ (length (ct_weeks c) ≤ 52)%nat
                          ∧ Forall (fun wk => activeWeek wk = true) (ct_weeks c))
                (minimalStats data))
  ∧ (ok r = false → status r ≠ 202 → status r ≠ 204 →
     ¬ (status r = 403 ∧ rateLimitRemaining r = Some "0"%string) →
     run = fetchCommitsAsStats net fits zone toISOString timestampOf statsCodec
             yearBefore token org repoName w1).
Proof.
  intros read Hmiss Hnet. cbv zeta.
  assert (fetchStats net fits zone toISOString toLocaleTimeString timestampOf
            statsCodec yearBefore retries token org repoName w
          = let w1 := {| w_store := read.2; w_clock := w_clock w + dt;
                         w_trace := w_trace w
                           ++ [EFetch token (GetStatsContributors org repoName)
                                 (Responds dt r)] |} in
            if status r =? 202 then
              match retries with
              | S retries' =>
                  (delay 1500;;
                   fetchStats net fits zone toISOString toLocaleTimeString timestampOf
                     statsCodec yearBefore retries' token org repoName) w1
              | O => fetchCommitsAsStats net fits zone toISOString timestampOf
                       statsCodec yearBefore token org repoName w1
              end
            else if status r =? 204 then (Ok [], w1)
            else if negb (ok r) then
              if (status r =? 403) && bool_decide (rateLimitRemaining r = Some "0"%string)
              then (Throw ("Rate limit exceeded. Resets at "
                           +:+ toLocaleTimeString (default 0 (rateLimitReset r) * 1000)), w1)
              else fetchCommitsAsStats net fits zone toISOString timestampOf
                     statsCodec yearBefore token org repoName w1
            else
              match body r with
              | BodyStats (Some (c :: data)) =>
                  (Ok (minimalStats (c :: data)),
                   {| w_store := saveToCache (stringify statsCodec) timestampOf fits
                                   (w_clock w1)
                                   ("stats_v2_" +:+ org +:+ "_" +:+ repoName)
                                   (minimalStats (c :: data)) (w_store w1);
                      w_clock := w_clock w1; w_trace := w_trace w1 |})
              | BodyStats _ =>
                  fetchCommitsAsStats net fits zone toISOString timestampOf
                    statsCodec yearBefore token org repoName w1
              | _ => (Throw "Unexpected end of JSON input", w1)
              end) as Hrun.
  { unfold read in *. destruct w as [store clock trace]. simpl in *.
    destruct retries as [|n]; simpl; munfold; unfold cacheGet; simpl;
      (destruct (getFromCache _ _ _ _) as [cached store0]; simpl in Hmiss; subst cached);
      simpl; unfold fetch; simpl; rewrite Hnet; simpl;
      (destruct (status r =? 202); [done|]);
      (destruct (status r =? 204); [done|]);
      (destruct (negb (ok r)); [by destruct (_ && _)|]);
      unfold jsonStats; (destruct (body r) as [[[|c data]|]| | | | | |]; done). }
  rewrite Hrun. cbv zeta. clear Hrun. split; [|split; [|split]].
  - intros Hs. rewrite Hs. done.
  - intros Hs Hrem. rewrite Hs, Hrem. simpl.
    replace (ok r) with false by (unfold ok; rewrite Hs; done). done.
  - intros data Hok H202 H204 Hbody Hdata. split; [|apply minimalStats_shape].
    rewrite (proj2 (Z.eqb_neq _ _) H202), (proj2 (Z.eqb_neq _ _) H204), Hok, Hbody.
    simpl. destruct data; done.
  - intros Hok H202 H204 Hrate.
    rewrite (proj2 (Z.eqb_neq _ _) H202), (proj2 (Z.eqb_neq _ _) H204), Hok. simpl.
    destruct ((status r =? 403) && bool_decide (rateLimitRemaining r = Some "0"%string))
      eqn:Hr; [|done].
    exfalso. apply Hrate. apply andb_true_iff in Hr as [H1 H2].
    split; [by apply Z.eqb_eq|by apply bool_decide_eq_true in H2].
Qed.
End Fallback.

(** A source with two commits of alice in different weeks: her total of two
    is the sum of her weeks. *)
Lemma fetchCommitsAsStats_totals_witness :
  let run := fetchCommitsAsStats computingNet (fun _ => true) utcZone sampleISO
               sampleTimestampOf nullCodec sampleYearBefore "ghp_x" "acme" "app"
               freshWorld in
  ∃ stats,
    run.1 = Ok stats
    ∧ NoDup (ct_login <$> stats)
    ∧ Forall (fun c => (∃ login, ct_login c = Some login ∧ login ≠ EmptyString)
                       ∧ 1 ≤ ct_total c
                       ∧ sumZ (sw_c <$> ct_weeks c) = ct_total c
                       ∧ Forall (fun wk => 1 ≤ sw_c wk) (ct_weeks c)) stats.
Proof.
  destruct (fetchCommitsAsStats_totals computingNet (fun _ => true) utcZone sampleISO
              sampleTimestampOf nullCodec sampleYearBefore "ghp_x" "acme" "app" freshWorld
              eq_refl) as (_ & Hreturns & Hshape).
  destruct Hreturns as [stats Hstats].
  { intros tr req dt r data Hnet Hbody.
    destruct req; simpl in Hnet; injection Hnet as <- <-; simpl in Hbody;
      try discriminate.
    injection Hbody as <-. repeat constructor. }
  exists stats. split; [done|]. by apply Hshape.
Defined.

(** A source that answers the statistics request with 204, asked from a
    world whose store holds an entry under the key that does not parse:
    the read misses and leaves the entry. *)
Lemma fetchStats_answers_witness :
  let r := {| status := 204; rateLimitRemaining := Some "4000"%string;
              rateLimitReset := None; body := BodyInvalid |} in
  let run := fetchStats pagedNet (fun _ => true) utcZone sampleISO sampleISO sampleTimestampOf
               nullCodec sampleYearBefore 3 "ghp_x" "acme" "app" staleWorld in
  let w1 := {| w_store := w_store staleWorld; w_clock := w_clock staleWorld + 100;
               w_trace := w_trace staleWorld
                 ++ [EFetch "ghp_x" (GetStatsContributors "acme" "app") (Responds 100 r)] |} in
  (status r = 204 → run = (Ok [], w1))
  ∧ (status r = 403 → rateLimitRemaining r = Some "0"%string →
     run = (Throw ("Rate limit exceeded. Resets at "
                   +:+ sampleISO (default 0 (rateLimitReset r) * 1000)), w1))
  ∧ (∀ data, ok r = true → status r ≠ 202 → status r ≠ 204 →
       body r = BodyStats (Some data) → data ≠ [] →
       run = (Ok (minimalStats data),
              {| w_store := saveToCache (stringify nullCodec) sampleTimestampOf (fun _ => true)
                              (w_clock w1) ("stats_v2_" +:+ "acme" +:+ "_" +:+ "app")
                              (minimalStats data) (w_store w1);
                 w_clock := w_clock w1; w_trace := w_trace w1 |})
       ∧ Forall (fun c => is_Some (truthyStr (ct_login c))
                          ∧ (length (ct_weeks c) ≤ 52)%nat
                          ∧ Forall (fun wk => activeWeek wk = true) (ct_weeks c))
                (minimalStats data))
  ∧ (ok r = false → status r ≠ 202 → status r ≠ 204 →
     ¬ (status r = 403 ∧ rateLimitRemaining r = Some "0"%string) →
     run = fetchCommitsAsStats pagedNet (fun _ => true) utcZone sampleISO sampleTimestampOf
             nullCodec sampleYearBefore "ghp_x" "acme" "app" w1).
Proof.
  apply (fetchStats_answers pagedNet (fun _ => true) utcZone sampleISO sampleISO sampleTimestampOf
           nullCodec sampleYearBefore "ghp_x" "acme" "app" 3 staleWorld 100
           {| status := 204; rateLimitRemaining := Some "4000"%string;
              rateLimitReset := None; body := BodyInvalid |}).
  - reflexivity.
  - reflexivity.
Defined.

(** ** What a run of the orchestrator asks for *)

Section Scoped.
Variable net : list Event → string → Request → Outcome.
Variable fits : gmap string string → bool.
Variable zone : TimeZone.
Variable toISOString : Z → string.
Variable timestampOf : string → option (option Z).
Variable commitsCodec : Codec (list Commit).
Variable prsCodec : Codec (list PullRequest).
Variable reviewsCodec : Codec (list (string * ReviewInfo)).
Variables (token org : string) (names : list string).

Let scoped : Event → Prop := sentFor token org names.

Ltac scoped_step :=
  first [ apply emits_ret | apply emits_throw | apply emits_outOfFuel
        | apply emits_fetch; intros ?; by repeat split
        | apply emits_cacheGet | apply emits_cachePut | apply emits_dateNow
        | apply emits_bind; [|intros ?] | apply emits_tryCatch; [|intros ?] ].

Lemma scoped_commitsLoop fuel repoName branch sinceDate page commits :
  repoName ∈ names →
  emits scoped (commitsLoop net toISOString fuel token org repoName branch sinceDate
                  page commits).
Proof.
  intros Hin. revert page commits. induction fuel as [|fuel IH]; intros page commits; simpl.
  { scoped_step. }
  destruct (pastLastPage _ _); [scoped_step|].
  scoped_step; [scoped_step|]. destruct (negb _); [scoped_step|].
  scoped_step.
  { unfold jsonCommits. destruct (body _); scoped_step. }
  destruct (_ =? 0)%nat; [scoped_step|]. destruct (_ <? 100)%nat; [scoped_step|].
  apply IH.
Qed.

Lemma scoped_fetchCommits fuel repoName branch sinceDate :
  repoName ∈ names →
  emits scoped (fetchCommits net fits toISOString timestampOf commitsCodec
                  fuel token org repoName branch sinceDate).
Proof.
  intros Hin. unfold fetchCommits. apply emits_bind; [scoped_step|].
  intros [cached|]; [scoped_step|].
  scoped_step; [by apply scoped_commitsLoop|]. scoped_step; scoped_step.
Qed.

Lemma scoped_pullsLoop fuel repoName sinceDate page prs :
  repoName ∈ names →
  emits scoped (pullsLoop net fuel token org repoName sinceDate page prs).
Proof.
  intros Hin. revert page prs. induction fuel as [|fuel IH]; intros page prs; simpl.
  { scoped_step. }
  destruct (pastLastPage _ _); [scoped_step|].
  scoped_step; [scoped_step|]. destruct (negb _); [scoped_step|].
  scoped_step.
  { unfold jsonPulls. destruct (body _); scoped_step. }
  destruct (_ && _); [scoped_step|]. destruct (_ <? 100)%nat; [scoped_step|].
  apply IH.
Qed.

Lemma scoped_enrichMerged budget repoName prs :
  repoName ∈ names →
  emits scoped (enrichMerged net budget token org repoName prs).
Proof.
  intros Hin. revert budget.
  induction prs as [|pr prs IH]; intros budget; simpl; [scoped_step|].
  destruct (truthyDate _).
  - destruct budget; [scoped_step|].
    scoped_step.
    + unfold enrichOne. scoped_step; [|scoped_step].
      scoped_step; [scoped_step|]. destruct (ok _); [|scoped_step].
      scoped_step; [|scoped_step]. unfold jsonPull. destruct (body _); scoped_step.
    + scoped_step; [apply IH | scoped_step].
  - scoped_step; [apply IH | scoped_step].
Qed.

Lemma scoped_fetchPullRequests fuel repoName sinceDate :
  repoName ∈ names →
  emits scoped (fetchPullRequests net fits toISOString timestampOf prsCodec
                  fuel token org repoName sinceDate).
Proof.
  intros Hin. unfold fetchPullRequests. apply emits_bind; [scoped_step|].
  intros [cached|]; [scoped_step|].
  scoped_step; [by apply scoped_pullsLoop|].
  scoped_step; [by apply scoped_enrichMerged|]. scoped_step; scoped_step.
Qed.

Lemma scoped_reviewsLoop repoName reviewData prs :
  repoName ∈ names →
  emits scoped (reviewsLoop net token org repoName reviewData prs).
Proof.
  intros Hin. revert reviewData.
  induction prs as [|pr prs IH]; intros reviewData; simpl; [scoped_step|].
  scoped_step; [|apply IH].
  unfold reviewsOfPr. scoped_step; [|scoped_step].
  scoped_step; [scoped_step|]. destruct (negb _); [scoped_step|].
  scoped_step; [|scoped_step]. unfold jsonReviews. destruct (body _); scoped_step.
Qed.

Lemma scoped_fetchReviews repoName prs sinceDate :
  repoName ∈ names →
  emits scoped (fetchReviews net fits toISOString timestampOf reviewsCodec
                  token org repoName prs sinceDate).
Proof.
  intros Hin. unfold fetchReviews. apply emits_bind; [scoped_step|].
  intros [cached|]; [scoped_step|].
  scoped_step; [by apply scoped_reviewsLoop|]. scoped_step; scoped_step.
Qed.

Lemma scoped_collectRepo fuel cb sinceDate total i repo :
  repo_name repo ∈ names →
  emits scoped
    (collectRepo net fits toISOString timestampOf commitsCodec prsCodec reviewsCodec
       fuel cb token org sinceDate total i repo).
Proof.
  intros Hin. unfold collectRepo.
  apply emits_bind; [by apply scoped_fetchCommits|]. intros commits.
  apply emits_bind; [by apply scoped_fetchPullRequests|]. intros prs.
  apply emits_bind; [by apply scoped_fetchReviews|]. intros reviews.
  apply emits_bind; [by apply emits_call | intros; apply emits_ret].
Qed.

Lemma scoped_reposLoop fuel cb daysFilter sinceDate total repos : ∀ i arr,
  Forall (fun repo => repo_name repo ∈ names) repos →
  emits scoped
    (reposLoop net fits zone toISOString timestampOf commitsCodec prsCodec
       reviewsCodec fuel cb token org daysFilter sinceDate total i repos arr).
Proof.
  induction repos as [|repo rest IH]; intros i arr Hrepos; simpl; [apply emits_ret|].
  apply Forall_cons in Hrepos as [Hrepo Hrest].
  apply emits_bind; [by apply emits_call|]. intros _.
  apply emits_bind.
  { apply emits_tryCatch; [by apply scoped_collectRepo|].
    intros error. apply emits_bind; [by apply emits_call | intros; apply emits_ret]. }
  intros rd. apply emits_bind; [by apply emits_call|]. intros _.
  apply emits_bind; [|intros _; by apply IH].
  destruct (onDataUpdate cb); [|apply emits_ret].
  apply emits_bind; [apply emits_dateNow|]. intros now.
  apply emits_bind; [apply emits_liftResult|]. intros data. by apply emits_notify.
Qed.
End Scoped.

(** X21. A run of [fetchAllStats] asks only for what it was given: every
    request it sends carries the token it was called with, names the
    organisation it was called with, and is about one of the repositories
    of its list. *)
Theorem fetchAllStats_requests_scoped
    net fits zone toISOString timestampOf commitsCodec prsCodec reviewsCodec
    fuel cb token org repos daysFilter w :
  ∃ tr,
    w_trace (fetchAllStats net fits zone toISOString timestampOf commitsCodec
               prsCodec reviewsCodec fuel cb token org repos daysFilter w).2
    = w_trace w ++ tr
    ∧ Forall (sentFor token org (repo_name <$> repos)) tr.
Proof.
  assert (emits (sentFor token org (repo_name <$> repos))
            (fetchAllStats net fits zone toISOString timestampOf commitsCodec
               prsCodec reviewsCodec fuel cb token org repos daysFilter)) as Hemits.
  { unfold fetchAllStats.
    apply emits_bind; [apply emits_dateNow|]. intros start.
    apply emits_bind.
    { apply scoped_reposLoop. apply Forall_forall. intros repo Hrepo.
      by apply list_elem_of_fmap_2. }
    intros rds. apply emits_bind; [apply emits_dateNow|]. intros now.
    apply emits_liftResult. }
  apply Hemits.
Qed.

(** ** The progress log *)

Lemma logsOf_app tr1 tr2 : logsOf (tr1 ++ tr2) = logsOf tr1 ++ logsOf tr2.
Proof. apply omap_app. Qed.

Lemma logsOf_fetches tr :
  Forall (fun ev => match ev with EFetch _ _ _ => True | _ => False end) tr →
  logsOf tr = [].
Proof.
  induction 1 as [|ev tr Hev _ IH]; [done|]. by destruct ev.
Qed.

(** A closing entry replaces the [start] entry that precedes it. *)
Lemma handleLog_closes prev start closing :
  Forall (fun l => isStartLog l = false) prev →
  isStartLog start = true → isStartLog closing = false →
  logRepo start = logRepo closing →
  handleLog (handleLog prev start) closing = prev ++ [closing].
Proof.
  intros Hprev Hstart Hclosing Hrepo.
  assert (handleLog prev start = prev ++ [start]) as -> by (by destruct start).
  assert (handleLog (prev ++ [start]) closing
          = filter (fun log => negb (bool_decide (logRepo log = logRepo closing)
                                     && isStartLog log) = true) (prev ++ [start])
            ++ [closing]) as -> by (by destruct closing).
  f_equal. rewrite filter_app.
  rewrite (filter_cons _ start), decide_False, filter_nil, app_nil_r.
  2:{ rewrite Hstart, bool_decide_eq_true_2 by done. done. }
  induction Hprev as [|l prev Hl _ IH]; [done|].
  rewrite filter_cons, decide_True; [by rewrite IH|].
  rewrite Hl. by rewrite andb_false_r.
Qed.

Section ProgressLog.
Variable net : list Event → string → Request → Outcome.
Variable fits : gmap string string → bool.
Variable zone : TimeZone.
Variable toISOString : Z → string.
Variable timestampOf : string → option (option Z).
Variable commitsCodec : Codec (list Commit).
Variable prsCodec : Codec (list PullRequest).
Variable reviewsCodec : Codec (list (string * ReviewInfo)).
Variables (fuel : nat) (cb : Callbacks) (token org : string).
Variables (daysFilter sinceDate : option Z) (total : Z).
Hypothesis logging : onLog cb = true.

Let collect (i : Z) (repo : Repo) : M RepoData :=
  collectRepo net fits toISOString timestampOf commitsCodec prsCodec reviewsCodec
    fuel cb token org sinceDate total i repo.

Let loop (i : Z) (repos : list Repo) (arr : list RepoData) : M (list RepoData) :=
  reposLoop net fits zone toISOString timestampOf commitsCodec prsCodec
    reviewsCodec fuel cb token org daysFilter sinceDate total i repos arr.

(** The entry that closes the collection of a repository. *)
Let closes (i : Z) (repo : Repo) (l : LogEvent) : Prop :=
  isStartLog l = false ∧ logRepo l = repo_name repo ∧ logIndex l = i + 1.

(** A collection logs its [complete] entry when it returns, and nothing
    when it throws. *)
Lemma collectRepo_logs i repo w :
  ∃ tr, w_trace (collect i repo w).2 = w_trace w ++ tr
        ∧ match (collect i repo w).1 with
          | Ok _ => ∃ l, closes i repo l ∧ logsOf tr = [l]
          | _ => logsOf tr = []
          end.
Proof.
  unfold collect, collectRepo. munfold.
  destruct (emits_fetchCommits net fits toISOString timestampOf commitsCodec fuel token org
              (repo_name repo) (default "main"%string (truthyStr (repo_default_branch repo)))
              sinceDate w) as (tr1 & Htr1 & Hall1).
  destruct (fetchCommits _ _ _ _ _ _ _ _ _ _ _ w) as [[commits|e|] w1]; simpl in *;
    [|exists tr1; split; [done|by apply logsOf_fetches]..].
  destruct (emits_fetchPullRequests net fits toISOString timestampOf prsCodec fuel token org
              (repo_name repo) sinceDate w1) as (tr2 & Htr2 & Hall2).
  destruct (fetchPullRequests _ _ _ _ _ _ _ _ _ _ w1) as [[prs|e|] w2]; simpl in *;
    [|exists (tr1 ++ tr2); rewrite Htr2, Htr1, app_assoc;
      (split; [done|]); rewrite logsOf_app, !logsOf_fetches by done; done..].
  destruct (emits_fetchReviews net fits toISOString timestampOf reviewsCodec token org
              (repo_name repo) prs sinceDate w2) as (tr3 & Htr3 & Hall3).
  destruct (fetchReviews _ _ _ _ _ _ _ _ _ _ w2) as [[reviews|e|] w3]; simpl in *;
    [|exists (tr1 ++ tr2 ++ tr3); rewrite Htr3, Htr2, Htr1, !app_assoc;
      (split; [done|]); rewrite !logsOf_app, !logsOf_fetches by done; done..].
  unfold call, notify. rewrite logging. simpl.
  eexists (tr1 ++ tr2 ++ tr3 ++ [_]). rewrite Htr3, Htr2, Htr1, !app_assoc.
  split; [done|]. eexists. split; [|rewrite !logsOf_app, !logsOf_fetches by done; done].
  done.
Qed.

(** What is left of one iteration once the repository is collected. *)
Let after (i : Z) (rest : list Repo) (arr' : list RepoData) (w1 : World)
  : Result (list RepoData) * World :=
  let w2 := tell (onProgress cb) (EProgress (roundPercent (i + 1) total)) w1 in
  if onDataUpdate cb then
    match aggregateStatsJS zone (w_clock w2) daysFilter arr' with
    | Ok data => loop (i + 1) rest arr' (tell true (EDataUpdate data (i + 1) total) w2)
    | Throw message => (Throw message, w2)
    | OutOfFuel => (OutOfFuel, w2)
    end
  else loop (i + 1) rest arr' w2.

Lemma loop_step i repo rest arr w :
  loop i (repo :: rest) arr w =
    match collect i repo (tell true (ELog (LogStart (repo_name repo) (i + 1) total)) w) with
    | (Ok rd, w1) => after i rest (arr ++ [rd]) w1
    | (Throw error, w1) =>
        after i rest (arr ++ [emptyRepoData (repo_name repo)])
          (tell true (ELog (LogError (repo_name repo) (i + 1) total error)) w1)
    | (OutOfFuel, w1) => (OutOfFuel, w1)
    end.
Proof. unfold loop. rewrite loop_cons. rewrite logging. done. Qed.

(** The log entries of a run [res] of the loop from [w], over [repos]
    and counting from [i]: for every repository it reached, a [start]
    entry and then the entry that closes it, so that each closing entry
    replaces the [start] entry before it. A run that returns reached
    every repository. *)
Let entries (i : Z) (repos : list Repo) (res : Result (list RepoData) * World)
    (w : World) : Prop :=
  ∃ tr closings reached,
    w_trace res.2 = w_trace w ++ tr
    ∧ (∀ prev, Forall (fun l => isStartLog l = false) prev →
         fold_left handleLog (logsOf tr) prev = prev ++ closings)
    ∧ Forall (fun l => isStartLog l = false) closings
    ∧ reached `prefix_of` repos
    ∧ (∀ rds, res.1 = Ok rds → reached = repos)
    ∧ logRepo <$> closings = repo_name <$> reached
    ∧ logIndex <$> closings = seqZ (i + 1) (Z.of_nat (length reached)).

Lemma after_logs i rest arr' w1 :
  (∀ i arr w, (loop i rest arr w).1 ≠ OutOfFuel → entries i rest (loop i rest arr w) w) →
  (after i rest arr' w1).1 ≠ OutOfFuel →
  entries (i + 1) rest (after i rest arr' w1) w1.
Proof.
  intros IH. unfold after. cbv zeta.
  set (progress := if onProgress cb then [EProgress (roundPercent (i + 1) total)] else []).
  set (w2 := tell (onProgress cb) (EProgress (roundPercent (i + 1) total)) w1).
  assert (logsOf progress = []) as Hprogress by (unfold progress; by destruct (onProgress cb)).
  destruct (onDataUpdate cb).
  - destruct (aggregateStatsJS zone (w_clock w2) daysFilter arr') as [data|message|];
      [| |done].
    + intros Hfuel.
      destruct (IH _ _ _ Hfuel) as (tr & closings & reached & Htr & Hfold & Hrest).
      exists (progress ++ [EDataUpdate data (i + 1) total] ++ tr), closings, reached.
      split; [rewrite Htr; simpl; by rewrite <- !app_assoc|]. split; [|done].
      intros prev Hprev. rewrite !logsOf_app, Hprogress. simpl. by apply Hfold.
    + intros _. exists progress, [], []. simpl.
      split; [done|]. split; [intros; by rewrite Hprogress, app_nil_r|].
      split; [constructor|]. split; [apply prefix_nil|]. done.
  - intros Hfuel.
    destruct (IH _ _ _ Hfuel) as (tr & closings & reached & Htr & Hfold & Hrest).
    exists (progress ++ tr), closings, reached.
    split; [rewrite Htr; simpl; by rewrite <- !app_assoc|]. split; [|done].
    intros prev Hprev. rewrite !logsOf_app, Hprogress. simpl. by apply Hfold.
Qed.

Lemma reposLoop_logs repos : ∀ i arr w,
  (loop i repos arr w).1 ≠ OutOfFuel → entries i repos (loop i repos arr w) w.
Proof.
  induction repos as [|repo rest IH]; intros i arr w Hfuel.
  { exists [], [], []. unfold loop. simpl. munfold. simpl. rewrite app_nil_r.
    split; [done|]. split; [intros; by rewrite app_nil_r|]. done. }
  rewrite loop_step in *.
  set (start := LogStart (repo_name repo) (i + 1) total) in *.
  destruct (collectRepo_logs i repo (tell true (ELog start) w)) as (trc & Htrc & Hlogs).
  destruct (collect i repo (tell true (ELog start) w)) as [[rd|error|] w1];
    simpl in Htrc, Hlogs; [| |done].
  - destruct Hlogs as (closing & (Hc1 & Hc2 & Hc3) & Hlogs).
    destruct (after_logs i rest (arr ++ [rd]) w1 IH Hfuel)
      as (tr & closings & reached & Htr & Hfold & Hcl & Hpre & Hall & Hrepos & Hidx).
    exists ([ELog start] ++ trc ++ tr), (closing :: closings), (repo :: reached).
    split; [rewrite Htr, Htrc; by rewrite <- !app_assoc|].
    split; [|split; [by constructor|split; [by apply prefix_cons|split; [|split]]]].
    + intros prev Hprev. rewrite !logsOf_app, Hlogs.
      change (logsOf [ELog start]) with [start]. cbn [app fold_left].
      rewrite (handleLog_closes prev start closing) by done.
      rewrite Hfold; [by rewrite <- app_assoc|].
      apply Forall_app. split; [done|]. by constructor.
    + intros rds Hok. by rewrite (Hall rds Hok).
    + csimpl. by rewrite Hc2, Hrepos.
    + csimpl. rewrite Hc3, Hidx.
      change (length (repo :: reached)) with (S (length reached)).
      rewrite (seqZ_cons (i + 1) (Z.of_nat (S (length reached)))) by lia.
      replace (Z.pred (Z.of_nat (S (length reached)))) with (Z.of_nat (length reached)) by lia.
      by replace (Z.succ (i + 1)) with (i + 1 + 1) by lia.
  - set (closing := LogError (repo_name repo) (i + 1) total error) in *.
    destruct (after_logs i rest (arr ++ [emptyRepoData (repo_name repo)])
                (tell true (ELog closing) w1) IH Hfuel)
      as (tr & closings & reached & Htr & Hfold & Hcl & Hpre & Hall & Hrepos & Hidx).
    exists ([ELog start] ++ trc ++ [ELog closing] ++ tr), (closing :: closings),
           (repo :: reached).
    split; [rewrite Htr; cbn [tell w_trace]; rewrite Htrc; by rewrite <- !app_assoc|].
    split; [|split; [by constructor|split; [by apply prefix_cons|split; [|split]]]].
    + intros prev Hprev. rewrite !logsOf_app, Hlogs.
      change (logsOf [ELog start]) with [start].
      change (logsOf [ELog closing]) with [closing]. cbn [app fold_left].
      rewrite (handleLog_closes prev start closing) by done.
      rewrite Hfold; [by rewrite <- app_assoc|].
      apply Forall_app. split; [done|]. by constructor.
    + intros rds Hok. by rewrite (Hall rds Hok).
    + csimpl. by rewrite Hrepos.
    + csimpl. rewrite Hidx.
      change (length (repo :: reached)) with (S (length reached)).
      rewrite (seqZ_cons (i + 1) (Z.of_nat (S (length reached)))) by lia.
      replace (Z.pred (Z.of_nat (S (length reached)))) with (Z.of_nat (length reached)) by lia.
      by replace (Z.succ (i + 1)) with (i + 1 + 1) by lia.
Qed.
End ProgressLog.

(** X22. The progress log after a run. When [fetchAllStats] is given the
    log callback of the application and does not stop short, the log the
    application ends up with holds exactly one entry for each repository
    the run reached, in the order of the list: the [complete] or [error]
    entry of that repository, numbered from 1; no [start] entry is left.
    The repositories reached are the first of the list, and all of them
    when the run returns. *)
Theorem fetchAllStats_progress_log
    net fits zone toISOString timestampOf commitsCodec prsCodec reviewsCodec
    fuel cb token org repos daysFilter w :
  let run := fetchAllStats net fits zone toISOString timestampOf commitsCodec
               prsCodec reviewsCodec fuel cb token org repos daysFilter w in
  onLog cb = true →
  run.1 ≠ OutOfFuel →
  ∃ tr reached,
    w_trace run.2 = w_trace w ++ tr
    ∧ reached `prefix_of` repos
    ∧ (∀ data, run.1 = Ok data → reached = repos)
    ∧ Forall (fun l => isStartLog l = false) (progressLogs tr)
    ∧ logRepo <$> progressLogs tr = repo_name <$> reached
    ∧ logIndex <$> progressLogs tr = seqZ 1 (Z.of_nat (length reached)).
Proof.
  intros run Hlog Hfuel. unfold run, fetchAllStats in *. munfold.
  unfold dateNow, liftResult in *.
  match goal with
  | |- context [reposLoop _ _ _ _ _ _ _ _ _ _ _ _ ?df ?sd ?tot 0 repos [] w] =>
      destruct (reposLoop_logs net fits zone toISOString timestampOf commitsCodec
                  prsCodec reviewsCodec fuel cb token org df sd tot Hlog repos 0 [] w)
        as (tr & closings & reached & Htr & Hfold & Hcl & Hpre & Hall & Hrepos & Hidx)
  end.
  { intros Hout. apply Hfuel.
    destruct (reposLoop _ _ _ _ _ _ _ _ _ _ _ _ _ _ _ _ _ _ w) as [[rds|e|] w1];
      simpl in *; done. }
  exists tr, reached. unfold progressLogs. rewrite (Hfold [] (Forall_nil_2 _)). simpl.
  split; [|split; [done|split; [|done]]].
  - destruct (reposLoop _ _ _ _ _ _ _ _ _ _ _ _ _ _ _ _ _ _ w) as [[rds|e|] w1];
      simpl in *; done.
  - intros data. 
    destruct (reposLoop _ _ _ _ _ _ _ _ _ _ _ _ _ _ _ _ _ _ w) as [[rds|e|] w1];
      simpl in *; [|done..]. intros _. by apply (Hall rds).
Qed.

(** The run of three repositories of which the second fails: three
    entries, the second an [error] entry. *)
Lemma fetchAllStats_progress_log_witness :
  let run := fetchAllStats flakyNet (fun _ => true) utcZone sampleISO sampleTimestampOf
               nullCodec nullCodec nullCodec 11 allCallbacks "ghp_x" "acme"
               sampleRepos (Some 7) freshWorld in
  ∃ tr reached,
    w_trace run.2 = w_trace freshWorld ++ tr
    ∧ reached `prefix_of` sampleRepos
    ∧ (∀ data, run.1 = Ok data → reached = sampleRepos)
    ∧ Forall (fun l => isStartLog l = false) (progressLogs tr)
    ∧ logRepo <$> progressLogs tr = repo_name <$> reached
    ∧ logIndex <$> progressLogs tr = seqZ 1 (Z.of_nat (length reached)).
Proof.
  apply (fetchAllStats_progress_log flakyNet (fun _ => true) utcZone sampleISO sampleTimestampOf
           nullCodec nullCodec nullCodec 11 allCallbacks "ghp_x" "acme"
           sampleRepos (Some 7) freshWorld).
  - reflexivity.
  - vm_compute. discriminate.
Defined.

(** ** The rows of the leaderboard *)

Section SortedByNumber.
Context {A : Type} (key : A → Z) (cmp : A → A → option Z).
Hypothesis cmp_key : ∀ x y, cmp x y = Some (key x - key y).

Let le (a b : A) : Prop := key a ≤ key b.

Lemma comesAfter_key x y : comesAfter cmp x y = true ↔ key y < key x.
Proof. unfold comesAfter. rewrite cmp_key, Z.ltb_lt. lia. Qed.

Lemma sort_insert_HdRel y x l :
  HdRel le y l → le y x → HdRel le y (sort_insert cmp x l).
Proof.
  intros Hl Hx. destruct l as [|z l]; simpl; [by constructor|].
  destruct (comesAfter cmp x z); constructor; [|done]. by inversion Hl.
Qed.

Lemma sort_insert_by_key x l : Sorted le l → Sorted le (sort_insert cmp x l).
Proof.
  induction 1 as [|y l Hl IH Hhd]; simpl; [by repeat constructor|].
  destruct (comesAfter cmp x y) eqn:Hafter.
  - apply comesAfter_key in Hafter. constructor; [done|].
    apply sort_insert_HdRel; [done|]. unfold le. lia.
  - assert (¬ key y < key x) as Hle.
    { intros Hlt. apply comesAfter_key in Hlt. congruence. }
    constructor; [by constructor|]. constructor. unfold le. lia.
Qed.

(** Sorting by the difference of a numeric key puts the keys in
    ascending order. *)
Lemma js_sort_by_key l : Sorted le (js_sort cmp l).
Proof.
  induction l as [|x l IH]; simpl; [constructor|]. by apply sort_insert_by_key.
Qed.
End SortedByNumber.

Lemma Sorted_weaken {A : Type} (R R' : A → A → Prop) (l : list A) :
  (∀ a b, R a b → R' a b) → Sorted R l → Sorted R' l.
Proof.
  intros HR. induction 1 as [|x l Hl IH Hhd]; constructor; [done|].
  destruct Hhd; constructor. by apply HR.
Qed.

Section Rows.
Variable toLowerCase : string → string.

(** X23. The rows of the leaderboard are the records it was given, each
    once, or with a search term those whose login contains the term
    when both are put in lower case; they are ordered by the chosen
    column, largest first for the descending order and smallest first for
    the ascending one. *)
Theorem sortedData_ordered (data : list ContributorStat) sortKey sortOrder searchTerm :
  let rows := sortedData toLowerCase data sortKey sortOrder searchTerm in
  rows ≡ₚ filter (fun row => searchTerm = EmptyString
                             ∨ includes (toLowerCase (user row))
                                        (toLowerCase searchTerm) = true) data
  ∧ StronglySorted (inOrder sortKey sortOrder) rows.
Proof.
  cbv zeta. unfold sortedData. cbv zeta.
  set (cmp := fun a b : ContributorStat => match sortOrder with
                                           | Asc => _
                                           | Desc => _
                                           end).
  set (filtered := if bool_decide (searchTerm = EmptyString) then data else _).
  assert (filtered = filter (fun row => searchTerm = EmptyString
                                        ∨ includes (toLowerCase (user row))
                                                   (toLowerCase searchTerm) = true) data)
    as Hfiltered.
  { unfold filtered. destruct (bool_decide (searchTerm = EmptyString)) eqn:Hterm.
    - apply bool_decide_eq_true in Hterm. symmetry. apply filter_all.
      apply Forall_forall. intros row _. by left.
    - apply bool_decide_eq_false in Hterm. apply list_filter_iff. intros row. tauto. }
  split; [by rewrite js_sort_Permutation, Hfiltered|].
  apply Sorted_StronglySorted.
  { intros a b c. unfold inOrder. destruct sortOrder; lia. }
  destruct sortOrder.
  - apply (js_sort_by_key (sortValue sortKey)). by intros x y.
  - eapply Sorted_weaken;
      [|apply (js_sort_by_key (fun row => - sortValue sortKey row) cmp)].
    + intros a b. unfold inOrder. simpl. lia.
    + intros x y. unfold cmp. f_equal. lia.
Qed.
End Rows.

(** ** The selection handed to the orchestrator *)

Lemma isSelected_spec selected repo :
  isSelected selected repo = true ↔ rm_id repo ∈ rm_id <$> selected.
Proof.
  unfold isSelected. rewrite existsb_exists, list_elem_of_fmap. split.
  - intros (r & Hin & Hr). apply bool_decide_eq_true in Hr.
    exists r. split; [done|]. by apply list_elem_of_In.
  - intros (r & Heq & Hin). exists r. split; [by apply list_elem_of_In|].
    by apply bool_decide_eq_true.
Qed.

Section SelectionFacts.
Variable toLowerCase : string → string.
Variable repos : list RepoMetadata.
Hypothesis distinct : NoDup (rm_id <$> repos).

Let tidy (selected : list RepoMetadata) : Prop :=
  NoDup (rm_id <$> selected) ∧ ∀ r, r ∈ selected → r ∈ repos.

Lemma tidy_filter (P : RepoMetadata → Prop) `{∀ r, Decision (P r)} selected :
  tidy selected → tidy (filter P selected).
Proof.
  intros [Hnd Hsub]. split; [by apply map_filter_NoDup|].
  intros r Hr. apply list_elem_of_filter in Hr as [_ Hr]. by apply Hsub.
Qed.

Lemma tidy_repos : tidy repos.
Proof. by split. Qed.

Lemma filteredRepos_tidy searchTerm : tidy (filteredRepos toLowerCase repos searchTerm).
Proof.
  unfold filteredRepos. destruct (bool_decide _); [apply tidy_repos|].
  apply tidy_filter, tidy_repos.
Qed.

(** Adding listed repositories that are not selected yet keeps the
    selection free of repetitions. *)
Lemma tidy_add selected more :
  tidy selected → tidy more →
  Forall (fun repo => isSelected selected repo = false) more →
  tidy (selected ++ more).
Proof.
  intros [Hnd Hsub] [Hnd' Hsub'] Hnew. split.
  - rewrite fmap_app. apply NoDup_app. split; [done|]. split; [|done].
    intros x Hx Hx'. apply list_elem_of_fmap in Hx' as (repo & -> & Hrepo).
    rewrite Forall_forall in Hnew. specialize (Hnew repo Hrepo).
    apply isSelected_spec in Hx. congruence.
  - intros r [Hr|Hr]%elem_of_app; auto.
Qed.

Lemma act_tidy selected a :
  onList repos a → tidy selected → tidy (act toLowerCase repos selected a).
Proof.
  intros Ha Hsel. destruct a as [repo| | |searchTerm]; simpl in *.
  - unfold handleToggle. destruct (isSelected selected repo) eqn:Hrepo.
    + by apply tidy_filter.
    + apply tidy_add; [done| |by repeat constructor].
      split; [apply NoDup_singleton|].
      by intros r ->%list_elem_of_singleton.
  - apply tidy_repos.
  - split; [apply NoDup_nil_2|]. intros r Hr. by apply elem_of_nil in Hr.
  - unfold handleSelectFiltered. apply tidy_add; [done| |].
    + apply tidy_filter, filteredRepos_tidy.
    + apply Forall_forall. intros repo Hrepo.
      by apply list_elem_of_filter in Hrepo as [? _].
Qed.

(** X24. The selection never holds a repository twice. When the listing
    has no two repositories with the same id, then after the selection
    the application makes when the listing arrives (the repositories that
    are not forks) and any clicks on listed repositories and on the
    buttons Select All, Deselect All and Select Filtered, the selected
    repositories are repositories of the listing and no id appears twice
    among them: no repository is handed to [fetchAllStats] twice. *)
Theorem selection_never_repeats (actions : list Action) :
  Forall (onList repos) actions →
  let selected := fold_left (act toLowerCase repos) actions (autoSelected repos) in
  NoDup (rm_id <$> selected) ∧ ∀ r, r ∈ selected → r ∈ repos.
Proof.
  intros Hactions. cbv zeta.
  apply (fold_left_preserves_in tidy).
  - intros selected a Ha. rewrite Forall_forall in Hactions. apply act_tidy. by apply Hactions.
  - unfold autoSelected. apply tidy_filter, tidy_repos.
Qed.
End SelectionFacts.

Lemma selection_never_repeats_witness :
  let selected := fold_left (act id sampleListing) sampleClicks (autoSelected sampleListing) in
  NoDup (rm_id <$> selected) ∧ ∀ r, r ∈ selected → r ∈ sampleListing.
Proof.
  apply (selection_never_repeats id sampleListing).
  - apply (bool_decide_unpack _). vm_compute. exact I.
  - repeat constructor.
Defined.

Example selection_sample :
  rm_name <$> fold_left (act id sampleListing) sampleClicks (autoSelected sampleListing)
  = ["repo1"; "repo2"; "repo0"]%string.
Proof. vm_compute. reflexivity. Qed.

(** ** The details of merged pull requests *)

Lemma stripDetails_detailed pr out : stripDetails (detailed pr out) = stripDetails pr.
Proof.
  destruct out as [dt r|dt msg]; simpl; [|done].
  destruct (ok r); [|done]. by destruct (body r).
Qed.

Lemma detailed_stripDetails pr out :
  stripDetails pr = pr → detailed pr out = detailed (stripDetails (detailed pr out)) out.
Proof.
  intros Hbare. rewrite stripDetails_detailed, Hbare. done.
Qed.

Lemma merged_at_stripDetails pr pr' :
  stripDetails pr' = stripDetails pr →
  pr_merged_at pr' = pr_merged_at pr ∧ pr_number pr' = pr_number pr.
Proof.
  intros H. split.
  - by apply (f_equal pr_merged_at) in H.
  - by apply (f_equal pr_number) in H.
Qed.

Section Enrichment.
Variable net : list Event → string → Request → Outcome.
Variable fits : gmap string string → bool.
Variable toISOString : Z → string.
Variable timestampOf : string → option (option Z).
Variable prsCodec : Codec (list PullRequest).
Variables token org repoName : string.

(** The body of the loop sends one request and never throws. *)
Lemma enrichOne_detailed pr w :
  ∃ out,
    enrichOne net token org repoName pr w =
      (Ok (detailed pr out),
       {| w_store := w_store w;
          w_clock := w_clock w + match out with Responds dt _ | Rejects dt _ => dt end;
          w_trace := w_trace w ++ [EFetch token (GetPull org repoName (pr_number pr)) out] |}).
Proof.
  unfold enrichOne. munfold.
  destruct (fetch_run net token (GetPull org repoName (pr_number pr)) w) as (out & Hout & ->).
  exists out. destruct out as [dt r|dt msg]; [|done]. simpl.
  destruct (ok r); [|done].
  unfold jsonPull. destruct (body r); munfold; done.
Qed.

(** The loop over [mergedPRs], started on pull requests without details. *)
Lemma enrichMerged_detailed budget prs w :
  Forall (fun pr => stripDetails pr = pr) prs →
  ∃ prs' outs w',
    enrichMerged net budget token org repoName prs w = (Ok prs', w')
    ∧ w_trace w' = w_trace w
        ++ detailCalls token org repoName (take budget (mergedOf prs')) outs
    ∧ w_store w' = w_store w
    ∧ stripDetails <$> prs' = prs
    ∧ Forall2 (fun pr out => pr = detailed (stripDetails pr) out)
              (take budget (mergedOf prs')) outs
    ∧ Forall (fun pr => stripDetails pr = pr) (drop budget (mergedOf prs'))
    ∧ Forall (fun pr => truthyDate (pr_merged_at pr) = false → stripDetails pr = pr) prs'.
Proof.
  revert budget w. induction prs as [|pr prs IH]; intros budget w Hbare; simpl.
  { exists [], [], w. change (mergedOf []) with (@nil PullRequest).
    rewrite take_nil, drop_nil, app_nil_r.
    split; [done|]. split; [done|]. split; [done|]. split; [done|].
    split; [constructor|]. split; constructor. }
  apply Forall_cons in Hbare as [Hpr Hrest].
  destruct (truthyDate (pr_merged_at pr)) eqn:Hm.
  - destruct budget as [|budget].
    + exists (pr :: prs), [], w. rewrite take_0, drop_0, app_nil_r.
      split; [done|]. split; [done|]. split; [done|].
      split; [|split; [constructor|split]].
      * csimpl. f_equal; [done|].
        clear -Hrest. induction Hrest as [|x l Hx _ IHl]; csimpl; [done|]. by f_equal.
      * assert (Forall (fun pr0 => stripDetails pr0 = pr0) (pr :: prs)) as Hall
          by (by constructor).
        rewrite Forall_forall in Hall. apply Forall_forall. intros x Hx.
        apply list_elem_of_filter in Hx as [_ Hx]. by apply Hall.
      * apply Forall_cons. split; [done|].
        eapply Forall_impl; [exact Hrest|]. done.
    + munfold. destruct (enrichOne_detailed pr w) as (out & ->).
      match goal with |- context [enrichMerged _ _ _ _ _ _ ?w1] =>
        destruct (IH budget w1 Hrest)
          as (prs' & outs & w' & -> & Htr & Hst & Hstrip & Hdet & Hdrop & Hnot) end.
      cbn [w_trace w_store] in Htr, Hst.
      assert (truthyDate (pr_merged_at (detailed pr out)) = true) as Hm'.
      { destruct (merged_at_stripDetails pr (detailed pr out)
                    (stripDetails_detailed pr out)) as [-> _]. done. }
      assert (mergedOf (detailed pr out :: prs') = detailed pr out :: mergedOf prs') as Hmerged
        by (unfold mergedOf; by rewrite filter_cons_True).
      exists (detailed pr out :: prs'), (out :: outs), w'.
      rewrite Hmerged. cbn [take drop].
      split; [done|]. split.
      { rewrite Htr. unfold detailCalls. cbn [zip_with].
        destruct (merged_at_stripDetails pr (detailed pr out)
                    (stripDetails_detailed pr out)) as [_ ->].
        by rewrite <- app_assoc. }
      split; [done|]. split.
      { csimpl. by rewrite stripDetails_detailed, Hpr, Hstrip. }
      split.
      { constructor; [|done]. by apply detailed_stripDetails. }
      split; [done|].
      apply Forall_cons. split; [|done]. intros Hf. by rewrite Hf in Hm'.
  - munfold.
    destruct (IH budget w Hrest)
      as (prs' & outs & w' & -> & Htr & Hst & Hstrip & Hdet & Hdrop & Hnot).
    assert (mergedOf (pr :: prs') = mergedOf prs') as Hmerged.
    { unfold mergedOf. rewrite filter_cons_False; [done|]. by rewrite Hm. }
    exists (pr :: prs'), outs, w'. rewrite Hmerged.
    split; [done|]. split; [done|]. split; [done|]. split.
    { csimpl. by rewrite Hpr, Hstrip. }
    split; [done|]. split; [done|].
    apply Forall_cons. by split.
Qed.

(** The listing loop sends requests for pages only, and what it adds to
    [prs] has no details. *)
Lemma pullsLoop_bare fuel sinceDate page prs w :
  Forall (fun pr => stripDetails pr = pr) prs →
  ∃ pages,
    w_trace (pullsLoop net fuel token org repoName sinceDate page prs w).2
    = w_trace w ++ pages
    ∧ Forall (fun ev => isPullsPage ev = true) pages
    ∧ ∀ prs', (pullsLoop net fuel token org repoName sinceDate page prs w).1 = Ok prs' →
        Forall (fun pr => stripDetails pr = pr) prs'.
Proof.
  revert page prs w. induction fuel as [|fuel IH]; intros page prs w Hbare; simpl.
  { munfold. exists []. rewrite app_nil_r. split; [done|]. split; [constructor|done]. }
  destruct (pastLastPage sinceDate page).
  { munfold. exists []. rewrite app_nil_r. split; [done|]. split; [constructor|].
    simpl. by intros ? [= <-]. }
  munfold.
  destruct (fetch_run net token (GetPulls org repoName page) w) as (out & Hout & ->).
  destruct out as [dt r|dt msg].
  2:{ exists [EFetch token (GetPulls org repoName page) (Rejects dt msg)].
      split; [done|]. split; [by repeat constructor|done]. }
  cbn [negb].
  destruct (ok r); cbn [negb].
  2:{ exists [EFetch token (GetPulls org repoName page) (Responds dt r)].
      split; [done|]. split; [by repeat constructor|]. simpl. by intros ? [= <-]. }
  unfold jsonPulls.
  destruct (body r) as [| | |data| | |]; munfold;
    try (exists [EFetch token (GetPulls org repoName page) (Responds dt r)];
         split; [done|]; split; [by repeat constructor|done]).
  assert (Forall (fun pr => stripDetails pr = pr)
            (prs ++ (prOfRaw <$> filterBySince sinceDate data))) as Hbare'.
  { apply Forall_app. split; [done|]. apply Forall_fmap, Forall_forall. done. }
  destruct (_ && _).
  { exists [EFetch token (GetPulls org repoName page) (Responds dt r)].
    split; [done|]. split; [by repeat constructor|]. simpl. by intros ? [= <-]. }
  destruct (_ <? 100)%nat.
  { exists [EFetch token (GetPulls org repoName page) (Responds dt r)].
    split; [done|]. split; [by repeat constructor|]. simpl. by intros ? [= <-]. }
  match goal with |- context [pullsLoop _ _ _ _ _ _ _ _ ?w1] =>
    destruct (IH (page + 1) _ w1 Hbare') as (pages & Htr & Hpages & Hres) end.
  exists (EFetch token (GetPulls org repoName page) (Responds dt r) :: pages).
  split; [by rewrite Htr; cbn [w_trace]; rewrite <- app_assoc|].
  split; [by constructor|done].
Qed.

(** X25. Only the first thirty merged pull requests get line counts. On
    a cache miss, when [fetchPullRequests] returns a list: after the
    requests for pages it has sent one request for details per merged
    pull request of the list, for the first thirty of them, in their
    order; each of these thirty carries the counts of its answer when
    the answer is a success (zero for a count that is missing) and no
    counts otherwise; the merged pull requests after the thirtieth and
    the pull requests that are not merged carry no counts. *)
Theorem fetchPullRequests_details_of_thirty fuel sinceDate w prs w' :
  (getFromCache (parse prsCodec) (w_clock w)
     (prsCacheKey toISOString org repoName sinceDate) (w_store w)).1 = None →
  fetchPullRequests net fits toISOString timestampOf prsCodec fuel token org repoName
    sinceDate w = (Ok prs, w') →
  ∃ pages outs,
    w_trace w' = w_trace w ++ pages
                   ++ detailCalls token org repoName (take 30 (mergedOf prs)) outs
    ∧ Forall (fun ev => isPullsPage ev = true) pages
    ∧ Forall2 (fun pr out => pr = detailed (stripDetails pr) out)
              (take 30 (mergedOf prs)) outs
    ∧ Forall (fun pr => stripDetails pr = pr) (drop 30 (mergedOf prs))
    ∧ Forall (fun pr => truthyDate (pr_merged_at pr) = false → stripDetails pr = pr) prs.
Proof.
  intros Hmiss. unfold fetchPullRequests. munfold. unfold cacheGet.
  destruct (getFromCache _ _ _ _) as [cached store0]. simpl in Hmiss. subst cached.
  cbn [fst snd].
  match goal with |- context [pullsLoop _ _ _ _ _ _ _ _ ?w0] =>
    destruct (pullsLoop_bare fuel sinceDate 1 [] w0 (Forall_nil_2 _))
      as (pages & Htr & Hpages & Hres);
    destruct (pullsLoop net fuel token org repoName sinceDate 1 [] w0)
      as [[listed|e|] w1] end; [|done..].
  cbn [fst snd w_trace] in Htr, Hres.
  destruct (enrichMerged_detailed 30 listed w1 (Hres listed eq_refl))
    as (prs' & outs & w2 & -> & Htr2 & _ & _ & Hdet & Hdrop & Hnot).
  unfold cachePut. intros [= <- <-]. cbn [w_trace].
  exists pages, outs. split; [by rewrite Htr2, Htr, <- app_assoc|]. done.
Qed.
End Enrichment.

(** A page of 48 pull requests, 32 of them merged: the first thirty merged
    ones are asked about. *)
Lemma fetchPullRequests_details_of_thirty_witness :
  let run := fetchPullRequests mergingNet (fun _ => true) sampleISO sampleTimestampOf
               nullCodec 3 "ghp_x" "acme" "app" None freshWorld in
  let prs := match run.1 with Ok prs => prs | _ => [] end in
  ∃ pages outs,
    w_trace run.2 = w_trace freshWorld ++ pages
                     ++ detailCalls "ghp_x" "acme" "app" (take 30 (mergedOf prs)) outs
    ∧ Forall (fun ev => isPullsPage ev = true) pages
    ∧ Forall2 (fun pr out => pr = detailed (stripDetails pr) out)
              (take 30 (mergedOf prs)) outs
    ∧ Forall (fun pr => stripDetails pr = pr) (drop 30 (mergedOf prs))
    ∧ Forall (fun pr => truthyDate (pr_merged_at pr) = false → stripDetails pr = pr) prs.
Proof.
  intros run prs.
  apply (fetchPullRequests_details_of_thirty mergingNet (fun _ => true) sampleISO
           sampleTimestampOf nullCodec "ghp_x" "acme" "app" 3 None freshWorld prs run.2).
  - reflexivity.
  - vm_compute. reflexivity.
Defined.

(** In that run 48 pull requests are returned, 32 are merged, and 15 carry
    line counts: those of the first thirty merged ones with an even
    number. *)
Example fetchPullRequests_sample :
  let run := fetchPullRequests mergingNet (fun _ => true) sampleISO sampleTimestampOf
               nullCodec 3 "ghp_x" "acme" "app" None freshWorld in
  let prs := match run.1 with Ok prs => prs | _ => [] end in
  (length prs, length (mergedOf prs),
   length (filter (fun pr => is_Some (pr_additions pr)) prs),
   length (w_trace run.2))
  = (48%nat, 32%nat, 15%nat, 31%nat).
Proof. vm_compute. reflexivity. Qed.

(** ** The recent items of a contributor *)

Lemma push20_nil {X : Type} (l : list X) : push20 l [] = l.
Proof. unfold push20. destruct (_ <? _)%nat; [apply app_nil_r|done]. Qed.

(** Pushing while the list is short keeps the first twenty of what was
    offered. *)
Lemma fold_push20 {X : Type} (xss : list (list X)) : ∀ l,
  (length l ≤ 20)%nat → Forall (fun xs => (length xs ≤ 1)%nat) xss →
  fold_left push20 xss l = take 20 (l ++ concat xss).
Proof.
  induction xss as [|xs xss IH]; intros l Hl Hxss.
  { simpl. rewrite app_nil_r. by rewrite take_ge. }
  apply Forall_cons in Hxss as [Hxs Hxss].
  cbn [fold_left concat]. unfold push20 at 2.
  destruct (length l <? 20)%nat eqn:E.
  - apply Nat.ltb_lt in E. rewrite IH; [by rewrite <- app_assoc| |done].
    rewrite length_app. lia.
  - apply Nat.ltb_ge in E. rewrite IH by done.
    by rewrite !take_app_le by lia.
Qed.

Lemma concat_guarded {X Y : Type} (b : X → bool) (g : X → list Y) (l : list X) :
  concat ((fun x => if b x then g x else []) <$> l) = filter (fun x => b x) l ≫= g.
Proof.
  induction l as [|x l IH]; [done|]. csimpl. rewrite filter_cons.
  destruct (b x) eqn:Hb.
  - rewrite decide_True by done. csimpl. by rewrite IH.
  - rewrite decide_False by (simpl; tauto). by rewrite IH.
Qed.

Lemma bind_singleton {X Y : Type} (g : X → Y) (l : list X) :
  l ≫= (fun x => [g x]) = g <$> l.
Proof. induction l as [|x l IH]; [done|]. csimpl. by rewrite IH. Qed.

Lemma bind_none {X Y : Type} (l : list X) : l ≫= (fun _ => @nil Y) = [].
Proof. induction l as [|x l IH]; [done|]. csimpl. by rewrite IH. Qed.

Section RecentItems.
Variables (zone : TimeZone) (now : Z) (daysFilter : option Z).

(** A list of an entry that fills by [push20]: what every update offers
    to it. *)
Section Listed.
Context {X : Type} (mu : UserEntry → list X).
Context (ic : string → Commit → list X) (ip : string → PullRequest → list X).
Hypothesis mu_new : ∀ u a, mu (newEntry u a) = [].
Hypothesis mu_commit : ∀ r c w e, mu (entryAddCommit r c w e) = push20 (mu e) (ic r c).
Hypothesis mu_pr : ∀ r pr w e, mu (entryAddPr r pr w e) = push20 (mu e) (ip r pr).
Hypothesis mu_reviewed : ∀ r e p, mu (entryAddReviewed r e p) = mu e.
Hypothesis mu_reviews : ∀ n w e, mu (entryAddReviews n w e) = mu e.
Hypothesis mu_mark : ∀ r e, mu (entryMarkReviewed r e) = mu e.
Hypothesis ic_one : ∀ r c, (length (ic r c) ≤ 1)%nat.
Hypothesis ip_one : ∀ r pr, (length (ip r pr) ≤ 1)%nat.

Let listed (u : string) (um : list (string * UserEntry)) : list X :=
  match obj_get u um with
  | Some e => mu e
  | None => []
  end.

Let offered (u : string) (rd : RepoData) : list (list X) :=
  ((fun c => if counted now daysFilter u c then ic (rd_repoName rd) c else [])
     <$> rd_commits rd)
  ++ ((fun pr => if countedPr now daysFilter u pr then ip (rd_repoName rd) pr else [])
        <$> rd_prs rd).

Lemma listed_commitStep r um c u :
  listed u (commitStep zone now daysFilter r um c)
  = push20 (listed u um) (if counted now daysFilter u c then ic r c else []).
Proof.
  unfold commitStep, counted, listed.
  destruct (truthyStr (c_user c)) as [u'|] eqn:Hu; simpl; [|by rewrite push20_nil].
  destruct (filteredOut _ _ _) eqn:Hf; simpl.
  - rewrite andb_false_r. by rewrite push20_nil.
  - rewrite andb_true_r, obj_get_upsert.
    destruct (decide (u' = u)) as [->|Hne].
    + rewrite bool_decide_eq_true_2 by done. rewrite mu_commit.
      destruct (obj_get u um); simpl; [done|]. by rewrite mu_new.
    + rewrite bool_decide_eq_false_2 by congruence. by rewrite push20_nil.
Qed.

Lemma listed_prStep r um pr u :
  listed u (prStep zone now daysFilter r um pr)
  = push20 (listed u um) (if countedPr now daysFilter u pr then ip r pr else []).
Proof.
  unfold prStep, countedPr, listed.
  destruct (truthyStr (pr_user pr)) as [u'|] eqn:Hu; simpl; [|by rewrite push20_nil].
  destruct (filteredOut _ _ _) eqn:Hf; simpl.
  - rewrite andb_false_r. by rewrite push20_nil.
  - rewrite andb_true_r, obj_get_upsert.
    destruct (decide (u' = u)) as [->|Hne].
    + rewrite bool_decide_eq_true_2 by done. rewrite mu_pr.
      destruct (obj_get u um); simpl; [done|]. by rewrite mu_new.
    + rewrite bool_decide_eq_false_2 by congruence. by rewrite push20_nil.
Qed.

Lemma mu_fold_added r ps e : mu (fold_left (entryAddReviewed r) ps e) = mu e.
Proof.
  revert e. induction ps as [|p ps IH]; intros e; simpl; [done|].
  by rewrite IH, mu_reviewed.
Qed.

Lemma mu_fold_dated ds e :
  mu (fold_left (reviewDateStep zone now daysFilter) ds e) = mu e.
Proof.
  revert e. induction ds as [|d ds IH]; intros e; simpl; [done|].
  rewrite IH. unfold reviewDateStep. cbv zeta.
  destruct (_ && _); [done|]. by rewrite mu_reviews.
Qed.

Lemma listed_reviewStep r um p u :
  listed u (reviewStep zone now daysFilter r um p) = listed u um.
Proof.
  destruct p as [u' ri]. unfold reviewStep, listed. rewrite obj_get_upsert.
  destruct (decide (u' = u)) as [->|Hne]; [|done].
  rewrite mu_mark.
  assert (∀ e, mu (if (0 <? length match ri with
                                   | ReviewCount _ => []
                                   | ReviewObj _ ds _ => ds
                                   end)%nat
                   then fold_left (reviewDateStep zone now daysFilter)
                          match ri with ReviewCount _ => [] | ReviewObj _ ds _ => ds end e
                   else entryAddReviews
                          match ri with ReviewCount n | ReviewObj n _ _ => n end None e)
               = mu e) as Hdates.
  { intros e. destruct (_ <? _)%nat; [apply mu_fold_dated|apply mu_reviews]. }
  rewrite Hdates, mu_fold_added.
  destruct (obj_get u um); simpl; [done|]. by rewrite mu_new.
Qed.

Lemma listed_fold {Y : Type}
    (f : list (string * UserEntry) → Y → list (string * UserEntry))
    (offer : Y → list X) l um u :
  (∀ um y, listed u (f um y) = push20 (listed u um) (offer y)) →
  listed u (fold_left f l um) = fold_left push20 (offer <$> l) (listed u um).
Proof.
  intros Hf. revert um. induction l as [|y l IH]; intros um; csimpl; [done|].
  by rewrite IH, Hf.
Qed.

Lemma listed_fold_same {Y : Type}
    (f : list (string * UserEntry) → Y → list (string * UserEntry)) l um u :
  (∀ um y, listed u (f um y) = listed u um) →
  listed u (fold_left f l um) = listed u um.
Proof.
  intros Hf. revert um. induction l as [|y l IH]; intros um; csimpl; [done|].
  by rewrite IH, Hf.
Qed.

Lemma listed_repoStep um rd u :
  listed u (repoStep zone now daysFilter um rd)
  = fold_left push20 (offered u rd) (listed u um).
Proof.
  unfold repoStep, offered. cbv zeta.
  rewrite (listed_fold_same _ _ _ _ (fun um p => listed_reviewStep (rd_repoName rd) um p u)).
  rewrite (listed_fold _ _ _ _ _ (fun um pr => listed_prStep (rd_repoName rd) um pr u)).
  rewrite (listed_fold _ _ _ _ _ (fun um c => listed_commitStep (rd_repoName rd) um c u)).
  by rewrite fold_left_app.
Qed.

Lemma listed_buildUserMap l u :
  listed u (buildUserMap zone now daysFilter l)
  = take 20 (concat ((fun rd =>
               (filter (fun c => counted now daysFilter u c) (rd_commits rd)
                  ≫= ic (rd_repoName rd))
               ++ (filter (fun pr => countedPr now daysFilter u pr) (rd_prs rd)
                     ≫= ip (rd_repoName rd))) <$> l)).
Proof.
  unfold buildUserMap.
  assert (∀ um, listed u (fold_left (repoStep zone now daysFilter) l um)
                = fold_left push20 (concat (offered u <$> l)) (listed u um)) as Hall.
  { induction l as [|rd l IH]; intros um; csimpl; [done|].
    by rewrite IH, listed_repoStep, fold_left_app. }
  rewrite Hall. unfold listed at 1. simpl. rewrite fold_push20; [|simpl; lia|].
  - simpl. f_equal. clear Hall. induction l as [|rd l IH]; [done|]. csimpl.
    rewrite concat_app, IH. f_equal. unfold offered.
    by rewrite concat_app, !concat_guarded.
  - apply Forall_concat, Forall_forall. intros xss Hxss.
    apply list_elem_of_fmap in Hxss as (rd & -> & _). unfold offered.
    apply Forall_app. split; apply Forall_forall; intros xs Hxs;
      apply list_elem_of_fmap in Hxs as (y & -> & _);
      destruct (_ : bool); simpl; auto with lia.
Qed.

Lemma listed_of_record l e :
  (e_user e, e) ∈ buildUserMap zone now daysFilter l →
  mu e = take 20 (concat ((fun rd =>
               (filter (fun c => counted now daysFilter (e_user e) c) (rd_commits rd)
                  ≫= ic (rd_repoName rd))
               ++ (filter (fun pr => countedPr now daysFilter (e_user e) pr) (rd_prs rd)
                     ≫= ip (rd_repoName rd))) <$> l)).
Proof.
  intros He. rewrite <- listed_buildUserMap. unfold listed.
  by rewrite (obj_get_NoDup _ _ _ (buildUserMap_NoDup zone now daysFilter l) He).
Qed.
End Listed.

(** X28. The recent lists of a record. [commitsList] holds the first
    twenty of the contributor's commits that pass the time filter, in the
    order the function visits them: repository by repository, each in
    the order of its listing. [prsList] holds the first twenty of the
    contributor's pull requests that pass the filter, in the same order.
    Both are then put most-recent-first by the closing sort, as far as
    their items are dated. They are the twenty most recent items only
    when no later item of the visit is more recent. *)
Theorem recent_lists_hold_the_first_twenty repoDataArray :
  Forall (fun r =>
      commitsList r ≡ₚ take 20 (commitItems now daysFilter (user r) repoDataArray)
      ∧ prsList r ≡ₚ take 20 (prItems now daysFilter (user r) repoDataArray)
      ∧ (Forall (fun it => is_Some (getTime (ci_date it))) (commitsList r) →
         StronglySorted (fun a b => notBefore (ci_date a) (ci_date b)) (commitsList r))
      ∧ (Forall (fun it => is_Some (getTime (pri_date it))) (prsList r) →
         StronglySorted (fun a b => notBefore (pri_date a) (pri_date b)) (prsList r)))
    (aggregateStats zone now daysFilter repoDataArray).
Proof.
  apply Forall_forall. intros r Hr.
  apply elem_of_aggregateStats in Hr as (e & -> & _ & He). simpl.
  split; [|split; [|split]].
  - rewrite js_sort_Permutation.
    rewrite (listed_of_record e_commitsList (fun r c => [commitItemOf r c]) (fun _ _ => []))
      with (l := repoDataArray);
      [|solve [intros; simpl; rewrite ?push20_nil; first [done|lia]]..].
    unfold commitItems. f_equiv. f_equiv. apply list_fmap_ext. intros _ rd _.
    by rewrite bind_singleton, bind_none, app_nil_r.
  - rewrite js_sort_Permutation.
    rewrite (listed_of_record e_prsList (fun _ _ => []) (fun r pr => [prItemOf r pr]))
      with (l := repoDataArray);
      [|solve [intros; simpl; rewrite ?push20_nil; first [done|lia]]..].
    unfold prItems. f_equiv. f_equiv. apply list_fmap_ext. intros _ rd _.
    by rewrite bind_singleton, bind_none.
  - intros Hd. rewrite js_sort_Permutation in Hd. by apply (js_sort_sorted ci_date).
  - intros Hd. rewrite js_sort_Permutation in Hd. by apply (js_sort_sorted pri_date).
Qed.
End RecentItems.

(** Alice's twenty-one commits over two repositories: her list is made of
    the first twenty visited. *)
Example recent_lists_sample :
  (fun r => ci_repo <$> commitsList r)
    <$> aggregateStats utcZone sampleNow None [legacyRepo; appRepo]
  = [repeat "legacy"%string 20].
Proof. vm_compute. reflexivity. Qed.

(** ** The weekly entries where the offset from UTC never changes *)


